(** * dedup-tool: the folder-similarity engine and the merge executor

    A shallow embedding of the [core] package (checker.go, file.go,
    executor.go) and the properties its specification states about it.

    Conventions of the embedding.
    - Go strings are [string]; the comparisons [<], [>] on Go strings are
      byte-wise lexicographic, which is [String.compare].
    - A [*Folder] is identified by its [Path]: [MemoryStorage.GetFolder]
      creates exactly one Folder object per path and every Folder pointer of
      the program comes from it, so the folder arena [folders] of the storage
      is the heap of Folder objects.
    - A [*File] is an address into the heap of File objects ([objects]);
      [==] on file pointers is equality of addresses.
    - Go maps and sync.Map are [gmap]s; wherever the program ranges over a
      map, the (unspecified) iteration order is an explicit argument. *)

From Stdlib Require Import ZArith String Ascii List Bool Lia.
From stdpp Require Import gmap strings list fin_maps sorting.

Local Open Scope string_scope.

(** ** Strings *)

Module GoString.

(** [a > b] on Go strings. *)
Definition gtb (a b : string) : bool := String.ltb b a.

(** [a < b] on Go strings. *)
Definition ltb (a b : string) : bool := String.ltb a b.

(** [strings.HasPrefix s "."] and [name[0] == '.'] on a non-empty name. *)
Definition starts_with_dot (s : string) : bool :=
  match s with
  | String c _ => Ascii.eqb c "."%char
  | EmptyString => false
  end.

(** [strings.Split s ":"]: the fields of [s] between the colons; the
    result always has one more element than [s] has colons. *)
Fixpoint split_colon (s : string) : list string :=
  match s with
  | EmptyString => [EmptyString]
  | String c r =>
      if Ascii.eqb c ":"%char then EmptyString :: split_colon r
      else match split_colon r with
           | f :: fs => String c f :: fs
           | [] => [String c EmptyString]
           end
  end.

(** [strings.Contains s ":"]. *)
Fixpoint has_colon (s : string) : bool :=
  match s with
  | EmptyString => false
  | String c r => Ascii.eqb c ":"%char || has_colon r
  end.

(** The number of colons of [s]. *)
Fixpoint count_colon (s : string) : nat :=
  match s with
  | EmptyString => O
  | String c r => ((if Ascii.eqb c ":"%char then 1 else 0) + count_colon r)%nat
  end.

End GoString.


(** ** Errors

    The [error] values the package produces.  [ErrOS] stands for an error
    returned by the [os] package; [ErrWrap] is [fmt.Errorf("...: %w", err)]. *)

Inductive error : Type :=
  | ErrNotEmptyFolder               (* the sentinel "folder is not empty" *)
  | ErrPairNotFound                 (* "folder pair not found" *)
  | ErrGroupEmpty (hash : string)   (* "internal error: matched file group became empty ..." *)
  | ErrFolderNil                    (* "folder is nil" *)
  | ErrTargetExists (path : string) (* "target folder %s already exists" *)
  | ErrCanceled                     (* context.Canceled, from ctx.Err() *)
  | ErrOS (what : string)
  | ErrWrap (msg : string) (e : error).

(** [errors.Is err ErrNotEmptyFolder]: the sentinel itself, or an error
    that wraps it. *)
Fixpoint IsNotEmptyFolder (e : error) : bool :=
  match e with
  | ErrNotEmptyFolder => true
  | ErrWrap _ e' => IsNotEmptyFolder e'
  | _ => false
  end.

(** ** The entity model (executor.go: File, Folder, MatchedFileGroup) *)

(** A [*File]. *)
Definition addr := nat.

Module File.
Record t : Type := mk {
  Name : string;
  Path : string;
  Hash : string;
  Size : Z;
  Parent : option string;   (* *Folder, by path; [None] is nil *)
  ModTime : Z
}.

Definition set_Parent (p : option string) (f : t) : t :=
  mk (Name f) (Path f) (Hash f) (Size f) p (ModTime f).
End File.

Module Folder.
Record t : Type := mk {
  Name : string;
  Path : string;
  Parent : option string;        (* *Folder, by path; [None] is nil *)
  Folders : gmap string string;  (* sync.Map: name -> *Folder *)
  files : gmap string addr;      (* sync.Map: name -> *File *)
  fileCount : Z;                 (* int32 *)
  fileCountCache : Z             (* int32 *)
}.

Definition set_Folders (m : gmap string string) (f : t) : t :=
  mk (Name f) (Path f) (Parent f) m (files f) (fileCount f) (fileCountCache f).
Definition set_files (m : gmap string addr) (f : t) : t :=
  mk (Name f) (Path f) (Parent f) (Folders f) m (fileCount f) (fileCountCache f).
Definition set_fileCount (n : Z) (f : t) : t :=
  mk (Name f) (Path f) (Parent f) (Folders f) (files f) n (fileCountCache f).
Definition set_fileCountCache (n : Z) (f : t) : t :=
  mk (Name f) (Path f) (Parent f) (Folders f) (files f) (fileCount f) n.
End Folder.

Module MatchedFileGroup.
Record t : Type := mk {
  Files : list addr;
  Hash : string
}.
End MatchedFileGroup.

(** The heap of File objects. *)
Abbreviation heap := (gmap addr File.t).

(** [f.Hash] through a file pointer.  A Go pointer never dangles; the
    default only makes the function total. *)
Definition hash_of (objs : heap) (a : addr) : string :=
  match objs !! a with
  | Some f => File.Hash f
  | None => ""
  end.

(** [Folder.GetFiles]: the values of the [files] map.  [Range] over a
    sync.Map has no specified order; the callers of this embedding sort or
    fold the list, and take the order into account there. *)
Definition GetFiles (f : Folder.t) : list addr :=
  (map_to_list (Folder.files f)).*2.

(** [Folder.GetFolders]. *)
Definition GetFolders (f : Folder.t) : list string :=
  (map_to_list (Folder.Folders f)).*2.

(** ** Paths

    The functions of [path/filepath] the package calls, on the paths it
    handles: clean, slash-separated paths ("." for the root of the scan,
    ["a/b/c"] below it, as [fs.WalkDir] and [filepath.Join] produce them). *)

Module filepath.

(** The path before and the element after the last slash. *)
Fixpoint split_last (s : string) : option (string * string) :=
  match s with
  | EmptyString => None
  | String c r =>
      match split_last r with
      | Some (d, b) => Some (String c d, b)
      | None => if Ascii.eqb c "/"%char then Some (EmptyString, r) else None
      end
  end.

Definition Dir (path : string) : string :=
  match split_last path with
  | None => "."
  | Some (EmptyString, _) => "/"
  | Some (d, _) => d
  end.

Definition Base (path : string) : string :=
  match path with
  | EmptyString => "."
  | _ => match split_last path with
         | None => path
         | Some (_, EmptyString) => "/"
         | Some (_, b) => b
         end
  end.

(** [filepath.Join dir name]: empty elements are ignored and the result is
    cleaned, so a leading ["./"] disappears. *)
Definition Join (dir name : string) : string :=
  match dir, name with
  | EmptyString, EmptyString => EmptyString
  | EmptyString, _ => name
  | _, EmptyString => dir
  | _, _ =>
      if String.eqb dir "." then name
      else if String.eqb dir "/" then "/" ++ name
      else dir ++ "/" ++ name
  end.

End filepath.

(** ** Machine integers *)

(** The value of a signed [w]-bit integer after wrap-around. *)
Definition wrap (w : Z) (z : Z) : Z :=
  ((z + 2 ^ (w - 1)) mod 2 ^ w - 2 ^ (w - 1))%Z.

(** [int32] and [int] (64 bits) arithmetic. *)
Definition add32 (x y : Z) : Z := wrap 32 (x + y).
Definition add64 (x y : Z) : Z := wrap 64 (x + y).

(** ** Results

    A Go function either returns or panics (a nil pointer is dereferenced);
    a loop of the embedding that runs out of fuel is reported as [Panic]
    too, and the lemmas on fuel show when that cannot happen. *)

Inductive res (A : Type) : Type :=
  | Ok (a : A)
  | Panic.
Arguments Ok {A} a.
Arguments Panic {A}.

#[global] Instance res_ret : MRet res := fun A a => Ok a.
#[global] Instance res_bind : MBind res := fun A B k m =>
  match m with
  | Ok a => k a
  | Panic => Panic
  end.

(** Dereference of a pointer that may be nil. *)
Definition deref {A : Type} (p : option A) : res A :=
  match p with
  | Some a => Ok a
  | None => Panic
  end.

(** ** Folders (executor.go) *)

Abbreviation arena := (gmap string Folder.t).

(** [Folder.invalidateCache]: clears the cache of the folder and of its
    parents.  The recursion follows the [Parent] pointers; [fuel] bounds
    its depth. *)
Fixpoint invalidateCache (fuel : nat) (folders : arena) (f : string) : arena :=
  match fuel with
  | O => folders
  | S n =>
      match folders !! f with
      | None => folders
      | Some fo =>
          let folders' := <[f := Folder.set_fileCountCache 0 fo]> folders in
          match Folder.Parent fo with
          | Some p => invalidateCache n folders' p
          | None => folders'
          end
      end
  end.

(** The [Parent] chain of a folder is no longer than the number of folders. *)
Definition chain_fuel (folders : arena) : nat := S (size folders).

(** [Folder.GetFileCount]: the cached count if there is one, else the
    direct count plus the counts of the subfolders, which is then cached.
    The fold over the subfolders threads the arena, whose caches the
    recursive calls fill. *)
Fixpoint GetFileCount (fuel : nat) (folders : arena) (f : string) : Z * arena :=
  match fuel with
  | O => (0%Z, folders)
  | S n =>
      match folders !! f with
      | None => (0%Z, folders)
      | Some fo =>
          if negb (Z.eqb (Folder.fileCountCache fo) 0) then
            (Folder.fileCountCache fo, folders)
          else
            let '(c, folders1) :=
              fold_left
                (fun (acc : Z * arena) (child : string) =>
                   let '(n1, fs1) := GetFileCount n (snd acc) child in
                   (add64 (fst acc) n1, fs1))
                (GetFolders fo) (Folder.fileCount fo, folders) in
            let folders2 :=
              match folders1 !! f with
              | Some fo1 => <[f := Folder.set_fileCountCache (wrap 32 c) fo1]> folders1
              | None => folders1
              end in
            (c, folders2)
      end
  end.

(** ** The storage (checker.go: MemoryStorage) *)

Module MemoryStorage.
(** [objects] is the part of the Go heap that holds the File objects. *)
Record t : Type := mk {
  objects : heap;
  folders : arena;                               (* sync.Map: path -> *Folder *)
  matchedFiles : gmap string MatchedFileGroup.t; (* sync.Map: hash -> group *)
  hashMap : gmap string addr                     (* sync.Map: hash -> *File *)
}.

Definition set_objects (o : heap) (s : t) : t :=
  mk o (folders s) (matchedFiles s) (hashMap s).
Definition set_folders (f : arena) (s : t) : t :=
  mk (objects s) f (matchedFiles s) (hashMap s).
Definition set_matchedFiles (m : gmap string MatchedFileGroup.t) (s : t) : t :=
  mk (objects s) (folders s) m (hashMap s).
Definition set_hashMap (h : gmap string addr) (s : t) : t :=
  mk (objects s) (folders s) (matchedFiles s) h.
End MemoryStorage.

(** [NewMemoryStorage]. *)
Definition NewMemoryStorage : MemoryStorage.t := MemoryStorage.mk ∅ ∅ ∅ ∅.

(** [&File{...}]: a new File object at a fresh address. *)
Definition new_File (s : MemoryStorage.t) (f : File.t) : MemoryStorage.t * addr :=
  let a := fresh (dom (MemoryStorage.objects s)) in
  (MemoryStorage.set_objects (<[a := f]> (MemoryStorage.objects s)) s, a).

(** [MemoryStorage.GetFolder]: the folder of [path], created with its
    ancestors when absent.  The function never returns an error; the
    folder it returns is the one stored under [path] in the result.
    [None] is fuel exhausted. *)
Fixpoint GetFolder_fuel (fuel : nat) (folders : arena) (path : string)
  : option arena :=
  match fuel with
  | O => None
  | S n =>
      match folders !! path with
      | Some _ => Some folders
      | None =>
          if String.eqb path "." || String.eqb path "/" then
            Some (<[path := Folder.mk path path None ∅ ∅ 0 0]> folders)
          else
            let parentPath := filepath.Dir path in
            match GetFolder_fuel n folders parentPath with
            | None => None
            | Some folders1 =>
                match folders1 !! parentPath with
                | None => None
                | Some parentFolder =>
                    let newFolder :=
                      Folder.mk (filepath.Base path) path (Some parentPath) ∅ ∅ 0 0 in
                    let parentFolder' :=
                      Folder.set_Folders
                        (<[filepath.Base path := path]> (Folder.Folders parentFolder))
                        parentFolder in
                    Some (<[path := newFolder]> (<[parentPath := parentFolder']> folders1))
                end
            end
      end
  end.

Definition GetFolder (folders : arena) (path : string) : option arena :=
  GetFolder_fuel (S (S (String.length path))) folders path.

(** [Folder.AddFile] on the folder [f], for the file at [a]. *)
Definition Folder_AddFile (s : MemoryStorage.t) (f : string) (a : addr)
  : res MemoryStorage.t :=
  file ← deref (MemoryStorage.objects s !! a);
  fo ← deref (MemoryStorage.folders s !! f);
  let fo' :=
    Folder.set_fileCount (add32 (Folder.fileCount fo) 1)
      (Folder.set_files (<[File.Name file := a]> (Folder.files fo)) fo) in
  let folders1 := <[f := fo']> (MemoryStorage.folders s) in
  let objs1 := <[a := File.set_Parent (Some f) file]> (MemoryStorage.objects s) in
  Ok (MemoryStorage.set_folders (invalidateCache (chain_fuel folders1) folders1 f)
        (MemoryStorage.set_objects objs1 s)).

(** [Folder.RemoveFile]: deleting a name that is not in the map does
    nothing to the map; the count goes down all the same. *)
Definition Folder_RemoveFile (s : MemoryStorage.t) (f : string) (a : addr)
  : res MemoryStorage.t :=
  file ← deref (MemoryStorage.objects s !! a);
  fo ← deref (MemoryStorage.folders s !! f);
  let fo' :=
    Folder.set_fileCount (add32 (Folder.fileCount fo) (-1))
      (Folder.set_files (delete (File.Name file) (Folder.files fo)) fo) in
  let folders1 := <[f := fo']> (MemoryStorage.folders s) in
  let objs1 := <[a := File.set_Parent None file]> (MemoryStorage.objects s) in
  Ok (MemoryStorage.set_folders (invalidateCache (chain_fuel folders1) folders1 f)
        (MemoryStorage.set_objects objs1 s)).

(** [MemoryStorage.AddFile]. *)
Definition AddFile (s : MemoryStorage.t) (a : addr)
  : res (MemoryStorage.t * option error) :=
  file ← deref (MemoryStorage.objects s !! a);
  let parent := filepath.Dir (File.Path file) in
  folders1 ← deref (GetFolder (MemoryStorage.folders s) parent);
  s1 ← Folder_AddFile (MemoryStorage.set_folders folders1 s) parent a;
  let h := File.Hash file in
  match MemoryStorage.hashMap s1 !! h with
  | None => Ok (MemoryStorage.set_hashMap (<[h := a]> (MemoryStorage.hashMap s1)) s1, None)
  | Some matchedFile =>
      match MemoryStorage.matchedFiles s1 !! h with
      | Some g =>
          let g' := MatchedFileGroup.mk (MatchedFileGroup.Files g ++ [a])
                      (MatchedFileGroup.Hash g) in
          Ok (MemoryStorage.set_matchedFiles
                (<[h := g']> (MemoryStorage.matchedFiles s1)) s1, None)
      | None =>
          let g := MatchedFileGroup.mk [a; matchedFile] h in
          Ok (MemoryStorage.set_matchedFiles
                (<[h := g]> (MemoryStorage.matchedFiles s1)) s1, None)
      end
  end.

(** [storage.AddFile(&File{...})], the error dropped, as the scanner and
    the [Move] task call it. *)
Definition AddNewFile (s : MemoryStorage.t) (f : File.t) : res MemoryStorage.t :=
  let '(s1, a) := new_File s f in
  '(s2, _) ← AddFile s1 a;
  Ok s2.

(** [slices.DeleteFunc files (func(f) { return f == file })]. *)
Definition delete_file (a : addr) (l : list addr) : list addr :=
  List.filter (fun b => negb (Nat.eqb b a)) l.

(** [MemoryStorage.RemoveFile].  The result of [Folder.RemoveFile] is
    dropped by the source. *)
Definition RemoveFile (s : MemoryStorage.t) (a : addr)
  : res (MemoryStorage.t * option error) :=
  file ← deref (MemoryStorage.objects s !! a);
  let parent := filepath.Dir (File.Path file) in
  folders1 ← deref (GetFolder (MemoryStorage.folders s) parent);
  s1 ← Folder_RemoveFile (MemoryStorage.set_folders folders1 s) parent a;
  let h := File.Hash file in
  match MemoryStorage.matchedFiles s1 !! h with
  | Some g =>
      let Files' := delete_file a (MatchedFileGroup.Files g) in
      let g' := MatchedFileGroup.mk Files' (MatchedFileGroup.Hash g) in
      match Files' with
      | [] =>
          Ok (MemoryStorage.set_hashMap (delete h (MemoryStorage.hashMap s1))
                (MemoryStorage.set_matchedFiles
                   (delete h (MemoryStorage.matchedFiles s1)) s1),
              Some (ErrGroupEmpty h))
      | [b] =>
          Ok (MemoryStorage.set_hashMap (<[h := b]> (MemoryStorage.hashMap s1))
                (MemoryStorage.set_matchedFiles
                   (delete h (MemoryStorage.matchedFiles s1)) s1),
              None)
      | b :: _ =>
          Ok (MemoryStorage.set_hashMap (<[h := b]> (MemoryStorage.hashMap s1))
                (MemoryStorage.set_matchedFiles
                   (<[h := g']> (MemoryStorage.matchedFiles s1)) s1),
              None)
      end
  | None =>
      Ok (MemoryStorage.set_hashMap (delete h (MemoryStorage.hashMap s1)) s1, None)
  end.

(** [MemoryStorage.GetMatchedFiles]: the groups, here in the order of
    [map_to_list]; [Range] visits them in an order of its own. *)
Definition GetMatchedFiles (s : MemoryStorage.t) : list MatchedFileGroup.t :=
  (map_to_list (MemoryStorage.matchedFiles s)).*2.

(** ** The filesystem

    The operations of [*os.Root] and of the directory handle that the
    package calls.  The operating system is a parameter: a type of
    filesystem states with the outcome of each call ([None] is a nil
    error). *)

Record DirEntry : Type := mkDirEntry {
  entry_Name : string;
  entry_IsDir : bool
}.

Class FileSystem (FS : Type) : Type := {
  os_OpenRoot : FS -> string -> option error;
  root_Open : FS -> string -> option error;
  dir_Readdir : FS -> string -> list DirEntry + error;
  root_Stat : FS -> string -> option error;
  root_Rename : FS -> string -> string -> FS * option error;
  root_Remove : FS -> string -> FS * option error;
  root_RemoveAll : FS -> string -> FS * option error
}.

(** A small filesystem for running the code on examples: the paths below
    the root, each a directory or not. *)
Module SimFS.

Definition t : Type := gmap string bool.

Definition noent : error := ErrOS "no such file or directory".

Definition lookup_path (fs : t) (p : string) : option bool :=
  if String.eqb p "." then Some true else fs !! p.

(** [p] is [old] or lies below it; then the same place relative to [new]. *)
Definition rebase (old new p : string) : option string :=
  if String.eqb p old then Some new
  else if String.prefix (old ++ "/") p
  then Some (new ++ String.substring (String.length old)
                      (String.length p - String.length old) p)
  else None.

Definition open (fs : t) (p : string) : option error :=
  match lookup_path fs p with
  | Some _ => None
  | None => Some noent
  end.

Definition readdir (fs : t) (p : string) : list DirEntry + error :=
  match lookup_path fs p with
  | Some true =>
      inl (omap (fun kv : string * bool =>
                   if String.eqb (filepath.Dir (fst kv)) p
                   then Some (mkDirEntry (filepath.Base (fst kv)) (snd kv))
                   else None)
             (map_to_list fs))
  | Some false => inr (ErrOS "not a directory")
  | None => inr noent
  end.

Definition rename (fs : t) (old new : string) : t * option error :=
  match fs !! old, lookup_path fs (filepath.Dir new) with
  | Some _, Some true =>
      (list_to_map
         (List.map (fun kv : string * bool =>
                 match rebase old new (fst kv) with
                 | Some k' => (k', snd kv)
                 | None => kv
                 end)
            (map_to_list fs)), None)
  | _, _ => (fs, Some noent)
  end.

Definition has_children (fs : t) (p : string) : bool :=
  existsb (fun kv : string * bool => String.eqb (filepath.Dir (fst kv)) p)
    (map_to_list fs).

Definition remove (fs : t) (p : string) : t * option error :=
  match fs !! p with
  | None => (fs, Some noent)
  | Some _ =>
      if has_children fs p then (fs, Some (ErrOS "directory not empty"))
      else (delete p fs, None)
  end.

Definition removeAll (fs : t) (p : string) : t * option error :=
  (filter (fun kv : string * bool => rebase p p (fst kv) = None) fs, None).

End SimFS.

#[global] Instance SimFS_FileSystem : FileSystem SimFS.t := {
  os_OpenRoot := fun _ _ => None;
  root_Open := SimFS.open;
  dir_Readdir := SimFS.readdir;
  root_Stat := SimFS.open;
  root_Rename := SimFS.rename;
  root_Remove := SimFS.remove;
  root_RemoveAll := SimFS.removeAll
}.

(** ** File action tasks (file.go) *)

Inductive FileAction : Type :=
  | Move
  | Delete
  | MoveFolder
  | DeleteFolder
  | DeleteEmptyFolder.

Module FileActionTask.
Record t : Type := mk {
  Action : FileAction;
  File : option addr;            (* *File *)
  Folder : option string;        (* *Folder *)
  TargetFolder : option string;  (* *Folder *)
  TargetName : string;
  NotDuplicate : bool
}.
End FileActionTask.

(** The loop of [RemoveEmptyFolder] that decides [isEmpty]. *)
Fixpoint isEmpty (entries : list DirEntry) : bool :=
  match entries with
  | [] => true
  | entry :: rest =>
      let name := entry_Name entry in
      if String.eqb name "." || String.eqb name ".." then isEmpty rest
      else if entry_IsDir entry then false
      else if negb (GoString.starts_with_dot name) then false
      else isEmpty rest
  end.

Section Tasks.
Context {FS : Type} `{FileSystem FS}.

Definition RemoveEmptyFolder (fs : FS) (path : string) : FS * option error :=
  match root_Open fs path with
  | Some err => (fs, Some (ErrWrap ("failed to open dir " ++ path) err))
  | None =>
      match dir_Readdir fs path with
      | inr err => (fs, Some (ErrWrap ("failed to read dir " ++ path) err))
      | inl entries =>
          if negb (isEmpty entries) then (fs, Some ErrNotEmptyFolder)
          else
            match root_RemoveAll fs path with
            | (fs', Some err) =>
                (fs', Some (ErrWrap ("failed to remove empty folder " ++ path) err))
            | (fs', None) => (fs', None)
            end
      end
  end.

(** [f.File.Path], [f.Folder.Name]: fields read through a pointer. *)
Definition file_at (s : MemoryStorage.t) (p : option addr) : res File.t :=
  a ← deref p; deref (MemoryStorage.objects s !! a).

Definition folder_at (s : MemoryStorage.t) (p : option string) : res Folder.t :=
  f ← deref p; deref (MemoryStorage.folders s !! f).

(** [FileActionTask.String]. *)
Definition FileActionTask_String (s : MemoryStorage.t) (f : FileActionTask.t)
  : res string :=
  match FileActionTask.Action f with
  | Move =>
      file ← file_at s (FileActionTask.File f);
      target ← deref (FileActionTask.TargetFolder f);
      let targetName :=
        if String.eqb (FileActionTask.TargetName f) "" then File.Name file
        else FileActionTask.TargetName f in
      Ok ("move " ++ File.Path file ++ " to " ++ filepath.Join target targetName)
  | Delete =>
      file ← file_at s (FileActionTask.File f);
      Ok ("delete " ++ File.Path file)
  | MoveFolder =>
      folder ← deref (FileActionTask.Folder f);
      target ← deref (FileActionTask.TargetFolder f);
      Ok ("move folder " ++ folder ++ " to " ++ target)
  | DeleteFolder =>
      folder ← deref (FileActionTask.Folder f);
      Ok ("Delete folder: " ++ folder)
  | DeleteEmptyFolder =>
      folder ← deref (FileActionTask.Folder f);
      Ok ("Delete empty folder: " ++ folder)
  end.

(** [ExecuteFileActionTask]. *)
Definition ExecuteFileActionTask (s : MemoryStorage.t) (fs : FS)
    (task : FileActionTask.t) : res (MemoryStorage.t * FS * option error) :=
  match FileActionTask.Action task with
  | Move =>
      target ← deref (FileActionTask.TargetFolder task);
      let exists_ :=
        match root_Open fs (filepath.Join target (FileActionTask.TargetName task)) with
        | None => true
        | Some _ => false
        end in
      a ← deref (FileActionTask.File task);
      file ← deref (MemoryStorage.objects s !! a);
      let targetName :=
        if String.eqb (FileActionTask.TargetName task) "" then File.Name file
        else FileActionTask.TargetName task in
      match root_Rename fs (File.Path file) (filepath.Join target targetName) with
      | (fs1, Some err) => Ok (s, fs1, Some err)
      | (fs1, None) =>
          '(s1, err) ← RemoveFile s a;
          match err with
          | Some e => Ok (s1, fs1, Some e)
          | None =>
              if exists_ then Ok (s1, fs1, None)
              else
                s2 ← AddNewFile s1
                       (File.mk targetName (filepath.Join target targetName)
                          (File.Hash file) (File.Size file) None (File.ModTime file));
                Ok (s2, fs1, None)
          end
      end
  | Delete =>
      a ← deref (FileActionTask.File task);
      file ← deref (MemoryStorage.objects s !! a);
      match root_Remove fs (File.Path file) with
      | (fs1, Some err) => Ok (s, fs1, Some err)
      | (fs1, None) =>
          '(s1, err) ← RemoveFile s a;
          Ok (s1, fs1, err)
      end
  | MoveFolder =>
      match FileActionTask.Folder task with
      | None => Ok (s, fs, Some ErrFolderNil)
      | Some fpath =>
          folder ← deref (MemoryStorage.folders s !! fpath);
          target ← deref (FileActionTask.TargetFolder task);
          let targetPath := filepath.Join target (Folder.Name folder) in
          match root_Stat fs targetPath with
          | None => Ok (s, fs, Some (ErrTargetExists targetPath))
          | Some _ =>
              let '(fs1, err) := root_Rename fs fpath targetPath in
              Ok (s, fs1, err)
          end
      end
  | DeleteFolder =>
      match FileActionTask.Folder task with
      | None => Ok (s, fs, Some ErrFolderNil)
      | Some fpath =>
          let '(fs1, err) := root_Remove fs fpath in
          Ok (s, fs1, err)
      end
  | DeleteEmptyFolder =>
      match FileActionTask.Folder task with
      | None => Ok (s, fs, Some ErrFolderNil)
      | Some fpath =>
          let '(fs1, err) := RemoveEmptyFolder fs fpath in
          Ok (s, fs1, err)
      end
  end.

End Tasks.

(** ** The executor (executor.go) *)

Module ProgressUpdate.
Record t : Type := mk {
  Current : Z;
  Total : Z;
  Message : string
}.
End ProgressUpdate.

(** What the [Logger] is told. *)
Inductive LogEntry : Type :=
  | LogInfo (message : string)
  | LogError (message : string).

(** [err.Error()]. *)
Fixpoint error_message (e : error) : string :=
  match e with
  | ErrNotEmptyFolder => "folder is not empty"
  | ErrPairNotFound => "folder pair not found"
  | ErrGroupEmpty h => "internal error: matched file group became empty for hash " ++ h
  | ErrFolderNil => "folder is nil"
  | ErrTargetExists p => "target folder " ++ p ++ " already exists"
  | ErrCanceled => "context canceled"
  | ErrOS w => w
  | ErrWrap m e' => m ++ ": " ++ error_message e'
  end.

(** The capacity of [progressChan]: [make(chan ProgressUpdate, 10)]. *)
Definition progressChanCap : nat := 10.

Module Executor.
(** The executor and what it works on.  [progressChan] is the content of
    the buffered channel, oldest first; [received] is what the reader of
    [ProgressChannel()] has taken off it so far; [log] is what the logger
    was told. *)
Record t (FS : Type) : Type := mk {
  storage : MemoryStorage.t;
  root : FS;
  rootPath : string;
  tasks : list FileActionTask.t;
  logger : bool;                       (* logger != nil *)
  done : bool;
  progressChan : list ProgressUpdate.t;
  received : list ProgressUpdate.t;
  log : list LogEntry
}.
Arguments mk {FS}.
Arguments storage {FS}.
Arguments root {FS}.
Arguments rootPath {FS}.
Arguments tasks {FS}.
Arguments logger {FS}.
Arguments done {FS}.
Arguments progressChan {FS}.
Arguments received {FS}.
Arguments log {FS}.
End Executor.

(** [NewExecutor]. *)
Definition NewExecutor {FS : Type} (storage : MemoryStorage.t) (fs : FS)
    (rootPath : string) (tasks : list FileActionTask.t) (logger : bool)
  : Executor.t FS :=
  Executor.mk storage fs rootPath tasks logger false [] [] [].

(** The other side of the channel and the context, which run concurrently
    with [Execute]: [sched_cancelled i] tells whether [ctx.Done()] is
    ready when iteration [i] of the loop looks at it, [sched_recv i] is the
    number of receive operations the reader of the channel has attempted
    since the previous send when iteration [i] sends. *)
Record Schedule : Type := mkSchedule {
  sched_cancelled : nat -> bool;
  sched_recv : nat -> nat
}.

(** The reader takes [n] records off the channel (fewer if it is empty). *)
Definition chan_recv {FS : Type} (n : nat) (e : Executor.t FS) : Executor.t FS :=
  Executor.mk (Executor.storage e) (Executor.root e) (Executor.rootPath e)
    (Executor.tasks e) (Executor.logger e) (Executor.done e)
    (drop n (Executor.progressChan e))
    (Executor.received e ++ take n (Executor.progressChan e))
    (Executor.log e).

(** [select { case e.progressChan <- u: default: }]: the record is
    dropped when the buffer is full. *)
Definition chan_try_send {FS : Type} (u : ProgressUpdate.t) (e : Executor.t FS)
  : Executor.t FS :=
  if Nat.ltb (length (Executor.progressChan e)) progressChanCap then
    Executor.mk (Executor.storage e) (Executor.root e) (Executor.rootPath e)
      (Executor.tasks e) (Executor.logger e) (Executor.done e)
      (Executor.progressChan e ++ [u]) (Executor.received e) (Executor.log e)
  else e.

Definition log_add {FS : Type} (l : LogEntry) (e : Executor.t FS) : Executor.t FS :=
  if Executor.logger e then
    Executor.mk (Executor.storage e) (Executor.root e) (Executor.rootPath e)
      (Executor.tasks e) (Executor.logger e) (Executor.done e)
      (Executor.progressChan e) (Executor.received e) (Executor.log e ++ [l])
  else e.

Definition set_world {FS : Type} (s : MemoryStorage.t) (fs : FS)
    (e : Executor.t FS) : Executor.t FS :=
  Executor.mk s fs (Executor.rootPath e) (Executor.tasks e) (Executor.logger e)
    (Executor.done e) (Executor.progressChan e) (Executor.received e)
    (Executor.log e).

Definition set_done {FS : Type} (e : Executor.t FS) : Executor.t FS :=
  Executor.mk (Executor.storage e) (Executor.root e) (Executor.rootPath e)
    (Executor.tasks e) (Executor.logger e) true (Executor.progressChan e)
    (Executor.received e) (Executor.log e).

Section Execute.
Context {FS : Type} `{FileSystem FS}.
Variable sched : Schedule.

(** The first half of an iteration of the loop of [Execute]: the task is
    executed, its message is built, and a [NotEmptyFolder] error is
    absorbed into the message.  The result is the storage and filesystem
    after the task, the progress record, and the error that remains. *)
Definition run_task (totalTasks : Z) (i : nat) (task : FileActionTask.t)
    (s : MemoryStorage.t) (fs : FS)
  : res (MemoryStorage.t * FS * ProgressUpdate.t * option error) :=
  '(s1, fs1, err) ← ExecuteFileActionTask s fs task;
  message ← FileActionTask_String s1 task;
  let absorbed :=
    match err with
    | Some er => IsNotEmptyFolder er
    | None => false
    end in
  let message := if absorbed then message ++ " (folder is not empty)" else message in
  let err := if absorbed then None else err in
  Ok (s1, fs1, ProgressUpdate.mk (Z.of_nat i + 1) totalTasks message, err).

(** The second half: the record is offered to the channel (after the
    reader took what the schedule says), and the result is logged. *)
Definition report (i : nat) (u : ProgressUpdate.t) (err : option error)
    (e : Executor.t FS) : Executor.t FS :=
  let e2 := chan_try_send u (chan_recv (sched_recv sched i) e) in
  match err with
  | Some er => log_add (LogError (error_message er)) e2
  | None => log_add (LogInfo ("Executed task: " ++ ProgressUpdate.Message u)) e2
  end.

(** The loop of [Execute] from iteration [i] on, over the remaining tasks. *)
Fixpoint Execute_loop (totalTasks : Z) (i : nat) (rest : list FileActionTask.t)
    (e : Executor.t FS) : res (Executor.t FS * option error) :=
  match rest with
  | [] => Ok (e, None)
  | task :: rest' =>
      if sched_cancelled sched i then Ok (e, Some ErrCanceled)
      else
        '(s1, fs1, u, err) ←
          run_task totalTasks i task (Executor.storage e) (Executor.root e);
        let e3 := report i u err (set_world s1 fs1 e) in
        match err with
        | Some er => Ok (e3, Some er)
        | None => Execute_loop totalTasks (S i) rest' e3
        end
  end.

(** After the loop: [e.done = true; return nil]. *)
Definition Execute_finish (r : res (Executor.t FS * option error))
  : res (Executor.t FS * option error) :=
  '(e', err) ← r;
  match err with
  | Some er => Ok (e', Some er)
  | None => Ok (set_done e', None)
  end.

(** [Executor.Execute]. *)
Definition Execute (e : Executor.t FS) : res (Executor.t FS * option error) :=
  match os_OpenRoot (Executor.root e) (Executor.rootPath e) with
  | Some err => Ok (e, Some err)
  | None =>
      Execute_finish
        (Execute_loop (Z.of_nat (length (Executor.tasks e))) 0 (Executor.tasks e) e)
  end.

(** The progress records the loop offers to the channel, in order, from
    iteration [i] on. *)
Fixpoint offered (totalTasks : Z) (i : nat) (rest : list FileActionTask.t)
    (s : MemoryStorage.t) (fs : FS) : list ProgressUpdate.t :=
  match rest with
  | [] => []
  | task :: rest' =>
      if sched_cancelled sched i then []
      else
        match run_task totalTasks i task s fs with
        | Ok (s1, fs1, u, Some _) => [u]
        | Ok (s1, fs1, u, None) => u :: offered totalTasks (S i) rest' s1 fs1
        | Panic => []
        end
  end.

End Execute.

(** Every record the reader of the channel gets: those it took during the
    run, then those still in the buffer. *)
Definition records_received {FS : Type} (e : Executor.t FS) : list ProgressUpdate.t :=
  Executor.received e ++ Executor.progressChan e.

(** ** The scanner (executor.go: Scanner.Scan)

    The tree below a root as [fs.WalkDir] reads it: the entries of a
    directory in the order of [ReadDir], and for each file the outcome of
    opening it, of [Stat] and of hashing it. *)

Inductive FileRead : Type :=
  | Readable (hash : string) (size modTime : Z)
  | OpenFails (e : error)
  | StatFails (e : error)
  | HashFails (e : error).

Inductive node : Type :=
  | FileNode (name : string) (content : FileRead)
  | DirNode (name : string) (entries : list node)
  | UnreadableDir (name : string) (e : error).   (* ReadDir fails *)

Definition node_Name (d : node) : string :=
  match d with
  | FileNode name _ | DirNode name _ | UnreadableDir name _ => name
  end.

Definition node_IsDir (d : node) : bool :=
  match d with
  | FileNode _ _ => false
  | _ => true
  end.

(** What [os.OpenRoot] and the [Stat] of the root give for a path of
    [Scanner.Path]. *)
Inductive RootView : Type :=
  | RootOpenFails (e : error)
  | RootStatFails (e : error)
  | RootTree (d : node).

Module Scanner.
(** [Path] with what is on disk there; [Logger] is what the logger
    function was told, when there is one; [calls] counts the calls of the
    walk function, for the context. *)
Record t : Type := mk {
  Path : list (string * RootView);
  Storage : MemoryStorage.t;
  Logger : bool;                 (* s.Logger != nil *)
  logged : list string;
  calls : nat
}.

Definition set_Storage (st : MemoryStorage.t) (s : t) : t :=
  mk (Path s) st (Logger s) (logged s) (calls s).
Definition add_log (m : string) (s : t) : t :=
  if Logger s then mk (Path s) (Storage s) (Logger s) (logged s ++ [m]) (calls s)
  else s.
Definition tick (s : t) : t :=
  mk (Path s) (Storage s) (Logger s) (logged s) (S (calls s)).
End Scanner.

Section Scan.
(** [cancelled n]: [s.Context.Done()] is ready at the [n]-th call of the
    walk function. *)
Variable cancelled : nat -> bool.

(** The function given to [fs.WalkDir]; [d] is [None] when the [Stat] of
    the root failed. *)
Definition walkFn (path : string) (d : option node) (err : option error)
    (s : Scanner.t) : res (Scanner.t * option error) :=
  if cancelled (Scanner.calls s) then Ok (Scanner.tick s, Some ErrCanceled)
  else
    let s := Scanner.tick s in
    match err with
    | Some e => Ok (s, Some e)
    | None =>
        d ← deref d;
        if node_IsDir d then Ok (s, None)
        else
          match node_Name d with
          | EmptyString => Panic                (* d.Name()[0] *)
          | String c _ =>
              if Ascii.eqb c "."%char then Ok (s, None)
              else
                match d with
                | FileNode name (OpenFails e) =>
                    Ok (s, Some (ErrWrap ("failed to open file " ++ path) e))
                | FileNode name (StatFails e) =>
                    Ok (s, Some (ErrWrap ("failed to stat file " ++ path) e))
                | FileNode name (HashFails e) =>
                    Ok (s, Some (ErrWrap ("failed to hash file " ++ path) e))
                | FileNode name (Readable hash size modTime) =>
                    st ← AddNewFile (Scanner.Storage s)
                           (File.mk name path hash size None modTime);
                    Ok (Scanner.add_log ("scanned file " ++ path ++ ": " ++ hash)
                          (Scanner.set_Storage st s), None)
                | _ => Ok (s, None)
                end
          end
    end.

(** [fs.walkDir]: the function is called on the entry, then on each entry
    of a directory in turn; the walk stops at the first error (the function
    never returns [SkipDir]). *)
Fixpoint walkDir (path : string) (d : node) (s : Scanner.t) {struct d}
  : res (Scanner.t * option error) :=
  '(s1, err) ← walkFn path (Some d) None s;
  match err with
  | Some e => Ok (s1, Some e)
  | None =>
      match d with
      | FileNode _ _ => Ok (s1, None)
      | UnreadableDir _ e => walkFn path (Some d) (Some e) s1
      | DirNode _ entries =>
          (fix walkEntries (l : list node) (s : Scanner.t)
             : res (Scanner.t * option error) :=
             match l with
             | [] => Ok (s, None)
             | d1 :: rest =>
                 '(s2, err) ← walkDir (filepath.Join path (node_Name d1)) d1 s;
                 match err with
                 | Some e => Ok (s2, Some e)
                 | None => walkEntries rest s2
                 end
             end) entries s1
      end
  end.

(** [fs.WalkDir fsys "." fn]. *)
Definition WalkDir (view : RootView) (s : Scanner.t)
  : res (Scanner.t * option error) :=
  match view with
  | RootOpenFails e => Ok (s, Some e)
  | RootStatFails e => walkFn "." None (Some e) s
  | RootTree d => walkDir "." d s
  end.

(** The loop of [Scan] over [s.Path]. *)
Fixpoint Scan_loop (roots : list (string * RootView)) (s : Scanner.t)
  : res (Scanner.t * option error) :=
  match roots with
  | [] => Ok (s, None)
  | (path, view) :: rest =>
      match view with
      | RootOpenFails e =>
          Ok (s, Some (ErrWrap ("failed to open root directory " ++ path) e))
      | _ =>
          '(s1, err) ← WalkDir view s;
          match err with
          | Some e => Ok (s1, Some (ErrWrap ("failed to walk directory " ++ path) e))
          | None => Scan_loop rest s1
          end
      end
  end.

(** [Scanner.Scan]. *)
Definition Scan (s : Scanner.t) : res (Scanner.t * option error) :=
  Scan_loop (Scanner.Path s) s.

End Scan.

(** ** The similarity index (checker.go) *)

Module FolderSimilarity.
(** The [TargetFolder] pointer of a side always points to the other
    element of the same [[2]*FolderSimilarity]; it is that position. *)
Record t : Type := mk {
  Folder : string;                   (* the embedded *Folder, by path *)
  FileCount : Z;                     (* int *)
  DuplicateFileCount : Z;            (* int *)
  DuplicateFiles : gmap string addr
}.
End FolderSimilarity.

(** A [*FolderSimilarity]: every such object is one of the two sides of one
    entry of a pair map, so a pointer is the key of the entry and the side. *)
Inductive side : Type := Side0 | Side1.

#[global] Instance side_eq_dec : EqDecision side.
Proof. solve_decision. Defined.

Definition fsref : Type := string * side.

Abbreviation pairmap := (gmap string (FolderSimilarity.t * FolderSimilarity.t)).

Definition pair_side (p : FolderSimilarity.t * FolderSimilarity.t) (s : side)
  : FolderSimilarity.t :=
  match s with Side0 => fst p | Side1 => snd p end.

(** Dereference of a [*FolderSimilarity]. *)
Definition fs_get (folders : pairmap) (r : fsref) : option FolderSimilarity.t :=
  match folders !! fst r with
  | Some p => Some (pair_side p (snd r))
  | None => None
  end.

Definition folderPairKey (path1 path2 : string) : string :=
  if GoString.gtb path1 path2 then path2 ++ ":" ++ path1
  else path1 ++ ":" ++ path2.

(** [getFolderSimilarity]: the two sides of the pair stored for
    [(path1, path2)], the side of [path1] first. *)
Definition getFolderSimilarity (path1 path2 : string) (folders : pairmap)
  : fsref * fsref + error :=
  let key := folderPairKey path1 path2 in
  match folders !! key with
  | None => inr ErrPairNotFound
  | Some p =>
      if String.eqb (FolderSimilarity.Folder (fst p)) path1
      then inl ((key, Side0), (key, Side1))
      else inl ((key, Side1), (key, Side0))
  end.

(** *** CalculateSimilarity *)

Module SimilarityChecker.
Record t : Type := mk {
  similarityFolderPairs : pairmap;
  similarityFolderMap : gmap string (list string)
}.
End SimilarityChecker.

(** Assignment through a [*FolderSimilarity]. *)
Definition fs_update (folders : pairmap) (r : fsref)
    (f : FolderSimilarity.t -> FolderSimilarity.t) : pairmap :=
  alter (fun p => match snd r with
                  | Side0 => (f (fst p), snd p)
                  | Side1 => (fst p, f (snd p))
                  end) (fst r) folders.

(** [getDuplicatedFolderPair]: the pair of the two folders, created with
    empty counts when its key is not in the map, and its two sides, that of
    [folder1] first.  [GetFileCount] fills the caches of the folders, so
    the arena is threaded. *)
Definition getDuplicatedFolderPair (ar : arena) (folder1 folder2 : string)
    (folders : pairmap) : arena * pairmap * fsref * fsref :=
  let key := folderPairKey folder1 folder2 in
  let '(ar', folders', p) :=
    match folders !! key with
    | Some p => (ar, folders, p)
    | None =>
        let '(c1, ar1) := GetFileCount (chain_fuel ar) ar folder1 in
        let '(c2, ar2) := GetFileCount (chain_fuel ar1) ar1 folder2 in
        let p := (FolderSimilarity.mk folder1 c1 0 ∅,
                  FolderSimilarity.mk folder2 c2 0 ∅) in
        (ar2, <[key := p]> folders, p)
    end in
  if String.eqb (FolderSimilarity.Folder (fst p)) folder1
  then (ar', folders', (key, Side0), (key, Side1))
  else (ar', folders', (key, Side1), (key, Side0)).

(** [SplitPath]: the elements of a path.  The loop follows [filepath.Dir]
    up to "." or "/". *)
Fixpoint SplitPath_loop (fuel : nat) (path : string) (output : list string)
  : list string :=
  match fuel with
  | O => output
  | S n =>
      if String.eqb path "." || String.eqb path "/" then output
      else
        let folder := filepath.Base (filepath.Dir path) in
        let output :=
          if String.eqb folder "." || String.eqb folder "/" then output
          else folder :: output in
        SplitPath_loop n (filepath.Dir path) output
  end.

Definition SplitPath (path : string) : list string :=
  SplitPath_loop (S (S (String.length path))) path [filepath.Base path].

(** The loop that finds the common parent of two folders. *)
Fixpoint commonParent_loop (commonParent : string) (parents parents2 : list string)
  : string :=
  match parents, parents2 with
  | x :: r1, y :: r2 =>
      if String.eqb x y then commonParent_loop (filepath.Join commonParent x) r1 r2
      else commonParent
  | _, _ => commonParent
  end.

Definition commonParent (path1 path2 : string) : string :=
  commonParent_loop "." (SplitPath path1) (SplitPath path2).

Section Similarity.
(** The addition of [int]: [add64] in the program.  The functions take it
    as an argument so that the counts can be compared with those computed
    without wrap-around. *)
Variable add : Z -> Z -> Z.

Definition add_count (c : Z) (sd : FolderSimilarity.t) : FolderSimilarity.t :=
  FolderSimilarity.mk (FolderSimilarity.Folder sd) (FolderSimilarity.FileCount sd)
    (add (FolderSimilarity.DuplicateFileCount sd) c)
    (FolderSimilarity.DuplicateFiles sd).

(** [if _, ok := folder.DuplicateFiles[name]; !ok { folder.DuplicateFiles[name] = file;
    folder.DuplicateFileCount++ }] *)
Definition add_duplicate (a : addr) (name : string) (r : fsref) (folders : pairmap)
  : pairmap :=
  match fs_get folders r with
  | Some sd =>
      match FolderSimilarity.DuplicateFiles sd !! name with
      | Some _ => folders
      | None =>
          fs_update folders r (fun sd =>
            FolderSimilarity.mk (FolderSimilarity.Folder sd)
              (FolderSimilarity.FileCount sd)
              (add (FolderSimilarity.DuplicateFileCount sd) 1)
              (<[name := a]> (FolderSimilarity.DuplicateFiles sd)))
      end
  | None => folders
  end.

(** The body of the loops over a matched group, for [Files[i]] and
    [Files[j]]. *)
Definition match_pair (objs : heap) (fi fj : addr) (st : arena * pairmap)
  : res (arena * pairmap) :=
  file_i ← deref (objs !! fi);
  file_j ← deref (objs !! fj);
  parent_i ← deref (File.Parent file_i);
  parent_j ← deref (File.Parent file_j);
  let '(ar, folders, folder1, folder2) :=
    getDuplicatedFolderPair (fst st) parent_i parent_j (snd st) in
  Ok (ar, add_duplicate fj (File.Name file_j) folder2
            (add_duplicate fi (File.Name file_i) folder1 folders)).

(** [for j := i + 1; j < len(Files); j++]. *)
Fixpoint match_loop_j (objs : heap) (fi : addr) (rest : list addr)
    (st : arena * pairmap) : res (arena * pairmap) :=
  match rest with
  | [] => Ok st
  | fj :: rest' =>
      st1 ← match_pair objs fi fj st;
      match_loop_j objs fi rest' st1
  end.

(** [for i := 0; i < len(Files); i++]. *)
Fixpoint match_loop_i (objs : heap) (files : list addr) (st : arena * pairmap)
  : res (arena * pairmap) :=
  match files with
  | [] => Ok st
  | fi :: rest =>
      st1 ← match_loop_j objs fi rest st;
      match_loop_i objs rest st1
  end.

(** [for _, matchedFile := range matchedFiles]. *)
Fixpoint match_groups (objs : heap) (groups : list MatchedFileGroup.t)
    (st : arena * pairmap) : res (arena * pairmap) :=
  match groups with
  | [] => Ok st
  | g :: rest =>
      st1 ← match_loop_i objs (MatchedFileGroup.Files g) st;
      match_groups objs rest st1
  end.

(** The body of the two loops of [calculateParentFolderSimilarity]. *)
Definition propagate_pair (folder1 folder2 : fsref) (cur1 cur2 : string)
    (st : arena * pairmap) : res (arena * pairmap) :=
  let '(ar, folders, f1, f2) := getDuplicatedFolderPair (fst st) cur1 cur2 (snd st) in
  folders1 ←
    (if decide (f1 = folder1) then Ok folders
     else sd ← deref (fs_get folders folder1);
          Ok (fs_update folders f1
                (add_count (FolderSimilarity.DuplicateFileCount sd))));
  folders2 ←
    (if decide (f2 = folder2) then Ok folders1
     else sd ← deref (fs_get folders1 folder2);
          Ok (fs_update folders1 f2
                (add_count (FolderSimilarity.DuplicateFileCount sd))));
  Ok (ar, folders2).

(** [for currentFolder2.Path != commonParent { ...; currentFolder2 =
    currentFolder2.Parent }]; a nil [currentFolder2] panics. *)
Fixpoint propagate_loop2 (fuel : nat) (cp : string) (folder1 folder2 : fsref)
    (cur1 : string) (cur2 : option string) (st : arena * pairmap)
  : res (arena * pairmap) :=
  match fuel with
  | O => Panic
  | S n =>
      c2 ← deref cur2;
      if String.eqb c2 cp then Ok st
      else
        st1 ← propagate_pair folder1 folder2 cur1 c2 st;
        fo2 ← deref (fst st1 !! c2);
        propagate_loop2 n cp folder1 folder2 cur1 (Folder.Parent fo2) st1
  end.

(** [for currentFolder1.Path != commonParent { currentFolder2 :=
    folder2.Folder; ...; currentFolder1 = currentFolder1.Parent }]. *)
Fixpoint propagate_loop1 (fuel : nat) (cp : string) (folder1 folder2 : fsref)
    (start2 : string) (cur1 : option string) (st : arena * pairmap)
  : res (arena * pairmap) :=
  match fuel with
  | O => Panic
  | S n =>
      c1 ← deref cur1;
      if String.eqb c1 cp then Ok st
      else
        st1 ← propagate_loop2 (chain_fuel (fst st)) cp folder1 folder2 c1
                (Some start2) st;
        fo1 ← deref (fst st1 !! c1);
        propagate_loop1 n cp folder1 folder2 start2 (Folder.Parent fo1) st1
  end.

(** [calculateParentFolderSimilarity]. *)
Definition calculateParentFolderSimilarity (folder1 folder2 : fsref)
    (st : arena * pairmap) : res (arena * pairmap) :=
  if decide (folder1 = folder2) then Ok st
  else
    sd1 ← deref (fs_get (snd st) folder1);
    sd2 ← deref (fs_get (snd st) folder2);
    fo1 ← deref (fst st !! FolderSimilarity.Folder sd1);
    fo2 ← deref (fst st !! FolderSimilarity.Folder sd2);
    if decide (Folder.Parent fo1 = Folder.Parent fo2) then Ok st
    else
      let cp := commonParent (FolderSimilarity.Folder sd1) (FolderSimilarity.Folder sd2) in
      propagate_loop1 (chain_fuel (fst st)) cp folder1 folder2
        (FolderSimilarity.Folder sd2) (Some (FolderSimilarity.Folder sd1)) st.

(** [for _, matchedFolders := range folders]: the keys of the direct
    pairs, in the order of the iteration.  The values of [folders] and of
    its clone are the same pointers, so the sides are read from, and
    written to, the one map of FolderSimilarity objects. *)
Fixpoint propagate_all (keys : list string) (st : arena * pairmap)
  : res (arena * pairmap) :=
  match keys with
  | [] => Ok st
  | key :: rest =>
      st1 ← calculateParentFolderSimilarity (key, Side0) (key, Side1) st;
      propagate_all rest st1
  end.

End Similarity.

(** [append(m[k], key)] on the reverse index. *)
Definition index_append (k key : string) (m : gmap string (list string))
  : gmap string (list string) :=
  <[k := (default [] (m !! k) ++ [key])%list]> m.

(** [for key := range s.similarityFolderPairs]: the reverse index. *)
Fixpoint build_index (keys : list string) (m : gmap string (list string))
  : gmap string (list string) :=
  match keys with
  | [] => m
  | key :: rest =>
      match GoString.split_colon key with
      | [p0; p1] =>
          if String.eqb p0 p1 then build_index rest m
          else build_index rest (index_append p1 key (index_append p0 key m))
      | _ => build_index rest m          (* invalid key *)
      end
  end.

(** The orders in which the three [range] loops of [CalculateSimilarity]
    visit the keys of their maps.  Go does not specify them: each is some
    enumeration of the key set. *)
Record RangeOrder : Type := mkRangeOrder {
  order_groups : gset string -> list string;
  order_pairs : gset string -> list string;
  order_index : gset string -> list string
}.

Definition RangeOrderSpec (o : RangeOrder) : Prop :=
  (forall s, Permutation (order_groups o s) (elements s)) /\
  (forall s, Permutation (order_pairs o s) (elements s)) /\
  (forall s, Permutation (order_index o s) (elements s)).

(** The order [elements] happens to give. *)
Definition order_default : RangeOrder := mkRangeOrder elements elements elements.

(** [storage.GetMatchedFiles()], in the order of the [Range]. *)
Definition GetMatchedFiles_in (keys : list string) (s : MemoryStorage.t)
  : list MatchedFileGroup.t :=
  omap (fun h => MemoryStorage.matchedFiles s !! h) keys.

(** [CalculateSimilarity], with the addition of the counts as an argument. *)
Definition CalculateSimilarity_with (add : Z -> Z -> Z) (o : RangeOrder)
    (storage : MemoryStorage.t) : res (MemoryStorage.t * SimilarityChecker.t) :=
  let matchedFiles :=
    GetMatchedFiles_in (order_groups o (dom (MemoryStorage.matchedFiles storage)))
      storage in
  '(ar1, folders) ←
    match_groups add (MemoryStorage.objects storage) matchedFiles
      (MemoryStorage.folders storage, ∅);
  '(ar2, parentFolders) ←
    propagate_all add (order_pairs o (dom folders)) (ar1, folders);
  Ok (MemoryStorage.set_folders ar2 storage,
      SimilarityChecker.mk parentFolders
        (build_index (order_index o (dom parentFolders)) ∅)).

(** [SimilarityChecker.CalculateSimilarity]. *)
Definition CalculateSimilarity (o : RangeOrder) (storage : MemoryStorage.t)
  : res (MemoryStorage.t * SimilarityChecker.t) :=
  CalculateSimilarity_with add64 o storage.

(** [SimilarityChecker.ContainsSimilarityGroup]. *)
Definition ContainsSimilarityGroup (s : SimilarityChecker.t) (path : string) : bool :=
  bool_decide (is_Some (SimilarityChecker.similarityFolderMap s !! path)).

(** The loop of [GetSimilarityFolderGroup], before the sort. *)
Fixpoint group_loop (s : SimilarityChecker.t) (path : string) (keys : list string)
  : list (fsref * fsref) :=
  match keys with
  | [] => []
  | pairPath :: rest =>
      match GoString.split_colon pairPath with
      | [p0; p1] =>
          match getFolderSimilarity p0 p1 (SimilarityChecker.similarityFolderPairs s) with
          | inr _ => group_loop s path rest
          | inl (f1, f2) =>
              match fs_get (SimilarityChecker.similarityFolderPairs s) f1 with
              | Some sd =>
                  if String.eqb (FolderSimilarity.Folder sd) path
                  then (f1, f2) :: group_loop s path rest
                  else (f2, f1) :: group_loop s path rest
              | None => group_loop s path rest
              end
          end
      | _ => group_loop s path rest      (* invalid key *)
      end
  end.

(** [SimilarityChecker.GetSimilarityFolderGroup].  The output is sorted by
    percentages, which are floating-point numbers; the sort is an argument,
    and all that is used of it is that [sort.Slice] permutes its input. *)
Definition GetSimilarityFolderGroup
    (sortOutput : list (fsref * fsref) -> list (fsref * fsref))
    (s : SimilarityChecker.t) (path : string) : list (fsref * fsref) :=
  sortOutput
    (group_loop s path (default [] (SimilarityChecker.similarityFolderMap s !! path))).

(** *** GetMatchedFilePairs *)

(** The [less] function given to [sort.Slice]. *)
Definition hash_less (objs : heap) (a b : addr) : bool :=
  GoString.ltb (hash_of objs a) (hash_of objs b).

(** The two-pointer loop of [GetMatchedFilePairs].  The indices [a] and [b]
    of the source are the suffixes [files1[a:]] and [files2[b:]] here; the
    three result slices are appended to in the order of the iterations. *)
Definition add_matched (p : addr * addr)
    (r : list (addr * addr) * list addr * list addr) :=
  let '(m, o1, o2) := r in (p :: m, o1, o2).
Definition add_folder1Only (x : addr)
    (r : list (addr * addr) * list addr * list addr) :=
  let '(m, o1, o2) := r in (m, x :: o1, o2).
Definition add_folder2Only (y : addr)
    (r : list (addr * addr) * list addr * list addr) :=
  let '(m, o1, o2) := r in (m, o1, y :: o2).

Fixpoint matchLoop (objs : heap) (files1 : list addr)
  : list addr -> list (addr * addr) * list addr * list addr :=
  fix inner (files2 : list addr) :=
    match files1, files2 with
    | [], [] => ([], [], [])
    | [], y :: r2 => add_folder2Only y (inner r2)          (* a >= len(files1) *)
    | x :: r1, [] => add_folder1Only x (matchLoop objs r1 [])  (* b >= len(files2) *)
    | x :: r1, y :: r2 =>
        if String.eqb (hash_of objs x) (hash_of objs y)
        then add_matched (x, y) (matchLoop objs r1 r2)
        else if GoString.ltb (hash_of objs x) (hash_of objs y)
        then add_folder1Only x (matchLoop objs r1 files2)
        else add_folder2Only y (inner r2)
    end.

(** [GetMatchedFilePairs].  [sort.Slice] is not stable and the order of
    [GetFiles] is not specified, so the sort is an argument: any function
    that returns a permutation of its input ordered by [less]. *)
Definition GetMatchedFilePairs (sortSlice : heap -> list addr -> list addr)
    (objs : heap) (folder1 folder2 : Folder.t)
  : list (addr * addr) * list addr * list addr :=
  let files1 := sortSlice objs (GetFiles folder1) in
  let files2 := sortSlice objs (GetFiles folder2) in
  matchLoop objs files1 files2.

(** The contract of [sort.Slice] with [hash_less]: a permutation of the
    input in which no later element is less than an earlier one. *)
Definition hash_le (objs : heap) (a b : addr) : Prop :=
  hash_less objs b a = false.

Definition SortSliceSpec (sortSlice : heap -> list addr -> list addr) : Prop :=
  forall objs l,
    Permutation (sortSlice objs l) l /\
    StronglySorted (hash_le objs) (sortSlice objs l).

(** One such sort, for running the code on examples. *)
#[global] Instance hash_le_dec objs a b : Decision (hash_le objs a b).
Proof. unfold hash_le. solve_decision. Defined.

Definition mergeSortByHash (objs : heap) (l : list addr) : list addr :=
  merge_sort (hash_le objs) l.

(** The three results of [GetMatchedFilePairs]. *)
Definition matched_of (r : list (addr * addr) * list addr * list addr) := fst (fst r).
Definition only1_of (r : list (addr * addr) * list addr * list addr) := snd (fst r).
Definition only2_of (r : list (addr * addr) * list addr * list addr) := snd r.

(** The spec's words for the key: [min(a,b) + ":" + max(a,b)]. *)
Definition str_min (a b : string) : string := if String.leb a b then a else b.
Definition str_max (a b : string) : string := if String.leb a b then b else a.

(** The spec's words for an entry that leaves a folder empty: a
    non-directory whose basename starts with a dot ("." and ".." are
    ignored), and for one that makes it non-empty: a subdirectory or a
    non-hidden file. *)
Definition hidden_file (e : DirEntry) : Prop :=
  entry_Name e = "." \/ entry_Name e = ".." \/
  (entry_IsDir e = false /\ GoString.starts_with_dot (entry_Name e) = true).

Definition visible_entry (e : DirEntry) : Prop :=
  entry_Name e <> "." /\ entry_Name e <> ".." /\
  (entry_IsDir e = true \/ GoString.starts_with_dot (entry_Name e) = false).

(** The spec's words on the progress records of a run that is not
    cancelled: record [i] carries [Current = i+1] and [Total] the number of
    tasks, and the last record received has [current == total]. *)
Definition progress_complete {FS : Type} `{FileSystem FS}
    (sched : Schedule) (e : Executor.t FS) : Prop :=
  forall e', Execute sched e = Ok (e', None) ->
    (forall (i : nat) u, records_received e' !! i = Some u ->
       ProgressUpdate.Current u = (Z.of_nat i + 1)%Z /\
       ProgressUpdate.Total u = Z.of_nat (length (Executor.tasks e))) /\
    (forall u, last (records_received e') = Some u ->
       ProgressUpdate.Current u = ProgressUpdate.Total u).

(** The spec's words on [Move]: the storage holds a record for the file at
    the path [dst], with the fingerprint [h] and the modification time [t]. *)
Definition holds_record (s : MemoryStorage.t) (dst h : string) (t : Z) : Prop :=
  exists (folder : Folder.t) (a : addr) (f : File.t),
    MemoryStorage.folders s !! filepath.Dir dst = Some folder /\
    Folder.files folder !! filepath.Base dst = Some a /\
    MemoryStorage.objects s !! a = Some f /\
    File.Path f = dst /\ File.Hash f = h /\ File.ModTime f = t.

(** The spec's words on [remove_file]: removing a file whose basename is
    not stored in its parent folder is returned as an error. *)
Definition basename_stored (s : MemoryStorage.t) (file : File.t) : Prop :=
  exists folder,
    MemoryStorage.folders s !! filepath.Dir (File.Path file) = Some folder /\
    is_Some (Folder.files folder !! File.Name file).

Definition remove_missing_is_error : Prop :=
  forall (s : MemoryStorage.t) (a : addr) (file : File.t),
    MemoryStorage.objects s !! a = Some file ->
    ~ basename_stored s file ->
    exists s' e, RemoveFile s a = Ok (s', Some e).

(** The fuel [GetFolder] needs for a path. *)
Definition GetFolder_cost (path : string) : nat :=
  if String.eqb path "." || String.eqb path "/" then 1%nat
  else (String.length path + 2)%nat.

(** The spec's words on what the scanner adds: the files of the tree whose
    own basename does not start with a dot, wherever they lie.
    [file_in path d p name c]: the tree [d], rooted at [path], has the file
    [name] with content [c] at the path [p]. *)
Inductive file_in : string -> node -> string -> string -> FileRead -> Prop :=
  | file_in_here path name c :
      file_in path (FileNode name c) path name c
  | file_in_dir path dname entries d p name c :
      In d entries ->
      file_in (filepath.Join path (node_Name d)) d p name c ->
      file_in path (DirNode dname entries) p name c.

(** The File records of those files, in the order of the walk. *)
Fixpoint scanned_files (path : string) (d : node) {struct d} : list File.t :=
  match d with
  | FileNode name (Readable hash size modTime) =>
      if GoString.starts_with_dot name then []
      else [File.mk name path hash size None modTime]
  | FileNode _ _ => []
  | UnreadableDir _ _ => []
  | DirNode _ entries =>
      (fix go (l : list node) : list File.t :=
         match l with
         | [] => []
         | d1 :: rest =>
             (scanned_files (filepath.Join path (node_Name d1)) d1 ++ go rest)%list
         end) entries
  end.

(** A tree the walk reads without an error or a panic: every directory
    can be listed, every file that is not hidden can be opened and hashed,
    and no file has an empty name. *)
Fixpoint readable (d : node) : Prop :=
  match d with
  | FileNode name c =>
      name <> "" /\
      (GoString.starts_with_dot name = false ->
       match c with Readable _ _ _ => True | _ => False end)
  | UnreadableDir _ _ => False
  | DirNode _ entries =>
      (fix go (l : list node) : Prop :=
         match l with
         | [] => True
         | d1 :: rest => readable d1 /\ go rest
         end) entries
  end.

(** [storage.AddFile] of each record in turn. *)
Fixpoint add_all (files : list File.t) (st : MemoryStorage.t) : res MemoryStorage.t :=
  match files with
  | [] => Ok st
  | f :: rest => st1 ← AddNewFile st f; add_all rest st1
  end.

(** No folder of the storage has a colon in its path. *)
Definition no_colon_paths (s : MemoryStorage.t) : Prop :=
  map_Forall (fun p (_ : Folder.t) => GoString.has_colon p = false)
    (MemoryStorage.folders s).

(** The [Parent] pointers of the File objects and of the folders point to
    folders of the storage.  (In the program a pointer to a Folder always
    does; here a pointer is a path, and this says that the path is one of
    the arena.) *)
Definition pointers_valid (s : MemoryStorage.t) : Prop :=
  map_Forall (fun (_ : addr) f =>
                forall p, File.Parent f = Some p ->
                          is_Some (MemoryStorage.folders s !! p))
    (MemoryStorage.objects s) /\
  map_Forall (fun (_ : string) fo =>
                forall q, Folder.Parent fo = Some q ->
                          is_Some (MemoryStorage.folders s !! q))
    (MemoryStorage.folders s).

Definition same_tree (ar ar' : arena) : Prop :=
  forall p, Folder.Parent <$> (ar' !! p) = Folder.Parent <$> (ar !! p).

(** Every pair of the map is stored under the key of the folders of its
    sides, and these folders satisfy [P]. *)
Definition sides_ok (P : string -> Prop) (m : pairmap) : Prop :=
  forall k s0 s1, m !! k = Some (s0, s1) ->
    k = folderPairKey (FolderSimilarity.Folder s0) (FolderSimilarity.Folder s1) /\
    P (FolderSimilarity.Folder s0) /\ P (FolderSimilarity.Folder s1).

(** The [Parent] pointers of the File objects, and of the folders,
    lead to folders that satisfy [P]. *)
Definition file_valid (P : string -> Prop) (objs : heap) (a : addr) : Prop :=
  forall f p, objs !! a = Some f -> File.Parent f = Some p -> P p.

Definition arena_closed (P : string -> Prop) (ar : arena) : Prop :=
  forall p q, Folder.Parent <$> (ar !! p) = Some (Some q) -> P p -> P q.

Definition other_side (s : side) : side :=
  match s with Side0 => Side1 | Side1 => Side0 end.

(** The state of [CalculateSimilarity] between two steps: the arena has
    the tree it started with, and the pair map is keyed as it should. *)
Definition st_ok (P : string -> Prop) (ar0 : arena) (st : arena * pairmap) : Prop :=
  same_tree ar0 (fst st) /\ sides_ok P (snd st).

(** ** Example data *)

Module Ex.

(** Two folders [a] and [b]: [a/x] and [b/x] have the same fingerprint,
    [a/y] and [b/z] have fingerprints of their own. *)
Definition objs4 : heap :=
  {[ 0%nat := File.mk "x" "a/x" "h1" 10 (Some "a") 100;
     1%nat := File.mk "y" "a/y" "h2" 20 (Some "a") 200;
     2%nat := File.mk "x" "b/x" "h1" 10 (Some "b") 300;
     3%nat := File.mk "z" "b/z" "h0" 30 (Some "b") 400 ]}.

Definition folder_a : Folder.t :=
  Folder.mk "a" "a" (Some ".") ∅ {[ "x" := 0%nat; "y" := 1%nat ]} 2 0.

Definition folder_b : Folder.t :=
  Folder.mk "b" "b" (Some ".") ∅ {[ "x" := 2%nat; "z" := 3%nat ]} 2 0.


(** A folder [a] that holds only [.DS_Store], a folder [b] with a
    subfolder and a file. *)
Definition fs_ab : SimFS.t :=
  {[ "a" := true; "a/.DS_Store" := false;
     "b" := true; "b/x" := false; "b/c" := true; "b/c/y" := false ]}.

Definition task_DeleteEmptyFolder (path : string) : FileActionTask.t :=
  FileActionTask.mk DeleteEmptyFolder None (Some path) None "" false.


(** Nobody cancels; the reader of the channel takes nothing during the run. *)
Definition sched_idle : Schedule := mkSchedule (fun _ => false) (fun _ => 0%nat).

Definition task_DeleteFolder (path : string) : FileActionTask.t :=
  FileActionTask.mk DeleteFolder None (Some path) None "" false.

(** Three tasks on [fs_ab]: [b] is not empty, so the first is absorbed and
    the second fails in [root.Remove]. *)
Definition executor3 : Executor.t SimFS.t :=
  NewExecutor NewMemoryStorage fs_ab "."
    [task_DeleteEmptyFolder "b"; task_DeleteFolder "b"; task_DeleteEmptyFolder "a"]
    true.

(** Eleven tasks that all succeed (each is absorbed). *)
Definition executor11 : Executor.t SimFS.t :=
  NewExecutor NewMemoryStorage fs_ab "."
    (replicate 11 (task_DeleteEmptyFolder "b")) true.


(** The storage after a scan of the folders [a] and [b], where [a/x] and
    [b/x] have the same content and [a/y] is in [a] only, and the
    filesystem that was scanned.  The File objects are at the addresses 0,
    1 and 2. *)
Definition file_ax : File.t := File.mk "x" "a/x" "hx" 10 None 100.
Definition file_ay : File.t := File.mk "y" "a/y" "hy" 20 None 200.
Definition file_bx : File.t := File.mk "x" "b/x" "hx" 10 None 300.

Definition storage_ay : MemoryStorage.t :=
  match (s ← AddNewFile NewMemoryStorage file_ax;
         s ← AddNewFile s file_ay;
         AddNewFile s file_bx) with
  | Ok s => s
  | Panic => NewMemoryStorage
  end.

Definition fs_ay : SimFS.t :=
  {[ "a" := true; "a/x" := false; "a/y" := false; "b" := true; "b/x" := false ]}.

(** The task the planner emits for [MoveToRight] on the row of [a/y]:
    [Move] of the file into [b], no [TargetName]. *)
Definition task_Move_ay : FileActionTask.t :=
  FileActionTask.mk Move (Some 1%nat) None (Some "b") "" false.

(** The same move with the name spelled out. *)
Definition task_Move_ay_named : FileActionTask.t :=
  FileActionTask.mk Move (Some 1%nat) None (Some "b") "y" false.


(** A File object for [a/x] that was never added to the (empty) storage. *)
Definition storage_unstored : MemoryStorage.t :=
  fst (new_File NewMemoryStorage file_ax).


(** A tree with a hidden folder: [.git/config], [.git/.lock], [src/main.go]
    and [.DS_Store]. *)
Definition tree_git : node :=
  DirNode "."
    [ FileNode ".DS_Store" (Readable "h0" 1 10);
      DirNode ".git"
        [ FileNode ".lock" (Readable "h1" 2 20);
          FileNode "config" (Readable "h2" 3 30) ];
      DirNode "src" [ FileNode "main.go" (Readable "h3" 4 40) ] ].

Definition scanner_git : Scanner.t :=
  Scanner.mk [(".", RootTree tree_git)] NewMemoryStorage true [] 0.


(** The tree of scenario S2: [p/a/x], [q/b/x], [p/a/y], [q/b/y], where the
    two [x] have the same content and the two [y] have the same content. *)
Definition storage_S2 : MemoryStorage.t :=
  match (s ← AddNewFile NewMemoryStorage (File.mk "x" "p/a/x" "hx" 1 None 0);
         s ← AddNewFile s (File.mk "x" "q/b/x" "hx" 1 None 0);
         s ← AddNewFile s (File.mk "y" "p/a/y" "hy" 1 None 0);
         AddNewFile s (File.mk "y" "q/b/y" "hy" 1 None 0)) with
  | Ok s => s
  | Panic => NewMemoryStorage
  end.

(** A folder with a colon in its name: [a:b/x] and [c/x] have the same
    content. *)
Definition storage_colon : MemoryStorage.t :=
  match (s ← AddNewFile NewMemoryStorage (File.mk "x" "a:b/x" "hx" 1 None 0);
         AddNewFile s (File.mk "x" "c/x" "hx" 1 None 0)) with
  | Ok s => s
  | Panic => NewMemoryStorage
  end.

End Ex.

Definition res_map {A B : Type} (f : A -> B) (r : res A) : res B :=
  match r with Ok a => Ok (f a) | Panic => Panic end.

Definition wrap_count (sd : FolderSimilarity.t) : FolderSimilarity.t :=
  FolderSimilarity.mk (FolderSimilarity.Folder sd) (FolderSimilarity.FileCount sd)
    (wrap 64 (FolderSimilarity.DuplicateFileCount sd))
    (FolderSimilarity.DuplicateFiles sd).

Definition wrap_counts (m : pairmap) : pairmap :=
  (fun p => (wrap_count (fst p), wrap_count (snd p))) <$> m.

Definition wrap_state (st : arena * pairmap) : arena * pairmap :=
  (fst st, wrap_counts (snd st)).

(** The side of [A] in the pair of [A] and [B]: the first of the two
    pointers [getFolderSimilarity] returns. *)
Definition side_of (A B : string) (m : pairmap) : option FolderSimilarity.t :=
  match getFolderSimilarity A B m with
  | inl (x, _) => fs_get m x
  | inr _ => None
  end.

Definition side_at_least (m : pairmap) (A B : string) (n : Z) : Prop :=
  exists sd, side_of A B m = Some sd /\ FolderSimilarity.Folder sd = A /\
             (n <= FolderSimilarity.DuplicateFileCount sd)%Z.

Definition side_has (m : pairmap) (A B name : string) : Prop :=
  exists sd, side_of A B m = Some sd /\ FolderSimilarity.Folder sd = A /\
             is_Some (FolderSimilarity.DuplicateFiles sd !! name).

(** A side later in the run: the same folder, the names it had, and a
    count that has not gone down. *)
Definition side_le (sd sd' : FolderSimilarity.t) : Prop :=
  FolderSimilarity.Folder sd' = FolderSimilarity.Folder sd /\
  (FolderSimilarity.DuplicateFileCount sd <= FolderSimilarity.DuplicateFileCount sd')%Z /\
  (forall n, is_Some (FolderSimilarity.DuplicateFiles sd !! n) ->
             is_Some (FolderSimilarity.DuplicateFiles sd' !! n)).

Definition pm_le (m m' : pairmap) : Prop :=
  forall k s0 s1, m !! k = Some (s0, s1) ->
    exists s0' s1', m' !! k = Some (s0', s1') /\ side_le s0 s0' /\ side_le s1 s1'.

Definition nonneg (m : pairmap) : Prop :=
  forall r sd, fs_get m r = Some sd -> (0 <= FolderSimilarity.DuplicateFileCount sd)%Z.

Definition counted (m : pairmap) : Prop :=
  forall r sd, fs_get m r = Some sd ->
    FolderSimilarity.DuplicateFileCount sd =
      Z.of_nat (size (FolderSimilarity.DuplicateFiles sd)).

(** The folders from [cur] up its [Parent] pointers, to the folder of path
    [cp] and without it: the folders the loops of
    [calculateParentFolderSimilarity] visit.  [None]: the walk reaches a
    nil [Parent] (or a folder that is not in the arena), or does not end. *)
Fixpoint chain (fuel : nat) (ar : arena) (cp : string) (cur : option string)
  : option (list string) :=
  match fuel with
  | O => None
  | S n =>
      match cur with
      | None => None
      | Some c =>
          if String.eqb c cp then Some []
          else match ar !! c with
               | None => None
               | Some fo =>
                   match chain n ar cp (Folder.Parent fo) with
                   | Some l => Some (c :: l)
                   | None => None
                   end
               end
      end
  end.

Definition ancestors (ar : arena) (A cp : string) : option (list string) :=
  chain (chain_fuel ar) ar cp (Some A).

(** [a] comes before [b] in the list. *)
Fixpoint before (a b : addr) (l : list addr) : Prop :=
  match l with
  | [] => False
  | x :: r => (x = a /\ b ∈ r) \/ before a b r
  end.

(** A File of a matched group: it is on the heap and its [Parent] is a
    folder that satisfies [P]. *)
Definition file_ok (P : string -> Prop) (objs : heap) (a : addr) : Prop :=
  exists f p, objs !! a = Some f /\ File.Parent f = Some p /\ P p.

(** The loops of the first step have been through the pair of the files at
    [a] and [b]: when the two are in different folders, each is among the
    duplicates of its side of the pair of the two folders. *)
Definition visited (objs : heap) (a b : addr) (m : pairmap) : Prop :=
  forall f f' p p',
    objs !! a = Some f -> objs !! b = Some f' ->
    File.Parent f = Some p -> File.Parent f' = Some p' -> p <> p' ->
    side_has m p p' (File.Name f) /\ side_has m p' p (File.Name f').

Definition at_least (m : pairmap) (r : fsref) (n : Z) : Prop :=
  exists sd, fs_get m r = Some sd /\ (n <= FolderSimilarity.DuplicateFileCount sd)%Z.

(** The [Parent] pointers lead from every folder to the common parent of
    that folder and any other one, so the loops of
    [calculateParentFolderSimilarity] end; and the common parent of two
    folders with the same [Parent] is that parent. *)
Definition chains_ok (ar : arena) : Prop :=
  forall A B foA foB, ar !! A = Some foA -> ar !! B = Some foB -> A <> B ->
    exists cA cB,
      ancestors ar A (commonParent A B) = Some cA /\
      ancestors ar B (commonParent A B) = Some cB /\
      (Folder.Parent foA = Folder.Parent foB -> cA = [A] /\ cB = [B]).

(** The counts [n1] of the side of [A] and [n2] of the side of [B] have
    reached the pairs of the folders above [A] and [B]. *)
Definition propagated (ar : arena) (m : pairmap) (A B : string) (n1 n2 : Z) : Prop :=
  A <> B ->
  forall cA cB,
    ancestors ar A (commonParent A B) = Some cA ->
    ancestors ar B (commonParent A B) = Some cB ->
    forall A' B', A' ∈ cA -> B' ∈ cB -> A' <> B' ->
      side_at_least m A' B' n1 /\ side_at_least m B' A' n2.

(** Every File of a matched group is on the heap and has a [Parent]. *)
Definition groups_valid (s : MemoryStorage.t) : Prop :=
  map_Forall (fun (_ : string) g =>
                Forall (fun a => is_Some (MemoryStorage.objects s !! a ≫= File.Parent))
                  (MatchedFileGroup.Files g))
    (MemoryStorage.matchedFiles s).

(** The folder [A] has a file called [name] with a duplicate in the
    folder [B]: the two are in the same matched group. *)
Definition duplicated_in (s : MemoryStorage.t) (A B name : string) : Prop :=
  exists h g a b fa fb,
    MemoryStorage.matchedFiles s !! h = Some g /\
    a ∈ MatchedFileGroup.Files g /\ b ∈ MatchedFileGroup.Files g /\
    MemoryStorage.objects s !! a = Some fa /\ MemoryStorage.objects s !! b = Some fb /\
    File.Parent fa = Some A /\ File.Parent fb = Some B /\ File.Name fa = name.

(** [A] and [B] share the files of [A] with these (distinct) basenames. *)
Definition shares (s : MemoryStorage.t) (A B : string) (names : list string) : Prop :=
  NoDup names /\ Forall (duplicated_in s A B) names.

(** The check of [chains_ok] on a given arena. *)
Definition chains_okb (ar : arena) : bool :=
  forallb (fun '(A, foA) =>
    forallb (fun '(B, foB) =>
      String.eqb A B ||
      match ancestors ar A (commonParent A B), ancestors ar B (commonParent A B) with
      | Some cA, Some cB =>
          if decide (Folder.Parent foA = Folder.Parent foB)
          then bool_decide (cA = [A]) && bool_decide (cB = [B])
          else true
      | _, _ => false
      end) (map_to_list ar)) (map_to_list ar).

(** What scenario S2 expects of a pair: it is there, and both sides have
    two duplicates. *)
Definition pair_counts (m : pairmap) (A B : string) (n : Z) : Prop :=
  exists x y sx sy,
    getFolderSimilarity A B m = inl (x, y) /\
    fs_get m x = Some sx /\ fs_get m y = Some sy /\
    FolderSimilarity.Folder sx = A /\ FolderSimilarity.Folder sy = B /\
    FolderSimilarity.DuplicateFileCount sx = n /\
    FolderSimilarity.DuplicateFileCount sy = n.

(** The same as a check, and the check of scenario S2 for a given order of
    the matched groups: the first step leaves one pair, [p/a:q/b], and the
    second step is run on it. *)
Definition pair_countsb (m : pairmap) (A B : string) (n : Z) : bool :=
  match getFolderSimilarity A B m with
  | inl (x, y) =>
      match fs_get m x, fs_get m y with
      | Some sx, Some sy =>
          String.eqb (FolderSimilarity.Folder sx) A &&
          String.eqb (FolderSimilarity.Folder sy) B &&
          Z.eqb (FolderSimilarity.DuplicateFileCount sx) n &&
          Z.eqb (FolderSimilarity.DuplicateFileCount sy) n
      | _, _ => false
      end
  | inr _ => false
  end.

Definition S2_check (gs : list string) : bool :=
  match match_groups add64 (MemoryStorage.objects Ex.storage_S2)
          (GetMatchedFiles_in gs Ex.storage_S2)
          (MemoryStorage.folders Ex.storage_S2, ∅) with
  | Ok (ar1, folders) =>
      bool_decide (elements (dom folders) = ["p/a:q/b"]) &&
      match propagate_all add64 ["p/a:q/b"] (ar1, folders) with
      | Ok (_, pf) =>
          pair_countsb pf "p/a" "q/b" 2 && pair_countsb pf "p" "q" 2 &&
          pair_countsb pf "p/a" "q" 2
      | Panic => false
      end
  | Panic => false
  end.

Module ExPairs.

(** Six files with the same content: [a/w], [b:c/w], [a:b/w] and three
    files of [c].  The pairs of [a] with [b:c] and of [a:b] with [c] have
    the same key, [a:b:c]. *)
Definition storage_collide : MemoryStorage.t :=
  match add_all [File.mk "w" "a/w" "h" 1 None 0;
                 File.mk "w" "b:c/w" "h" 1 None 0;
                 File.mk "w" "a:b/w" "h" 1 None 0;
                 File.mk "u1" "c/u1" "h" 1 None 0;
                 File.mk "u2" "c/u2" "h" 1 None 0;
                 File.mk "u3" "c/u3" "h" 1 None 0] NewMemoryStorage with
  | Ok s => s
  | Panic => NewMemoryStorage
  end.

(** A folder nested [n] deep: [p], [p/a], [p/a/a], ...; each level has a
    file [f] with a content of its own, and [q] has a copy of each. *)
Fixpoint below (n : nat) : string :=
  match n with O => "" | S k => "/a" ++ below k end.

Fixpoint tag (n : nat) : string :=
  match n with O => "" | S k => "a" ++ tag k end.

Fixpoint deep_files (n : nat) : list File.t :=
  match n with
  | O => []
  | S k =>
      File.mk "f" ("p" ++ below k ++ "/f") (below k) 1 None 0 ::
      File.mk ("f" ++ tag k) ("q/f" ++ tag k) (below k) 1 None 0 :: deep_files k
  end.

Definition storage_deep : MemoryStorage.t :=
  match add_all (deep_files 64) NewMemoryStorage with
  | Ok s => s
  | Panic => NewMemoryStorage
  end.

Definition longer (a b : string) : Prop := (String.length b <= String.length a)%nat.

#[global] Instance longer_dec a b : Decision (longer a b).
Proof. unfold longer. apply _. Defined.

(** An order of the iteration over the direct pairs: the deepest first. *)
Definition order_deepest : RangeOrder :=
  mkRangeOrder elements (fun s => merge_sort longer (elements s)) elements.

(** The count of the side of [A] in the pair of [A] and [B], and the
    folder of that side. *)
Definition side_count (o : RangeOrder) (s : MemoryStorage.t) (A B : string)
  : option (string * Z) :=
  match CalculateSimilarity o s with
  | Ok (_, c) =>
      match side_of A B (SimilarityChecker.similarityFolderPairs c) with
      | Some sd => Some (FolderSimilarity.Folder sd, FolderSimilarity.DuplicateFileCount sd)
      | None => None
      end
  | Panic => None
  end.

End ExPairs.

(** A folder without its cached count. *)
Definition forget_cache (fo : Folder.t) : Folder.t := Folder.set_fileCountCache 0 fo.

(** Two arenas with the same folders, up to the cached counts. *)
Definition only_caches (ar ar' : arena) : Prop :=
  forget_cache <$> ar' = forget_cache <$> ar.

(** The actions on folders: [MoveFolder], [DeleteFolder] and
    [DeleteEmptyFolder]. *)
Definition folder_action (a : FileAction) : bool :=
  match a with
  | MoveFolder | DeleteFolder | DeleteEmptyFolder => true
  | Move | Delete => false
  end.

(** ** The merge plan (executor.go: MergeFilePair, MergeFolderPair) *)

Inductive MergeAction : Type :=
  | ActionNone
  | ActionDeleteRight
  | ActionDeleteLeft
  | ActionMoveToRight
  | ActionMoveToLeft.

#[global] Instance MergeAction_eq_dec : EqDecision MergeAction.
Proof. solve_decision. Defined.

Inductive MatchType : Type :=
  | MatchBothSide
  | MatchOnlyLeft
  | MatchOnlyRight.

Module MergeFilePair.
Record t : Type := mk {
  File1 : option addr;     (* *File *)
  File2 : option addr;     (* *File *)
  Action : MergeAction
}.
End MergeFilePair.

(** [MergeFilePair.SetAction]. *)
Definition MergeFilePair_SetAction (action : MergeAction) (m : MergeFilePair.t)
  : MergeFilePair.t :=
  let set a := MergeFilePair.mk (MergeFilePair.File1 m) (MergeFilePair.File2 m) a in
  if (bool_decide (action = ActionMoveToLeft) || bool_decide (action = ActionDeleteRight))
     && bool_decide (MergeFilePair.File2 m = None)
  then set ActionNone
  else if (bool_decide (action = ActionMoveToRight) || bool_decide (action = ActionDeleteLeft))
          && bool_decide (MergeFilePair.File1 m = None)
  then set ActionNone
  else if bool_decide (action = ActionMoveToLeft)
          && negb (bool_decide (MergeFilePair.File1 m = None))
  then set ActionDeleteRight
  else if bool_decide (action = ActionMoveToRight)
          && negb (bool_decide (MergeFilePair.File2 m = None))
  then set ActionDeleteLeft
  else set action.

(** The zero value [FileActionTask{}]: its action is [Move], the first of
    the constants. *)
Definition zero_task : FileActionTask.t :=
  FileActionTask.mk Move None None None "" false.

(** [var name string; if file != nil { name = file.Name }]. *)
Definition name_of (objs : heap) (p : option addr) : res string :=
  match p with
  | None => Ok ""
  | Some a => file ← deref (objs !! a); Ok (File.Name file)
  end.

(** [MergeFilePair.GetActionTask]; [folder1] and [folder2] are the
    [*FolderSimilarity] arguments, [None] for nil. *)
Definition MergeFilePair_GetActionTask (objs : heap) (m : MergeFilePair.t)
    (folder1 folder2 : option FolderSimilarity.t) : res FileActionTask.t :=
  match MergeFilePair.Action m with
  | ActionDeleteRight =>
      Ok (FileActionTask.mk Delete (MergeFilePair.File2 m) None None "" false)
  | ActionDeleteLeft =>
      Ok (FileActionTask.mk Delete (MergeFilePair.File1 m) None None "" false)
  | ActionMoveToRight =>
      name ← name_of objs (MergeFilePair.File2 m);
      sd2 ← deref folder2;
      Ok (FileActionTask.mk Move (MergeFilePair.File1 m) None
            (Some (FolderSimilarity.Folder sd2)) name false)
  | ActionMoveToLeft =>
      name ← name_of objs (MergeFilePair.File1 m);
      sd1 ← deref folder1;
      Ok (FileActionTask.mk Move (MergeFilePair.File2 m) None
            (Some (FolderSimilarity.Folder sd1)) name false)
  | ActionNone => Ok zero_task
  end.

(** The value of a [Folder1] or [Folder2] field, of type [interface{}]:
    nil, a [*FolderSimilarity] or a [*Folder] (each maybe nil). *)
Inductive folder_value : Type :=
  | NoValue
  | SimilarityValue (p : option FolderSimilarity.t)
  | FolderValue (p : option string).

Inductive MergeFolderPair : Type :=
  | mkMergeFolderPair (Folder1 Folder2 : folder_value) (Action : MergeAction)
      (matchType : MatchType) (FilePairs : list MergeFilePair.t)
      (FolderPairs : list MergeFolderPair).

Definition mfp_Folder1 (m : MergeFolderPair) : folder_value :=
  match m with mkMergeFolderPair f1 _ _ _ _ _ => f1 end.
Definition mfp_Folder2 (m : MergeFolderPair) : folder_value :=
  match m with mkMergeFolderPair _ f2 _ _ _ _ => f2 end.
Definition mfp_Action (m : MergeFolderPair) : MergeAction :=
  match m with mkMergeFolderPair _ _ a _ _ _ => a end.
Definition mfp_MatchType (m : MergeFolderPair) : MatchType :=
  match m with mkMergeFolderPair _ _ _ t _ _ => t end.
Definition mfp_FilePairs (m : MergeFolderPair) : list MergeFilePair.t :=
  match m with mkMergeFolderPair _ _ _ _ l _ => l end.
Definition mfp_FolderPairs (m : MergeFolderPair) : list MergeFolderPair :=
  match m with mkMergeFolderPair _ _ _ _ _ l => l end.

(** The action [MergeFolderPair.SetAction] stores for a pair of the given
    match type. *)
Definition folder_pair_action (t : MatchType) (action : MergeAction) : MergeAction :=
  match t with
  | MatchOnlyLeft =>
      if bool_decide (action = ActionMoveToLeft) || bool_decide (action = ActionDeleteRight)
      then ActionNone else action
  | MatchOnlyRight =>
      if bool_decide (action = ActionMoveToRight) || bool_decide (action = ActionDeleteLeft)
      then ActionNone else action
  | MatchBothSide => action
  end.

(** [MergeFolderPair.SetAction]. *)
Definition MergeFolderPair_SetAction (action : MergeAction) (m : MergeFolderPair)
  : MergeFolderPair :=
  mkMergeFolderPair (mfp_Folder1 m) (mfp_Folder2 m)
    (folder_pair_action (mfp_MatchType m) action) (mfp_MatchType m)
    (mfp_FilePairs m) (mfp_FolderPairs m).

(** The tasks of the loops over the matched pairs and over the files of
    one side only. *)
Definition delete_tasks (notDuplicate : bool) (files : list addr)
  : list FileActionTask.t :=
  List.map (fun a => FileActionTask.mk Delete (Some a) None None "" notDuplicate) files.

Definition move_tasks (target : string) (files : list addr) : list FileActionTask.t :=
  List.map (fun a => FileActionTask.mk Move (Some a) None (Some target) "" false) files.

Definition delete_empty_folder_task (folder : string) : FileActionTask.t :=
  FileActionTask.mk DeleteEmptyFolder None (Some folder) None "" false.

(** The file tasks and the last task of a pair matched on both sides, for
    its action. *)
Definition both_side_tasks (action : MergeAction)
    (r : list (addr * addr) * list addr * list addr)
    (folder1 folder2 : string) : list FileActionTask.t :=
  match action with
  | ActionDeleteRight =>
      (delete_tasks false (matched_of r).*2 ++ delete_tasks true (only2_of r)
       ++ [delete_empty_folder_task folder2])%list
  | ActionDeleteLeft =>
      (delete_tasks false (matched_of r).*1 ++ delete_tasks true (only1_of r)
       ++ [delete_empty_folder_task folder1])%list
  | ActionMoveToRight =>
      (delete_tasks false (matched_of r).*1 ++ move_tasks folder2 (only1_of r)
       ++ [delete_empty_folder_task folder1])%list
  | ActionMoveToLeft =>
      (delete_tasks false (matched_of r).*2 ++ move_tasks folder1 (only2_of r)
       ++ [delete_empty_folder_task folder2])%list
  | ActionNone => []
  end.

(** [MergeFolderPair.GetActionTask], for the pair [m] with [action] in its
    [Action] field.  The source sets the action of each pair of
    [FolderPairs] with [SetAction] and calls [GetActionTask] on it; here the
    action that [SetAction] stores is the argument of the recursive call.
    [folder1] and [folder2] are the [*FolderSimilarity] arguments, which
    only the pairs of one side read. *)
Fixpoint GetActionTask_with (sortSlice : heap -> list addr -> list addr)
    (s : MemoryStorage.t) (m : MergeFolderPair) (action : MergeAction)
    (folder1 folder2 : option FolderSimilarity.t) {struct m}
  : res (list FileActionTask.t) :=
  match m with
  | mkMergeFolderPair F1 F2 _ matchType _ folderPairs =>
      if bool_decide (action = ActionNone) then Ok []
      else
        match matchType with
        | MatchBothSide =>
            match F1, F2 with
            | SimilarityValue p1, SimilarityValue p2 =>
                sd1 ← deref p1;
                fo1 ← deref (MemoryStorage.folders s !! FolderSimilarity.Folder sd1);
                sd2 ← deref p2;
                fo2 ← deref (MemoryStorage.folders s !! FolderSimilarity.Folder sd2);
                let r := GetMatchedFilePairs sortSlice (MemoryStorage.objects s) fo1 fo2 in
                sub ←
                  (fix loop (l : list MergeFolderPair) : res (list FileActionTask.t) :=
                     match l with
                     | [] => Ok []
                     | child :: rest =>
                         t1 ← GetActionTask_with sortSlice s child
                                (folder_pair_action (mfp_MatchType child) action) p1 p2;
                         t2 ← loop rest;
                         Ok (t1 ++ t2)%list
                     end) folderPairs;
                Ok (sub ++ both_side_tasks action r (FolderSimilarity.Folder sd1)
                              (FolderSimilarity.Folder sd2))%list
            | _, _ => Ok []
            end
        | MatchOnlyLeft =>
            match F1 with
            | FolderValue p =>
                match action with
                | ActionDeleteLeft =>
                    Ok [FileActionTask.mk DeleteFolder None p None "" true]
                | ActionMoveToRight =>
                    sd2 ← deref folder2;
                    Ok [FileActionTask.mk MoveFolder None p
                          (Some (FolderSimilarity.Folder sd2)) "" false]
                | _ => Ok []
                end
            | _ => Ok []
            end
        | MatchOnlyRight =>
            match F2 with
            | FolderValue p =>
                match action with
                | ActionDeleteRight =>
                    Ok [FileActionTask.mk DeleteFolder None p None "" true]
                | ActionMoveToLeft =>
                    sd1 ← deref folder1;
                    Ok [FileActionTask.mk MoveFolder None p
                          (Some (FolderSimilarity.Folder sd1)) "" false]
                | _ => Ok []
                end
            | _ => Ok []
            end
        end
  end.

(** [MergeFolderPair.GetActionTask]. *)
Definition MergeFolderPair_GetActionTask (sortSlice : heap -> list addr -> list addr)
    (s : MemoryStorage.t) (m : MergeFolderPair)
    (folder1 folder2 : option FolderSimilarity.t) : res (list FileActionTask.t) :=
  GetActionTask_with sortSlice s m (mfp_Action m) folder1 folder2.

(** The tasks of the pairs of [FolderPairs], each with the action of the
    pair above set on it. *)
Fixpoint subfolder_tasks (sortSlice : heap -> list addr -> list addr)
    (s : MemoryStorage.t) (action : MergeAction)
    (folder1 folder2 : option FolderSimilarity.t) (l : list MergeFolderPair)
  : res (list FileActionTask.t) :=
  match l with
  | [] => Ok []
  | child :: rest =>
      t1 ← MergeFolderPair_GetActionTask sortSlice s
             (MergeFolderPair_SetAction action child) folder1 folder2;
      t2 ← subfolder_tasks sortSlice s action folder1 folder2 rest;
      Ok (t1 ++ t2)%list
  end.

(** The side a plan works on, and the other one. *)
Definition works_on_right (action : MergeAction) : bool :=
  match action with
  | ActionDeleteRight | ActionMoveToLeft => true
  | _ => false
  end.

Definition is_move (action : MergeAction) : bool :=
  match action with
  | ActionMoveToRight | ActionMoveToLeft => true
  | _ => false
  end.

Module ExPlan.
(** The pair of the folders [a] and [b] of [Ex.storage_ay], with the action
    "move to the right". *)
Definition pair_ab : MergeFolderPair :=
  mkMergeFolderPair
    (SimilarityValue (Some (FolderSimilarity.mk "a" 2 1 ∅)))
    (SimilarityValue (Some (FolderSimilarity.mk "b" 1 1 ∅)))
    ActionMoveToRight MatchBothSide [] [].
End ExPlan.

(** ** Invariants of the storage *)

(** The paths [GetFolder] takes for a root. *)
Definition is_root (p : string) : bool := String.eqb p "." || String.eqb p "/".

(** The folder stored under [p] is the folder of the path [p]: a root has
    no parent, and the parent of another folder is the folder of
    [filepath.Dir p], which is in the arena. *)
Definition folder_wf (ar : arena) (p : string) (fo : Folder.t) : Prop :=
  Folder.Path fo = p /\
  if is_root p then Folder.Parent fo = None /\ Folder.Name fo = p
  else Folder.Parent fo = Some (filepath.Dir p) /\
       Folder.Name fo = filepath.Base p /\
       is_Some (ar !! filepath.Dir p).

Definition arena_wf (ar : arena) : Prop := map_Forall (folder_wf ar) ar.

(** The [Parent] of a File is nil or the folder of the directory of its
    path, which is in the arena. *)
Definition file_wf (ar : arena) (f : File.t) : Prop :=
  forall p, File.Parent f = Some p ->
    p = filepath.Dir (File.Path f) /\ is_Some (ar !! p).

(** The hash map and the matched groups: a group has the hash it is stored
    under, at least two files and none twice; its files are File objects
    with that hash and a parent folder; the hash map has an entry for the
    hash, which is a file of the group.  The entry of the hash map for a
    hash is a File object with that hash and a parent folder. *)
Definition group_wf (s : MemoryStorage.t) (h : string) (g : MatchedFileGroup.t) : Prop :=
  MatchedFileGroup.Hash g = h /\
  (2 <= length (MatchedFileGroup.Files g))%nat /\
  NoDup (MatchedFileGroup.Files g) /\
  (forall a, a ∈ MatchedFileGroup.Files g ->
     exists f, MemoryStorage.objects s !! a = Some f /\ File.Hash f = h /\
               is_Some (File.Parent f)) /\
  (exists b, MemoryStorage.hashMap s !! h = Some b /\ b ∈ MatchedFileGroup.Files g).

Definition entry_wf (s : MemoryStorage.t) (h : string) (a : addr) : Prop :=
  exists f, MemoryStorage.objects s !! a = Some f /\ File.Hash f = h /\
            is_Some (File.Parent f).

Definition storage_wf (s : MemoryStorage.t) : Prop :=
  arena_wf (MemoryStorage.folders s) /\
  map_Forall (fun (_ : addr) f => file_wf (MemoryStorage.folders s) f)
    (MemoryStorage.objects s) /\
  map_Forall (group_wf s) (MemoryStorage.matchedFiles s) /\
  map_Forall (entry_wf s) (MemoryStorage.hashMap s).

(** The storages a program gets from [NewMemoryStorage] with [AddFile] on
    new File objects, [RemoveFile] on File objects of the storage, and
    [GetFileCount] on its folders (which is what [CalculateSimilarity] does
    to a storage). *)
Inductive reachable : MemoryStorage.t -> Prop :=
  | reachable_new : reachable NewMemoryStorage
  | reachable_add s f s' :
      reachable s -> AddNewFile s f = Ok s' -> reachable s'
  | reachable_remove s a s' err :
      reachable s -> RemoveFile s a = Ok (s', err) -> reachable s'
  | reachable_count s p :
      reachable s ->
      reachable (MemoryStorage.set_folders
                   (GetFileCount (chain_fuel (MemoryStorage.folders s))
                      (MemoryStorage.folders s) p).2 s).

(** The hash index is complete: a file that is in a folder is in the
    matched group of its hash when there is one, and is the entry of the
    hash map for its hash when there is none. *)
Definition index_complete (s : MemoryStorage.t) : Prop :=
  forall a f, MemoryStorage.objects s !! a = Some f -> is_Some (File.Parent f) ->
    match MemoryStorage.matchedFiles s !! File.Hash f with
    | Some g => a ∈ MatchedFileGroup.Files g
    | None => MemoryStorage.hashMap s !! File.Hash f = Some a
    end.

(** The storages a program gets when it calls [RemoveFile] only on files
    that are in a folder of the storage. *)
Inductive reachable_stored : MemoryStorage.t -> Prop :=
  | stored_new : reachable_stored NewMemoryStorage
  | stored_add s f s' :
      reachable_stored s -> AddNewFile s f = Ok s' -> reachable_stored s'
  | stored_remove s a file s' err :
      reachable_stored s ->
      MemoryStorage.objects s !! a = Some file -> is_Some (File.Parent file) ->
      RemoveFile s a = Ok (s', err) -> reachable_stored s'
  | stored_count s p :
      reachable_stored s ->
      reachable_stored (MemoryStorage.set_folders
                          (GetFileCount (chain_fuel (MemoryStorage.folders s))
                             (MemoryStorage.folders s) p).2 s).

(** The four files of scenario S2, in the order they are added. *)
Definition files_S2 : list File.t :=
  [File.mk "x" "p/a/x" "hx" 1 None 0; File.mk "x" "q/b/x" "hx" 1 None 0;
   File.mk "y" "p/a/y" "hy" 1 None 0; File.mk "y" "q/b/y" "hy" 1 None 0].

(** What a folder lists is its own.  A file of the [files] map of a folder
    is a File object with that folder as [Parent], stored under its name. *)
Definition files_wf (s : MemoryStorage.t) : Prop :=
  forall p fo n a,
    MemoryStorage.folders s !! p = Some fo -> Folder.files fo !! n = Some a ->
    exists f, MemoryStorage.objects s !! a = Some f /\
              File.Parent f = Some p /\ File.Name f = n.

(** A folder of the [Folders] map of a folder is a folder of the arena with
    that folder as [Parent], stored under its name. *)
Definition subfolders_wf (ar : arena) : Prop :=
  forall p fo n q,
    ar !! p = Some fo -> Folder.Folders fo !! n = Some q ->
    exists fq, ar !! q = Some fq /\
               Folder.Parent fq = Some p /\ Folder.Name fq = n.

Module ExRuns.

(** The files of [Ex.storage_ay], in the order they were added. *)
Definition files_ay : list File.t := [Ex.file_ax; Ex.file_ay; Ex.file_bx].

(** On the storage and filesystem of [a/x], [a/y] and [b/x]: [a/y] is
    moved into [b], then [a/x] is deleted. *)
Definition executor_move : Executor.t SimFS.t :=
  NewExecutor Ex.storage_ay Ex.fs_ay "."
    [Ex.task_Move_ay; FileActionTask.mk Delete (Some 0%nat) None None "" false] true.

(** The context is done at the fourth call of the walk function. *)
Definition cancelled_at_4 (n : nat) : bool := Nat.leb 3 n.

End ExRuns.

(** [above ar p q]: [q] is the folder [p] or a folder above it, along the
    [Parent] pointers. *)
Inductive above (ar : arena) : string -> string -> Prop :=
  | above_self p : above ar p p
  | above_parent p fo r q :
      ar !! p = Some fo -> Folder.Parent fo = Some r -> above ar r q ->
      above ar p q.

(** ** The file count of a folder and its cache *)

(** [Folder.GetFileCount] with the cache left out: the direct count of the
    folder plus the counts of its subfolders, in the order of
    [GetFolders]. *)
Fixpoint count (fuel : nat) (ar : arena) (f : string) : Z :=
  match fuel with
  | O => 0%Z
  | S n =>
      match ar !! f with
      | None => 0%Z
      | Some fo =>
          fold_left (fun (acc : Z) (child : string) => add64 acc (count n ar child))
            (GetFolders fo) (Folder.fileCount fo)
      end
  end.

Definition total (ar : arena) (f : string) : Z := count (chain_fuel ar) ar f.

(** Every cached count of [ar] is the count of the folder in [ar0], as an
    [int32]. *)
Definition coherent_with (ar0 ar : arena) : Prop :=
  forall p fo, ar !! p = Some fo -> Folder.fileCountCache fo <> 0%Z ->
    Folder.fileCountCache fo = wrap 32 (total ar0 p).

Definition coherent (ar : arena) : Prop := coherent_with ar ar.

(** Every count of the arena is an [int32]. *)
Definition fits (ar : arena) : Prop :=
  forall p, (- 2 ^ 31 <= total ar p < 2 ^ 31)%Z.

(** The [FileCount] of a side of a pair is the count of its folder in
    [ar0]: as an [int32], and itself when every count is an [int32]. *)
Definition side_counted (ar0 : arena) (sd : FolderSimilarity.t) : Prop :=
  wrap 32 (FolderSimilarity.FileCount sd) =
    wrap 32 (total ar0 (FolderSimilarity.Folder sd)) /\
  (fits ar0 -> FolderSimilarity.FileCount sd = total ar0 (FolderSimilarity.Folder sd)).

Definition pairs_counted (ar0 : arena) (m : pairmap) : Prop :=
  forall key p, m !! key = Some p -> side_counted ar0 (fst p) /\ side_counted ar0 (snd p).

(** The invariant of the loops of [CalculateSimilarity] on the storage
    [s0]: the arena is that of the storage up to the caches, which are
    right, and every side has the count of its folder. *)
Definition counted_state (s0 : MemoryStorage.t) (st : arena * pairmap) : Prop :=
  reachable (MemoryStorage.set_folders st.1 s0) /\
  only_caches (MemoryStorage.folders s0) st.1 /\
  pairs_counted (MemoryStorage.folders s0) st.2.

(** The File records a complete scan of a root adds, in the order of the
    walk. *)
Definition root_files (root : string * RootView) : list File.t :=
  match snd root with
  | RootTree d => scanned_files "." d
  | _ => []
  end.

Module ExPartial.

(** A [Delete] of the file at address 0. *)
Definition task_Delete_0 : FileActionTask.t :=
  FileActionTask.mk Delete (Some 0%nat) None None "" false.

(** A filesystem with nothing in it: every removal fails. *)
Definition fs_empty : SimFS.t := ∅.

End ExPartial.

Module ExNil.
(** A [DeleteFolder] task whose [Folder] is nil. *)
Definition task_nil : FileActionTask.t :=
  FileActionTask.mk DeleteFolder None None None "" false.

(** Three tasks on [Ex.fs_ab]: the first is absorbed ([b] is not empty),
    the second is the task with the nil [Folder], the third would remove
    [a]. *)
Definition executor_nil : Executor.t SimFS.t :=
  NewExecutor NewMemoryStorage Ex.fs_ab "."
    [Ex.task_DeleteEmptyFolder "b"; task_nil; Ex.task_DeleteEmptyFolder "a"] true.
End ExNil.

(** * Properties *)

(** ** Go strings *)

Lemma gtb_irrefl a : GoString.gtb a a = false.
Proof.
  unfold GoString.gtb, String.ltb.
  assert (H : String.compare a a = Eq) by (pose proof (String.compare_antisym a a) as H0; destruct (String.compare a a); simpl in H0; congruence).
  rewrite H. reflexivity.
Qed.

Lemma gtb_asym a b : GoString.gtb a b = true -> GoString.gtb b a = false.
Proof.
  unfold GoString.gtb, String.ltb. rewrite (String.compare_antisym b a).
  destruct (String.compare a b); simpl; congruence.
Qed.

Lemma gtb_total a b : GoString.gtb a b = false -> GoString.gtb b a = false -> a = b.
Proof.
  unfold GoString.gtb, String.ltb. rewrite (String.compare_antisym b a).
  destruct (String.compare a b) eqn:E; simpl; try congruence.
  intros _ _. apply String.compare_eq_iff in E. congruence.
Qed.

Lemma split_colon_nonempty s : GoString.split_colon s <> [].
Proof.
  induction s as [|c r IH]; simpl; [congruence|].
  destruct (Ascii.eqb c ":"%char); [congruence|].
  destruct (GoString.split_colon r); congruence.
Qed.

Lemma split_colon_no_colon s : GoString.has_colon s = false -> GoString.split_colon s = [s].
Proof.
  induction s as [|c r IH]; simpl; [reflexivity|].
  destruct (Ascii.eqb c ":"%char); simpl; [congruence|].
  intros H. rewrite (IH H). reflexivity.
Qed.

(** Splitting [a ++ ":" ++ b] when [a] has no colon: [a], then the
    fields of [b]. *)
Lemma split_colon_app a b :
  GoString.has_colon a = false ->
  GoString.split_colon (a ++ ":" ++ b) = a :: GoString.split_colon b.
Proof.
  induction a as [|c r IH]; simpl; [reflexivity|].
  destruct (Ascii.eqb c ":"%char) eqn:E; simpl; [congruence|].
  intros H. rewrite (IH H). reflexivity.
Qed.

Lemma split_colon_pair a b :
  GoString.has_colon a = false -> GoString.has_colon b = false ->
  GoString.split_colon (a ++ ":" ++ b) = [a; b].
Proof.
  intros Ha Hb. rewrite (split_colon_app a b Ha).
  rewrite (split_colon_no_colon b Hb). reflexivity.
Qed.

Lemma split_colon_length s : length (GoString.split_colon s) = S (GoString.count_colon s).
Proof.
  induction s as [|c r IH]; simpl; [reflexivity|].
  destruct (Ascii.eqb c ":"%char); simpl; [congruence|].
  destruct (GoString.split_colon r) eqn:E; simpl in *; congruence.
Qed.

Lemma count_colon_app a b :
  GoString.count_colon (a ++ b) = (GoString.count_colon a + GoString.count_colon b)%nat.
Proof. induction a as [|c r IH]; simpl; [reflexivity|]. rewrite IH. lia. Qed.

Lemma has_colon_count s : GoString.has_colon s = true <-> (0 < GoString.count_colon s)%nat.
Proof.
  induction s as [|c r IH]; simpl; [split; [congruence|lia]|].
  destruct (Ascii.eqb c ":"%char); simpl; [split; [lia|reflexivity]|].
  exact IH.
Qed.

(** The order of Go strings is a total order. *)
Lemma ascii_compare_refl c : Ascii.compare c c = Eq.
Proof. unfold Ascii.compare. apply N.compare_refl. Qed.

Lemma string_compare_refl a : String.compare a a = Eq.
Proof.
  induction a as [|c r IH]; simpl; [reflexivity|].
  rewrite ascii_compare_refl. exact IH.
Qed.

Lemma string_compare_lt_trans a b c :
  String.compare a b = Lt -> String.compare b c = Lt -> String.compare a c = Lt.
Proof.
  revert b c. induction a as [|x a IH]; intros [|y b] [|z c]; simpl; try congruence.
  destruct (Ascii.compare x y) eqn:Exy; try congruence.
  - apply Ascii.compare_eq_iff in Exy. subst y.
    destruct (Ascii.compare x z); try congruence. apply IH.
  - intros _. destruct (Ascii.compare y z) eqn:Eyz; try congruence.
    + apply Ascii.compare_eq_iff in Eyz. subst z. rewrite Exy. reflexivity.
    + intros _. unfold Ascii.compare in *.
      apply N.compare_lt_iff in Exy, Eyz.
      assert (H : (N_of_ascii x ?= N_of_ascii z)%N = Lt)
        by (apply N.compare_lt_iff; eapply N.lt_trans; eassumption).
      rewrite H. reflexivity.
Qed.

Lemma string_ltb_false_trans a b c :
  String.ltb b a = false -> String.ltb c b = false -> String.ltb c a = false.
Proof.
  unfold String.ltb. intros Hab Hbc.
  destruct (String.compare c a) eqn:Eca; try reflexivity.
  exfalso.
  destruct (String.compare b a) eqn:Eba; try congruence.
  - apply String.compare_eq_iff in Eba. subst b. rewrite Eca in Hbc. congruence.
  - destruct (String.compare c b) eqn:Ecb; try congruence.
    + apply String.compare_eq_iff in Ecb. subst c. congruence.
    + rewrite (String.compare_antisym b a) in Eba.
      rewrite (String.compare_antisym c b) in Ecb.
      destruct (String.compare a b) eqn:Eab; simpl in Eba; try congruence.
      destruct (String.compare b c) eqn:Ebc; simpl in Ecb; try congruence.
      pose proof (string_compare_lt_trans _ _ _ Eab Ebc) as Hac.
      rewrite (String.compare_antisym c a), Hac in Eca. simpl in Eca. congruence.
Qed.

Lemma string_ltb_false_antisym a b :
  String.ltb b a = false -> String.ltb a b = false -> a = b.
Proof. intros H1 H2. apply gtb_total; assumption. Qed.

Lemma string_ltb_false_total a b :
  String.ltb b a = false \/ String.ltb a b = false.
Proof.
  unfold String.ltb. rewrite (String.compare_antisym b a).
  destruct (String.compare a b); simpl; auto.
Qed.

Lemma string_ltb_irrefl a : String.ltb a a = false.
Proof. unfold String.ltb. rewrite string_compare_refl. reflexivity. Qed.

#[global] Instance hash_le_trans objs : Transitive (hash_le objs).
Proof.
  intros a b c. unfold hash_le, hash_less, GoString.ltb.
  apply string_ltb_false_trans.
Qed.

#[global] Instance hash_le_total objs : Total (hash_le objs).
Proof.
  intros a b. unfold hash_le, hash_less, GoString.ltb.
  apply string_ltb_false_total.
Qed.

Lemma mergeSortByHash_spec : SortSliceSpec mergeSortByHash.
Proof.
  intros objs l. unfold mergeSortByHash. split.
  - apply merge_sort_Permutation.
  - apply StronglySorted_merge_sort; apply _.
Qed.

(** ** Pair canonicalization *)

Lemma folderPairKey_sym a b : folderPairKey a b = folderPairKey b a.
Proof.
  unfold folderPairKey.
  destruct (GoString.gtb a b) eqn:Hab, (GoString.gtb b a) eqn:Hba; try reflexivity.
  - apply gtb_asym in Hab. congruence.
  - rewrite (gtb_total a b Hab Hba). reflexivity.
Qed.

Lemma folderPairKey_min_max a b :
  folderPairKey a b = str_min a b ++ ":" ++ str_max a b.
Proof.
  unfold folderPairKey, str_min, str_max, GoString.gtb, String.ltb, String.leb.
  rewrite (String.compare_antisym b a).
  destruct (String.compare a b); reflexivity.
Qed.

(** C8.  The key of [(a,b)] is the key of [(b,a)], namely
    [min(a,b) + ":" + max(a,b)]; and whichever way round the two sides of
    the pair of [a] and [b] are stored under that key, [getFolderSimilarity a b]
    returns the side of [a] first and the side of [b] second. *)
Theorem pair_canonicalization (a b : string) (folders : pairmap)
    (s0 s1 : FolderSimilarity.t) :
  folders !! folderPairKey a b = Some (s0, s1) ->
  (FolderSimilarity.Folder s0 = a /\ FolderSimilarity.Folder s1 = b) \/
  (FolderSimilarity.Folder s0 = b /\ FolderSimilarity.Folder s1 = a) ->
  folderPairKey a b = folderPairKey b a /\
  folderPairKey a b = str_min a b ++ ":" ++ str_max a b /\
  exists r1 r2 x y,
    getFolderSimilarity a b folders = inl (r1, r2) /\
    fs_get folders r1 = Some x /\ fs_get folders r2 = Some y /\
    FolderSimilarity.Folder x = a /\ FolderSimilarity.Folder y = b /\
    ((x = s0 /\ y = s1) \/ (x = s1 /\ y = s0)).
Proof.
  intros Hlk Hsides. split; [apply folderPairKey_sym|].
  split; [apply folderPairKey_min_max|].
  unfold getFolderSimilarity. rewrite Hlk. simpl.
  destruct (String.eqb_spec (FolderSimilarity.Folder s0) a) as [E|E].
  - exists (folderPairKey a b, Side0), (folderPairKey a b, Side1), s0, s1.
    unfold fs_get. simpl. rewrite Hlk. simpl.
    destruct Hsides as [[H0 H1]|[H0 H1]];
      repeat split; auto; congruence.
  - exists (folderPairKey a b, Side1), (folderPairKey a b, Side0), s1, s0.
    unfold fs_get. simpl. rewrite Hlk. simpl.
    destruct Hsides as [[H0 H1]|[H0 H1]]; [congruence|].
    repeat split; auto.
Qed.

(** The pair of ["a"] and ["b"] stored with the side of ["b"] first. *)
Lemma pair_canonicalization_witness :
  let sa := FolderSimilarity.mk "a" 1 1 ∅ in
  let sb := FolderSimilarity.mk "b" 1 1 ∅ in
  let folders : pairmap := {[ "a:b" := (sb, sa) ]} in
  folderPairKey "a" "b" = folderPairKey "b" "a" /\
  folderPairKey "a" "b" = str_min "a" "b" ++ ":" ++ str_max "a" "b" /\
  exists r1 r2 x y,
    getFolderSimilarity "a" "b" folders = inl (r1, r2) /\
    fs_get folders r1 = Some x /\ fs_get folders r2 = Some y /\
    FolderSimilarity.Folder x = "a" /\ FolderSimilarity.Folder y = "b" /\
    ((x = sb /\ y = sa) \/ (x = sa /\ y = sb)).
Proof.
  intros sa sb folders.
  apply (pair_canonicalization "a" "b" folders sb sa).
  - reflexivity.
  - right. split; reflexivity.
Defined.

(** ** GetMatchedFilePairs is a partition *)

Section MatchLoop.
Variable objs : heap.

Local Abbreviation h := (hash_of objs).

Lemma matchLoop_nil_l files2 : matchLoop objs [] files2 = ([], [], files2).
Proof.
  induction files2 as [|y r IH]; simpl; [reflexivity|].
  simpl in IH. rewrite IH. reflexivity.
Qed.

Lemma matchLoop_nil_r files1 : matchLoop objs files1 [] = ([], files1, []).
Proof.
  induction files1 as [|x r IH]; simpl; [reflexivity|].
  rewrite IH. reflexivity.
Qed.

Lemma matchLoop_cons x r1 y r2 :
  matchLoop objs (x :: r1) (y :: r2) =
    if String.eqb (h x) (h y)
    then add_matched (x, y) (matchLoop objs r1 r2)
    else if GoString.ltb (h x) (h y)
    then add_folder1Only x (matchLoop objs r1 (y :: r2))
    else add_folder2Only y (matchLoop objs (x :: r1) r2).
Proof. reflexivity. Qed.

(** Induction on the two slices, as the loop consumes them. *)
Lemma matchLoop_ind (P : list addr -> list addr ->
                         list (addr * addr) * list addr * list addr -> Prop) :
  (forall files2, P [] files2 ([], [], files2)) ->
  (forall files1, P files1 [] ([], files1, [])) ->
  (forall x r1 y r2, h x = h y ->
     P r1 r2 (matchLoop objs r1 r2) ->
     P (x :: r1) (y :: r2) (add_matched (x, y) (matchLoop objs r1 r2))) ->
  (forall x r1 y r2, h x <> h y -> GoString.ltb (h x) (h y) = true ->
     P r1 (y :: r2) (matchLoop objs r1 (y :: r2)) ->
     P (x :: r1) (y :: r2) (add_folder1Only x (matchLoop objs r1 (y :: r2)))) ->
  (forall x r1 y r2, h x <> h y -> GoString.ltb (h x) (h y) = false ->
     P (x :: r1) r2 (matchLoop objs (x :: r1) r2) ->
     P (x :: r1) (y :: r2) (add_folder2Only y (matchLoop objs (x :: r1) r2))) ->
  forall files1 files2, P files1 files2 (matchLoop objs files1 files2).
Proof.
  intros Hl Hr Hm H1 H2.
  induction files1 as [|x r1 IH1].
  - intros files2. rewrite matchLoop_nil_l. apply Hl.
  - induction files2 as [|y r2 IH2].
    + rewrite matchLoop_nil_r. apply Hr.
    + rewrite matchLoop_cons.
      destruct (String.eqb_spec (h x) (h y)) as [E|E].
      * apply Hm; [exact E | apply IH1].
      * destruct (GoString.ltb (h x) (h y)) eqn:L.
        -- apply H1; [exact E | exact L | apply IH1].
        -- apply H2; [exact E | exact L | apply IH2].
Qed.

(** Every file of each input ends up in exactly one place of its side. *)
Lemma matchLoop_perm files1 files2 :
  let r := matchLoop objs files1 files2 in
  Permutation ((matched_of r).*1 ++ only1_of r) files1 /\
  Permutation ((matched_of r).*2 ++ only2_of r) files2.
Proof.
  apply (matchLoop_ind (fun f1 f2 r =>
    Permutation ((matched_of r).*1 ++ only1_of r) f1 /\
    Permutation ((matched_of r).*2 ++ only2_of r) f2)); clear.
  - intros f2. simpl. split; reflexivity.
  - intros f1. simpl. split; reflexivity.
  - intros x r1 y r2 _ [IH1 IH2].
    destruct (matchLoop objs r1 r2) as [[m o1] o2]. simpl in *.
    split; constructor; assumption.
  - intros x r1 y r2 _ _ [IH1 IH2].
    destruct (matchLoop objs r1 (y :: r2)) as [[m o1] o2]. simpl in *.
    split; [|assumption].
    rewrite <- IH1. symmetry. apply Permutation_middle.
  - intros x r1 y r2 _ _ [IH1 IH2].
    destruct (matchLoop objs (x :: r1) r2) as [[m o1] o2]. simpl in *.
    split; [assumption|].
    rewrite <- IH2. symmetry. apply Permutation_middle.
Qed.

Lemma matchLoop_count files1 files2 :
  let r := matchLoop objs files1 files2 in
  (2 * length (matched_of r) + length (only1_of r) + length (only2_of r)
   = length files1 + length files2)%nat.
Proof.
  intros r. destruct (matchLoop_perm files1 files2) as [P1 P2]. fold r in P1, P2.
  apply Permutation_length in P1, P2.
  rewrite length_app, length_fmap in P1, P2. lia.
Qed.

Lemma matchLoop_hash_eq files1 files2 :
  Forall (fun p => h (fst p) = h (snd p)) (matched_of (matchLoop objs files1 files2)).
Proof.
  apply (matchLoop_ind (fun _ _ r =>
    Forall (fun p => h (fst p) = h (snd p)) (matched_of r))); clear.
  - intros. constructor.
  - intros. constructor.
  - intros x r1 y r2 E IH.
    destruct (matchLoop objs r1 r2) as [[m o1] o2]. simpl in *.
    constructor; assumption.
  - intros x r1 y r2 _ _ IH.
    destruct (matchLoop objs r1 (y :: r2)) as [[m o1] o2]. exact IH.
  - intros x r1 y r2 _ _ IH.
    destruct (matchLoop objs (x :: r1) r2) as [[m o1] o2]. exact IH.
Qed.

End MatchLoop.

Section MatchLoopOrder.
Variable objs : heap.

(** The results keep the order of the sorted inputs. *)
Lemma matchLoop_sublist files1 files2 :
  let r := matchLoop objs files1 files2 in
  (matched_of r).*1 `sublist_of` files1 /\ only1_of r `sublist_of` files1 /\
  (matched_of r).*2 `sublist_of` files2 /\ only2_of r `sublist_of` files2.
Proof.
  apply (matchLoop_ind objs (fun f1 f2 r =>
    (matched_of r).*1 `sublist_of` f1 /\ only1_of r `sublist_of` f1 /\
    (matched_of r).*2 `sublist_of` f2 /\ only2_of r `sublist_of` f2)).
  - intros f2. simpl. repeat split; try reflexivity; apply sublist_nil_l.
  - intros f1. simpl. repeat split; try reflexivity; apply sublist_nil_l.
  - intros x r1 y r2 _ (A & B & C & D).
    destruct (matchLoop objs r1 r2) as [[m o1] o2]. simpl in *.
    repeat split; try (apply sublist_skip; assumption);
      apply sublist_cons; assumption.
  - intros x r1 y r2 _ _ (A & B & C & D).
    destruct (matchLoop objs r1 (y :: r2)) as [[m o1] o2]. simpl in *.
    repeat split; try assumption;
      [apply sublist_cons | apply sublist_skip]; assumption.
  - intros x r1 y r2 _ _ (A & B & C & D).
    destruct (matchLoop objs (x :: r1) r2) as [[m o1] o2]. simpl in *.
    repeat split; try assumption;
      [apply sublist_cons | apply sublist_skip]; assumption.
Qed.

Lemma StronglySorted_sublist {A} (R : relation A) (l1 l2 : list A) :
  l1 `sublist_of` l2 -> StronglySorted R l2 -> StronglySorted R l1.
Proof.
  induction 1 as [|x l1 l2 Hs IH|x l1 l2 Hs IH]; intros HS.
  - constructor.
  - apply StronglySorted_inv in HS as [HS HF]. constructor; [auto|].
    eapply Forall_forall. intros z Hz.
    eapply (proj1 (Forall_forall _ _) HF). eapply sublist_subseteq; eassumption.
  - apply StronglySorted_inv in HS as [HS HF]. auto.
Qed.

End MatchLoopOrder.

(** C4.  [GetMatchedFilePairs] splits the direct files of the two folders:
    the counts add up, each file of a folder is exactly once among the
    matched files of its side and the files only on its side, no file is in
    two places when the two folders hold different files, the two files of a
    matched pair have the same fingerprint, and the matched pairs and the two
    one-sided lists are in ascending order of fingerprint. *)
Theorem GetMatchedFilePairs_partition
    (sortSlice : heap -> list addr -> list addr) (objs : heap)
    (folder1 folder2 : Folder.t) :
  SortSliceSpec sortSlice ->
  let r := GetMatchedFilePairs sortSlice objs folder1 folder2 in
  let matched := matched_of r in
  let only1 := only1_of r in
  let only2 := only2_of r in
  (2 * length matched + length only1 + length only2
   = length (GetFiles folder1) + length (GetFiles folder2))%nat /\
  Permutation (matched.*1 ++ only1) (GetFiles folder1) /\
  Permutation (matched.*2 ++ only2) (GetFiles folder2) /\
  (NoDup (GetFiles folder1 ++ GetFiles folder2) ->
   NoDup (matched.*1 ++ matched.*2 ++ only1 ++ only2)) /\
  Forall (fun p => hash_of objs (fst p) = hash_of objs (snd p)) matched /\
  StronglySorted (hash_le objs) matched.*1 /\
  StronglySorted (hash_le objs) matched.*2 /\
  StronglySorted (hash_le objs) only1 /\
  StronglySorted (hash_le objs) only2.
Proof.
  intros Hsort r matched only1 only2.
  destruct (Hsort objs (GetFiles folder1)) as [P1 S1].
  destruct (Hsort objs (GetFiles folder2)) as [P2 S2].
  set (files1 := sortSlice objs (GetFiles folder1)) in *.
  set (files2 := sortSlice objs (GetFiles folder2)) in *.
  assert (Hr : r = matchLoop objs files1 files2) by reflexivity.
  destruct (matchLoop_perm objs files1 files2) as [Q1 Q2].
  pose proof (matchLoop_count objs files1 files2) as Hc.
  pose proof (matchLoop_hash_eq objs files1 files2) as Hh.
  destruct (matchLoop_sublist objs files1 files2) as (U1 & U2 & U3 & U4).
  simpl in Q1, Q2, Hc. rewrite <- Hr in *.
  fold matched only1 only2 in Q1, Q2, Hc, Hh, U1, U2, U3, U4.
  split; [|split; [|split; [|split; [|split]]]].
  - rewrite <- (Permutation_length P1), <- (Permutation_length P2). exact Hc.
  - rewrite Q1. exact P1.
  - rewrite Q2. exact P2.
  - intros Hnd.
    assert (E : Permutation (matched.*1 ++ matched.*2 ++ only1 ++ only2)
                            (GetFiles folder1 ++ GetFiles folder2)).
    { rewrite <- P1, <- P2, <- Q1, <- Q2.
      rewrite <- !app_assoc. apply Permutation_app_head.
      rewrite !app_assoc. apply Permutation_app_tail.
      apply Permutation_app_comm. }
    rewrite E. exact Hnd.
  - exact Hh.
  - repeat split; eapply StronglySorted_sublist; eassumption.
Qed.

Lemma GetMatchedFilePairs_partition_witness :
  let r := GetMatchedFilePairs mergeSortByHash Ex.objs4 Ex.folder_a Ex.folder_b in
  r = ([(0%nat, 2%nat)], [1%nat], [3%nat]) /\
  (2 * length (matched_of r) + length (only1_of r) + length (only2_of r)
   = length (GetFiles Ex.folder_a) + length (GetFiles Ex.folder_b))%nat /\
  Permutation ((matched_of r).*1 ++ only1_of r) (GetFiles Ex.folder_a) /\
  Permutation ((matched_of r).*2 ++ only2_of r) (GetFiles Ex.folder_b) /\
  (NoDup (GetFiles Ex.folder_a ++ GetFiles Ex.folder_b) ->
   NoDup ((matched_of r).*1 ++ (matched_of r).*2 ++ only1_of r ++ only2_of r)) /\
  Forall (fun p => hash_of Ex.objs4 (fst p) = hash_of Ex.objs4 (snd p)) (matched_of r) /\
  StronglySorted (hash_le Ex.objs4) (matched_of r).*1 /\
  StronglySorted (hash_le Ex.objs4) (matched_of r).*2 /\
  StronglySorted (hash_le Ex.objs4) (only1_of r) /\
  StronglySorted (hash_le Ex.objs4) (only2_of r).
Proof.
  split; [vm_compute; reflexivity|].
  apply (GetMatchedFilePairs_partition mergeSortByHash Ex.objs4 Ex.folder_a Ex.folder_b).
  exact mergeSortByHash_spec.
Defined.

(** ** DeleteEmptyFolder *)

Lemma isEmpty_hidden entries :
  isEmpty entries = true <-> Forall hidden_file entries.
Proof.
  induction entries as [|e r IH]; simpl.
  - split; [constructor | reflexivity].
  - unfold hidden_file at 1.
    destruct (String.eqb_spec (entry_Name e) ".") as [E1|E1]; simpl.
    { rewrite IH. split; [intros; constructor; auto | intros HF; inversion HF; auto]. }
    destruct (String.eqb_spec (entry_Name e) "..") as [E2|E2]; simpl.
    { rewrite IH. split; [intros; constructor; auto | intros HF; inversion HF; auto]. }
    destruct (entry_IsDir e) eqn:ED.
    { split; [congruence|]. intros HF. inversion HF as [|? ? Hh _]; subst.
      destruct Hh as [?|[?|[? _]]]; congruence. }
    destruct (GoString.starts_with_dot (entry_Name e)) eqn:EH; simpl.
    { rewrite IH. split; [intros; constructor; auto | intros HF; inversion HF; auto]. }
    split; [congruence|]. intros HF. inversion HF as [|? ? Hh _]; subst.
    destruct Hh as [?|[?|[_ ?]]]; congruence.
Qed.

Lemma isEmpty_visible entries :
  isEmpty entries = false <-> Exists visible_entry entries.
Proof.
  induction entries as [|e r IH]; simpl.
  - split; [congruence | intros HE; inversion HE].
  - rewrite Exists_cons, <- IH. unfold visible_entry.
    destruct (String.eqb_spec (entry_Name e) ".") as [E1|E1]; simpl.
    { split; [auto | intros [(? & _)|?]; [congruence | auto]]. }
    destruct (String.eqb_spec (entry_Name e) "..") as [E2|E2]; simpl.
    { split; [auto | intros [(_ & ? & _)|?]; [congruence | auto]]. }
    destruct (entry_IsDir e) eqn:ED.
    { split; [intros _; left; auto | reflexivity]. }
    destruct (GoString.starts_with_dot (entry_Name e)) eqn:EH; simpl.
    { split; [auto | intros [(_ & _ & [?|?])|?]; [congruence | congruence | auto]]. }
    split; [intros _; left; auto | reflexivity].
Qed.

(** C7.  For a [DeleteEmptyFolder] task on a folder that can be opened and
    listed: the folder counts as empty exactly when every entry other than
    "." and ".." is a non-directory whose name starts with a dot; then the
    task removes the folder ([RemoveAll]) and returns nil; and when some
    entry is a subdirectory, hidden or not, or a file that is not hidden, the
    task returns the sentinel [ErrNotEmptyFolder] and leaves the filesystem
    and the storage as they were. *)
Theorem DeleteEmptyFolder_policy {FS : Type} `{FileSystem FS}
    (s : MemoryStorage.t) (fs fs' : FS) (task : FileActionTask.t)
    (path : string) (entries : list DirEntry) :
  FileActionTask.Action task = DeleteEmptyFolder ->
  FileActionTask.Folder task = Some path ->
  root_Open fs path = None ->
  dir_Readdir fs path = inl entries ->
  root_RemoveAll fs path = (fs', None) ->
  (isEmpty entries = true <-> Forall hidden_file entries) /\
  (Forall hidden_file entries ->
   ExecuteFileActionTask s fs task = Ok (s, fs', None)) /\
  (Exists visible_entry entries ->
   ExecuteFileActionTask s fs task = Ok (s, fs, Some ErrNotEmptyFolder)).
Proof.
  intros HA HF HO HR HRA.
  split; [apply isEmpty_hidden|].
  unfold ExecuteFileActionTask, RemoveEmptyFolder.
  rewrite HA, HF, HO, HR. split.
  - intros Hh. apply isEmpty_hidden in Hh. rewrite Hh. simpl.
    rewrite HRA. reflexivity.
  - intros Hv. apply isEmpty_visible in Hv. rewrite Hv. reflexivity.
Qed.

Lemma DeleteEmptyFolder_policy_witness :
  let entries := [mkDirEntry ".DS_Store" false] in
  let fs' : SimFS.t := {[ "b" := true; "b/x" := false; "b/c" := true; "b/c/y" := false ]} in
  (isEmpty entries = true <-> Forall hidden_file entries) /\
  (Forall hidden_file entries ->
   ExecuteFileActionTask NewMemoryStorage Ex.fs_ab (Ex.task_DeleteEmptyFolder "a")
   = Ok (NewMemoryStorage, fs', None)) /\
  (Exists visible_entry entries ->
   ExecuteFileActionTask NewMemoryStorage Ex.fs_ab (Ex.task_DeleteEmptyFolder "a")
   = Ok (NewMemoryStorage, Ex.fs_ab, Some ErrNotEmptyFolder)).
Proof.
  intros entries fs'.
  apply (DeleteEmptyFolder_policy NewMemoryStorage Ex.fs_ab fs'
           (Ex.task_DeleteEmptyFolder "a") "a" entries).
  - reflexivity.
  - reflexivity.
  - vm_compute. reflexivity.
  - vm_compute. reflexivity.
  - vm_compute. reflexivity.
Defined.

(** The same task on a folder with a subfolder and a visible file. *)
Example DeleteEmptyFolder_not_empty :
  ExecuteFileActionTask NewMemoryStorage Ex.fs_ab (Ex.task_DeleteEmptyFolder "b")
  = Ok (NewMemoryStorage, Ex.fs_ab, Some ErrNotEmptyFolder).
Proof. vm_compute. reflexivity. Qed.

(** ** The executor *)

Section ExecuteFacts.
Context {FS : Type} `{FileSystem FS}.
Variable sched : Schedule.

(** The loop over [pre ++ rest] is the loop over [pre], then, unless it
    stopped, the loop over [rest]. *)
Lemma Execute_loop_app total pre rest : forall i (e : Executor.t FS),
  Execute_loop sched total i (pre ++ rest) e =
    '(e1, err) ← Execute_loop sched total i pre e;
    match err with
    | Some er => Ok (e1, Some er)
    | None => Execute_loop sched total (i + length pre) rest e1
    end.
Proof.
  induction pre as [|t pre IH]; intros i e; simpl.
  - rewrite Nat.add_0_r. reflexivity.
  - destruct (sched_cancelled sched i); [reflexivity|].
    destruct (run_task total i t (Executor.storage e) (Executor.root e))
      as [[[[s1 fs1] u] err]|]; simpl; [|reflexivity].
    destruct err as [er|]; [reflexivity|].
    rewrite IH. replace (S i + length pre)%nat with (i + S (length pre))%nat by lia.
    reflexivity.
Qed.

Lemma Execute_loop_cons total i task rest (e : Executor.t FS) :
  Execute_loop sched total i (task :: rest) e =
    if sched_cancelled sched i then Ok (e, Some ErrCanceled)
    else
      '(s1, fs1, u, err) ←
        run_task total i task (Executor.storage e) (Executor.root e);
      let e3 := report sched i u err (set_world s1 fs1 e) in
      match err with
      | Some er => Ok (e3, Some er)
      | None => Execute_loop sched total (S i) rest e3
      end.
Proof. reflexivity. Qed.

Lemma report_fields i u err (e : Executor.t FS) :
  Executor.storage (report sched i u err e) = Executor.storage e /\
  Executor.root (report sched i u err e) = Executor.root e /\
  Executor.logger (report sched i u err e) = Executor.logger e /\
  Executor.tasks (report sched i u err e) = Executor.tasks e.
Proof.
  unfold report, log_add, chan_try_send, chan_recv. simpl.
  destruct (Nat.ltb _ _); simpl;
    destruct err; destruct (Executor.logger e); simpl; auto.
Qed.

Lemma Execute_loop_logger total rest : forall i (e e' : Executor.t FS) err,
  Execute_loop sched total i rest e = Ok (e', err) ->
  Executor.logger e' = Executor.logger e.
Proof.
  induction rest as [|t rest IH]; intros i e e' err.
  - intros [= <- _]. reflexivity.
  - rewrite Execute_loop_cons.
    destruct (sched_cancelled sched i); [intros [= <- _]; reflexivity|].
    destruct (run_task total i t (Executor.storage e) (Executor.root e))
      as [[[[s1 fs1] u] er]|]; [|discriminate].
    destruct (report_fields i u er (set_world s1 fs1 e)) as (_ & _ & L & _).
    cbn [mbind res_bind].
    destruct er as [er|].
    + intros [= <- _]. exact L.
    + intros Hl. apply IH in Hl. rewrite Hl. exact L.
Qed.

Lemma run_task_error total i task s (fs : FS) s1 fs1 er msg :
  ExecuteFileActionTask s fs task = Ok (s1, fs1, Some er) ->
  FileActionTask_String s1 task = Ok msg ->
  run_task total i task s fs =
    if IsNotEmptyFolder er
    then Ok (s1, fs1,
             ProgressUpdate.mk (Z.of_nat i + 1) total (msg ++ " (folder is not empty)"),
             None)
    else Ok (s1, fs1, ProgressUpdate.mk (Z.of_nat i + 1) total msg, Some er).
Proof.
  intros HE HS. unfold run_task. rewrite HE. simpl. rewrite HS. simpl.
  destruct (IsNotEmptyFolder er); reflexivity.
Qed.

End ExecuteFacts.

(** The error handling of [Execute] for a failing task whose message
    [task.String()] can be built.  In a run of [Execute], when the tasks
    before [task] have run and [task] fails with an error [er] and has the
    message [msg]: if [er] is the [NotEmptyFolder]
    sentinel, the message of the task gets the suffix
    " (folder is not empty)", is logged as a success, and the run goes on
    with the next task; any other error is logged with [Error], [Execute]
    returns it, and the storage and the filesystem stay as the failing task
    left them: no later task is executed. *)
Theorem Execute_error_handling {FS : Type} `{FileSystem FS}
    (sched : Schedule) (e e_pre : Executor.t FS)
    (pre rest : list FileActionTask.t) (task : FileActionTask.t)
    (s1 : MemoryStorage.t) (fs1 : FS) (er : error) (msg : string) :
  os_OpenRoot (Executor.root e) (Executor.rootPath e) = None ->
  Executor.tasks e = (pre ++ task :: rest)%list ->
  Execute_loop sched (Z.of_nat (length (Executor.tasks e))) 0 pre e = Ok (e_pre, None) ->
  sched_cancelled sched (length pre) = false ->
  ExecuteFileActionTask (Executor.storage e_pre) (Executor.root e_pre) task
    = Ok (s1, fs1, Some er) ->
  FileActionTask_String s1 task = Ok msg ->
  let i := length pre in
  let total := Z.of_nat (length (Executor.tasks e)) in
  let e1 := chan_recv (sched_recv sched i) (set_world s1 fs1 e_pre) in
  (IsNotEmptyFolder er = true ->
   let message := msg ++ " (folder is not empty)" in
   let e3 := log_add (LogInfo ("Executed task: " ++ message))
               (chan_try_send (ProgressUpdate.mk (Z.of_nat i + 1) total message) e1) in
   Execute sched e = Execute_finish (Execute_loop sched total (S i) rest e3)) /\
  (IsNotEmptyFolder er = false ->
   let e3 := log_add (LogError (error_message er))
               (chan_try_send (ProgressUpdate.mk (Z.of_nat i + 1) total msg) e1) in
   Execute sched e = Ok (e3, Some er) /\
   Executor.storage e3 = s1 /\ Executor.root e3 = fs1 /\
   (Executor.logger e = true ->
    Executor.log e3 = (Executor.log e_pre ++ [LogError (error_message er)])%list)).
Proof.
  intros HO HT Hpre Hc HE HS i total e1.
  assert (Hrun : Execute sched e =
            Execute_finish (Execute_loop sched total i (task :: rest) e_pre)).
  { unfold Execute. rewrite HO. fold total. rewrite HT.
    rewrite Execute_loop_app. unfold total. rewrite Hpre. simpl. reflexivity. }
  rewrite Hrun, Execute_loop_cons. subst i. rewrite Hc.
  rewrite (run_task_error total (length pre) task _ _ s1 fs1 er msg HE HS).
  split.
  - intros Ha. rewrite Ha. simpl. reflexivity.
  - intros Ha. rewrite Ha. simpl. split; [reflexivity|].
    assert (Hlog : forall l (x : Executor.t FS),
              Executor.storage (log_add l x) = Executor.storage x /\
              Executor.root (log_add l x) = Executor.root x /\
              Executor.logger (log_add l x) = Executor.logger x).
    { intros l x. unfold log_add. destruct (Executor.logger x) eqn:E; simpl; auto. }
    assert (Hsend : forall u (x : Executor.t FS),
              Executor.storage (chan_try_send u x) = Executor.storage x /\
              Executor.root (chan_try_send u x) = Executor.root x /\
              Executor.logger (chan_try_send u x) = Executor.logger x /\
              Executor.log (chan_try_send u x) = Executor.log x).
    { intros u x. unfold chan_try_send.
      destruct (Nat.ltb _ _); simpl; auto. }
    set (u := ProgressUpdate.mk (Z.of_nat (length pre) + 1) total msg).
    destruct (Hlog (LogError (error_message er)) (chan_try_send u e1)) as (L1 & L2 & L3).
    destruct (Hsend u e1) as (S1 & S2 & S3 & S4).
    rewrite L1, L2, S1, S2. simpl. repeat split.
    intros Hlg. unfold log_add. rewrite S3. simpl.
    rewrite (Execute_loop_logger sched _ _ _ _ _ _ Hpre), Hlg. simpl.
    rewrite S4. reflexivity.
Qed.

(** A run of three tasks: the first is absorbed, the second fails, the third
    (which would remove [a]) is never executed. *)
Example Execute_three_tasks :
  exists e',
    Execute Ex.sched_idle Ex.executor3 = Ok (e', Some (ErrOS "directory not empty")) /\
    Executor.log e' =
      [LogInfo "Executed task: Delete empty folder: b (folder is not empty)";
       LogError "directory not empty"] /\
    records_received e' =
      [ProgressUpdate.mk 1 3 "Delete empty folder: b (folder is not empty)";
       ProgressUpdate.mk 2 3 "Delete folder: b"] /\
    Executor.root e' = Ex.fs_ab /\
    Executor.done e' = false.
Proof. eexists. vm_compute. repeat split; reflexivity. Qed.

Lemma Execute_error_handling_witness :
  let e := Ex.executor3 in
  let sched := Ex.sched_idle in
  let task := Ex.task_DeleteFolder "b" in
  let rest := [Ex.task_DeleteEmptyFolder "a"] in
  let er := ErrOS "directory not empty" in
  let msg := "Delete folder: b" in
  let e_pre :=
    match Execute_loop sched 3 0 [Ex.task_DeleteEmptyFolder "b"] e with
    | Ok (e', _) => e'
    | Panic => e
    end in
  let e1 := chan_recv 0 (set_world NewMemoryStorage Ex.fs_ab e_pre) in
  (IsNotEmptyFolder er = true ->
   let message := msg ++ " (folder is not empty)" in
   let e3 := log_add (LogInfo ("Executed task: " ++ message))
               (chan_try_send (ProgressUpdate.mk 2 3 message) e1) in
   Execute sched e = Execute_finish (Execute_loop sched 3 2 rest e3)) /\
  (IsNotEmptyFolder er = false ->
   let e3 := log_add (LogError (error_message er))
               (chan_try_send (ProgressUpdate.mk 2 3 msg) e1) in
   Execute sched e = Ok (e3, Some er) /\
   Executor.storage e3 = NewMemoryStorage /\ Executor.root e3 = Ex.fs_ab /\
   (Executor.logger e = true ->
    Executor.log e3 = (Executor.log e_pre ++ [LogError (error_message er)])%list)).
Proof.
  intros e sched task rest er msg e_pre e1.
  apply (Execute_error_handling sched e e_pre [Ex.task_DeleteEmptyFolder "b"] rest
           task NewMemoryStorage Ex.fs_ab er msg).
  - reflexivity.
  - reflexivity.
  - vm_compute. reflexivity.
  - reflexivity.
  - vm_compute. reflexivity.
  - reflexivity.
Defined.

(** ** Progress records *)

Section Progress.
Context {FS : Type} `{FileSystem FS}.
Variable sched : Schedule.

Lemma records_received_log_add l (x : Executor.t FS) :
  records_received (log_add l x) = records_received x /\
  Executor.progressChan (log_add l x) = Executor.progressChan x.
Proof. unfold log_add. destruct (Executor.logger x); auto. Qed.

Lemma records_received_recv n (x : Executor.t FS) :
  records_received (chan_recv n x) = records_received x /\
  (length (Executor.progressChan (chan_recv n x))
   <= length (Executor.progressChan x))%nat.
Proof.
  unfold records_received, chan_recv. simpl.
  rewrite <- app_assoc, take_drop. split; [reflexivity|].
  rewrite length_drop. lia.
Qed.

Lemma records_received_try_send u (x : Executor.t FS) :
  (records_received (chan_try_send u x) = records_received x \/
   records_received (chan_try_send u x) = (records_received x ++ [u])%list) /\
  (length (Executor.progressChan (chan_try_send u x))
   <= S (length (Executor.progressChan x)))%nat /\
  ((length (Executor.progressChan x) < progressChanCap)%nat ->
   records_received (chan_try_send u x) = (records_received x ++ [u])%list).
Proof.
  unfold chan_try_send.
  destruct (Nat.ltb_spec (length (Executor.progressChan x)) progressChanCap)
    as [Hlt|Hge].
  - unfold records_received. simpl. rewrite app_assoc, length_app. simpl.
    repeat split; auto. lia.
  - repeat split; auto. intros Hroom. lia.
Qed.

Lemma records_received_report i u err (e : Executor.t FS) :
  (records_received (report sched i u err e) = records_received e \/
   records_received (report sched i u err e) = (records_received e ++ [u])%list) /\
  (length (Executor.progressChan (report sched i u err e))
   <= S (length (Executor.progressChan e)))%nat /\
  ((length (Executor.progressChan e) < progressChanCap)%nat ->
   records_received (report sched i u err e) = (records_received e ++ [u])%list).
Proof.
  destruct (records_received_recv (sched_recv sched i) e) as [R1 R2].
  destruct (records_received_try_send u (chan_recv (sched_recv sched i) e))
    as (T1 & T2 & T3).
  assert (Hrep : records_received (report sched i u err e)
                 = records_received (chan_try_send u (chan_recv (sched_recv sched i) e)) /\
                 Executor.progressChan (report sched i u err e)
                 = Executor.progressChan
                     (chan_try_send u (chan_recv (sched_recv sched i) e))).
  { unfold report. destruct err; apply records_received_log_add. }
  destruct Hrep as [-> ->]. rewrite R1 in T1, T3.
  repeat split; [exact T1 | lia | intros Hroom; apply T3; lia].
Qed.

Lemma offered_cons total i task rest s (fs : FS) :
  offered sched total i (task :: rest) s fs =
    if sched_cancelled sched i then []
    else
      match run_task total i task s fs with
      | Ok (s1, fs1, u, Some _) => [u]
      | Ok (s1, fs1, u, None) => u :: offered sched total (S i) rest s1 fs1
      | Panic => []
      end.
Proof. reflexivity. Qed.

Lemma run_task_record total i task s (fs : FS) s1 fs1 u err :
  run_task total i task s fs = Ok (s1, fs1, u, err) ->
  ProgressUpdate.Current u = (Z.of_nat i + 1)%Z /\ ProgressUpdate.Total u = total.
Proof.
  unfold run_task.
  destruct (ExecuteFileActionTask s fs task) as [[[s' fs'] er]|]; [|discriminate].
  cbn [mbind res_bind].
  destruct (FileActionTask_String s' task) as [m|]; [|discriminate].
  cbn [mbind res_bind]. intros [= _ _ <- _]. split; reflexivity.
Qed.

(** The [k]-th record offered from iteration [i] on is that of task [i+k]. *)
Lemma offered_lookup total rest : forall i s (fs : FS) (k : nat) u,
  offered sched total i rest s fs !! k = Some u ->
  ProgressUpdate.Current u = (Z.of_nat (i + k) + 1)%Z /\
  ProgressUpdate.Total u = total.
Proof.
  induction rest as [|t rest IH]; intros i s fs k u; [discriminate|].
  rewrite offered_cons. destruct (sched_cancelled sched i); [discriminate|].
  destruct (run_task total i t s fs) as [[[[s1 fs1] u1] er]|] eqn:Hr; [|discriminate].
  apply run_task_record in Hr.
  destruct k as [|k].
  - rewrite Nat.add_0_r. destruct er; intros [= <-]; exact Hr.
  - destruct er; [destruct k; discriminate|].
    simpl. intros Hk. apply IH in Hk.
    replace (i + S k)%nat with (S i + k)%nat by lia. exact Hk.
Qed.

Lemma offered_length total rest : forall i s (fs : FS),
  (length (offered sched total i rest s fs) <= length rest)%nat.
Proof.
  induction rest as [|t rest IH]; intros i s fs; [simpl; lia|].
  rewrite offered_cons. destruct (sched_cancelled sched i); [simpl; lia|].
  destruct (run_task total i t s fs) as [[[[s1 fs1] u1] [er|]]|]; simpl; try lia.
  specialize (IH (S i) s1 fs1). lia.
Qed.

(** What the reader gets from the loop: a subsequence of the records
    offered; all of them when the buffer has room for them; and every task
    has offered its record when the loop ends without an error. *)
Lemma Execute_loop_records total rest : forall i (e e' : Executor.t FS) err,
  Execute_loop sched total i rest e = Ok (e', err) ->
  let sends := offered sched total i rest (Executor.storage e) (Executor.root e) in
  exists got,
    records_received e' = (records_received e ++ got)%list /\
    got `sublist_of` sends /\
    ((length (Executor.progressChan e) + length rest <= progressChanCap)%nat ->
     got = sends) /\
    (err = None -> length sends = length rest).
Proof.
  induction rest as [|t rest IH]; intros i e e' err.
  - intros [= <- <-]. exists []. simpl. rewrite app_nil_r. repeat split; auto.
  - rewrite Execute_loop_cons. cbn zeta. rewrite offered_cons.
    destruct (sched_cancelled sched i).
    { intros [= <- <-]. exists []. rewrite app_nil_r.
      repeat split; auto. discriminate. }
    destruct (run_task total i t (Executor.storage e) (Executor.root e))
      as [[[[s1 fs1] u] er]|]; [|discriminate].
    cbn [mbind res_bind].
    set (e3 := report sched i u er (set_world s1 fs1 e)).
    destruct (records_received_report i u er (set_world s1 fs1 e))
      as (Hor & Hlen & Hroom).
    fold e3 in Hor, Hlen, Hroom.
    change (records_received (set_world s1 fs1 e)) with (records_received e)
      in Hor, Hroom.
    change (Executor.progressChan (set_world s1 fs1 e))
      with (Executor.progressChan e) in Hlen, Hroom.
    destruct (report_fields sched i u er (set_world s1 fs1 e)) as (F1 & F2 & _).
    fold e3 in F1, F2. simpl in F1, F2.
    destruct er as [er|].
    + intros [= <- <-].
      destruct Hor as [Hr|Hr].
      * exists []. rewrite app_nil_r. repeat split; auto.
        -- apply sublist_nil_l.
        -- intros Hc. simpl in Hc. rewrite Hroom in Hr by (unfold progressChanCap in *; lia).
           apply (f_equal length) in Hr. rewrite length_app in Hr. simpl in Hr. lia.
        -- discriminate.
      * exists [u]. repeat split; auto. discriminate.
    + intros Hl. apply IH in Hl. cbn zeta in Hl.
      destruct Hl as (got & Hg1 & Hg2 & Hg3 & Hg4).
      rewrite F1, F2 in Hg2, Hg3, Hg4.
      destruct Hor as [Hr|Hr].
      * exists got. rewrite Hg1, Hr. repeat split; auto.
        -- apply sublist_cons. exact Hg2.
        -- intros Hc. simpl in Hc. rewrite Hroom in Hr by (unfold progressChanCap in *; lia).
           apply (f_equal length) in Hr. rewrite length_app in Hr. simpl in Hr. lia.
        -- intros He. simpl. rewrite Hg4; auto.
      * exists (u :: got). rewrite Hg1, Hr, <- app_assoc. repeat split; auto.
        -- apply sublist_skip. exact Hg2.
        -- intros Hc. simpl in Hc. rewrite Hg3; [reflexivity|lia].
        -- intros He. simpl. rewrite Hg4; auto.
Qed.

End Progress.

(** C5, as the code has it.  The send on the progress channel does not
    block: a record is dropped when the buffer of ten is full.  So the
    records the reader of the channel gets from a run of [Execute] are a
    subsequence, in order, of the records offered, one per executed task, the
    [k]-th with [Current = k+1] and [Total] the number of tasks.  No record
    is lost when there are at most ten tasks; then, when [Execute] returns
    nil on a non-empty task list, the last record received has
    [current == total]. *)
Theorem Execute_progress_records {FS : Type} `{FileSystem FS}
    (sched : Schedule) (e e' : Executor.t FS) (err : option error) :
  Executor.progressChan e = [] ->
  Executor.received e = [] ->
  os_OpenRoot (Executor.root e) (Executor.rootPath e) = None ->
  Execute sched e = Ok (e', err) ->
  let n := length (Executor.tasks e) in
  let sends :=
    offered sched (Z.of_nat n) 0 (Executor.tasks e) (Executor.storage e)
      (Executor.root e) in
  records_received e' `sublist_of` sends /\
  (forall (k : nat) u, sends !! k = Some u ->
     ProgressUpdate.Current u = (Z.of_nat k + 1)%Z /\
     ProgressUpdate.Total u = Z.of_nat n) /\
  (err = None -> length sends = n) /\
  ((n <= progressChanCap)%nat -> records_received e' = sends) /\
  (err = None -> (0 < n <= progressChanCap)%nat ->
   exists u, last (records_received e') = Some u /\
             ProgressUpdate.Current u = ProgressUpdate.Total u).
Proof.
  intros Hch Hrc HO HE n sends.
  unfold Execute in HE. rewrite HO in HE. unfold Execute_finish in HE.
  fold n in HE.
  destruct (Execute_loop sched (Z.of_nat n) 0 (Executor.tasks e) e)
    as [[e1 err1]|] eqn:Hl; [|discriminate].
  cbn [mbind res_bind] in HE.
  apply Execute_loop_records in Hl. cbn zeta in Hl. fold sends in Hl.
  destruct Hl as (got & G1 & G2 & G3 & G4).
  assert (Hrec0 : records_received e = []).
  { unfold records_received. rewrite Hch, Hrc. reflexivity. }
  rewrite Hrec0 in G1. simpl in G1. rewrite Hch in G3. simpl in G3.
  assert (Hrec : records_received e' = got /\ err = err1).
  { destruct err1; injection HE as <- <-; split; auto. }
  destruct Hrec as [Hrec ->]. rewrite Hrec.
  assert (Hlk : forall (k : nat) u, sends !! k = Some u ->
            ProgressUpdate.Current u = (Z.of_nat k + 1)%Z /\
            ProgressUpdate.Total u = Z.of_nat n).
  { intros k u Hk. apply (offered_lookup sched) in Hk. exact Hk. }
  split; [exact G2|]. split; [exact Hlk|]. split; [exact G4|].
  split; [exact G3|].
  intros He [Hpos Hcap]. rewrite (G3 Hcap).
  specialize (G4 He). fold n in G4.
  destruct (sends !! (n - 1)%nat) as [u|] eqn:Hu.
  - exists u. split.
    + rewrite last_lookup, G4. replace (Nat.pred n) with (n - 1)%nat by lia. exact Hu.
    + destruct (Hlk _ _ Hu) as [-> ->]. lia.
  - apply lookup_ge_None in Hu. lia.
Qed.

Lemma Execute_progress_records_witness :
  exists e',
    Execute Ex.sched_idle Ex.executor3 = Ok (e', Some (ErrOS "directory not empty")) /\
    let sends :=
      offered Ex.sched_idle 3 0 (Executor.tasks Ex.executor3) NewMemoryStorage
        Ex.fs_ab in
    records_received e' `sublist_of` sends /\
    (forall (k : nat) u, sends !! k = Some u ->
       ProgressUpdate.Current u = (Z.of_nat k + 1)%Z /\
       ProgressUpdate.Total u = 3%Z) /\
    (Some (ErrOS "directory not empty") = None -> length sends = 3%nat) /\
    ((3 <= progressChanCap)%nat -> records_received e' = sends) /\
    (Some (ErrOS "directory not empty") = None -> (0 < 3 <= progressChanCap)%nat ->
     exists u, last (records_received e') = Some u /\
               ProgressUpdate.Current u = ProgressUpdate.Total u).
Proof.
  destruct Execute_three_tasks as (e' & HE & _).
  exists e'. split; [exact HE|].
  apply (Execute_progress_records Ex.sched_idle Ex.executor3 e'
           (Some (ErrOS "directory not empty"))).
  - reflexivity.
  - reflexivity.
  - reflexivity.
  - exact HE.
Defined.

(** Eleven tasks that all succeed, with a reader that takes nothing off the
    channel while [Execute] runs: the eleventh record is dropped, and the
    last record received has [Current = 10] and [Total = 11]. *)
Lemma Execute_progress_dropped :
  (forall i, sched_cancelled Ex.sched_idle i = false) /\
  ~ progress_complete Ex.sched_idle Ex.executor11.
Proof.
  split; [reflexivity|].
  intros Hclaim.
  assert (Hrun : exists e',
            Execute Ex.sched_idle Ex.executor11 = Ok (e', None) /\
            last (records_received e') =
              Some (ProgressUpdate.mk 10 11
                      "Delete empty folder: b (folder is not empty)")).
  { eexists. vm_compute. split; reflexivity. }
  destruct Hrun as (e' & HE & Hlast).
  destruct (Hclaim e' HE) as [_ Hfinal].
  specialize (Hfinal _ Hlast). simpl in Hfinal. discriminate.
Qed.

(** ** Move *)

Lemma Join_empty_name dir : filepath.Join dir "" = dir.
Proof. destruct dir; reflexivity. Qed.

(** A [Move] without [TargetName]: the existence check opens the target
    folder itself, so whenever that folder exists the file is removed from
    the storage and no record is added for its destination. *)
Lemma Move_without_TargetName {FS : Type} `{FileSystem FS}
    (s s1 : MemoryStorage.t) (fs fs1 : FS) (task : FileActionTask.t)
    (a : addr) (file : File.t) (target : string) :
  FileActionTask.Action task = Move ->
  FileActionTask.TargetName task = "" ->
  FileActionTask.TargetFolder task = Some target ->
  FileActionTask.File task = Some a ->
  MemoryStorage.objects s !! a = Some file ->
  root_Open fs target = None ->
  root_Rename fs (File.Path file) (filepath.Join target (File.Name file)) = (fs1, None) ->
  RemoveFile s a = Ok (s1, None) ->
  ExecuteFileActionTask s fs task = Ok (s1, fs1, None).
Proof.
  intros HA HN HT HF Ho Hopen Hren Hrm.
  unfold ExecuteFileActionTask. rewrite HA, HT, HF, HN. simpl.
  rewrite Join_empty_name, Hopen, Ho. simpl. rewrite Hren, Hrm. reflexivity.
Qed.

(** C2 at the failing input: [a/y] is moved into the existing folder [b],
    where no [b/y] exists.  The rename is done, and afterwards the storage
    holds no record at [b/y] (nor anywhere else: the fingerprint is gone
    from the hash map), while the same move with the name given does add
    the record with the fingerprint and modification time of the source. *)
Theorem Move_loses_destination_record :
  root_Open Ex.fs_ay "b/y" <> None /\
  holds_record Ex.storage_ay "a/y" "hy" 200 /\
  exists s' fs',
    ExecuteFileActionTask Ex.storage_ay Ex.fs_ay Ex.task_Move_ay = Ok (s', fs', None) /\
    fs' !! "b/y" = Some false /\ fs' !! "a/y" = None /\
    ~ holds_record s' "b/y" "hy" 200 /\
    MemoryStorage.hashMap s' !! "hy" = None /\
    exists s'' fs'',
      ExecuteFileActionTask Ex.storage_ay Ex.fs_ay Ex.task_Move_ay_named
        = Ok (s'', fs'', None) /\
      fs'' = fs' /\ holds_record s'' "b/y" "hy" 200.
Proof.
  split; [vm_compute; discriminate|].
  split.
  { eexists _, 1%nat, _. vm_compute. repeat split; reflexivity. }
  eexists _, _. split; [vm_compute; reflexivity|].
  split; [vm_compute; reflexivity|].
  split; [vm_compute; reflexivity|].
  split.
  { intros (folder & a & f & Hf & Ha & _). vm_compute in Hf.
    first [discriminate Hf | injection Hf as <-; vm_compute in Ha; discriminate Ha]. }
  split; [vm_compute; reflexivity|].
  eexists _, _. split; [vm_compute; reflexivity|].
  split; [vm_compute; reflexivity|].
  eexists _, 3%nat, _. vm_compute. repeat split; reflexivity.
Qed.

(** ** Storage: folders are created on demand *)

Lemma split_last_length s d b :
  filepath.split_last s = Some (d, b) ->
  String.length s = (String.length d + 1 + String.length b)%nat.
Proof.
  revert d b. induction s as [|c r IH]; intros d b; simpl; [discriminate|].
  destruct (filepath.split_last r) as [[d' b']|].
  - intros [= <- <-]. simpl. rewrite (IH d' b' eq_refl). lia.
  - destruct (Ascii.eqb c "/"%char); [|discriminate].
    intros [= <- <-]. simpl. lia.
Qed.

Lemma Dir_cost path :
  (String.eqb path "." || String.eqb path "/") = false ->
  (GetFolder_cost (filepath.Dir path) < GetFolder_cost path)%nat.
Proof.
  intros Hb. unfold GetFolder_cost at 2. rewrite Hb.
  unfold filepath.Dir.
  destruct (filepath.split_last path) as [[d b]|] eqn:E.
  - apply split_last_length in E.
    destruct d as [|c d]; [unfold GetFolder_cost; simpl; lia|].
    unfold GetFolder_cost.
    destruct (String.eqb (String c d) "." || String.eqb (String c d) "/"); lia.
  - unfold GetFolder_cost. simpl. lia.
Qed.

Lemma GetFolder_fuel_total : forall fuel (folders : arena) path,
  (GetFolder_cost path <= fuel)%nat ->
  exists folders',
    GetFolder_fuel fuel folders path = Some folders' /\
    is_Some (folders' !! path).
Proof.
  induction fuel as [|n IH]; intros folders path Hc.
  - unfold GetFolder_cost in Hc.
    destruct (String.eqb path "." || String.eqb path "/"); lia.
  - simpl. destruct (folders !! path) as [f|] eqn:Hl.
    + exists folders. rewrite Hl. eauto.
    + destruct (String.eqb path "." || String.eqb path "/") eqn:Hb.
      * eexists. split; [reflexivity|]. rewrite lookup_insert_eq. eauto.
      * pose proof (Dir_cost path Hb) as Hd.
        destruct (IH folders (filepath.Dir path)) as (folders1 & -> & [pf Hpf]); [lia|].
        rewrite Hpf. eexists. split; [reflexivity|].
        rewrite lookup_insert_eq. eauto.
Qed.

Lemma GetFolder_total (folders : arena) path :
  exists folders',
    GetFolder folders path = Some folders' /\ is_Some (folders' !! path).
Proof.
  apply GetFolder_fuel_total. unfold GetFolder_cost.
  destruct (String.eqb path "." || String.eqb path "/"); lia.
Qed.

Lemma invalidateCache_is_Some fuel : forall (folders : arena) f p,
  is_Some (invalidateCache fuel folders f !! p) <-> is_Some (folders !! p).
Proof.
  induction fuel as [|n IH]; intros folders f p; simpl; [reflexivity|].
  destruct (folders !! f) as [fo|] eqn:Hf; [|reflexivity].
  assert (Hins : is_Some (<[f:=Folder.set_fileCountCache 0 fo]> folders !! p)
                 <-> is_Some (folders !! p)).
  { destruct (decide (f = p)) as [->|Hne].
    - rewrite lookup_insert_eq, Hf. split; eauto.
    - rewrite lookup_insert_ne by done. reflexivity. }
  destruct (Folder.Parent fo); [rewrite IH|]; exact Hins.
Qed.

Lemma Folder_RemoveFile_ok (s : MemoryStorage.t) f a file fo :
  MemoryStorage.objects s !! a = Some file ->
  MemoryStorage.folders s !! f = Some fo ->
  exists s1,
    Folder_RemoveFile s f a = Ok s1 /\
    is_Some (MemoryStorage.folders s1 !! f) /\
    MemoryStorage.matchedFiles s1 = MemoryStorage.matchedFiles s /\
    MemoryStorage.hashMap s1 = MemoryStorage.hashMap s.
Proof.
  intros Ho Hf. unfold Folder_RemoveFile. rewrite Ho, Hf.
  cbn [mbind res_bind deref]. eexists. split; [reflexivity|].
  split; [|split; reflexivity].
  cbn [MemoryStorage.folders MemoryStorage.set_folders].
  apply invalidateCache_is_Some. rewrite lookup_insert_eq. eauto.
Qed.

(** C3, as the code has it.  [RemoveFile] always returns; the folder of
    the file exists afterwards, created if it was missing, and that is not
    an error; a basename that is not in the folder's map is not detected
    ([Folder.RemoveFile] deletes nothing and its result is dropped).  The
    only error is the internal one: it is returned exactly when the
    matched group of the file's fingerprint has no member left once the
    file is taken out of it. *)
Theorem RemoveFile_error_iff (s : MemoryStorage.t) (a : addr) (file : File.t) :
  MemoryStorage.objects s !! a = Some file ->
  exists s' err,
    RemoveFile s a = Ok (s', err) /\
    is_Some (MemoryStorage.folders s' !! filepath.Dir (File.Path file)) /\
    (err <> None <->
     exists g, MemoryStorage.matchedFiles s !! File.Hash file = Some g /\
               delete_file a (MatchedFileGroup.Files g) = []) /\
    (err <> None -> err = Some (ErrGroupEmpty (File.Hash file))).
Proof.
  intros Ho. unfold RemoveFile. rewrite Ho. cbn [mbind res_bind deref].
  destruct (GetFolder_total (MemoryStorage.folders s) (filepath.Dir (File.Path file)))
    as (folders1 & -> & [pf Hpf]).
  cbn [mbind res_bind deref].
  destruct (Folder_RemoveFile_ok (MemoryStorage.set_folders folders1 s)
              (filepath.Dir (File.Path file)) a file pf Ho Hpf)
    as (s1 & -> & Hex & Hm & _).
  cbn [mbind res_bind]. rewrite Hm. simpl.
  destruct (MemoryStorage.matchedFiles s !! File.Hash file) as [g|] eqn:Hg.
  - destruct (delete_file a (MatchedFileGroup.Files g)) as [|b [|c l]] eqn:Hd.
    + eexists _, _. split; [reflexivity|]. simpl. split; [exact Hex|].
      split; [|auto]. split; [intros _; eauto | discriminate].
    + eexists _, _. split; [reflexivity|]. simpl. split; [exact Hex|].
      split; [|congruence]. split; [congruence|]. intros (g' & [= <-] & Hd'). congruence.
    + eexists _, _. split; [reflexivity|]. simpl. split; [exact Hex|].
      split; [|congruence]. split; [congruence|]. intros (g' & [= <-] & Hd'). congruence.
  - eexists _, _. split; [reflexivity|]. simpl. split; [exact Hex|].
    split; [|congruence]. split; [congruence|]. intros (g' & Hg' & _). discriminate.
Qed.

Lemma RemoveFile_error_iff_witness :
  exists s' err,
    RemoveFile Ex.storage_ay 1%nat = Ok (s', err) /\
    is_Some (MemoryStorage.folders s' !! filepath.Dir (File.Path (File.set_Parent (Some "a") Ex.file_ay))) /\
    (err <> None <->
     exists g, MemoryStorage.matchedFiles Ex.storage_ay
                 !! File.Hash (File.set_Parent (Some "a") Ex.file_ay) = Some g /\
               delete_file 1%nat (MatchedFileGroup.Files g) = []) /\
    (err <> None -> err = Some (ErrGroupEmpty (File.Hash (File.set_Parent (Some "a") Ex.file_ay)))).
Proof.
  apply (RemoveFile_error_iff Ex.storage_ay 1%nat (File.set_Parent (Some "a") Ex.file_ay)).
  vm_compute. reflexivity.
Defined.

(** Removing a file that was never added to the (empty) storage: no folder
    holds its basename, the folder [a] itself is missing, and [RemoveFile]
    returns nil. *)
Lemma RemoveFile_missing_returns_nil : ~ remove_missing_is_error.
Proof.
  intros Hclaim.
  destruct (Hclaim Ex.storage_unstored 0%nat Ex.file_ax) as (s' & e & He).
  - vm_compute. reflexivity.
  - intros (folder & Hf & _). vm_compute in Hf. discriminate.
  - vm_compute in He. discriminate.
Qed.

(** ** The scanner *)

Lemma node_rect_list (P : node -> Prop) :
  (forall name c, P (FileNode name c)) ->
  (forall name entries, Forall P entries -> P (DirNode name entries)) ->
  (forall name e, P (UnreadableDir name e)) ->
  forall d, P d.
Proof.
  intros HF HD HU. fix IH 1. intros [name c|name entries|name e].
  - apply HF.
  - apply HD. induction entries as [|d1 rest IHl]; constructor.
    + apply IH.
    + exact IHl.
  - apply HU.
Qed.

Lemma Folder_AddFile_ok (s : MemoryStorage.t) f a file fo :
  MemoryStorage.objects s !! a = Some file ->
  MemoryStorage.folders s !! f = Some fo ->
  exists s1, Folder_AddFile s f a = Ok s1.
Proof.
  intros Ho Hf. unfold Folder_AddFile. rewrite Ho, Hf.
  cbn [mbind res_bind deref]. eexists. reflexivity.
Qed.

Lemma AddFile_ok (s : MemoryStorage.t) a file :
  MemoryStorage.objects s !! a = Some file ->
  exists s1, AddFile s a = Ok (s1, None).
Proof.
  intros Ho. unfold AddFile. rewrite Ho. cbn [mbind res_bind deref].
  destruct (GetFolder_total (MemoryStorage.folders s) (filepath.Dir (File.Path file)))
    as (folders1 & -> & [pf Hpf]).
  cbn [mbind res_bind deref].
  destruct (Folder_AddFile_ok (MemoryStorage.set_folders folders1 s)
              (filepath.Dir (File.Path file)) a file pf Ho Hpf) as (s1 & ->).
  cbn [mbind res_bind].
  destruct (MemoryStorage.hashMap s1 !! File.Hash file); [|eauto].
  destruct (MemoryStorage.matchedFiles s1 !! File.Hash file); eauto.
Qed.

Lemma AddNewFile_ok (s : MemoryStorage.t) (f : File.t) :
  exists s1, AddNewFile s f = Ok s1.
Proof.
  unfold AddNewFile, new_File.
  edestruct (AddFile_ok
               (MemoryStorage.set_objects
                  (<[fresh (dom (MemoryStorage.objects s)) := f]>
                     (MemoryStorage.objects s)) s)) as (s1 & ->).
  - simpl. apply lookup_insert_eq.
  - cbn [mbind res_bind]. eauto.
Qed.

Lemma add_all_app l1 l2 st :
  add_all (l1 ++ l2) st = st1 ← add_all l1 st; add_all l2 st1.
Proof.
  revert st. induction l1 as [|f l1 IH]; intros st; simpl; [reflexivity|].
  destruct (AddNewFile st f) as [st1|]; simpl; [apply IH|reflexivity].
Qed.

Lemma scanned_files_DirNode path name entries :
  scanned_files path (DirNode name entries) =
  concat (List.map (fun d1 => scanned_files (filepath.Join path (node_Name d1)) d1) entries).
Proof.
  simpl. induction entries as [|d1 rest IH]; simpl; [reflexivity|].
  rewrite IH. reflexivity.
Qed.

Lemma readable_DirNode name entries :
  readable (DirNode name entries) <-> Forall readable entries.
Proof.
  simpl. induction entries as [|d1 rest IH]; simpl.
  - split; [constructor | auto].
  - rewrite Forall_cons, IH. reflexivity.
Qed.

(** Membership in [scanned_files]: the files of the tree that are not
    hidden themselves; the names of the directories above them do not
    matter. *)
Lemma scanned_files_spec d : forall path f,
  In f (scanned_files path d) <->
  exists p name h sz mt,
    file_in path d p name (Readable h sz mt) /\
    GoString.starts_with_dot name = false /\
    f = File.mk name p h sz None mt.
Proof.
  induction d as [name c|name entries IH|name e] using node_rect_list; intros path f.
  - simpl. split.
    + destruct c as [h sz mt| | |]; try (intros []).
      destruct (GoString.starts_with_dot name) eqn:E; [intros []|].
      intros [<-|[]]. exists path, name, h, sz, mt. repeat split; auto. constructor.
    + intros (p & n & h & sz & mt & Hin & Hd & ->).
      inversion Hin; subst. rewrite Hd. left. reflexivity.
  - rewrite scanned_files_DirNode, in_concat. split.
    + intros (l & Hl & Hf). apply in_map_iff in Hl as (d1 & <- & Hd1).
      apply (proj1 (Forall_forall _ _) IH) in Hf; [|apply list_elem_of_In; exact Hd1].
      destruct Hf as (p & n & h & sz & mt & Hin & Hd & ->).
      exists p, n, h, sz, mt. repeat split; auto.
      econstructor; eassumption.
    + intros (p & n & h & sz & mt & Hin & Hd & ->).
      inversion Hin as [|? ? ? d1 ? ? ? Hd1 Hin1]; subst.
      exists (scanned_files (filepath.Join path (node_Name d1)) d1). split.
      * apply in_map_iff. exists d1. auto.
      * apply (proj1 (Forall_forall _ _) IH); [apply list_elem_of_In; exact Hd1|].
        exists p, n, h, sz, mt. auto.
  - simpl. split; [intros []|].
    intros (p & n & h & sz & mt & Hin & _). inversion Hin.
Qed.

Section ScanFacts.
Variable cancelled : nat -> bool.
Hypothesis not_cancelled : forall n, cancelled n = false.

Lemma walkDir_DirNode path name entries s :
  walkDir cancelled path (DirNode name entries) s =
    '(s1, err) ← walkFn cancelled path (Some (DirNode name entries)) None s;
    match err with
    | Some e => Ok (s1, Some e)
    | None =>
        (fix walkEntries (l : list node) (s : Scanner.t)
           : res (Scanner.t * option error) :=
           match l with
           | [] => Ok (s, None)
           | d1 :: rest =>
               '(s2, err) ← walkDir cancelled (filepath.Join path (node_Name d1)) d1 s;
               match err with
               | Some e => Ok (s2, Some e)
               | None => walkEntries rest s2
               end
           end) entries s1
    end.
Proof. reflexivity. Qed.

(** The walk of a readable tree adds the files of [scanned_files], in that
    order, and returns nil. *)
Lemma walkDir_readable d : forall path s,
  readable d ->
  exists s',
    walkDir cancelled path d s = Ok (s', None) /\
    add_all (scanned_files path d) (Scanner.Storage s) = Ok (Scanner.Storage s').
Proof.
  induction d as [name c|name entries IH|name e] using node_rect_list; intros path s Hr.
  - simpl in Hr. destruct Hr as [Hne Hc].
    simpl. unfold walkFn. rewrite not_cancelled. simpl.
    destruct name as [|ch r]; [congruence|].
    simpl in Hc |- *.
    destruct (Ascii.eqb ch "."%char) eqn:E.
    + eexists. split; [reflexivity|].
      destruct c; reflexivity.
    + specialize (Hc eq_refl). destruct c as [h sz mt| | |]; try contradiction.
      destruct (AddNewFile_ok (Scanner.Storage s) (File.mk (String ch r) path h sz None mt))
        as (st1 & Hst). simpl in Hst |- *. rewrite Hst. simpl.
      eexists. split; [reflexivity|].
      unfold Scanner.add_log. simpl.
      destruct (Scanner.Logger s); reflexivity.
  - rewrite walkDir_DirNode, scanned_files_DirNode.
    apply readable_DirNode in Hr.
    unfold walkFn at 1. rewrite not_cancelled. cbn [mbind res_bind deref node_IsDir].
    assert (Hs : Scanner.Storage (Scanner.tick s) = Scanner.Storage s) by reflexivity.
    rewrite <- Hs. generalize (Scanner.tick s) as s1. clear Hs s.
    induction entries as [|d1 rest IHl]; intros s1.
    + eexists. split; reflexivity.
    + apply Forall_cons in IH as [IH1 IHrest].
      apply Forall_cons in Hr as [Hr1 Hrrest].
      destruct (IH1 (filepath.Join path (node_Name d1)) s1 Hr1) as (s2 & -> & Ha).
      cbn [mbind res_bind].
      destruct (IHl IHrest Hrrest s2) as (s' & -> & Ha').
      exists s'. split; [reflexivity|].
      simpl. rewrite add_all_app, Ha. simpl. exact Ha'.
  - simpl in Hr. contradiction.
Qed.

End ScanFacts.

(** C9.  Nobody cancels and the tree is read without an error.  Then
    [Scan] returns nil, and what it has added to the storage is, in the
    order of the walk, one File per file of the tree whose own basename
    does not start with a dot, with its path, fingerprint, size and
    modification time: the walk function returns nil (not [SkipDir]) on a
    directory, so the files below a dot-prefixed directory are among them. *)
Theorem Scan_adds_visible_files (cancelled : nat -> bool) (s : Scanner.t)
    (root : string) (tree : node) :
  (forall n, cancelled n = false) ->
  Scanner.Path s = [(root, RootTree tree)] ->
  readable tree ->
  exists s',
    Scan cancelled s = Ok (s', None) /\
    add_all (scanned_files "." tree) (Scanner.Storage s) = Ok (Scanner.Storage s') /\
    forall f, In f (scanned_files "." tree) <->
      exists p name h sz mt,
        file_in "." tree p name (Readable h sz mt) /\
        GoString.starts_with_dot name = false /\
        f = File.mk name p h sz None mt.
Proof.
  intros Hnc HP Hr.
  destruct (walkDir_readable cancelled Hnc tree "." s Hr) as (s' & Hw & Ha).
  exists s'. split; [|split; [exact Ha|]].
  - unfold Scan. rewrite HP. simpl. rewrite Hw. reflexivity.
  - intros f. apply scanned_files_spec.
Qed.

Lemma Scan_adds_visible_files_witness :
  exists s',
    Scan (fun _ => false) Ex.scanner_git = Ok (s', None) /\
    add_all (scanned_files "." Ex.tree_git) NewMemoryStorage = Ok (Scanner.Storage s') /\
    (forall f, In f (scanned_files "." Ex.tree_git) <->
      exists p name h sz mt,
        file_in "." Ex.tree_git p name (Readable h sz mt) /\
        GoString.starts_with_dot name = false /\
        f = File.mk name p h sz None mt) /\
    scanned_files "." Ex.tree_git =
      [File.mk "config" ".git/config" "h2" 3 None 30;
       File.mk "main.go" "src/main.go" "h3" 4 None 40] /\
    Scanner.logged s' =
      ["scanned file .git/config: h2"; "scanned file src/main.go: h3"].
Proof.
  destruct (Scan_adds_visible_files (fun _ => false) Ex.scanner_git "." Ex.tree_git)
    as (s' & HS & HA & HF).
  - reflexivity.
  - reflexivity.
  - simpl. repeat split; try discriminate; auto.
  - exists s'. repeat split; try assumption; try reflexivity; try (apply HF).
    assert (E : exists x, Scan (fun _ => false) Ex.scanner_git = Ok (x, None) /\
                          Scanner.logged x =
                            ["scanned file .git/config: h2"; "scanned file src/main.go: h3"])
      by (eexists; vm_compute; split; reflexivity).
    destruct E as (x & Hx & Hl). rewrite HS in Hx. injection Hx as <-. exact Hl.
Defined.

(** ** Keys of colon-free paths *)

Lemma folderPairKey_cases a b :
  (GoString.gtb a b = false /\ folderPairKey a b = a ++ ":" ++ b) \/
  (GoString.gtb a b = true /\ folderPairKey a b = b ++ ":" ++ a).
Proof. unfold folderPairKey. destruct (GoString.gtb a b); auto. Qed.

(** The key of two colon-free paths splits into these two paths. *)
Lemma folderPairKey_split a b :
  GoString.has_colon a = false -> GoString.has_colon b = false ->
  GoString.split_colon (folderPairKey a b) = [a; b] \/
  GoString.split_colon (folderPairKey a b) = [b; a].
Proof.
  intros Ha Hb. destruct (folderPairKey_cases a b) as [[_ ->]|[_ ->]].
  - left. apply split_colon_pair; assumption.
  - right. apply split_colon_pair; assumption.
Qed.

Lemma folderPairKey_inj a b c d :
  GoString.has_colon a = false -> GoString.has_colon b = false ->
  GoString.has_colon c = false -> GoString.has_colon d = false ->
  folderPairKey a b = folderPairKey c d ->
  (a = c /\ b = d) \/ (a = d /\ b = c).
Proof.
  intros Ha Hb Hc Hd E.
  destruct (folderPairKey_split a b Ha Hb) as [S1|S1];
  destruct (folderPairKey_split c d Hc Hd) as [S2|S2];
  rewrite E, S2 in S1; injection S1 as -> ->; auto.
Qed.

(** ** The arena under GetFileCount: only the caches change *)

Lemma same_tree_refl ar : same_tree ar ar.
Proof. intros p. reflexivity. Qed.

Lemma same_tree_trans ar1 ar2 ar3 :
  same_tree ar1 ar2 -> same_tree ar2 ar3 -> same_tree ar1 ar3.
Proof. intros H1 H2 p. rewrite H2, H1. reflexivity. Qed.

Lemma same_tree_set_cache (ar : arena) f fo c :
  ar !! f = Some fo ->
  same_tree ar (<[f := Folder.set_fileCountCache c fo]> ar).
Proof.
  intros Hf p. destruct (decide (f = p)) as [<-|Hne].
  - rewrite lookup_insert_eq, Hf. reflexivity.
  - rewrite lookup_insert_ne by done. reflexivity.
Qed.

Lemma same_tree_dom ar ar' : same_tree ar ar' -> dom ar' = dom ar.
Proof.
  intros H. apply set_eq. intros p. rewrite !elem_of_dom.
  specialize (H p). destruct (ar !! p), (ar' !! p); simpl in H;
    split; intros [? ?]; try discriminate; eauto.
Qed.

Lemma same_tree_fuel ar ar' : same_tree ar ar' -> chain_fuel ar' = chain_fuel ar.
Proof.
  intros H. unfold chain_fuel. f_equal.
  rewrite <- !size_dom. rewrite (same_tree_dom _ _ H). reflexivity.
Qed.

Lemma GetFileCount_same_tree fuel : forall (ar : arena) f,
  same_tree ar (snd (GetFileCount fuel ar f)).
Proof.
  induction fuel as [|n IH]; intros ar f; simpl; [apply same_tree_refl|].
  destruct (ar !! f) as [fo|] eqn:Hf; [|apply same_tree_refl].
  destruct (negb (Folder.fileCountCache fo =? 0)%Z); [apply same_tree_refl|].
  assert (Hfold : forall children (acc : Z * arena),
            same_tree ar (snd acc) ->
            same_tree ar
              (snd (fold_left
                      (fun (acc : Z * arena) (child : string) =>
                         let '(n1, fs1) := GetFileCount n (snd acc) child in
                         (add64 (fst acc) n1, fs1))
                      children acc))).
  { induction children as [|c rest IHc]; intros acc Hacc; simpl; [exact Hacc|].
    apply IHc. specialize (IH (snd acc) c).
    destruct (GetFileCount n (snd acc) c) as [n1 fs1]. simpl in *.
    eapply same_tree_trans; eassumption. }
  specialize (Hfold (GetFolders fo) (Folder.fileCount fo, ar) (same_tree_refl ar)).
  destruct (fold_left _ (GetFolders fo) (Folder.fileCount fo, ar)) as [c folders1].
  simpl in Hfold |- *.
  destruct (folders1 !! f) as [fo1|] eqn:Hf1; [|exact Hfold].
  eapply same_tree_trans; [exact Hfold|]. apply same_tree_set_cache. exact Hf1.
Qed.

(** ** The pair map: every pair sits under the key of its two folders *)

Lemma arena_closed_same_tree P ar ar' :
  same_tree ar ar' -> arena_closed P ar -> arena_closed P ar'.
Proof. intros Hs Hc p q Hp. apply Hc. rewrite <- Hs. exact Hp. Qed.

Lemma fs_update_lookup (m : pairmap) r f k :
  fs_update m r f !! k =
    if decide (fst r = k)
    then (fun p => match snd r with
                   | Side0 => (f (fst p), snd p)
                   | Side1 => (fst p, f (snd p))
                   end) <$> m !! k
    else m !! k.
Proof.
  unfold fs_update. destruct (decide (fst r = k)) as [<-|Hne].
  - apply lookup_alter_eq.
  - apply lookup_alter_ne. exact Hne.
Qed.

Lemma fs_get_update (m : pairmap) r f r' :
  fs_get (fs_update m r f) r' =
    if decide (r = r') then f <$> fs_get m r' else fs_get m r'.
Proof.
  unfold fs_get. rewrite fs_update_lookup.
  destruct r as [k s], r' as [k' s']. simpl.
  destruct (decide (k = k')) as [<-|Hne].
  - destruct (m !! k) as [[s0 s1]|]; simpl.
    + destruct s, s'; simpl;
        first [rewrite decide_True by reflexivity
              |rewrite decide_False by congruence]; reflexivity.
    + case_decide; reflexivity.
  - rewrite decide_False by congruence. reflexivity.
Qed.

Lemma sides_ok_update P (m : pairmap) r f :
  (forall sd, FolderSimilarity.Folder (f sd) = FolderSimilarity.Folder sd) ->
  sides_ok P m -> sides_ok P (fs_update m r f).
Proof.
  intros Hf Hm k s0 s1. rewrite fs_update_lookup.
  destruct (decide (fst r = k)) as [E|E]; [|apply Hm].
  destruct (m !! k) as [[t0 t1]|] eqn:Hk; [|discriminate].
  specialize (Hm k t0 t1 Hk). simpl.
  destruct (snd r); intros [= <- <-]; simpl; rewrite ?Hf; exact Hm.
Qed.

Section SidesOk.
Variable P : string -> Prop.
Hypothesis P_colon : forall p, P p -> GoString.has_colon p = false.

(** What [getDuplicatedFolderPair] returns: the map with the pair of the
    two folders in it, and the two sides of that pair, that of [folder1]
    first. *)
Lemma getDuplicatedFolderPair_spec ar folder1 folder2 (m : pairmap) :
  sides_ok P m -> P folder1 -> P folder2 ->
  exists ar' m' s x y,
    getDuplicatedFolderPair ar folder1 folder2 m
      = (ar', m', (folderPairKey folder1 folder2, s),
                  (folderPairKey folder1 folder2, other_side s)) /\
    same_tree ar ar' /\ sides_ok P m' /\
    (m' = m \/
     (m !! folderPairKey folder1 folder2 = None /\
      exists c1 c2,
        m' = <[folderPairKey folder1 folder2 :=
                 (FolderSimilarity.mk folder1 c1 0 ∅,
                  FolderSimilarity.mk folder2 c2 0 ∅)]> m)) /\
    fs_get m' (folderPairKey folder1 folder2, s) = Some x /\
    fs_get m' (folderPairKey folder1 folder2, other_side s) = Some y /\
    FolderSimilarity.Folder x = folder1 /\ FolderSimilarity.Folder y = folder2.
Proof.
  intros Hm H1 H2. unfold getDuplicatedFolderPair.
  destruct (m !! folderPairKey folder1 folder2) as [[s0 s1]|] eqn:Hk.
  - destruct (Hm _ _ _ Hk) as (Hkey & P0 & P1).
    apply folderPairKey_inj in Hkey; auto.
    simpl. destruct (String.eqb_spec (FolderSimilarity.Folder s0) folder1) as [E|E].
    + exists ar, m, Side0, s0, s1. unfold fs_get. simpl. rewrite Hk. simpl.
      split; [reflexivity|]. split; [apply same_tree_refl|]. split; [exact Hm|].
      split; [left; reflexivity|]. split; [reflexivity|]. split; [reflexivity|].
      split; [exact E|]. destruct Hkey as [[? ?]|[? ?]]; congruence.
    + exists ar, m, Side1, s1, s0. unfold fs_get. simpl. rewrite Hk. simpl.
      split; [reflexivity|]. split; [apply same_tree_refl|]. split; [exact Hm|].
      split; [left; reflexivity|]. split; [reflexivity|]. split; [reflexivity|].
      split; destruct Hkey as [[? ?]|[? ?]]; congruence.
  - pose proof (GetFileCount_same_tree (chain_fuel ar) ar folder1) as T1.
    destruct (GetFileCount (chain_fuel ar) ar folder1) as [c1 ar1]. simpl in T1.
    pose proof (GetFileCount_same_tree (chain_fuel ar1) ar1 folder2) as T2.
    destruct (GetFileCount (chain_fuel ar1) ar1 folder2) as [c2 ar2]. simpl in T2.
    simpl. rewrite String.eqb_refl.
    eexists ar2, _, Side0, _, _. unfold fs_get. simpl. rewrite lookup_insert_eq. simpl.
    split; [reflexivity|]. split; [eapply same_tree_trans; eassumption|].
    split.
    { intros k t0 t1. destruct (decide (folderPairKey folder1 folder2 = k)) as [<-|Hne].
      - rewrite lookup_insert_eq. intros [= <- <-]. simpl. auto.
      - rewrite lookup_insert_ne by done. apply Hm. }
    split; [right; split; [reflexivity|]; eauto|].
    split; [reflexivity|]. split; [reflexivity|]. split; reflexivity.
Qed.

End SidesOk.

Section LoopsKeepKeys.
Variable P : string -> Prop.
Hypothesis P_colon : forall p, P p -> GoString.has_colon p = false.
Variable ar0 : arena.
Hypothesis ar0_closed : arena_closed P ar0.
Variable objs : heap.
Variable add : Z -> Z -> Z.

Lemma add_duplicate_sides a name r (m : pairmap) :
  sides_ok P m -> sides_ok P (add_duplicate add a name r m).
Proof.
  intros Hm. unfold add_duplicate.
  destruct (fs_get m r) as [sd|]; [|exact Hm].
  destruct (FolderSimilarity.DuplicateFiles sd !! name); [exact Hm|].
  apply sides_ok_update; [reflexivity | exact Hm].
Qed.

Lemma match_pair_ok fi fj st st' :
  file_valid P objs fi -> file_valid P objs fj ->
  st_ok P ar0 st -> match_pair add objs fi fj st = Ok st' -> st_ok P ar0 st'.
Proof.
  intros Vi Vj [Ht Hm]. unfold match_pair.
  destruct (objs !! fi) as [file_i|] eqn:Hi; [|discriminate].
  destruct (objs !! fj) as [file_j|] eqn:Hj; [|discriminate].
  cbn [mbind res_bind deref].
  destruct (File.Parent file_i) as [pi|] eqn:Hpi; [|discriminate].
  destruct (File.Parent file_j) as [pj|] eqn:Hpj; [|discriminate].
  cbn [mbind res_bind deref].
  destruct (getDuplicatedFolderPair_spec P P_colon (fst st) pi pj (snd st) Hm
              (Vi _ _ Hi Hpi) (Vj _ _ Hj Hpj))
    as (ar' & m' & s & x & y & -> & Ht' & Hm' & _).
  intros [= <-]. split; simpl.
  - eapply same_tree_trans; eassumption.
  - apply add_duplicate_sides, add_duplicate_sides. exact Hm'.
Qed.

Lemma match_loop_j_ok fi rest : forall st st',
  file_valid P objs fi -> Forall (file_valid P objs) rest ->
  st_ok P ar0 st -> match_loop_j add objs fi rest st = Ok st' -> st_ok P ar0 st'.
Proof.
  induction rest as [|fj rest IH]; intros st st' Vi Vr Hst; simpl.
  - intros [= <-]. exact Hst.
  - apply Forall_cons in Vr as [Vj Vr].
    destruct (match_pair add objs fi fj st) as [st1|] eqn:E; [|discriminate].
    cbn [mbind res_bind]. apply IH; auto.
    eapply (match_pair_ok fi fj); eassumption.
Qed.

Lemma match_loop_i_ok files : forall st st',
  Forall (file_valid P objs) files ->
  st_ok P ar0 st -> match_loop_i add objs files st = Ok st' -> st_ok P ar0 st'.
Proof.
  induction files as [|fi rest IH]; intros st st' Vf Hst; simpl.
  - intros [= <-]. exact Hst.
  - apply Forall_cons in Vf as [Vi Vr].
    destruct (match_loop_j add objs fi rest st) as [st1|] eqn:E; [|discriminate].
    cbn [mbind res_bind]. apply IH; auto.
    eapply (match_loop_j_ok fi rest); eassumption.
Qed.

Lemma match_groups_ok groups : forall st st',
  Forall (fun g => Forall (file_valid P objs) (MatchedFileGroup.Files g)) groups ->
  st_ok P ar0 st -> match_groups add objs groups st = Ok st' -> st_ok P ar0 st'.
Proof.
  induction groups as [|g rest IH]; intros st st' Vg Hst; simpl.
  - intros [= <-]. exact Hst.
  - apply Forall_cons in Vg as [Vf Vr].
    destruct (match_loop_i add objs (MatchedFileGroup.Files g) st) as [st1|] eqn:E;
      [|discriminate].
    cbn [mbind res_bind]. apply IH; auto.
    eapply (match_loop_i_ok (MatchedFileGroup.Files g)); eassumption.
Qed.

Lemma propagate_pair_ok folder1 folder2 cur1 cur2 st st' :
  st_ok P ar0 st -> P cur1 -> P cur2 ->
  propagate_pair add folder1 folder2 cur1 cur2 st = Ok st' -> st_ok P ar0 st'.
Proof.
  intros [Ht Hm] H1 H2. unfold propagate_pair.
  destruct (getDuplicatedFolderPair_spec P P_colon (fst st) cur1 cur2 (snd st) Hm H1 H2)
    as (ar' & m' & s & x & y & -> & Ht' & Hm' & _).
  set (f1 := (folderPairKey cur1 cur2, s)).
  set (f2 := (folderPairKey cur1 cur2, other_side s)).
  assert (Hstep : forall (m1 : pairmap) f fo (m2 : pairmap),
            sides_ok P m1 ->
            (if decide (f = fo) then Ok m1
             else sd ← deref (fs_get m1 fo);
                  Ok (fs_update m1 f
                        (add_count add (FolderSimilarity.DuplicateFileCount sd))))
            = Ok m2 ->
            sides_ok P m2).
  { intros m1 f fo m2 Hm1. case_decide.
    - intros [= <-]. exact Hm1.
    - destruct (fs_get m1 fo) as [sd|]; [|discriminate].
      cbn [mbind res_bind deref]. intros [= <-].
      apply sides_ok_update; [reflexivity | exact Hm1]. }
  destruct (if decide (f1 = folder1) then _ else _) as [m1|] eqn:E1; [|discriminate].
  apply Hstep in E1; [|exact Hm'].
  cbn [mbind res_bind].
  destruct (if decide (f2 = folder2) then _ else _) as [m2|] eqn:E2; [|discriminate].
  apply Hstep in E2; [|exact E1].
  cbn [mbind res_bind]. intros [= <-]. split; simpl.
  - eapply same_tree_trans; eassumption.
  - exact E2.
Qed.

(** The folder a [Parent] pointer of the arena leads to. *)
Lemma parent_valid (st : arena * pairmap) c fo :
  st_ok P ar0 st -> P c -> fst st !! c = Some fo ->
  forall q, Folder.Parent fo = Some q -> P q.
Proof.
  intros [Ht _] Hc Hl q Hq.
  apply (arena_closed_same_tree P ar0 (fst st) Ht ar0_closed c q); [|exact Hc].
  rewrite Hl. simpl. rewrite Hq. reflexivity.
Qed.

Lemma propagate_loop2_S n cp folder1 folder2 cur1 cur2 st :
  propagate_loop2 add (S n) cp folder1 folder2 cur1 cur2 st =
    c2 ← deref cur2;
    if String.eqb c2 cp then Ok st
    else
      st1 ← propagate_pair add folder1 folder2 cur1 c2 st;
      fo2 ← deref (fst st1 !! c2);
      propagate_loop2 add n cp folder1 folder2 cur1 (Folder.Parent fo2) st1.
Proof. reflexivity. Qed.

Lemma propagate_loop1_S n cp folder1 folder2 start2 cur1 st :
  propagate_loop1 add (S n) cp folder1 folder2 start2 cur1 st =
    c1 ← deref cur1;
    if String.eqb c1 cp then Ok st
    else
      st1 ← propagate_loop2 add (chain_fuel (fst st)) cp folder1 folder2 c1
              (Some start2) st;
      fo1 ← deref (fst st1 !! c1);
      propagate_loop1 add n cp folder1 folder2 start2 (Folder.Parent fo1) st1.
Proof. reflexivity. Qed.

Lemma propagate_loop2_ok fuel cp folder1 folder2 cur1 : forall cur2 st st',
  st_ok P ar0 st -> P cur1 -> (forall c, cur2 = Some c -> P c) ->
  propagate_loop2 add fuel cp folder1 folder2 cur1 cur2 st = Ok st' ->
  st_ok P ar0 st'.
Proof.
  induction fuel as [|n IH]; intros cur2 st st' Hst H1 H2; [discriminate|].
  rewrite propagate_loop2_S.
  destruct cur2 as [c2|]; [|discriminate]. cbn [mbind res_bind deref].
  destruct (String.eqb c2 cp); [intros [= <-]; exact Hst|].
  destruct (propagate_pair add folder1 folder2 cur1 c2 st) as [st1|] eqn:E; [|discriminate].
  cbn [mbind res_bind].
  apply propagate_pair_ok in E; auto.
  destruct (fst st1 !! c2) as [fo2|] eqn:Hl; [|discriminate].
  cbn [mbind res_bind deref]. intros Hrest.
  eapply IH; [exact E | exact H1 | | exact Hrest].
  intros c Hc. eapply (parent_valid st1 c2); eauto.
Qed.

Lemma propagate_loop1_ok fuel cp folder1 folder2 start2 : forall cur1 st st',
  st_ok P ar0 st -> P start2 -> (forall c, cur1 = Some c -> P c) ->
  propagate_loop1 add fuel cp folder1 folder2 start2 cur1 st = Ok st' ->
  st_ok P ar0 st'.
Proof.
  induction fuel as [|n IH]; intros cur1 st st' Hst H2 H1; [discriminate|].
  rewrite propagate_loop1_S.
  destruct cur1 as [c1|]; [|discriminate]. cbn [mbind res_bind deref].
  destruct (String.eqb c1 cp); [intros [= <-]; exact Hst|].
  destruct (propagate_loop2 add (chain_fuel (fst st)) cp folder1 folder2 c1
              (Some start2) st) as [st1|] eqn:E; [|discriminate].
  cbn [mbind res_bind].
  assert (E' : st_ok P ar0 st1).
  { eapply propagate_loop2_ok; [exact Hst | apply H1; reflexivity | | exact E].
    intros c [= <-]. exact H2. }
  destruct (fst st1 !! c1) as [fo1|] eqn:Hl; [|discriminate].
  cbn [mbind res_bind deref]. intros Hrest.
  eapply IH; [exact E' | exact H2 | | exact Hrest].
  intros c Hc. eapply (parent_valid st1 c1); eauto.
Qed.

Lemma calculateParentFolderSimilarity_ok folder1 folder2 st st' :
  st_ok P ar0 st ->
  calculateParentFolderSimilarity add folder1 folder2 st = Ok st' ->
  st_ok P ar0 st'.
Proof.
  intros Hst. unfold calculateParentFolderSimilarity.
  case_decide; [intros [= <-]; exact Hst|].
  destruct (fs_get (snd st) folder1) as [sd1|] eqn:G1; [|discriminate].
  destruct (fs_get (snd st) folder2) as [sd2|] eqn:G2; [|discriminate].
  cbn [mbind res_bind deref].
  destruct (fst st !! FolderSimilarity.Folder sd1) as [fo1|]; [|discriminate].
  destruct (fst st !! FolderSimilarity.Folder sd2) as [fo2|]; [|discriminate].
  cbn [mbind res_bind deref].
  case_decide; [intros [= <-]; exact Hst|].
  assert (Hside : forall r sd, fs_get (snd st) r = Some sd ->
                               P (FolderSimilarity.Folder sd)).
  { intros [k s] sd. unfold fs_get. simpl.
    destruct (snd st !! k) as [[t0 t1]|] eqn:Hk; [|discriminate].
    destruct Hst as [_ Hm]. destruct (Hm _ _ _ Hk) as (_ & P0 & P1).
    destruct s; intros [= <-]; assumption. }
  intros Hrest.
  eapply propagate_loop1_ok; [exact Hst | | | exact Hrest]; [eauto|].
  intros c [= <-]. eauto.
Qed.

Lemma propagate_all_ok keys : forall st st',
  st_ok P ar0 st -> propagate_all add keys st = Ok st' -> st_ok P ar0 st'.
Proof.
  induction keys as [|k rest IH]; intros st st' Hst; simpl.
  - intros [= <-]. exact Hst.
  - destruct (calculateParentFolderSimilarity add (k, Side0) (k, Side1) st)
      as [st1|] eqn:E; [|discriminate].
    cbn [mbind res_bind]. apply IH.
    eapply calculateParentFolderSimilarity_ok; eassumption.
Qed.

End LoopsKeepKeys.

(** ** The reverse index *)

Lemma index_append_elem p key (m : gmap string (list string)) path k :
  k ∈ default [] (index_append p key m !! path) <->
  k ∈ default [] (m !! path) \/ (path = p /\ k = key).
Proof.
  unfold index_append. destruct (decide (p = path)) as [<-|Hne].
  - rewrite lookup_insert_eq. simpl. rewrite elem_of_app, list_elem_of_singleton.
    split; intros [?|?]; auto. right. tauto.
  - rewrite lookup_insert_ne by done. split; [auto|].
    intros [?|[? _]]; [assumption|congruence].
Qed.

(** A key is in the list of [path] exactly when it splits into two
    different paths, one of which is [path]. *)
Lemma build_index_elem keys : forall (acc : gmap string (list string)) path k,
  k ∈ default [] (build_index keys acc !! path) <->
  k ∈ default [] (acc !! path) \/
  (k ∈ keys /\ exists p0 p1,
     GoString.split_colon k = [p0; p1] /\ p0 <> p1 /\ (path = p0 \/ path = p1)).
Proof.
  induction keys as [|key rest IH]; intros acc path k; simpl.
  - split; [auto|]. intros [?|[Hin _]]; [assumption|]. inversion Hin.
  - assert (Hskip : forall acc',
              (forall p0 p1, GoString.split_colon key = [p0; p1] -> p0 = p1) ->
              k ∈ default [] (build_index rest acc' !! path) <->
              k ∈ default [] (acc' !! path) \/
              (k ∈ key :: rest /\ exists p0 p1,
                 GoString.split_colon k = [p0; p1] /\ p0 <> p1 /\
                 (path = p0 \/ path = p1))).
    { intros acc' Hbad. rewrite IH. split.
      - intros [?|(Hin & Hex)]; [auto|]. right. split; [right; exact Hin|exact Hex].
      - intros [?|(Hin & p0 & p1 & Hs & Hne & Hp)]; [auto|].
        apply elem_of_cons in Hin as [->|Hin].
        + exfalso. apply Hne. eapply Hbad. exact Hs.
        + right. split; [exact Hin|]. eauto. }
    destruct (GoString.split_colon key) as [|p0 [|p1 [|p2 l]]] eqn:Hs;
      try (apply Hskip; intros ? ? [=]; fail).
    destruct (String.eqb_spec p0 p1) as [E|E].
    + apply Hskip. intros ? ? [= <- <-]. exact E.
    + rewrite IH, !index_append_elem. split.
      * intros [[[?|[-> ->]]|[-> ->]]|(Hin & Hex)]; auto.
        -- right. split; [left|]. exists p0, p1. auto.
        -- right. split; [left|]. exists p0, p1. auto.
        -- right. split; [right; exact Hin|exact Hex].
      * intros [?|(Hin & q0 & q1 & Hq & Hne & Hp)]; [auto|].
        apply elem_of_cons in Hin as [->|Hin].
        -- rewrite Hs in Hq. injection Hq as <- <-.
           destruct Hp as [->| ->]; auto.
        -- right. split; [exact Hin|]. eauto.
Qed.

Section GroupLoop.
Variable P : string -> Prop.
Hypothesis P_colon : forall p, P p -> GoString.has_colon p = false.

(** The key of a pair of the map splits into the folders of its sides. *)
Lemma sides_ok_split (m : pairmap) k s0 s1 :
  sides_ok P m -> m !! k = Some (s0, s1) ->
  GoString.split_colon k = [FolderSimilarity.Folder s0; FolderSimilarity.Folder s1] \/
  GoString.split_colon k = [FolderSimilarity.Folder s1; FolderSimilarity.Folder s0].
Proof.
  intros Hm Hk. destruct (Hm _ _ _ Hk) as (-> & P0 & P1).
  apply folderPairKey_split; auto.
Qed.

(** The pair of a key of the list comes out of the loop of
    [GetSimilarityFolderGroup], with the side of the queried folder first. *)
Lemma group_loop_elem (s : SimilarityChecker.t) keys k s0 s1 :
  sides_ok P (SimilarityChecker.similarityFolderPairs s) ->
  k ∈ keys ->
  SimilarityChecker.similarityFolderPairs s !! k = Some (s0, s1) ->
  FolderSimilarity.Folder s0 <> FolderSimilarity.Folder s1 ->
  ((k, Side0), (k, Side1)) ∈ group_loop s (FolderSimilarity.Folder s0) keys /\
  ((k, Side1), (k, Side0)) ∈ group_loop s (FolderSimilarity.Folder s1) keys.
Proof.
  intros Hm Hin Hk Hne.
  assert (Hhead : forall rest,
            group_loop s (FolderSimilarity.Folder s0) (k :: rest)
              = ((k, Side0), (k, Side1)) :: group_loop s (FolderSimilarity.Folder s0) rest /\
            group_loop s (FolderSimilarity.Folder s1) (k :: rest)
              = ((k, Side1), (k, Side0)) :: group_loop s (FolderSimilarity.Folder s1) rest).
  { intros rest. destruct (Hm _ _ _ Hk) as (Hkey & P0 & P1).
    simpl. unfold getFolderSimilarity.
    destruct (sides_ok_split _ _ _ _ Hm Hk) as [-> | ->].
    - rewrite <- Hkey, Hk. simpl. rewrite String.eqb_refl.
      unfold fs_get. simpl. rewrite Hk. simpl. rewrite String.eqb_refl.
      destruct (String.eqb_spec (FolderSimilarity.Folder s0) (FolderSimilarity.Folder s1));
        [contradiction|]. split; reflexivity.
    - rewrite (folderPairKey_sym (FolderSimilarity.Folder s1)), <- Hkey, Hk. simpl.
      destruct (String.eqb_spec (FolderSimilarity.Folder s0) (FolderSimilarity.Folder s1));
        [contradiction|].
      unfold fs_get. simpl. rewrite Hk. simpl. rewrite !String.eqb_refl.
      destruct (String.eqb_spec (FolderSimilarity.Folder s1) (FolderSimilarity.Folder s0));
        [congruence|]. split; reflexivity. }
  assert (Hcons : forall path k' rest x,
            x ∈ group_loop s path rest -> x ∈ group_loop s path (k' :: rest)).
  { intros path k' rest x Hx. simpl.
    destruct (GoString.split_colon k') as [|p0 [|p1 [|p2 l]]]; try exact Hx.
    destruct (getFolderSimilarity p0 p1 _) as [[f1 f2]|]; [|exact Hx].
    destruct (fs_get _ f1) as [sd|]; [|exact Hx].
    destruct (String.eqb _ path); right; exact Hx. }
  induction keys as [|k' rest IH]; [inversion Hin|].
  apply elem_of_cons in Hin as [<-|Hin].
  - destruct (Hhead rest) as [-> ->]. split; left.
  - destruct (IH Hin) as [I0 I1]. split; apply Hcons; assumption.
Qed.

End GroupLoop.

(** The pair map that [CalculateSimilarity] leaves is keyed by the folders
    of its pairs, which are folders of the storage. *)
Lemma CalculateSimilarity_with_sides add (o : RangeOrder) (storage st' : MemoryStorage.t)
    (c : SimilarityChecker.t) :
  no_colon_paths storage ->
  pointers_valid storage ->
  CalculateSimilarity_with add o storage = Ok (st', c) ->
  sides_ok (fun p => is_Some (MemoryStorage.folders storage !! p))
    (SimilarityChecker.similarityFolderPairs c) /\
  SimilarityChecker.similarityFolderMap c =
    build_index (order_index o (dom (SimilarityChecker.similarityFolderPairs c))) ∅.
Proof.
  intros Hcolon [Hfiles Hfolders]. unfold CalculateSimilarity_with.
  set (P := fun p => is_Some (MemoryStorage.folders storage !! p)).
  assert (Hclosed : arena_closed P (MemoryStorage.folders storage)).
  { intros p q Hp _.
    destruct (MemoryStorage.folders storage !! p) as [fo|] eqn:Hl; [|discriminate].
    simpl in Hp. injection Hp as Hp. exact (Hfolders p fo Hl q Hp). }
  assert (Hobjs : forall groups,
            Forall (fun g => Forall (file_valid P (MemoryStorage.objects storage))
                               (MatchedFileGroup.Files g)) groups).
  { intros groups. apply Forall_forall. intros g _. apply Forall_forall.
    intros a _ f p Ha Hp. exact (Hfiles a f Ha p Hp). }
  destruct (match_groups add _ _ _) as [[ar1 folders]|] eqn:E1; [|discriminate].
  cbn [mbind res_bind].
  destruct (propagate_all add _ _) as [[ar2 parentFolders]|] eqn:E2; [|discriminate].
  cbn [mbind res_bind]. intros [= <- <-]. simpl. split; [|reflexivity].
  assert (Hcol : forall p, P p -> GoString.has_colon p = false).
  { intros p [fo Hp]. exact (Hcolon p fo Hp). }
  assert (H0 : st_ok P (MemoryStorage.folders storage) (MemoryStorage.folders storage, ∅)).
  { split; [apply same_tree_refl|]. intros k s0 s1 Hk. simpl in Hk.
    rewrite lookup_empty in Hk. discriminate. }
  apply (match_groups_ok P Hcol _ _ add _ _ _ (Hobjs _) H0) in E1.
  apply (propagate_all_ok P Hcol _ Hclosed add _ _ _ E1) in E2.
  exact (proj2 E2).
Qed.

(** C10.  When no folder of the storage has a colon in its path, every key
    of the pair map that [CalculateSimilarity] builds splits at its colon
    into the folders of the two sides, so neither loop takes its "invalid
    key" branch: every key of the reverse index is a key of the pair map
    with two fields; and every pair of two different folders is in the
    reverse index under both folders and comes out of
    [GetSimilarityFolderGroup] for both, the queried side first.  With a
    folder [a:b], the pair of [a:b] and [c] has one duplicate on each side,
    and it is neither in the reverse index nor in the result of
    [GetSimilarityFolderGroup] for [a:b] or for [c]. *)
Theorem similarity_index_complete (o : RangeOrder) (storage st' : MemoryStorage.t)
    (c : SimilarityChecker.t) :
  RangeOrderSpec o ->
  no_colon_paths storage ->
  pointers_valid storage ->
  CalculateSimilarity o storage = Ok (st', c) ->
  let pairs := SimilarityChecker.similarityFolderPairs c in
  let index := SimilarityChecker.similarityFolderMap c in
  (forall k s0 s1, pairs !! k = Some (s0, s1) ->
     GoString.split_colon k = [FolderSimilarity.Folder s0; FolderSimilarity.Folder s1] \/
     GoString.split_colon k = [FolderSimilarity.Folder s1; FolderSimilarity.Folder s0]) /\
  (forall path k, k ∈ default [] (index !! path) ->
     is_Some (pairs !! k) /\ length (GoString.split_colon k) = 2%nat) /\
  (forall k s0 s1, pairs !! k = Some (s0, s1) ->
     FolderSimilarity.Folder s0 <> FolderSimilarity.Folder s1 ->
     k ∈ default [] (index !! FolderSimilarity.Folder s0) /\
     k ∈ default [] (index !! FolderSimilarity.Folder s1) /\
     forall sortOutput, (forall l, Permutation (sortOutput l) l) ->
       ((k, Side0), (k, Side1))
         ∈ GetSimilarityFolderGroup sortOutput c (FolderSimilarity.Folder s0) /\
       ((k, Side1), (k, Side0))
         ∈ GetSimilarityFolderGroup sortOutput c (FolderSimilarity.Folder s1)) /\
  (exists st2 c2 s0 s1,
     ~ no_colon_paths Ex.storage_colon /\
     CalculateSimilarity order_default Ex.storage_colon = Ok (st2, c2) /\
     SimilarityChecker.similarityFolderPairs c2 !! folderPairKey "a:b" "c" = Some (s0, s1) /\
     (0 < FolderSimilarity.DuplicateFileCount s0)%Z /\
     (0 < FolderSimilarity.DuplicateFileCount s1)%Z /\
     SimilarityChecker.similarityFolderMap c2 = ∅ /\
     GetSimilarityFolderGroup (fun l => l) c2 "a:b" = [] /\
     GetSimilarityFolderGroup (fun l => l) c2 "c" = []).
Proof.
  intros (_ & _ & Hord) Hcolon Hptr HC pairs index.
  destruct (CalculateSimilarity_with_sides add64 o storage st' c Hcolon Hptr HC)
    as [Hsides Hindex].
  fold pairs in Hsides, Hindex. fold index in Hindex.
  set (P := fun p => is_Some (MemoryStorage.folders storage !! p)) in *.
  assert (Hcol : forall p, P p -> GoString.has_colon p = false).
  { intros p [fo Hp]. exact (Hcolon p fo Hp). }
  assert (Hkeys : forall k, k ∈ order_index o (dom pairs) <-> is_Some (pairs !! k)).
  { intros k. rewrite (Hord (dom pairs)), elem_of_elements, elem_of_dom. reflexivity. }
  assert (Hsplit : forall k s0 s1, pairs !! k = Some (s0, s1) ->
            GoString.split_colon k = [FolderSimilarity.Folder s0; FolderSimilarity.Folder s1] \/
            GoString.split_colon k = [FolderSimilarity.Folder s1; FolderSimilarity.Folder s0]).
  { intros k s0 s1 Hk. eapply sides_ok_split; eauto. }
  assert (Hin : forall k s0 s1, pairs !! k = Some (s0, s1) ->
            FolderSimilarity.Folder s0 <> FolderSimilarity.Folder s1 ->
            k ∈ default [] (index !! FolderSimilarity.Folder s0) /\
            k ∈ default [] (index !! FolderSimilarity.Folder s1)).
  { intros k s0 s1 Hk Hne. rewrite Hindex, !build_index_elem.
    split; right; (split; [apply Hkeys; eauto|]).
    - destruct (Hsplit _ _ _ Hk) as [Hs|Hs]; eexists _, _; (split; [exact Hs|]); auto.
    - destruct (Hsplit _ _ _ Hk) as [Hs|Hs]; eexists _, _; (split; [exact Hs|]); auto. }
  split; [exact Hsplit|]. split; [|split].
  - intros path k Hk. rewrite Hindex, build_index_elem in Hk.
    destruct Hk as [Hk|(Hk & p0 & p1 & Hs & _)].
    + rewrite lookup_empty in Hk. inversion Hk.
    + split; [apply Hkeys; exact Hk|]. rewrite Hs. reflexivity.
  - intros k s0 s1 Hk Hne. destruct (Hin _ _ _ Hk Hne) as [I0 I1].
    split; [exact I0|]. split; [exact I1|].
    intros sortOutput Hperm. unfold GetSimilarityFolderGroup. fold index.
    rewrite !Hperm.
    split.
    + apply (group_loop_elem P Hcol c _ k s0 s1 Hsides I0 Hk Hne).
    + apply (group_loop_elem P Hcol c _ k s0 s1 Hsides I1 Hk Hne).
  - eexists _, _, _, _. split.
    { intros Hnc. specialize (Hnc "a:b"). vm_compute in Hnc.
      specialize (Hnc _ eq_refl). discriminate. }
    split; [vm_compute; reflexivity|].
    split; [vm_compute; reflexivity|].
    split; [vm_compute; reflexivity|].
    split; [vm_compute; reflexivity|].
    split; [vm_compute; reflexivity|].
    split; vm_compute; reflexivity.
Qed.


Lemma order_default_spec : RangeOrderSpec order_default.
Proof. repeat split; intros s; reflexivity. Qed.

(** The hypotheses on a concrete storage, by enumeration of its maps. *)
Ltac check_pointers :=
  apply map_Forall_to_list; vm_compute;
  repeat (apply Forall_cons; split;
          [ let q := fresh in let Hq := fresh in
            intros q Hq;
            first [ discriminate Hq
                  | injection Hq as <-; vm_compute; eexists; reflexivity ]
          | ]);
  apply Forall_nil; exact I.

Lemma storage_S2_no_colon : no_colon_paths Ex.storage_S2.
Proof.
  apply map_Forall_to_list. vm_compute.
  repeat (apply Forall_cons; split; [reflexivity|]). apply Forall_nil. exact I.
Qed.

Lemma storage_S2_pointers : pointers_valid Ex.storage_S2.
Proof. split; check_pointers. Qed.

Lemma similarity_index_complete_witness :
  exists st' c,
    CalculateSimilarity order_default Ex.storage_S2 = Ok (st', c) /\
    let pairs := SimilarityChecker.similarityFolderPairs c in
    let index := SimilarityChecker.similarityFolderMap c in
    (forall k s0 s1, pairs !! k = Some (s0, s1) ->
       GoString.split_colon k = [FolderSimilarity.Folder s0; FolderSimilarity.Folder s1] \/
       GoString.split_colon k = [FolderSimilarity.Folder s1; FolderSimilarity.Folder s0]) /\
    (forall path k, k ∈ default [] (index !! path) ->
       is_Some (pairs !! k) /\ length (GoString.split_colon k) = 2%nat) /\
    (forall k s0 s1, pairs !! k = Some (s0, s1) ->
       FolderSimilarity.Folder s0 <> FolderSimilarity.Folder s1 ->
       k ∈ default [] (index !! FolderSimilarity.Folder s0) /\
       k ∈ default [] (index !! FolderSimilarity.Folder s1) /\
       forall sortOutput, (forall l, Permutation (sortOutput l) l) ->
         ((k, Side0), (k, Side1))
           ∈ GetSimilarityFolderGroup sortOutput c (FolderSimilarity.Folder s0) /\
         ((k, Side1), (k, Side0))
           ∈ GetSimilarityFolderGroup sortOutput c (FolderSimilarity.Folder s1)).
Proof.
  destruct (CalculateSimilarity order_default Ex.storage_S2) as [[st' c]|] eqn:HC.
  - exists st', c. split; [reflexivity|].
    pose proof (similarity_index_complete order_default Ex.storage_S2 st' c
                  order_default_spec storage_S2_no_colon storage_S2_pointers HC) as H.
    cbn zeta in H. destruct H as (H1 & H2 & H3 & _). cbn zeta. auto.
  - exfalso. vm_compute in HC. discriminate.
Defined.

Lemma wrap_add_l x y : wrap 64 (wrap 64 x + y) = wrap 64 (x + y).
Proof.
  unfold wrap.
  replace (((x + 2 ^ (64 - 1)) mod 2 ^ 64 - 2 ^ (64 - 1) + y + 2 ^ (64 - 1)))%Z
    with ((x + 2 ^ (64 - 1)) mod 2 ^ 64 + y)%Z by lia.
  replace (x + y + 2 ^ (64 - 1))%Z with ((x + 2 ^ (64 - 1)) + y)%Z by lia.
  rewrite Zplus_mod_idemp_l. reflexivity.
Qed.

Lemma wrap_add_r x y : wrap 64 (x + wrap 64 y) = wrap 64 (x + y).
Proof. rewrite (Z.add_comm x), wrap_add_l, (Z.add_comm y). reflexivity. Qed.

Lemma wrap_small x : (- 2 ^ 63 <= x < 2 ^ 63)%Z -> wrap 64 x = x.
Proof.
  intros H. unfold wrap. change (64 - 1)%Z with 63%Z.
  rewrite Z.mod_small; lia.
Qed.

Lemma add64_wrap x y : add64 (wrap 64 x) (wrap 64 y) = wrap 64 (x + y).
Proof. unfold add64. rewrite wrap_add_l, wrap_add_r. reflexivity. Qed.

Lemma add64_wrap_1 x : add64 (wrap 64 x) 1 = wrap 64 (x + 1).
Proof. unfold add64. apply wrap_add_l. Qed.

Lemma wrap_counts_lookup (m : pairmap) k :
  wrap_counts m !! k = (fun p => (wrap_count (fst p), wrap_count (snd p))) <$> m !! k.
Proof. unfold wrap_counts. apply lookup_fmap. Qed.

Lemma fs_get_wrap (m : pairmap) r :
  fs_get (wrap_counts m) r = wrap_count <$> fs_get m r.
Proof.
  unfold fs_get. rewrite wrap_counts_lookup.
  destruct (m !! fst r) as [[s0 s1]|]; simpl; [|reflexivity].
  destruct (snd r); reflexivity.
Qed.

Lemma fs_update_wrap (m : pairmap) r f g :
  (forall sd, wrap_count (f sd) = g (wrap_count sd)) ->
  wrap_counts (fs_update m r f) = fs_update (wrap_counts m) r g.
Proof.
  intros Hfg. apply map_eq. intros k.
  rewrite wrap_counts_lookup, !fs_update_lookup, wrap_counts_lookup.
  case_decide; [|reflexivity].
  destruct (m !! k) as [[s0 s1]|]; simpl; [|reflexivity].
  destruct (snd r); simpl; rewrite Hfg; reflexivity.
Qed.

Lemma getDuplicatedFolderPair_wrap ar folder1 folder2 (m : pairmap) :
  getDuplicatedFolderPair ar folder1 folder2 (wrap_counts m) =
    let '(ar', m', f1, f2) := getDuplicatedFolderPair ar folder1 folder2 m in
    (ar', wrap_counts m', f1, f2).
Proof.
  unfold getDuplicatedFolderPair. rewrite wrap_counts_lookup.
  destruct (m !! folderPairKey folder1 folder2) as [[s0 s1]|].
  - simpl. destruct (String.eqb (FolderSimilarity.Folder s0) folder1); reflexivity.
  - cbn [fmap option_fmap option_map].
    destruct (GetFileCount (chain_fuel ar) ar folder1) as [c1 ar1].
    destruct (GetFileCount (chain_fuel ar1) ar1 folder2) as [c2 ar2].
    cbn [fst snd FolderSimilarity.Folder]. rewrite String.eqb_refl.
    unfold wrap_counts. rewrite fmap_insert. reflexivity.
Qed.

Lemma add_duplicate_wrap a name r (m : pairmap) :
  add_duplicate add64 a name r (wrap_counts m) =
    wrap_counts (add_duplicate Z.add a name r m).
Proof.
  unfold add_duplicate. rewrite fs_get_wrap.
  destruct (fs_get m r) as [sd|]; simpl; [|reflexivity].
  destruct (FolderSimilarity.DuplicateFiles sd !! name); [reflexivity|].
  symmetry. apply fs_update_wrap. intros sd'. unfold wrap_count. simpl.
  rewrite add64_wrap_1. reflexivity.
Qed.

Lemma add_count_wrap c sd :
  wrap_count (add_count Z.add c sd) = add_count add64 (wrap 64 c) (wrap_count sd).
Proof. unfold wrap_count, add_count. simpl. rewrite add64_wrap. reflexivity. Qed.

Lemma match_pair_wrap objs fi fj st :
  match_pair add64 objs fi fj (wrap_state st) =
    res_map wrap_state (match_pair Z.add objs fi fj st).
Proof.
  unfold match_pair.
  destruct (objs !! fi) as [file_i|]; [|reflexivity].
  destruct (objs !! fj) as [file_j|]; [|reflexivity].
  cbn [mbind res_bind deref].
  destruct (File.Parent file_i) as [pi|]; [|reflexivity].
  destruct (File.Parent file_j) as [pj|]; [|reflexivity].
  cbn [mbind res_bind deref]. unfold wrap_state at 1 2. cbn [fst snd].
  rewrite getDuplicatedFolderPair_wrap.
  destruct (getDuplicatedFolderPair (fst st) pi pj (snd st)) as [[[ar m] f1] f2].
  rewrite !add_duplicate_wrap. reflexivity.
Qed.

Lemma res_map_bind {A B : Type} (f : A -> A) (g : B -> B) (m : res A)
    (k k' : A -> res B) :
  (forall a, k' (f a) = res_map g (k a)) ->
  (res_map f m ≫= k') = res_map g (m ≫= k).
Proof. intros H. destruct m; simpl; [apply H | reflexivity]. Qed.

Lemma match_loop_j_wrap objs fi rest : forall st,
  match_loop_j add64 objs fi rest (wrap_state st) =
    res_map wrap_state (match_loop_j Z.add objs fi rest st).
Proof.
  induction rest as [|fj rest IH]; intros st; simpl; [reflexivity|].
  rewrite match_pair_wrap. apply res_map_bind. exact IH.
Qed.

Lemma match_loop_i_wrap objs files : forall st,
  match_loop_i add64 objs files (wrap_state st) =
    res_map wrap_state (match_loop_i Z.add objs files st).
Proof.
  induction files as [|fi rest IH]; intros st; simpl; [reflexivity|].
  rewrite match_loop_j_wrap. apply res_map_bind. exact IH.
Qed.

Lemma match_groups_wrap objs groups : forall st,
  match_groups add64 objs groups (wrap_state st) =
    res_map wrap_state (match_groups Z.add objs groups st).
Proof.
  induction groups as [|g rest IH]; intros st; simpl; [reflexivity|].
  rewrite match_loop_i_wrap. apply res_map_bind. exact IH.
Qed.

Lemma propagate_step_wrap (m : pairmap) (f fo : fsref) :
  (if decide (f = fo) then Ok (wrap_counts m)
   else sd ← deref (fs_get (wrap_counts m) fo);
        Ok (fs_update (wrap_counts m) f
              (add_count add64 (FolderSimilarity.DuplicateFileCount sd)))) =
  res_map wrap_counts
    (if decide (f = fo) then Ok m
     else sd ← deref (fs_get m fo);
          Ok (fs_update m f (add_count Z.add (FolderSimilarity.DuplicateFileCount sd)))).
Proof.
  case_decide; [reflexivity|]. rewrite fs_get_wrap.
  destruct (fs_get m fo) as [sd|]; [|reflexivity].
  cbn [fmap option_fmap option_map mbind res_bind deref res_map]. f_equal.
  symmetry. apply fs_update_wrap. intros sd'. apply add_count_wrap.
Qed.

Lemma propagate_pair_wrap folder1 folder2 cur1 cur2 st :
  propagate_pair add64 folder1 folder2 cur1 cur2 (wrap_state st) =
    res_map wrap_state (propagate_pair Z.add folder1 folder2 cur1 cur2 st).
Proof.
  unfold propagate_pair. unfold wrap_state at 1 2. cbn [fst snd].
  rewrite getDuplicatedFolderPair_wrap.
  destruct (getDuplicatedFolderPair (fst st) cur1 cur2 (snd st)) as [[[ar m] f1] f2].
  rewrite propagate_step_wrap.
  destruct (if decide (f1 = folder1) then _ else _) as [m1|]; [|reflexivity].
  cbn [mbind res_bind res_map]. rewrite propagate_step_wrap.
  destruct (if decide (f2 = folder2) then _ else _) as [m2|]; reflexivity.
Qed.

Lemma propagate_loop2_wrap fuel cp folder1 folder2 cur1 : forall cur2 st,
  propagate_loop2 add64 fuel cp folder1 folder2 cur1 cur2 (wrap_state st) =
    res_map wrap_state (propagate_loop2 Z.add fuel cp folder1 folder2 cur1 cur2 st).
Proof.
  induction fuel as [|n IH]; intros cur2 st; [reflexivity|].
  rewrite !propagate_loop2_S.
  destruct cur2 as [c2|]; [|reflexivity]. cbn [mbind res_bind deref].
  destruct (String.eqb c2 cp); [reflexivity|].
  rewrite propagate_pair_wrap. apply res_map_bind. intros st1.
  cbn [wrap_state fst].
  destruct (fst st1 !! c2) as [fo2|]; [|reflexivity].
  cbn [mbind res_bind deref]. apply IH.
Qed.

Lemma propagate_loop1_wrap fuel cp folder1 folder2 start2 : forall cur1 st,
  propagate_loop1 add64 fuel cp folder1 folder2 start2 cur1 (wrap_state st) =
    res_map wrap_state (propagate_loop1 Z.add fuel cp folder1 folder2 start2 cur1 st).
Proof.
  induction fuel as [|n IH]; intros cur1 st; [reflexivity|].
  rewrite !propagate_loop1_S.
  destruct cur1 as [c1|]; [|reflexivity]. cbn [mbind res_bind deref].
  destruct (String.eqb c1 cp); [reflexivity|].
  change (fst (wrap_state st)) with (fst st).
  rewrite propagate_loop2_wrap. apply res_map_bind. intros st1.
  cbn [wrap_state fst].
  destruct (fst st1 !! c1) as [fo1|]; [|reflexivity].
  cbn [mbind res_bind deref]. apply IH.
Qed.

Lemma calculateParentFolderSimilarity_wrap folder1 folder2 st :
  calculateParentFolderSimilarity add64 folder1 folder2 (wrap_state st) =
    res_map wrap_state (calculateParentFolderSimilarity Z.add folder1 folder2 st).
Proof.
  unfold calculateParentFolderSimilarity.
  case_decide; [reflexivity|].
  cbn [wrap_state fst snd]. rewrite !fs_get_wrap.
  destruct (fs_get (snd st) folder1) as [sd1|]; [|reflexivity].
  destruct (fs_get (snd st) folder2) as [sd2|]; [|reflexivity].
  cbn [fmap option_fmap option_map mbind res_bind deref wrap_count FolderSimilarity.Folder].
  destruct (fst st !! FolderSimilarity.Folder sd1) as [fo1|]; [|reflexivity].
  destruct (fst st !! FolderSimilarity.Folder sd2) as [fo2|]; [|reflexivity].
  cbn [mbind res_bind deref].
  case_decide; [reflexivity|].
  apply (propagate_loop1_wrap _ _ _ _ _ _ st).
Qed.

Lemma propagate_all_wrap keys : forall st,
  propagate_all add64 keys (wrap_state st) =
    res_map wrap_state (propagate_all Z.add keys st).
Proof.
  induction keys as [|k rest IH]; intros st; simpl; [reflexivity|].
  rewrite calculateParentFolderSimilarity_wrap. apply res_map_bind. exact IH.
Qed.

Lemma wrap_counts_empty : wrap_counts ∅ = ∅.
Proof. unfold wrap_counts. apply fmap_empty. Qed.

Lemma wrap_counts_dom (m : pairmap) : dom (wrap_counts m) = dom m.
Proof. unfold wrap_counts. apply dom_fmap_L. Qed.

(** The run of the program and the run without wrap-around go through the
    same steps; the counts of the first are those of the second, wrapped. *)
Lemma CalculateSimilarity_wrap_eq (o : RangeOrder) (storage : MemoryStorage.t) :
  CalculateSimilarity o storage =
    res_map (fun r => (fst r,
               SimilarityChecker.mk
                 (wrap_counts (SimilarityChecker.similarityFolderPairs (snd r)))
                 (SimilarityChecker.similarityFolderMap (snd r))))
      (CalculateSimilarity_with Z.add o storage).
Proof.
  unfold CalculateSimilarity, CalculateSimilarity_with.
  pose proof (match_groups_wrap (MemoryStorage.objects storage)
    (GetMatchedFiles_in (order_groups o (dom (MemoryStorage.matchedFiles storage))) storage)
    (MemoryStorage.folders storage, ∅)) as H1.
  unfold wrap_state at 1 in H1. cbn [fst snd] in H1. rewrite wrap_counts_empty in H1.
  rewrite H1. clear H1.
  destruct (match_groups Z.add _ _ _) as [[ar1 folders]|]; [|reflexivity].
  cbn [res_map mbind res_bind wrap_state fst snd].
  rewrite wrap_counts_dom.
  pose proof (propagate_all_wrap (order_pairs o (dom folders)) (ar1, folders)) as H2.
  unfold wrap_state at 1 in H2. cbn [fst snd] in H2. rewrite H2. clear H2.
  destruct (propagate_all Z.add _ _) as [[ar2 parentFolders]|]; [|reflexivity].
  cbn [res_map mbind res_bind wrap_state fst snd].
  rewrite wrap_counts_dom. reflexivity.
Qed.

(** X1.  [CalculateSimilarity] with the 64-bit counts of the program and the
    same run with unbounded counts go through the same steps: one panics
    exactly when the other does, and when they return they leave the same
    storage, the same keys in the pair map and the same reverse index; each
    side of each pair has the same folder, file count and duplicate-file
    map in both, and the duplicate count of the program is that of the
    unbounded run, wrapped to 64 bits. *)
Theorem CalculateSimilarity_wrap (o : RangeOrder) (storage : MemoryStorage.t) :
  (CalculateSimilarity o storage = Panic <->
   CalculateSimilarity_with Z.add o storage = Panic) /\
  forall st' ci,
    CalculateSimilarity_with Z.add o storage = Ok (st', ci) ->
    exists c,
      CalculateSimilarity o storage = Ok (st', c) /\
      SimilarityChecker.similarityFolderMap c = SimilarityChecker.similarityFolderMap ci /\
      dom (SimilarityChecker.similarityFolderPairs c)
        = dom (SimilarityChecker.similarityFolderPairs ci) /\
      forall r,
        fs_get (SimilarityChecker.similarityFolderPairs c) r =
          (fun sd => FolderSimilarity.mk (FolderSimilarity.Folder sd)
                       (FolderSimilarity.FileCount sd)
                       (wrap 64 (FolderSimilarity.DuplicateFileCount sd))
                       (FolderSimilarity.DuplicateFiles sd))
            <$> fs_get (SimilarityChecker.similarityFolderPairs ci) r.
Proof.
  rewrite CalculateSimilarity_wrap_eq. split.
  - destruct (CalculateSimilarity_with Z.add o storage) as [[st ci]|]; simpl.
    + split; discriminate.
    + split; reflexivity.
  - intros st' ci ->. simpl. eexists. split; [reflexivity|]. simpl.
    split; [reflexivity|]. split; [apply wrap_counts_dom|].
    intros r. apply fs_get_wrap.
Qed.

Lemma side_le_refl sd : side_le sd sd.
Proof. split; [reflexivity|]. split; [lia|auto]. Qed.

Lemma side_le_trans a b c : side_le a b -> side_le b c -> side_le a c.
Proof.
  intros (F1 & D1 & N1) (F2 & D2 & N2). split; [congruence|]. split; [lia|auto].
Qed.

Lemma pm_le_refl m : pm_le m m.
Proof. intros k s0 s1 H. exists s0, s1. auto using side_le_refl. Qed.

Lemma pm_le_trans m1 m2 m3 : pm_le m1 m2 -> pm_le m2 m3 -> pm_le m1 m3.
Proof.
  intros H1 H2 k s0 s1 Hk.
  destruct (H1 _ _ _ Hk) as (t0 & t1 & Hk2 & L0 & L1).
  destruct (H2 _ _ _ Hk2) as (u0 & u1 & Hk3 & M0 & M1).
  exists u0, u1. eauto using side_le_trans.
Qed.

Lemma pm_le_insert (m : pairmap) k p : m !! k = None -> pm_le m (<[k := p]> m).
Proof.
  intros Hk k' s0 s1 H. exists s0, s1.
  rewrite lookup_insert_ne by congruence. auto using side_le_refl.
Qed.

Lemma pm_le_update (m : pairmap) r f :
  (forall sd, fs_get m r = Some sd -> side_le sd (f sd)) -> pm_le m (fs_update m r f).
Proof.
  intros Hf k s0 s1 Hk. rewrite fs_update_lookup.
  destruct r as [k' s]. unfold fs_get in Hf. simpl in *.
  case_decide as E.
  - subst k'. rewrite Hk in *. simpl. destruct s; simpl in *.
    + exists (f s0), s1. auto using side_le_refl.
    + exists s0, (f s1). auto using side_le_refl.
  - exists s0, s1. auto using side_le_refl.
Qed.

Lemma pm_le_fs_get m m' r sd :
  pm_le m m' -> fs_get m r = Some sd ->
  exists sd', fs_get m' r = Some sd' /\ side_le sd sd'.
Proof.
  intros Hle. unfold fs_get.
  destruct (m !! fst r) as [[s0 s1]|] eqn:Hk; [|discriminate].
  destruct (Hle _ _ _ Hk) as (t0 & t1 & -> & L0 & L1).
  destruct (snd r); simpl; intros [= <-]; eauto.
Qed.

Lemma pm_le_side_of m m' A B sd :
  pm_le m m' -> side_of A B m = Some sd ->
  exists sd', side_of A B m' = Some sd' /\ side_le sd sd'.
Proof.
  intros Hle. unfold side_of, getFolderSimilarity.
  destruct (m !! folderPairKey A B) as [[s0 s1]|] eqn:Hk; [|discriminate].
  destruct (Hle _ _ _ Hk) as (t0 & t1 & Hk' & L0 & L1). rewrite Hk'.
  simpl. rewrite (proj1 L0).
  destruct (String.eqb (FolderSimilarity.Folder s0) A);
    unfold fs_get; simpl; rewrite Hk, Hk'; simpl; intros [= <-]; eauto.
Qed.

Lemma side_at_least_le m m' A B n :
  pm_le m m' -> side_at_least m A B n -> side_at_least m' A B n.
Proof.
  intros Hle (sd & Hs & HF & Hn).
  destruct (pm_le_side_of _ _ _ _ _ Hle Hs) as (sd' & Hs' & F & D & _).
  exists sd'. split; [exact Hs'|]. split; [congruence|lia].
Qed.

Lemma side_at_least_weaken m A B n n' :
  (n <= n')%Z -> side_at_least m A B n' -> side_at_least m A B n.
Proof. intros Hn (sd & Hs & HF & Hn'). exists sd. split; [|split]; auto. lia. Qed.

Lemma side_has_le m m' A B name :
  pm_le m m' -> side_has m A B name -> side_has m' A B name.
Proof.
  intros Hle (sd & Hs & HF & Hn).
  destruct (pm_le_side_of _ _ _ _ _ Hle Hs) as (sd' & Hs' & F & _ & N).
  exists sd'. split; [exact Hs'|]. split; [congruence|auto].
Qed.

Lemma counted_nonneg m : counted m -> nonneg m.
Proof. intros H r sd Hr. rewrite (H r sd Hr). lia. Qed.

Lemma counted_empty : counted ∅.
Proof. intros r sd. unfold fs_get. rewrite lookup_empty. discriminate. Qed.

Lemma fs_get_insert (m : pairmap) k p r :
  fs_get (<[k := p]> m) r =
    if decide (k = fst r) then Some (pair_side p (snd r)) else fs_get m r.
Proof.
  unfold fs_get. case_decide as E.
  - rewrite E, lookup_insert_eq. reflexivity.
  - rewrite lookup_insert_ne by exact E. reflexivity.
Qed.

Lemma before_total a b l : a ∈ l -> b ∈ l -> a <> b -> before a b l \/ before b a l.
Proof.
  induction l as [|x r IH]; intros Ha Hb Hne; [inversion Ha|].
  apply elem_of_cons in Ha, Hb. simpl.
  destruct Ha as [->|Ha], Hb as [->|Hb]; try congruence; auto.
  destruct (IH Ha Hb Hne); auto.
Qed.

Lemma commonParent_loop_sym l1 : forall l2 cp,
  commonParent_loop cp l1 l2 = commonParent_loop cp l2 l1.
Proof.
  induction l1 as [|x r1 IH]; intros [|y r2] cp; simpl; try reflexivity.
  rewrite (String.eqb_sym y x).
  destruct (String.eqb_spec x y) as [->|]; [apply IH|reflexivity].
Qed.

Lemma commonParent_sym a b : commonParent a b = commonParent b a.
Proof. apply commonParent_loop_sym. Qed.

Lemma chain_same_tree fuel ar ar' cp : same_tree ar ar' ->
  forall cur, chain fuel ar' cp cur = chain fuel ar cp cur.
Proof.
  intros Ht. induction fuel as [|n IH]; intros cur; simpl; [reflexivity|].
  destruct cur as [c|]; [|reflexivity].
  destruct (String.eqb c cp); [reflexivity|].
  specialize (Ht c).
  destruct (ar !! c) as [fo|], (ar' !! c) as [fo'|]; simpl in Ht; try discriminate;
    [|reflexivity].
  injection Ht as ->. rewrite IH. reflexivity.
Qed.

Lemma chain_elem fuel ar cp : forall cur l c,
  chain fuel ar cp cur = Some l -> c ∈ l -> is_Some (ar !! c).
Proof.
  induction fuel as [|n IH]; intros cur l c; simpl; [discriminate|].
  destruct cur as [c0|]; [|discriminate].
  destruct (String.eqb c0 cp); [intros [= <-] H; inversion H|].
  destruct (ar !! c0) as [fo|] eqn:Hl; [|discriminate].
  destruct (chain n ar cp (Folder.Parent fo)) as [l'|] eqn:Hc; [|discriminate].
  intros [= <-] H. apply elem_of_cons in H as [->|H]; [eauto|].
  eapply IH; eassumption.
Qed.

Lemma names_size (names : list string) (M : gmap string addr) :
  NoDup names -> (forall n, n ∈ names -> is_Some (M !! n)) ->
  (length names <= size M)%nat.
Proof.
  intros Hnd Hin. rewrite <- size_dom.
  unfold size, set_size. simpl.
  apply submseteq_length, NoDup_submseteq; [exact Hnd|].
  intros n Hn. apply elem_of_elements, elem_of_dom. auto.
Qed.

Section Primitive.
Variable P : string -> Prop.
Hypothesis P_colon : forall p, P p -> GoString.has_colon p = false.

Lemma side_of_ref (m : pairmap) A B s x :
  sides_ok P m -> P A -> P B -> A <> B ->
  fs_get m (folderPairKey A B, s) = Some x -> FolderSimilarity.Folder x = A ->
  side_of A B m = Some x.
Proof.
  intros Hm HA HB Hne. unfold side_of, getFolderSimilarity, fs_get. simpl.
  destruct (m !! folderPairKey A B) as [[s0 s1]|] eqn:Hk; [|discriminate].
  destruct (Hm _ _ _ Hk) as (Hkey & P0 & P1).
  apply folderPairKey_inj in Hkey; auto.
  simpl. destruct s; simpl; intros [= <-] HF.
  - rewrite HF, String.eqb_refl. simpl. rewrite Hk. reflexivity.
  - destruct (String.eqb_spec (FolderSimilarity.Folder s0) A) as [E|E].
    + exfalso. destruct Hkey as [[? ?]|[? ?]]; congruence.
    + simpl. rewrite Hk. reflexivity.
Qed.

Lemma getDuplicatedFolderPair_le ar folder1 folder2 (m : pairmap) :
  sides_ok P m -> P folder1 -> P folder2 ->
  exists ar' m' s x y,
    getDuplicatedFolderPair ar folder1 folder2 m
      = (ar', m', (folderPairKey folder1 folder2, s),
                  (folderPairKey folder1 folder2, other_side s)) /\
    same_tree ar ar' /\ sides_ok P m' /\ pm_le m m' /\
    (counted m -> counted m') /\ (nonneg m -> nonneg m') /\
    fs_get m' (folderPairKey folder1 folder2, s) = Some x /\
    fs_get m' (folderPairKey folder1 folder2, other_side s) = Some y /\
    FolderSimilarity.Folder x = folder1 /\ FolderSimilarity.Folder y = folder2.
Proof.
  intros Hm H1 H2.
  destruct (getDuplicatedFolderPair_spec P P_colon ar folder1 folder2 m Hm H1 H2)
    as (ar' & m' & s & x & y & E & Ht & Hm' & Hcase & Gx & Gy & Fx & Fy).
  exists ar', m', s, x, y. split; [exact E|]. split; [exact Ht|]. split; [exact Hm'|].
  assert (Hle : pm_le m m' /\ (counted m -> counted m') /\ (nonneg m -> nonneg m')).
  { destruct Hcase as [->|(Hnone & c1 & c2 & ->)].
    - split; [apply pm_le_refl|auto].
    - split; [apply pm_le_insert; exact Hnone|].
      split; intros Hc r sd; rewrite fs_get_insert; case_decide.
      + destruct (snd r); intros [= <-]; reflexivity.
      + apply Hc.
      + destruct (snd r); intros [= <-]; simpl; lia.
      + apply Hc. }
  destruct Hle as (L1 & L2 & L3). auto 10.
Qed.

Lemma add_duplicate_le a name r (m : pairmap) sd :
  fs_get m r = Some sd ->
  pm_le m (add_duplicate Z.add a name r m) /\
  (counted m -> counted (add_duplicate Z.add a name r m)) /\
  exists sd', fs_get (add_duplicate Z.add a name r m) r = Some sd' /\
              FolderSimilarity.Folder sd' = FolderSimilarity.Folder sd /\
              is_Some (FolderSimilarity.DuplicateFiles sd' !! name).
Proof.
  intros Hr. unfold add_duplicate. rewrite Hr.
  destruct (FolderSimilarity.DuplicateFiles sd !! name) as [a'|] eqn:Hn.
  - split; [apply pm_le_refl|]. split; [auto|].
    exists sd. rewrite Hn. eauto.
  - split; [|split].
    + apply pm_le_update. intros sd0 _. split; [reflexivity|]. split; simpl; [lia|].
      intros n Hin. destruct (decide (name = n)) as [->|Hne].
      * rewrite lookup_insert_eq. eauto.
      * rewrite lookup_insert_ne by exact Hne. exact Hin.
    + intros Hc r' sd'. rewrite fs_get_update. case_decide as E; [|apply Hc].
      subst r'. rewrite Hr. simpl. intros [= <-]. simpl.
      rewrite (Hc r sd Hr), map_size_insert_None by exact Hn. lia.
    + rewrite fs_get_update, decide_True by reflexivity. rewrite Hr. simpl.
      eexists. split; [reflexivity|]. simpl. split; [reflexivity|].
      rewrite lookup_insert_eq. eauto.
Qed.

End Primitive.

Section FirstStep.
Variable P : string -> Prop.
Hypothesis P_colon : forall p, P p -> GoString.has_colon p = false.
Variable ar0 : arena.
Variable objs : heap.

Lemma match_pair_total fi fj st :
  file_ok P objs fi -> file_ok P objs fj ->
  st_ok P ar0 st -> counted (snd st) ->
  exists st', match_pair Z.add objs fi fj st = Ok st' /\
    st_ok P ar0 st' /\ counted (snd st') /\ pm_le (snd st) (snd st') /\
    visited objs fi fj (snd st').
Proof.
  intros (f & p & Hf & Hp & HP) (f' & p' & Hf' & Hp' & HP') [Ht Hm] Hc.
  unfold match_pair. rewrite Hf, Hf'. cbn [mbind res_bind deref].
  rewrite Hp, Hp'. cbn [mbind res_bind deref].
  destruct (getDuplicatedFolderPair_le P P_colon (fst st) p p' (snd st) Hm HP HP')
    as (ar' & m1 & s & x & y & -> & Ht' & Hm1 & L1 & C1 & _ & Gx & Gy & Fx & Fy).
  set (r1 := (folderPairKey p p', s)) in *.
  set (r2 := (folderPairKey p p', other_side s)) in *.
  destruct (add_duplicate_le fi (File.Name f) r1 m1 x Gx) as (L2 & C2 & x2 & Gx2 & Fx2 & Nx2).
  set (m2 := add_duplicate Z.add fi (File.Name f) r1 m1) in *.
  destruct (pm_le_fs_get _ _ _ _ L2 Gy) as (y2 & Gy2 & Ly2).
  destruct (add_duplicate_le fj (File.Name f') r2 m2 y2 Gy2)
    as (L3 & C3 & y3 & Gy3 & Fy3 & Ny3).
  set (m3 := add_duplicate Z.add fj (File.Name f') r2 m2) in *.
  destruct (pm_le_fs_get _ _ _ _ L3 Gx2) as (x3 & Gx3 & Lx3).
  assert (Hm3 : sides_ok P m3) by (apply add_duplicate_sides, add_duplicate_sides, Hm1).
  eexists. split; [reflexivity|]. cbn [fst snd].
  split; [split; [eapply same_tree_trans; eassumption | exact Hm3]|].
  split; [auto|].
  split; [eauto using pm_le_trans|].
  intros f0 f0' p0 p0' Hf0 Hf0' Hp0 Hp0' Hne.
  rewrite Hf in Hf0. injection Hf0 as <-. rewrite Hf' in Hf0'. injection Hf0' as <-.
  rewrite Hp in Hp0. injection Hp0 as <-. rewrite Hp' in Hp0'. injection Hp0' as <-.
  destruct Lx3 as (Fx3 & _ & Nx3). destruct Ly2 as (Fy2 & _).
  split.
  - exists x3. split; [|split; [congruence | auto]].
    apply (side_of_ref P P_colon m3 p p' s); auto. congruence.
  - exists y3. split; [|split; [congruence | auto]].
    apply (side_of_ref P P_colon m3 p' p (other_side s)); auto.
    + rewrite folderPairKey_sym. exact Gy3.
    + congruence.
Qed.

Lemma visited_le a b m m' : pm_le m m' -> visited objs a b m -> visited objs a b m'.
Proof.
  intros Hle Hv f f' p p' Hf Hf' Hp Hp' Hne.
  destruct (Hv f f' p p' Hf Hf' Hp Hp' Hne). split; eapply side_has_le; eassumption.
Qed.

Lemma match_loop_j_total fi rest : forall st,
  file_ok P objs fi -> Forall (file_ok P objs) rest ->
  st_ok P ar0 st -> counted (snd st) ->
  exists st', match_loop_j Z.add objs fi rest st = Ok st' /\
    st_ok P ar0 st' /\ counted (snd st') /\ pm_le (snd st) (snd st') /\
    forall fj, fj ∈ rest -> visited objs fi fj (snd st').
Proof.
  induction rest as [|fj rest IH]; intros st Vi Vr Hst Hc; simpl.
  - exists st. split; [reflexivity|]. split; [exact Hst|]. split; [exact Hc|].
    split; [apply pm_le_refl|]. intros fj H. inversion H.
  - apply Forall_cons in Vr as [Vj Vr].
    destruct (match_pair_total fi fj st Vi Vj Hst Hc) as (st1 & -> & Hst1 & Hc1 & L1 & V1).
    cbn [mbind res_bind].
    destruct (IH st1 Vi Vr Hst1 Hc1) as (st' & -> & Hst' & Hc' & L' & V').
    exists st'. split; [reflexivity|]. split; [exact Hst'|]. split; [exact Hc'|].
    split; [eauto using pm_le_trans|].
    intros a Ha. apply elem_of_cons in Ha as [->|Ha]; [|auto].
    eapply visited_le; eassumption.
Qed.

Lemma match_loop_i_total files : forall st,
  Forall (file_ok P objs) files ->
  st_ok P ar0 st -> counted (snd st) ->
  exists st', match_loop_i Z.add objs files st = Ok st' /\
    st_ok P ar0 st' /\ counted (snd st') /\ pm_le (snd st) (snd st') /\
    forall a b, before a b files -> visited objs a b (snd st').
Proof.
  induction files as [|fi rest IH]; intros st Vf Hst Hc; simpl.
  - exists st. split; [reflexivity|]. split; [exact Hst|]. split; [exact Hc|].
    split; [apply pm_le_refl|]. intros a b [].
  - apply Forall_cons in Vf as [Vi Vr].
    destruct (match_loop_j_total fi rest st Vi Vr Hst Hc)
      as (st1 & -> & Hst1 & Hc1 & L1 & V1).
    cbn [mbind res_bind].
    destruct (IH st1 Vr Hst1 Hc1) as (st' & -> & Hst' & Hc' & L' & V').
    exists st'. split; [reflexivity|]. split; [exact Hst'|]. split; [exact Hc'|].
    split; [eauto using pm_le_trans|].
    intros a b [[-> Hb]|Hab]; [|auto].
    eapply visited_le; [exact L'|]. auto.
Qed.

Lemma match_groups_total groups : forall st,
  Forall (fun g => Forall (file_ok P objs) (MatchedFileGroup.Files g)) groups ->
  st_ok P ar0 st -> counted (snd st) ->
  exists st', match_groups Z.add objs groups st = Ok st' /\
    st_ok P ar0 st' /\ counted (snd st') /\ pm_le (snd st) (snd st') /\
    forall g a b, g ∈ groups -> before a b (MatchedFileGroup.Files g) ->
                  visited objs a b (snd st').
Proof.
  induction groups as [|g rest IH]; intros st Vg Hst Hc; simpl.
  - exists st. split; [reflexivity|]. split; [exact Hst|]. split; [exact Hc|].
    split; [apply pm_le_refl|]. intros g a b H. inversion H.
  - apply Forall_cons in Vg as [Vf Vr].
    destruct (match_loop_i_total (MatchedFileGroup.Files g) st Vf Hst Hc)
      as (st1 & -> & Hst1 & Hc1 & L1 & V1).
    cbn [mbind res_bind].
    destruct (IH st1 Vr Hst1 Hc1) as (st' & -> & Hst' & Hc' & L' & V').
    exists st'. split; [reflexivity|]. split; [exact Hst'|]. split; [exact Hc'|].
    split; [eauto using pm_le_trans|].
    intros g0 a b Hg Hab. apply elem_of_cons in Hg as [->|Hg]; [|eauto].
    eapply visited_le; [exact L'|]. auto.
Qed.

End FirstStep.

Lemma at_least_le m m' r n : pm_le m m' -> at_least m r n -> at_least m' r n.
Proof.
  intros Hle (sd & Hr & Hn).
  destruct (pm_le_fs_get _ _ _ _ Hle Hr) as (sd' & Hr' & _ & D & _).
  exists sd'. split; [exact Hr'|lia].
Qed.

Section SecondStep.
Variable P : string -> Prop.
Hypothesis P_colon : forall p, P p -> GoString.has_colon p = false.
Variable ar0 : arena.
Hypothesis ar0_closed : arena_closed P ar0.
Hypothesis P_arena : forall p, P p <-> is_Some (ar0 !! p).

Lemma propagate_step_total (m : pairmap) (f fo : fsref) x n :
  sides_ok P m -> nonneg m ->
  fs_get m f = Some x -> at_least m fo n ->
  exists m',
    (if decide (f = fo) then Ok m
     else sd ← deref (fs_get m fo);
          Ok (fs_update m f (add_count Z.add (FolderSimilarity.DuplicateFileCount sd))))
    = Ok m' /\
    sides_ok P m' /\ nonneg m' /\ pm_le m m' /\
    exists x', fs_get m' f = Some x' /\
               FolderSimilarity.Folder x' = FolderSimilarity.Folder x /\
               (n <= FolderSimilarity.DuplicateFileCount x')%Z.
Proof.
  intros Hm Hn Hf (sd & Hfo & Hsd). case_decide as E.
  - subst fo. exists m. split; [reflexivity|]. split; [exact Hm|]. split; [exact Hn|].
    split; [apply pm_le_refl|]. exists x. split; [exact Hf|]. split; [reflexivity|].
    congruence.
  - rewrite Hfo. cbn [mbind res_bind deref]. eexists. split; [reflexivity|].
    pose proof (Hn _ _ Hfo) as Hsd0.
    split; [apply sides_ok_update; [reflexivity|exact Hm]|].
    split.
    { intros r sd'. rewrite fs_get_update. case_decide; [|apply Hn].
      subst r. rewrite Hf. simpl. intros [= <-]. simpl.
      pose proof (Hn _ _ Hf). lia. }
    split.
    { apply pm_le_update. intros sd0 _. split; [reflexivity|]. split; simpl; [lia|auto]. }
    rewrite fs_get_update, decide_True by reflexivity. rewrite Hf. simpl.
    eexists. split; [reflexivity|]. simpl. split; [reflexivity|].
    pose proof (Hn _ _ Hf). lia.
Qed.

Lemma propagate_pair_total folder1 folder2 cur1 cur2 st n1 n2 :
  st_ok P ar0 st -> nonneg (snd st) -> P cur1 -> P cur2 ->
  at_least (snd st) folder1 n1 -> at_least (snd st) folder2 n2 ->
  exists st', propagate_pair Z.add folder1 folder2 cur1 cur2 st = Ok st' /\
    st_ok P ar0 st' /\ nonneg (snd st') /\ pm_le (snd st) (snd st') /\
    (cur1 <> cur2 ->
     side_at_least (snd st') cur1 cur2 n1 /\ side_at_least (snd st') cur2 cur1 n2).
Proof.
  intros [Ht Hm] Hn H1 H2 A1 A2. unfold propagate_pair.
  destruct (getDuplicatedFolderPair_le P P_colon (fst st) cur1 cur2 (snd st) Hm H1 H2)
    as (ar' & m1 & s & x & y & -> & Ht' & Hm1 & L1 & _ & N1 & Gx & Gy & Fx & Fy).
  specialize (N1 Hn).
  set (f1 := (folderPairKey cur1 cur2, s)) in *.
  set (f2 := (folderPairKey cur1 cur2, other_side s)) in *.
  destruct (propagate_step_total m1 f1 folder1 x n1 Hm1 N1 Gx (at_least_le _ _ _ _ L1 A1))
    as (m2 & -> & Hm2 & N2 & L2 & x2 & Gx2 & Fx2 & Dx2).
  cbn [mbind res_bind].
  destruct (pm_le_fs_get _ _ _ _ L2 Gy) as (y2 & Gy2 & Fy2 & _).
  destruct (propagate_step_total m2 f2 folder2 y2 n2 Hm2 N2 Gy2
              (at_least_le _ _ _ _ (pm_le_trans _ _ _ L1 L2) A2))
    as (m3 & -> & Hm3 & N3 & L3 & y3 & Gy3 & Fy3 & Dy3).
  cbn [mbind res_bind].
  destruct (pm_le_fs_get _ _ _ _ L3 Gx2) as (x3 & Gx3 & Fx3 & Dx3 & _).
  eexists. split; [reflexivity|]. cbn [fst snd].
  split; [split; [eapply same_tree_trans; eassumption | exact Hm3]|].
  split; [exact N3|].
  split; [eauto using pm_le_trans|].
  intros Hne. split.
  - exists x3. split; [|split; [congruence | lia]].
    apply (side_of_ref P P_colon m3 cur1 cur2 s); auto. congruence.
  - exists y3. split; [|split; [congruence | lia]].
    apply (side_of_ref P P_colon m3 cur2 cur1 (other_side s)); auto.
    + rewrite folderPairKey_sym. exact Gy3.
    + congruence.
Qed.

(** The arena of a state has the folders and the [Parent] pointers of the
    arena the run started with. *)
Lemma st_ok_lookup st c fo :
  st_ok P ar0 st -> ar0 !! c = Some fo ->
  exists fo', fst st !! c = Some fo' /\ Folder.Parent fo' = Folder.Parent fo.
Proof.
  intros [Ht _] Hc. specialize (Ht c). rewrite Hc in Ht. simpl in Ht.
  destruct (fst st !! c) as [fo'|]; [|discriminate].
  injection Ht as Ht. eauto.
Qed.

Lemma propagate_loop2_total fuel cp folder1 folder2 cur1 n1 n2 : forall cur2 l st,
  st_ok P ar0 st -> nonneg (snd st) -> P cur1 ->
  at_least (snd st) folder1 n1 -> at_least (snd st) folder2 n2 ->
  chain fuel ar0 cp cur2 = Some l ->
  exists st', propagate_loop2 Z.add fuel cp folder1 folder2 cur1 cur2 st = Ok st' /\
    st_ok P ar0 st' /\ nonneg (snd st') /\ pm_le (snd st) (snd st') /\
    forall c2, c2 ∈ l -> cur1 <> c2 ->
      side_at_least (snd st') cur1 c2 n1 /\ side_at_least (snd st') c2 cur1 n2.
Proof.
  induction fuel as [|n IH]; intros cur2 l st Hst Hn H1 A1 A2; [discriminate|].
  rewrite propagate_loop2_S. simpl chain.
  destruct cur2 as [c2|]; [|discriminate]. cbn [mbind res_bind deref].
  destruct (String.eqb c2 cp).
  { intros [= <-]. exists st. split; [reflexivity|]. split; [exact Hst|].
    split; [exact Hn|]. split; [apply pm_le_refl|]. intros c H. inversion H. }
  destruct (ar0 !! c2) as [fo|] eqn:Hc2; [|discriminate].
  destruct (chain n ar0 cp (Folder.Parent fo)) as [l'|] eqn:Hch; [|discriminate].
  intros [= <-].
  assert (H2 : P c2) by (apply P_arena; eauto).
  destruct (propagate_pair_total folder1 folder2 cur1 c2 st n1 n2 Hst Hn H1 H2 A1 A2)
    as (st1 & -> & Hst1 & Hn1 & L1 & E1).
  cbn [mbind res_bind].
  destruct (st_ok_lookup st1 c2 fo Hst1 Hc2) as (fo' & -> & Hp).
  cbn [mbind res_bind deref]. rewrite Hp.
  destruct (IH (Folder.Parent fo) l' st1 Hst1 Hn1 H1
              (at_least_le _ _ _ _ L1 A1) (at_least_le _ _ _ _ L1 A2) Hch)
    as (st' & -> & Hst' & Hn' & L' & E').
  exists st'. split; [reflexivity|]. split; [exact Hst'|]. split; [exact Hn'|].
  split; [eauto using pm_le_trans|].
  intros c Hc Hne. apply elem_of_cons in Hc as [->|Hc]; [|auto].
  destruct (E1 Hne). split; eapply side_at_least_le; eassumption.
Qed.

Lemma propagate_loop1_total fuel cp folder1 folder2 start2 n1 n2 l2 :
  chain (chain_fuel ar0) ar0 cp (Some start2) = Some l2 ->
  forall cur1 l1 st,
  st_ok P ar0 st -> nonneg (snd st) ->
  at_least (snd st) folder1 n1 -> at_least (snd st) folder2 n2 ->
  chain fuel ar0 cp cur1 = Some l1 ->
  exists st', propagate_loop1 Z.add fuel cp folder1 folder2 start2 cur1 st = Ok st' /\
    st_ok P ar0 st' /\ nonneg (snd st') /\ pm_le (snd st) (snd st') /\
    forall c1 c2, c1 ∈ l1 -> c2 ∈ l2 -> c1 <> c2 ->
      side_at_least (snd st') c1 c2 n1 /\ side_at_least (snd st') c2 c1 n2.
Proof.
  intros Hl2.
  induction fuel as [|n IH]; intros cur1 l1 st Hst Hn A1 A2; [discriminate|].
  rewrite propagate_loop1_S. simpl chain.
  destruct cur1 as [c1|]; [|discriminate]. cbn [mbind res_bind deref].
  destruct (String.eqb c1 cp).
  { intros [= <-]. exists st. split; [reflexivity|]. split; [exact Hst|].
    split; [exact Hn|]. split; [apply pm_le_refl|]. intros c c' H. inversion H. }
  destruct (ar0 !! c1) as [fo|] eqn:Hc1; [|discriminate].
  destruct (chain n ar0 cp (Folder.Parent fo)) as [l'|] eqn:Hch; [|discriminate].
  intros [= <-].
  assert (H1 : P c1) by (apply P_arena; eauto).
  rewrite (same_tree_fuel ar0 (fst st) (proj1 Hst)).
  destruct (propagate_loop2_total (chain_fuel ar0) cp folder1 folder2 c1 n1 n2
              (Some start2) l2 st Hst Hn H1 A1 A2 Hl2)
    as (st1 & -> & Hst1 & Hn1 & L1 & E1).
  cbn [mbind res_bind].
  destruct (st_ok_lookup st1 c1 fo Hst1 Hc1) as (fo' & -> & Hp).
  cbn [mbind res_bind deref]. rewrite Hp.
  destruct (IH (Folder.Parent fo) l' st1 Hst1 Hn1
              (at_least_le _ _ _ _ L1 A1) (at_least_le _ _ _ _ L1 A2) Hch)
    as (st' & -> & Hst' & Hn' & L' & E').
  exists st'. split; [reflexivity|]. split; [exact Hst'|]. split; [exact Hn'|].
  split; [eauto using pm_le_trans|].
  intros c c' Hc Hc' Hne. apply elem_of_cons in Hc as [->|Hc]; [|auto].
  destruct (E1 c' Hc' Hne). split; eapply side_at_least_le; eassumption.
Qed.

End SecondStep.

Lemma propagated_le ar m m' A B n1 n2 n1' n2' :
  pm_le m m' -> (n1' <= n1)%Z -> (n2' <= n2)%Z ->
  propagated ar m A B n1 n2 -> propagated ar m' A B n1' n2'.
Proof.
  intros Hle H1 H2 Hp Hne cA cB HA HB A' B' HA' HB' Hne'.
  destruct (Hp Hne cA cB HA HB A' B' HA' HB' Hne') as [S1 S2].
  split; eapply side_at_least_le; try exact Hle;
    eapply side_at_least_weaken; eassumption.
Qed.

Section Propagation.
Variable P : string -> Prop.
Hypothesis P_colon : forall p, P p -> GoString.has_colon p = false.
Variable ar0 : arena.
Hypothesis P_arena : forall p, P p <-> is_Some (ar0 !! p).
Hypothesis ar0_chains : chains_ok ar0.

Lemma calculateParentFolderSimilarity_total k s0 s1 st :
  st_ok P ar0 st -> nonneg (snd st) ->
  snd st !! k = Some (s0, s1) ->
  exists st',
    calculateParentFolderSimilarity Z.add (k, Side0) (k, Side1) st = Ok st' /\
    st_ok P ar0 st' /\ nonneg (snd st') /\ pm_le (snd st) (snd st') /\
    propagated ar0 (snd st') (FolderSimilarity.Folder s0) (FolderSimilarity.Folder s1)
      (FolderSimilarity.DuplicateFileCount s0) (FolderSimilarity.DuplicateFileCount s1).
Proof.
  intros Hst Hn Hk. unfold calculateParentFolderSimilarity.
  rewrite decide_False by congruence.
  assert (G0 : fs_get (snd st) (k, Side0) = Some s0) by (unfold fs_get; simpl; rewrite Hk; reflexivity).
  assert (G1 : fs_get (snd st) (k, Side1) = Some s1) by (unfold fs_get; simpl; rewrite Hk; reflexivity).
  rewrite G0, G1. cbn [mbind res_bind deref].
  destruct (proj2 Hst _ _ _ Hk) as (Hkey & P0 & P1).
  set (A := FolderSimilarity.Folder s0) in *. set (B := FolderSimilarity.Folder s1) in *.
  destruct (proj1 (P_arena A) P0) as [foA HA]. destruct (proj1 (P_arena B) P1) as [foB HB].
  destruct (st_ok_lookup P ar0 st A foA Hst HA) as (fo1 & -> & Hp1).
  destruct (st_ok_lookup P ar0 st B foB Hst HB) as (fo2 & -> & Hp2).
  cbn [mbind res_bind deref]. rewrite Hp1, Hp2.
  case_decide as Hpar.
  - exists st. split; [reflexivity|]. split; [exact Hst|]. split; [exact Hn|].
    split; [apply pm_le_refl|].
    intros Hne cA cB HcA HcB A' B' HA' HB' Hne'.
    destruct (ar0_chains A B foA foB HA HB Hne) as (cA0 & cB0 & E1 & E2 & Hsib).
    destruct (Hsib Hpar) as [-> ->].
    rewrite E1 in HcA. injection HcA as <-. rewrite E2 in HcB. injection HcB as <-.
    apply list_elem_of_singleton in HA', HB'. subst A' B'.
    split.
    + exists s0. split; [|split; [reflexivity|lia]].
      apply (side_of_ref P P_colon (snd st) A B Side0); auto; [apply Hst|].
      rewrite <- Hkey. exact G0.
    + exists s1. split; [|split; [reflexivity|lia]].
      apply (side_of_ref P P_colon (snd st) B A Side1); auto; [apply Hst|].
      rewrite folderPairKey_sym, <- Hkey. exact G1.
  - assert (Hne : A <> B) by (intros E; rewrite E, HB in HA; congruence).
    destruct (ar0_chains A B foA foB HA HB Hne) as (cA & cB & E1 & E2 & _).
    rewrite (same_tree_fuel ar0 (fst st) (proj1 Hst)).
    destruct (propagate_loop1_total P P_colon ar0 P_arena (chain_fuel ar0)
                (commonParent A B) (k, Side0) (k, Side1) B
                (FolderSimilarity.DuplicateFileCount s0)
                (FolderSimilarity.DuplicateFileCount s1) cB E2 (Some A) cA st Hst Hn)
      as (st' & -> & Hst' & Hn' & L' & E').
    { exists s0. split; [exact G0|lia]. }
    { exists s1. split; [exact G1|lia]. }
    { exact E1. }
    exists st'. split; [reflexivity|]. split; [exact Hst'|]. split; [exact Hn'|].
    split; [exact L'|].
    intros _ cA' cB' HcA HcB A' B' HA' HB' Hne'.
    rewrite E1 in HcA. injection HcA as <-. rewrite E2 in HcB. injection HcB as <-.
    auto.
Qed.

Lemma propagate_all_total keys : forall st,
  st_ok P ar0 st -> nonneg (snd st) ->
  (forall k, k ∈ keys -> is_Some (snd st !! k)) ->
  exists st',
    propagate_all Z.add keys st = Ok st' /\
    st_ok P ar0 st' /\ nonneg (snd st') /\ pm_le (snd st) (snd st') /\
    forall k s0 s1, k ∈ keys -> snd st !! k = Some (s0, s1) ->
      propagated ar0 (snd st') (FolderSimilarity.Folder s0) (FolderSimilarity.Folder s1)
        (FolderSimilarity.DuplicateFileCount s0) (FolderSimilarity.DuplicateFileCount s1).
Proof.
  induction keys as [|key rest IH]; intros st Hst Hn Hkeys; simpl.
  - exists st. split; [reflexivity|]. split; [exact Hst|]. split; [exact Hn|].
    split; [apply pm_le_refl|]. intros k s0 s1 H. inversion H.
  - destruct (Hkeys key) as [[t0 t1] Hkey]; [left|].
    destruct (calculateParentFolderSimilarity_total key t0 t1 st Hst Hn Hkey)
      as (st1 & -> & Hst1 & Hn1 & L1 & E1).
    cbn [mbind res_bind].
    destruct (IH st1 Hst1 Hn1) as (st' & -> & Hst' & Hn' & L' & E').
    { intros k Hk. destruct (Hkeys k) as [[u0 u1] Hu]; [right; exact Hk|].
      destruct (L1 _ _ _ Hu) as (v0 & v1 & Hv & _). eauto. }
    exists st'. split; [reflexivity|]. split; [exact Hst'|]. split; [exact Hn'|].
    split; [eauto using pm_le_trans|].
    intros k s0 s1 Hk Hl. apply elem_of_cons in Hk as [->|Hk].
    + rewrite Hkey in Hl. injection Hl as <- <-.
      eapply propagated_le; [exact L' | | | exact E1]; lia.
    + destruct (L1 _ _ _ Hl) as (v0 & v1 & Hv & (F0 & D0 & _) & (F1 & D1 & _)).
      rewrite <- F0, <- F1.
      eapply propagated_le; [apply pm_le_refl | | | exact (E' k v0 v1 Hk Hv)]; lia.
Qed.

End Propagation.

Lemma propagated_sym ar m A B n1 n2 :
  propagated ar m A B n1 n2 -> propagated ar m B A n2 n1.
Proof.
  intros Hp Hne cB cA HB HA B' A' HB' HA' Hne'.
  rewrite (commonParent_sym B A) in HA, HB.
  destruct (Hp (not_eq_sym Hne) cA cB HA HB A' B' HA' HB' (not_eq_sym Hne')). auto.
Qed.

Lemma side_of_inv A B (m : pairmap) sd :
  side_of A B m = Some sd ->
  exists s0 s1, m !! folderPairKey A B = Some (s0, s1) /\
    ((sd = s0 /\ FolderSimilarity.Folder s0 = A) \/
     (sd = s1 /\ FolderSimilarity.Folder s0 <> A)) /\
    exists r, fs_get m r = Some sd.
Proof.
  unfold side_of, getFolderSimilarity.
  destruct (m !! folderPairKey A B) as [[s0 s1]|] eqn:Hk; [|discriminate].
  simpl. intros H. exists s0, s1. split; [reflexivity|].
  destruct (String.eqb_spec (FolderSimilarity.Folder s0) A) as [E|E];
    (split; [|eexists; exact H]);
    unfold fs_get in H; simpl in H; rewrite Hk in H; simpl in H;
    injection H as <-; auto.
Qed.

Lemma elem_of_permutation_elements (l : list string) (s : gset string) k :
  Permutation l (elements s) -> k ∈ l <-> k ∈ s.
Proof. intros Hp. rewrite Hp. apply elem_of_elements. Qed.

Section IdealRun.
Variable o : RangeOrder.
Hypothesis o_spec : RangeOrderSpec o.
Variable s : MemoryStorage.t.
Hypothesis s_colon : no_colon_paths s.
Hypothesis s_pointers : pointers_valid s.
Hypothesis s_groups : groups_valid s.
Hypothesis s_chains : chains_ok (MemoryStorage.folders s).

Let P := fun p : string => is_Some (MemoryStorage.folders s !! p).

Lemma ideal_run :
  exists st' ci,
    CalculateSimilarity_with Z.add o s = Ok (st', ci) /\
    forall A B names, A <> B -> names <> [] -> shares s A B names ->
      side_at_least (SimilarityChecker.similarityFolderPairs ci) A B
        (Z.of_nat (length names)) /\
      forall cA cB,
        ancestors (MemoryStorage.folders s) A (commonParent A B) = Some cA ->
        ancestors (MemoryStorage.folders s) B (commonParent A B) = Some cB ->
        forall A' B', A' ∈ cA -> B' ∈ cB -> A' <> B' ->
          side_at_least (SimilarityChecker.similarityFolderPairs ci) A' B'
            (Z.of_nat (length names)).
Proof.
  destruct o_spec as (Og & Op & _). destruct s_pointers as [Hfiles Hfolders].
  assert (P_colon : forall p, P p -> GoString.has_colon p = false).
  { intros p [fo Hp]. exact (s_colon p fo Hp). }
  assert (P_arena : forall p, P p <-> is_Some (MemoryStorage.folders s !! p)) by reflexivity.
  unfold CalculateSimilarity_with.
  set (groups := GetMatchedFiles_in _ s).
  assert (Hin : forall g, g ∈ groups <->
            exists h, MemoryStorage.matchedFiles s !! h = Some g).
  { intros g. unfold groups, GetMatchedFiles_in. rewrite list_elem_of_omap.
    split.
    - intros (h & _ & Hh). eauto.
    - intros (h & Hh). exists h. split; [|exact Hh].
      apply (elem_of_permutation_elements _ _ _ (Og _)), elem_of_dom. eauto. }
  assert (Hvalid : Forall (fun g => Forall (file_ok P (MemoryStorage.objects s))
                                      (MatchedFileGroup.Files g)) groups).
  { apply Forall_forall. intros g Hg. apply Hin in Hg as (h & Hh).
    pose proof (s_groups h g Hh) as Hg. simpl in Hg.
    eapply Forall_impl; [exact Hg|]. intros a [p Hp]. simpl in Hp.
    destruct (MemoryStorage.objects s !! a) as [f|] eqn:Ha; [|discriminate].
    simpl in Hp. exists f, p. split; [exact Ha|]. split; [exact Hp|].
    exact (Hfiles a f Ha p Hp). }
  assert (H0 : st_ok P (MemoryStorage.folders s) (MemoryStorage.folders s, ∅)).
  { split; [apply same_tree_refl|]. intros k s0 s1 Hk. simpl in Hk.
    rewrite lookup_empty in Hk. discriminate. }
  destruct (match_groups_total P P_colon (MemoryStorage.folders s)
              (MemoryStorage.objects s) groups _ Hvalid H0 counted_empty)
    as ([arA mA] & -> & HstA & HcA & _ & HvA).
  cbn [mbind res_bind fst snd] in *.
  destruct (propagate_all_total P P_colon (MemoryStorage.folders s) P_arena s_chains
              (order_pairs o (dom mA)) (arA, mA) HstA (counted_nonneg _ HcA))
    as ([arB mB] & -> & HstB & HnB & LB & HpB).
  { intros k Hk. apply (elem_of_permutation_elements _ _ _ (Op _)) in Hk.
    apply elem_of_dom in Hk. exact Hk. }
  cbn [mbind res_bind fst snd] in *.
  eexists _, _. split; [reflexivity|]. cbn [SimilarityChecker.similarityFolderPairs].
  intros A B names Hne Hnames [Hnd Hdup].
  (* every name is on the side of A after the first step *)
  assert (Hhas : forall n, n ∈ names -> side_has mA A B n).
  { intros n Hn. rewrite Forall_forall in Hdup.
    destruct (Hdup n Hn) as (h & g & a & b & fa & fb & Hh & Ha & Hb & Hfa & Hfb & Pa & Pb & Na).
    assert (Hab : a <> b) by (intros ->; rewrite Hfa in Hfb; congruence).
    assert (Hg : g ∈ groups) by (apply Hin; eauto).
    destruct (before_total a b _ Ha Hb Hab) as [Hbef|Hbef].
    - destruct (HvA g a b Hg Hbef fa fb A B Hfa Hfb Pa Pb Hne) as [H1 _].
      rewrite Na in H1. exact H1.
    - destruct (HvA g b a Hg Hbef fb fa B A Hfb Hfa Pb Pa (not_eq_sym Hne)) as [_ H2].
      rewrite Na in H2. exact H2. }
  destruct names as [|n0 names']; [congruence|].
  assert (PAB : P A /\ P B).
  { apply Forall_cons in Hdup as [Hd _].
    destruct Hd as (h & g & a & b & fa & fb & _ & _ & _ & Hfa & Hfb & Pa & Pb & _).
    split; [exact (Hfiles a fa Hfa A Pa) | exact (Hfiles b fb Hfb B Pb)]. }
  destruct PAB as [PA PB].
  destruct (Hhas n0) as (sd & Hsd & HF & _); [left|].
  assert (Hcount : (Z.of_nat (length (n0 :: names')) <=
                    FolderSimilarity.DuplicateFileCount sd)%Z).
  { destruct (side_of_inv _ _ _ _ Hsd) as (t0 & t1 & _ & _ & r & Hr).
    rewrite (HcA r sd Hr). apply inj_le, names_size; [exact Hnd|].
    intros n Hn. destruct (Hhas n Hn) as (sd' & Hsd' & _ & Hin').
    rewrite Hsd in Hsd'. injection Hsd' as <-. exact Hin'. }
  set (k := Z.of_nat (length (n0 :: names'))) in *.
  assert (HA1 : side_at_least mA A B k) by (exists sd; auto).
  split; [eapply side_at_least_le; eassumption|].
  destruct (side_of_inv _ _ _ _ Hsd) as (s0 & s1 & Hk & Hor & _).
  destruct (proj2 HstA _ _ _ Hk) as (Hkey & P0 & P1).
  assert (Hkin : folderPairKey A B ∈ order_pairs o (dom mA)).
  { apply (elem_of_permutation_elements _ _ _ (Op _)), elem_of_dom. eauto. }
  pose proof (HpB _ s0 s1 Hkin Hk) as Hprop.
  assert (Hprop' : exists n2, propagated (MemoryStorage.folders s) mB A B k n2).
  { destruct Hor as [[-> HF0]|[-> HF0]].
    - assert (HF1 : FolderSimilarity.Folder s1 = B).
      { simpl in Hkey. apply folderPairKey_inj in Hkey; auto.
        destruct Hkey as [[? ?]|[? ?]]; congruence. }
      eexists. rewrite HF0, HF1 in Hprop.
      eapply propagated_le; [apply pm_le_refl| |reflexivity|exact Hprop]. exact Hcount.
    - assert (HF1 : FolderSimilarity.Folder s0 = B).
      { simpl in Hkey. apply folderPairKey_inj in Hkey; auto.
        destruct Hkey as [[? ?]|[? ?]]; congruence. }
      eexists. rewrite HF, HF1 in Hprop. apply propagated_sym.
      eapply propagated_le; [apply pm_le_refl|reflexivity| |exact Hprop]. exact Hcount. }
  destruct Hprop' as (n2 & Hprop').
  intros cA cB HcA' HcB' A' B' HA' HB' Hne'.
  exact (proj1 (Hprop' Hne cA cB HcA' HcB' A' B' HA' HB' Hne')).
Qed.

End IdealRun.

Lemma chains_okb_sound ar : chains_okb ar = true -> chains_ok ar.
Proof.
  unfold chains_okb. rewrite forallb_forall. intros H A B foA foB HA HB Hne.
  assert (IA : In (A, foA) (map_to_list ar))
    by (apply list_elem_of_In, elem_of_map_to_list, HA).
  assert (IB : In (B, foB) (map_to_list ar))
    by (apply list_elem_of_In, elem_of_map_to_list, HB).
  specialize (H (A, foA) IA). simpl in H. rewrite forallb_forall in H.
  specialize (H (B, foB) IB). simpl in H.
  destruct (String.eqb_spec A B) as [E|_]; [contradiction|]. simpl in H.
  destruct (ancestors ar A (commonParent A B)) as [cA|]; [|discriminate].
  destruct (ancestors ar B (commonParent A B)) as [cB|]; [|discriminate].
  exists cA, cB. split; [reflexivity|]. split; [reflexivity|]. intros Hpar.
  rewrite decide_True in H by exact Hpar.
  apply andb_true_iff in H as [H1 H2].
  apply bool_decide_eq_true in H1, H2. auto.
Qed.

Lemma storage_S2_groups : groups_valid Ex.storage_S2.
Proof.
  apply map_Forall_to_list. vm_compute.
  repeat (apply Forall_cons; split; [repeat constructor; eexists; reflexivity|]).
  apply Forall_nil. exact I.
Qed.

Lemma storage_S2_chains : chains_ok (MemoryStorage.folders Ex.storage_S2).
Proof. apply chains_okb_sound. vm_compute. reflexivity. Qed.

Lemma getFolderSimilarity_wrap A B (m : pairmap) :
  getFolderSimilarity A B (wrap_counts m) = getFolderSimilarity A B m.
Proof.
  unfold getFolderSimilarity. rewrite wrap_counts_lookup.
  destruct (m !! folderPairKey A B) as [[s0 s1]|]; reflexivity.
Qed.

Lemma side_of_pair P (m : pairmap) A B sx :
  (forall p, P p -> GoString.has_colon p = false) ->
  sides_ok P m -> P A -> P B -> A <> B ->
  side_of A B m = Some sx -> FolderSimilarity.Folder sx = A ->
  exists x y sy,
    getFolderSimilarity A B m = inl (x, y) /\
    fs_get m x = Some sx /\ fs_get m y = Some sy /\
    FolderSimilarity.Folder sy = B.
Proof.
  intros P_colon Hm PA PB Hne. unfold side_of, getFolderSimilarity.
  destruct (m !! folderPairKey A B) as [[s0 s1]|] eqn:Hk; [|discriminate].
  destruct (Hm _ _ _ Hk) as (Hkey & P0 & P1).
  apply folderPairKey_inj in Hkey; auto.
  simpl. destruct (String.eqb_spec (FolderSimilarity.Folder s0) A) as [E|E];
    intros Hx HF; eexists _, _, _; (split; [reflexivity|]); (split; [exact Hx|]);
    unfold fs_get; simpl; rewrite Hk; simpl; (split; [reflexivity|]);
    unfold fs_get in Hx; simpl in Hx; rewrite Hk in Hx; simpl in Hx;
    injection Hx as <-; destruct Hkey as [[? ?]|[? ?]]; congruence.
Qed.

Lemma pair_countsb_sound m A B n : pair_countsb m A B n = true -> pair_counts m A B n.
Proof.
  unfold pair_countsb, pair_counts.
  destruct (getFolderSimilarity A B m) as [[x y]|]; [|discriminate].
  destruct (fs_get m x) as [sx|] eqn:Gx; [|discriminate].
  destruct (fs_get m y) as [sy|] eqn:Gy; [|discriminate].
  rewrite !andb_true_iff. intros [[[H1 H2] H3] H4].
  apply String.eqb_eq in H1, H2. apply Z.eqb_eq in H3, H4.
  exists x, y, sx, sy. repeat split; assumption || reflexivity.
Qed.

(** Scenario S2, whatever the order of the iterations. *)
Lemma S2_counts (o : RangeOrder) :
  RangeOrderSpec o ->
  exists st' c,
    CalculateSimilarity o Ex.storage_S2 = Ok (st', c) /\
    pair_counts (SimilarityChecker.similarityFolderPairs c) "p/a" "q/b" 2 /\
    pair_counts (SimilarityChecker.similarityFolderPairs c) "p" "q" 2 /\
    pair_counts (SimilarityChecker.similarityFolderPairs c) "p/a" "q" 2.
Proof.
  intros (Og & Op & _). unfold CalculateSimilarity, CalculateSimilarity_with.
  pose proof (Og (dom (MemoryStorage.matchedFiles Ex.storage_S2))) as Pg.
  set (gs := order_groups o _) in *. clearbody gs.
  assert (Hcheck : S2_check gs = true).
  { assert (Hel : elements (dom (MemoryStorage.matchedFiles Ex.storage_S2)) = ["hy"; "hx"])
      by (vm_compute; reflexivity).
    rewrite Hel in Pg. apply Permutation_sym, Permutation_length_2_inv in Pg.
    destruct Pg as [-> | ->]; vm_compute; reflexivity. }
  unfold S2_check in Hcheck.
  destruct (match_groups add64 _ _ _) as [[ar1 folders]|]; [|discriminate].
  apply andb_true_iff in Hcheck as [Hk Hcheck]. apply bool_decide_eq_true in Hk.
  cbn [mbind res_bind].
  pose proof (Op (dom folders)) as Pp. rewrite Hk in Pp.
  apply Permutation_sym, Permutation_length_1_inv in Pp. rewrite Pp.
  destruct (propagate_all add64 _ _) as [[ar2 pf]|]; [|discriminate].
  cbn [mbind res_bind]. eexists _, _. split; [reflexivity|].
  cbn [SimilarityChecker.similarityFolderPairs].
  rewrite !andb_true_iff in Hcheck. destruct Hcheck as [[H1 H2] H3].
  auto using pair_countsb_sound.
Qed.

(** X2.  Propagation of the duplicate counts to the parent folders.  Take a
    storage without a colon in a folder path, whose [Parent] pointers lead
    to folders of the storage, whose matched files all have a [Parent], and
    in which every folder reaches the common parent of itself and any other
    folder along its [Parent] pointers.  Then, whatever the order of the
    map iterations, [CalculateSimilarity] returns; and if the folder [A]
    has files with [k >= 1] distinct names that have a duplicate in another
    folder [B], then the pair of [A] and [B], and the pair of every folder
    [A'] from [A] up to the common parent with every folder [B'] from [B]
    up to the common parent, is in the pair map, its two sides are those of
    [A'] and [B'], and the count of the side of [A'] is, wrapped to 64 bits,
    the count of the run with unbounded integers, which is at least [k]:
    the count itself is at least [k] unless it has overflowed.  For the
    tree of scenario S2 the pairs of [p/a] and [q/b], of [p] and [q] and of
    [p/a] and [q] have the count 2 on both sides. *)
Theorem ancestor_propagation (o : RangeOrder) (s : MemoryStorage.t) :
  RangeOrderSpec o ->
  no_colon_paths s -> pointers_valid s -> groups_valid s ->
  chains_ok (MemoryStorage.folders s) ->
  (exists st' c ci,
     CalculateSimilarity o s = Ok (st', c) /\
     CalculateSimilarity_with Z.add o s = Ok (st', ci) /\
     forall A B names, A <> B -> names <> [] -> shares s A B names ->
       forall A' B',
         (A' = A /\ B' = B) \/
         (exists cA cB,
            ancestors (MemoryStorage.folders s) A (commonParent A B) = Some cA /\
            ancestors (MemoryStorage.folders s) B (commonParent A B) = Some cB /\
            A' ∈ cA /\ B' ∈ cB /\ A' <> B') ->
         exists x y sx sy sxi,
           getFolderSimilarity A' B' (SimilarityChecker.similarityFolderPairs c)
             = inl (x, y) /\
           fs_get (SimilarityChecker.similarityFolderPairs c) x = Some sx /\
           fs_get (SimilarityChecker.similarityFolderPairs c) y = Some sy /\
           FolderSimilarity.Folder sx = A' /\ FolderSimilarity.Folder sy = B' /\
           fs_get (SimilarityChecker.similarityFolderPairs ci) x = Some sxi /\
           FolderSimilarity.DuplicateFileCount sx =
             wrap 64 (FolderSimilarity.DuplicateFileCount sxi) /\
           (Z.of_nat (length names) <= FolderSimilarity.DuplicateFileCount sxi)%Z /\
           ((FolderSimilarity.DuplicateFileCount sxi < 2 ^ 63)%Z ->
            (Z.of_nat (length names) <= FolderSimilarity.DuplicateFileCount sx)%Z)) /\
  (exists st' c,
     CalculateSimilarity o Ex.storage_S2 = Ok (st', c) /\
     pair_counts (SimilarityChecker.similarityFolderPairs c) "p/a" "q/b" 2 /\
     pair_counts (SimilarityChecker.similarityFolderPairs c) "p" "q" 2 /\
     pair_counts (SimilarityChecker.similarityFolderPairs c) "p/a" "q" 2).
Proof.
  intros Ho Hcolon Hptr Hgroups Hchains. split; [|exact (S2_counts o Ho)].
  destruct (ideal_run o Ho s Hcolon Hptr Hgroups Hchains) as (st' & ci & Hrun & Hprop).
  exists st', (SimilarityChecker.mk
                 (wrap_counts (SimilarityChecker.similarityFolderPairs ci))
                 (SimilarityChecker.similarityFolderMap ci)), ci.
  split; [rewrite CalculateSimilarity_wrap_eq, Hrun; reflexivity|].
  split; [exact Hrun|].
  destruct (CalculateSimilarity_with_sides Z.add o s st' ci Hcolon Hptr Hrun) as [Hsides _].
  set (P := fun p => is_Some (MemoryStorage.folders s !! p)) in *.
  assert (P_colon : forall p, P p -> GoString.has_colon p = false).
  { intros p [fo Hp]. exact (Hcolon p fo Hp). }
  cbn [SimilarityChecker.similarityFolderPairs].
  intros A B names Hne Hnames Hsh A' B' Hcase.
  destruct (Hprop A B names Hne Hnames Hsh) as [Hdirect Hanc].
  assert (Hside : side_at_least (SimilarityChecker.similarityFolderPairs ci) A' B'
                    (Z.of_nat (length names)) /\ A' <> B' /\ P A' /\ P B').
  { destruct Hcase as [[-> ->]|(cA & cB & HcA & HcB & HA' & HB' & Hne')].
    - split; [exact Hdirect|]. split; [exact Hne|].
      destruct Hsh as [_ Hdup]. destruct names as [|n0 names']; [congruence|].
      apply Forall_cons in Hdup as [Hd _].
      destruct Hd as (h & g & a & b & fa & fb & _ & _ & _ & Hfa & Hfb & Pa & Pb & _).
      split; [exact (proj1 Hptr a fa Hfa A Pa) | exact (proj1 Hptr b fb Hfb B Pb)].
    - split; [eauto|]. split; [exact Hne'|].
      unfold ancestors in HcA, HcB.
      unfold P. split; eapply chain_elem; [exact HcA|exact HA'|exact HcB|exact HB']. }
  destruct Hside as ((sxi & Hs & HF & Hn) & Hne' & PA & PB).
  destruct (side_of_pair P _ A' B' sxi P_colon Hsides PA PB Hne' Hs HF)
    as (x & y & syi & HG & Gx & Gy & Fy).
  exists x, y, (wrap_count sxi), (wrap_count syi), sxi.
  rewrite getFolderSimilarity_wrap, !fs_get_wrap, Gx, Gy.
  split; [exact HG|]. split; [reflexivity|]. split; [reflexivity|].
  split; [exact HF|]. split; [exact Fy|]. split; [reflexivity|].
  split; [reflexivity|]. split; [exact Hn|].
  intros Hmax. simpl. rewrite wrap_small; lia.
Qed.

Lemma storage_S2_shares : shares Ex.storage_S2 "p/a" "q/b" ["x"; "y"].
Proof.
  split.
  - apply NoDup_cons; split; [|apply NoDup_singleton].
    intros H; apply list_elem_of_singleton in H; discriminate.
  - apply Forall_cons; split; [|apply Forall_cons; split; [|apply Forall_nil; exact I]].
    + exists "hx", (MatchedFileGroup.mk [1; 0]%nat "hx"), 0%nat, 1%nat.
      eexists _, _.
      split; [vm_compute; reflexivity|].
      split; [right; left|]. split; [left|].
      split; [vm_compute; reflexivity|].
      split; [vm_compute; reflexivity|].
      repeat split.
    + exists "hy", (MatchedFileGroup.mk [3; 2]%nat "hy"), 2%nat, 3%nat.
      eexists _, _.
      split; [vm_compute; reflexivity|].
      split; [right; left|]. split; [left|].
      split; [vm_compute; reflexivity|].
      split; [vm_compute; reflexivity|].
      repeat split.
Qed.

Lemma ancestor_propagation_witness :
  exists st' c ci x y sx sy sxi,
    CalculateSimilarity order_default Ex.storage_S2 = Ok (st', c) /\
    CalculateSimilarity_with Z.add order_default Ex.storage_S2 = Ok (st', ci) /\
    getFolderSimilarity "p" "q" (SimilarityChecker.similarityFolderPairs c) = inl (x, y) /\
    fs_get (SimilarityChecker.similarityFolderPairs c) x = Some sx /\
    fs_get (SimilarityChecker.similarityFolderPairs c) y = Some sy /\
    FolderSimilarity.Folder sx = "p" /\ FolderSimilarity.Folder sy = "q" /\
    fs_get (SimilarityChecker.similarityFolderPairs ci) x = Some sxi /\
    FolderSimilarity.DuplicateFileCount sx =
      wrap 64 (FolderSimilarity.DuplicateFileCount sxi) /\
    (2 <= FolderSimilarity.DuplicateFileCount sxi)%Z.
Proof.
  destruct (ancestor_propagation order_default Ex.storage_S2 order_default_spec
              storage_S2_no_colon storage_S2_pointers storage_S2_groups
              storage_S2_chains) as [(st' & c & ci & Hrun & Hideal & Hprop) _].
  destruct (Hprop "p/a" "q/b" ["x"; "y"]) with (A' := "p") (B' := "q")
    as (x & y & sx & sy & sxi & H1 & H2 & H3 & H4 & H5 & H6 & H7 & H8 & _).
  - discriminate.
  - discriminate.
  - exact storage_S2_shares.
  - right. exists ["p/a"; "p"], ["q/b"; "q"].
    split; [vm_compute; reflexivity|]. split; [vm_compute; reflexivity|].
    split; [right; left|]. split; [right; left|]. discriminate.
  - exists st', c, ci, x, y, sx, sy, sxi; repeat split; assumption.
Defined.

(** With a colon in a folder name two pairs can have one key.  Here [c]
    has three files with a duplicate in [a:b], and the side that
    [getFolderSimilarity] gives for [c] in the pair of [c] and [a:b] is the
    side of the folder [a], with one duplicate. *)
Example colon_collision_count :
  ExPairs.side_count order_default ExPairs.storage_collide "c" "a:b" = Some ("a", 1%Z).
Proof. vm_compute. reflexivity. Qed.

(** Without a colon, but with sixty-four nested folders and the deepest
    pair visited first, the counts double from one level to the next and the
    64-bit count of the pair of [p] and [q] wraps around. *)
Example count_overflow :
  ExPairs.side_count ExPairs.order_deepest ExPairs.storage_deep "p" "q"
    = Some ("p", (- 2 ^ 63)%Z).
Proof. vm_compute. reflexivity. Qed.

(** X3.  [getDuplicatedFolderPair] and [getFolderSimilarity] agree.  In a
    pair map keyed by colon-free folders, after [getDuplicatedFolderPair]
    for two different folders [A] and [B], [getFolderSimilarity A B] finds
    the pair and returns the same two sides, [getFolderSimilarity B A]
    returns them swapped, and a second [getDuplicatedFolderPair], in
    either order of the folders, returns these sides again and changes
    neither the map nor the folders. *)
Theorem pair_lookup_round_trip (P : string -> Prop) (ar ar' : arena) (m m' : pairmap)
    (A B : string) (r1 r2 : fsref) :
  (forall p, P p -> GoString.has_colon p = false) ->
  sides_ok P m -> P A -> P B -> A <> B ->
  getDuplicatedFolderPair ar A B m = (ar', m', r1, r2) ->
  getFolderSimilarity A B m' = inl (r1, r2) /\
  getFolderSimilarity B A m' = inl (r2, r1) /\
  getDuplicatedFolderPair ar' A B m' = (ar', m', r1, r2) /\
  getDuplicatedFolderPair ar' B A m' = (ar', m', r2, r1) /\
  (exists x y, fs_get m' r1 = Some x /\ fs_get m' r2 = Some y /\
               FolderSimilarity.Folder x = A /\ FolderSimilarity.Folder y = B).
Proof.
  intros P_colon Hm PA PB Hne E.
  destruct (getDuplicatedFolderPair_spec P P_colon ar A B m Hm PA PB)
    as (ar1 & m1 & s & x & y & E1 & _ & Hm1 & _ & Gx & Gy & Fx & Fy).
  rewrite E in E1. injection E1 as <- <- -> ->.
  assert (Hk : exists s0 s1, m' !! folderPairKey A B = Some (s0, s1) /\
                 pair_side (s0, s1) s = x /\ pair_side (s0, s1) (other_side s) = y).
  { unfold fs_get in Gx, Gy. simpl in Gx, Gy.
    destruct (m' !! folderPairKey A B) as [[s0 s1]|]; [|discriminate].
    injection Gx as Gx. injection Gy as Gy. eauto. }
  destruct Hk as (s0 & s1 & Hk & Hx & Hy).
  assert (Hor : (s = Side0 /\ FolderSimilarity.Folder s0 = A /\
                 FolderSimilarity.Folder s1 = B) \/
                (s = Side1 /\ FolderSimilarity.Folder s1 = A /\
                 FolderSimilarity.Folder s0 = B)).
  { destruct s; simpl in Hx, Hy; subst x y; auto. }
  assert (EAB : String.eqb B A = false) by (apply String.eqb_neq; congruence).
  assert (EBA : String.eqb A B = false) by (apply String.eqb_neq; congruence).
  unfold getFolderSimilarity, getDuplicatedFolderPair.
  rewrite <- (folderPairKey_sym A B), Hk. simpl.
  destruct Hor as [(-> & F0 & F1)|(-> & F1 & F0)]; rewrite F0;
    rewrite ?String.eqb_refl, ?EAB, ?EBA; simpl;
    (split; [reflexivity|]); (split; [reflexivity|]); (split; [reflexivity|]);
    (split; [reflexivity|]); exists x, y; auto.
Qed.

Lemma pair_lookup_round_trip_witness :
  exists ar' m' r1 r2,
    getDuplicatedFolderPair (MemoryStorage.folders Ex.storage_S2) "q" "p" ∅
      = (ar', m', r1, r2) /\
    getFolderSimilarity "q" "p" m' = inl (r1, r2) /\
    getFolderSimilarity "p" "q" m' = inl (r2, r1).
Proof.
  destruct (getDuplicatedFolderPair (MemoryStorage.folders Ex.storage_S2) "q" "p" ∅)
    as [[[ar' m'] r1] r2] eqn:E.
  exists ar', m', r1, r2. split; [reflexivity|].
  destruct (pair_lookup_round_trip
              (fun p => GoString.has_colon p = false)
              (MemoryStorage.folders Ex.storage_S2) ar' ∅ m' "q" "p" r1 r2) as (H1 & H2 & _).
  - auto.
  - intros k s0 s1 Hk. rewrite lookup_empty in Hk. discriminate.
  - reflexivity.
  - reflexivity.
  - discriminate.
  - exact E.
  - auto.
Defined.

Lemma only_caches_refl ar : only_caches ar ar.
Proof. reflexivity. Qed.

Lemma only_caches_trans ar1 ar2 ar3 :
  only_caches ar1 ar2 -> only_caches ar2 ar3 -> only_caches ar1 ar3.
Proof. unfold only_caches. congruence. Qed.

Lemma only_caches_set (ar : arena) f fo c :
  ar !! f = Some fo -> only_caches ar (<[f := Folder.set_fileCountCache c fo]> ar).
Proof.
  intros Hf. unfold only_caches. rewrite fmap_insert.
  apply insert_id. rewrite lookup_fmap, Hf. reflexivity.
Qed.

Lemma GetFileCount_only_caches fuel : forall (ar : arena) f,
  only_caches ar (snd (GetFileCount fuel ar f)).
Proof.
  induction fuel as [|n IH]; intros ar f; simpl; [apply only_caches_refl|].
  destruct (ar !! f) as [fo|] eqn:Hf; [|apply only_caches_refl].
  destruct (negb (Folder.fileCountCache fo =? 0)%Z); [apply only_caches_refl|].
  assert (Hfold : forall children (acc : Z * arena),
            only_caches ar (snd acc) ->
            only_caches ar
              (snd (fold_left
                      (fun (acc : Z * arena) (child : string) =>
                         let '(n1, fs1) := GetFileCount n (snd acc) child in
                         (add64 (fst acc) n1, fs1))
                      children acc))).
  { induction children as [|c rest IHc]; intros acc Hacc; simpl; [exact Hacc|].
    apply IHc. specialize (IH (snd acc) c).
    destruct (GetFileCount n (snd acc) c) as [n1 fs1]. simpl in *.
    eapply only_caches_trans; eassumption. }
  specialize (Hfold (GetFolders fo) (Folder.fileCount fo, ar) (only_caches_refl ar)).
  destruct (fold_left _ (GetFolders fo) (Folder.fileCount fo, ar)) as [c folders1].
  simpl in Hfold |- *.
  destruct (folders1 !! f) as [fo1|] eqn:Hf1; [|exact Hfold].
  eapply only_caches_trans; [exact Hfold|]. apply only_caches_set. exact Hf1.
Qed.

Lemma getDuplicatedFolderPair_only_caches ar folder1 folder2 (m : pairmap) :
  only_caches ar (getDuplicatedFolderPair ar folder1 folder2 m).1.1.1.
Proof.
  unfold getDuplicatedFolderPair.
  destruct (m !! folderPairKey folder1 folder2) as [p|].
  - destruct (String.eqb _ _); apply only_caches_refl.
  - pose proof (GetFileCount_only_caches (chain_fuel ar) ar folder1) as T1.
    destruct (GetFileCount (chain_fuel ar) ar folder1) as [c1 ar1]. simpl in T1.
    pose proof (GetFileCount_only_caches (chain_fuel ar1) ar1 folder2) as T2.
    destruct (GetFileCount (chain_fuel ar1) ar1 folder2) as [c2 ar2]. simpl in T2.
    cbn [fst snd FolderSimilarity.Folder]. rewrite String.eqb_refl. simpl.
    eapply only_caches_trans; eassumption.
Qed.

Section KeepsStorage.
Variable add : Z -> Z -> Z.
Variable objs : heap.

Lemma match_pair_only_caches fi fj st st' :
  match_pair add objs fi fj st = Ok st' -> only_caches (fst st) (fst st').
Proof.
  unfold match_pair.
  destruct (objs !! fi) as [file_i|]; [|discriminate].
  destruct (objs !! fj) as [file_j|]; [|discriminate].
  cbn [mbind res_bind deref].
  destruct (File.Parent file_i) as [pi|]; [|discriminate].
  destruct (File.Parent file_j) as [pj|]; [|discriminate].
  cbn [mbind res_bind deref].
  pose proof (getDuplicatedFolderPair_only_caches (fst st) pi pj (snd st)) as T.
  destruct (getDuplicatedFolderPair (fst st) pi pj (snd st)) as [[[ar m] f1] f2].
  intros [= <-]. exact T.
Qed.

Lemma match_loop_j_only_caches fi rest : forall st st',
  match_loop_j add objs fi rest st = Ok st' -> only_caches (fst st) (fst st').
Proof.
  induction rest as [|fj rest IH]; intros st st'; simpl.
  - intros [= <-]. apply only_caches_refl.
  - destruct (match_pair add objs fi fj st) as [st1|] eqn:E; [|discriminate].
    cbn [mbind res_bind]. intros Hr.
    eapply only_caches_trans; [eapply match_pair_only_caches; exact E | eauto].
Qed.

Lemma match_loop_i_only_caches files : forall st st',
  match_loop_i add objs files st = Ok st' -> only_caches (fst st) (fst st').
Proof.
  induction files as [|fi rest IH]; intros st st'; simpl.
  - intros [= <-]. apply only_caches_refl.
  - destruct (match_loop_j add objs fi rest st) as [st1|] eqn:E; [|discriminate].
    cbn [mbind res_bind]. intros Hr.
    eapply only_caches_trans; [eapply match_loop_j_only_caches; exact E | eauto].
Qed.

Lemma match_groups_only_caches groups : forall st st',
  match_groups add objs groups st = Ok st' -> only_caches (fst st) (fst st').
Proof.
  induction groups as [|g rest IH]; intros st st'; simpl.
  - intros [= <-]. apply only_caches_refl.
  - destruct (match_loop_i add objs (MatchedFileGroup.Files g) st) as [st1|] eqn:E;
      [|discriminate].
    cbn [mbind res_bind]. intros Hr.
    eapply only_caches_trans; [eapply match_loop_i_only_caches; exact E | eauto].
Qed.

Lemma propagate_pair_only_caches folder1 folder2 cur1 cur2 st st' :
  propagate_pair add folder1 folder2 cur1 cur2 st = Ok st' ->
  only_caches (fst st) (fst st').
Proof.
  unfold propagate_pair.
  pose proof (getDuplicatedFolderPair_only_caches (fst st) cur1 cur2 (snd st)) as T.
  destruct (getDuplicatedFolderPair (fst st) cur1 cur2 (snd st)) as [[[ar m] f1] f2].
  destruct (if decide (f1 = folder1) then _ else _) as [m1|]; [|discriminate].
  cbn [mbind res_bind].
  destruct (if decide (f2 = folder2) then _ else _) as [m2|]; [|discriminate].
  cbn [mbind res_bind]. intros [= <-]. exact T.
Qed.

Lemma propagate_loop2_only_caches fuel cp folder1 folder2 cur1 : forall cur2 st st',
  propagate_loop2 add fuel cp folder1 folder2 cur1 cur2 st = Ok st' ->
  only_caches (fst st) (fst st').
Proof.
  induction fuel as [|n IH]; intros cur2 st st'; [discriminate|].
  rewrite propagate_loop2_S.
  destruct cur2 as [c2|]; [|discriminate]. cbn [mbind res_bind deref].
  destruct (String.eqb c2 cp); [intros [= <-]; apply only_caches_refl|].
  destruct (propagate_pair add folder1 folder2 cur1 c2 st) as [st1|] eqn:E; [|discriminate].
  cbn [mbind res_bind].
  destruct (fst st1 !! c2) as [fo2|]; [|discriminate].
  cbn [mbind res_bind deref]. intros Hr.
  eapply only_caches_trans; [eapply propagate_pair_only_caches; exact E | eauto].
Qed.

Lemma propagate_loop1_only_caches fuel cp folder1 folder2 start2 : forall cur1 st st',
  propagate_loop1 add fuel cp folder1 folder2 start2 cur1 st = Ok st' ->
  only_caches (fst st) (fst st').
Proof.
  induction fuel as [|n IH]; intros cur1 st st'; [discriminate|].
  rewrite propagate_loop1_S.
  destruct cur1 as [c1|]; [|discriminate]. cbn [mbind res_bind deref].
  destruct (String.eqb c1 cp); [intros [= <-]; apply only_caches_refl|].
  destruct (propagate_loop2 add (chain_fuel (fst st)) cp folder1 folder2 c1
              (Some start2) st) as [st1|] eqn:E; [|discriminate].
  cbn [mbind res_bind].
  destruct (fst st1 !! c1) as [fo1|]; [|discriminate].
  cbn [mbind res_bind deref]. intros Hr.
  eapply only_caches_trans; [eapply propagate_loop2_only_caches; exact E | eauto].
Qed.

Lemma calculateParentFolderSimilarity_only_caches folder1 folder2 st st' :
  calculateParentFolderSimilarity add folder1 folder2 st = Ok st' ->
  only_caches (fst st) (fst st').
Proof.
  unfold calculateParentFolderSimilarity.
  case_decide; [intros [= <-]; apply only_caches_refl|].
  destruct (fs_get (snd st) folder1) as [sd1|]; [|discriminate].
  destruct (fs_get (snd st) folder2) as [sd2|]; [|discriminate].
  cbn [mbind res_bind deref].
  destruct (fst st !! FolderSimilarity.Folder sd1) as [fo1|]; [|discriminate].
  destruct (fst st !! FolderSimilarity.Folder sd2) as [fo2|]; [|discriminate].
  cbn [mbind res_bind deref].
  case_decide; [intros [= <-]; apply only_caches_refl|].
  apply propagate_loop1_only_caches.
Qed.

Lemma propagate_all_only_caches keys : forall st st',
  propagate_all add keys st = Ok st' -> only_caches (fst st) (fst st').
Proof.
  induction keys as [|k rest IH]; intros st st'; simpl.
  - intros [= <-]. apply only_caches_refl.
  - destruct (calculateParentFolderSimilarity add (k, Side0) (k, Side1) st)
      as [st1|] eqn:E; [|discriminate].
    cbn [mbind res_bind]. intros Hr.
    eapply only_caches_trans;
      [eapply calculateParentFolderSimilarity_only_caches; exact E | eauto].
Qed.

End KeepsStorage.

(** X4.  [CalculateSimilarity] reads the storage and does not change it: the
    File objects, the matched groups and the hash map are the same
    afterwards, and so are the folders, their names, paths, parents,
    subfolders, files and file counts; only the cached counts that
    [GetFileCount] fills can differ. *)
Theorem CalculateSimilarity_keeps_storage (o : RangeOrder)
    (storage st' : MemoryStorage.t) (c : SimilarityChecker.t) :
  CalculateSimilarity o storage = Ok (st', c) ->
  MemoryStorage.objects st' = MemoryStorage.objects storage /\
  MemoryStorage.matchedFiles st' = MemoryStorage.matchedFiles storage /\
  MemoryStorage.hashMap st' = MemoryStorage.hashMap storage /\
  only_caches (MemoryStorage.folders storage) (MemoryStorage.folders st') /\
  (forall p fo', MemoryStorage.folders st' !! p = Some fo' ->
     exists fo, MemoryStorage.folders storage !! p = Some fo /\
                fo' = Folder.set_fileCountCache (Folder.fileCountCache fo') fo).
Proof.
  unfold CalculateSimilarity, CalculateSimilarity_with.
  destruct (match_groups add64 _ _ _) as [[ar1 folders]|] eqn:E1; [|discriminate].
  cbn [mbind res_bind].
  destruct (propagate_all add64 _ _) as [[ar2 parentFolders]|] eqn:E2; [|discriminate].
  cbn [mbind res_bind]. intros [= <- <-]. simpl.
  apply match_groups_only_caches in E1. apply propagate_all_only_caches in E2.
  simpl in E1, E2.
  assert (Hc : only_caches (MemoryStorage.folders storage) ar2)
    by (eapply only_caches_trans; eassumption).
  repeat split; try reflexivity; [exact Hc|].
  intros p fo' Hp. unfold only_caches in Hc.
  apply (f_equal (fun m => m !! p)) in Hc. rewrite !lookup_fmap, Hp in Hc.
  destruct (MemoryStorage.folders storage !! p) as [fo|]; [|discriminate].
  exists fo. split; [reflexivity|]. simpl in Hc. injection Hc as Hc.
  destruct fo, fo'. unfold forget_cache, Folder.set_fileCountCache in *. simpl in *.
  congruence.
Qed.

Lemma CalculateSimilarity_keeps_storage_witness :
  exists st' c,
    CalculateSimilarity order_default Ex.storage_S2 = Ok (st', c) /\
    MemoryStorage.objects st' = MemoryStorage.objects Ex.storage_S2 /\
    MemoryStorage.matchedFiles st' = MemoryStorage.matchedFiles Ex.storage_S2 /\
    MemoryStorage.hashMap st' = MemoryStorage.hashMap Ex.storage_S2.
Proof.
  destruct (CalculateSimilarity order_default Ex.storage_S2) as [[st' c]|] eqn:HC.
  - exists st', c. split; [reflexivity|].
    destruct (CalculateSimilarity_keeps_storage order_default Ex.storage_S2 st' c HC)
      as (H1 & H2 & H3 & _). auto.
  - exfalso. vm_compute in HC. discriminate.
Defined.

Section ExecuteMore.
Context {FS : Type} `{FileSystem FS}.
Variable sched : Schedule.

Lemma report_done i u err (e : Executor.t FS) :
  Executor.done (report sched i u err e) = Executor.done e.
Proof.
  unfold report, log_add, chan_try_send, chan_recv. simpl.
  destruct (Nat.ltb _ _); simpl;
    destruct err; destruct (Executor.logger e); reflexivity.
Qed.

Lemma Execute_loop_done total rest : forall i (e e' : Executor.t FS) err,
  Execute_loop sched total i rest e = Ok (e', err) ->
  Executor.done e' = Executor.done e.
Proof.
  induction rest as [|t rest IH]; intros i e e' err.
  - intros [= <- _]. reflexivity.
  - rewrite Execute_loop_cons.
    destruct (sched_cancelled sched i); [intros [= <- _]; reflexivity|].
    destruct (run_task total i t (Executor.storage e) (Executor.root e))
      as [[[[s1 fs1] u] er]|]; [|discriminate].
    cbn [mbind res_bind].
    pose proof (report_done i u er (set_world s1 fs1 e)) as D.
    destruct er as [er|].
    + intros [= <- _]. exact D.
    + intros Hl. apply IH in Hl. rewrite Hl. exact D.
Qed.

(** X5.  Cancellation.  [Execute] looks at the context before each task:
    when the context is done at the iteration of a task, neither that task
    nor a later one is executed, nothing more is sent or logged, the
    executor is left as the tasks before it left it, [done] stays as it
    was, and [ctx.Err()] is returned. *)
Theorem Execute_cancelled (e e_pre : Executor.t FS)
    (pre rest : list FileActionTask.t) (task : FileActionTask.t) :
  os_OpenRoot (Executor.root e) (Executor.rootPath e) = None ->
  Executor.tasks e = (pre ++ task :: rest)%list ->
  Execute_loop sched (Z.of_nat (length (Executor.tasks e))) 0 pre e = Ok (e_pre, None) ->
  sched_cancelled sched (length pre) = true ->
  Execute sched e = Ok (e_pre, Some ErrCanceled) /\
  Executor.done e_pre = Executor.done e.
Proof.
  intros Hopen Htasks Hpre Hc. unfold Execute. rewrite Hopen.
  rewrite Htasks at 2. rewrite Execute_loop_app, Hpre. cbn [mbind res_bind].
  rewrite Execute_loop_cons. simpl. rewrite Hc. simpl.
  split; [reflexivity|]. eapply Execute_loop_done. exact Hpre.
Qed.

(** X6.  The [done] flag.  When [Execute] returns, [done] has been set
    exactly if the error returned is nil; with an empty task list this is
    so even under a context that is already done, which the loop never
    looks at. *)
Theorem Execute_done_iff (e e' : Executor.t FS) (err : option error) :
  Executor.done e = false ->
  Execute sched e = Ok (e', err) ->
  (Executor.done e' = true <-> err = None) /\
  (Executor.tasks e = [] ->
   os_OpenRoot (Executor.root e) (Executor.rootPath e) = None ->
   err = None /\ e' = set_done e).
Proof.
  intros Hd. unfold Execute.
  destruct (os_OpenRoot (Executor.root e) (Executor.rootPath e)) as [er|] eqn:Hopen.
  - intros [= <- <-]. split; [|discriminate]. rewrite Hd. split; discriminate.
  - unfold Execute_finish.
    destruct (Execute_loop sched _ 0 (Executor.tasks e) e) as [[e1 err1]|] eqn:HL;
      [|discriminate].
    cbn [mbind res_bind]. pose proof (Execute_loop_done _ _ _ _ _ _ HL) as D.
    destruct err1 as [er|]; intros [= <- <-].
    + split.
      * rewrite D, Hd. split; discriminate.
      * intros Ht _. rewrite Ht in HL. simpl in HL. discriminate.
    + split.
      * simpl. split; reflexivity.
      * intros Ht _. rewrite Ht in HL. simpl in HL. injection HL as <-. auto.
Qed.

Lemma folder_task_storage (s s1 : MemoryStorage.t) (fs fs1 : FS)
    (task : FileActionTask.t) err :
  folder_action (FileActionTask.Action task) = true ->
  ExecuteFileActionTask s fs task = Ok (s1, fs1, err) -> s1 = s.
Proof.
  unfold ExecuteFileActionTask.
  destruct (FileActionTask.Action task); try discriminate; intros _.
  - destruct (FileActionTask.Folder task) as [fpath|]; [|intros [= <- _ _]; reflexivity].
    destruct (MemoryStorage.folders s !! fpath) as [folder|]; [|discriminate].
    cbn [mbind res_bind deref].
    destruct (FileActionTask.TargetFolder task) as [target|]; [|discriminate].
    cbn [mbind res_bind deref].
    destruct (root_Stat fs _); [|intros [= <- _ _]; reflexivity].
    destruct (root_Rename fs fpath _). intros [= <- _ _]. reflexivity.
  - destruct (FileActionTask.Folder task) as [fpath|]; [|intros [= <- _ _]; reflexivity].
    destruct (root_Remove fs fpath). intros [= <- _ _]. reflexivity.
  - destruct (FileActionTask.Folder task) as [fpath|]; [|intros [= <- _ _]; reflexivity].
    destruct (RemoveEmptyFolder fs fpath). intros [= <- _ _]. reflexivity.
Qed.

Lemma Execute_loop_folder_tasks total rest : forall i (e e' : Executor.t FS) err,
  Forall (fun t => folder_action (FileActionTask.Action t) = true) rest ->
  Execute_loop sched total i rest e = Ok (e', err) ->
  Executor.storage e' = Executor.storage e.
Proof.
  induction rest as [|t rest IH]; intros i e e' err Hall.
  - intros [= <- _]. reflexivity.
  - apply Forall_cons in Hall as [Ht Hall]. rewrite Execute_loop_cons.
    destruct (sched_cancelled sched i); [intros [= <- _]; reflexivity|].
    unfold run_task.
    destruct (ExecuteFileActionTask (Executor.storage e) (Executor.root e) t)
      as [[[s1 fs1] er]|] eqn:HE; [|discriminate].
    apply folder_task_storage in HE; [|exact Ht]. subst s1.
    cbn [mbind res_bind].
    destruct (FileActionTask_String (Executor.storage e) t) as [msg|]; [|discriminate].
    cbn [mbind res_bind].
    set (absorbed := match er with Some er0 => IsNotEmptyFolder er0 | None => false end).
    assert (S1 : forall u er',
              Executor.storage
                (report sched i u er' (set_world (Executor.storage e) fs1 e))
              = Executor.storage e)
      by (intros u er'; exact (proj1 (report_fields sched i u er' _))).
    destruct (if absorbed then None else er) as [er'|].
    + intros [= <- _]. exact (S1 _ (Some er')).
    + intros Hl. apply IH in Hl; [|exact Hall]. rewrite Hl. exact (S1 _ None).
Qed.

(** X7.  The folder tasks do not update the storage.  A run of [Execute]
    whose tasks are all [MoveFolder], [DeleteFolder] or
    [DeleteEmptyFolder] leaves the storage exactly as it was, whatever
    happened on disk: the folders that were moved or removed, and their
    files, are still recorded at their old paths. *)
Theorem Execute_folder_tasks_keep_storage (e e' : Executor.t FS) (err : option error) :
  Forall (fun t => folder_action (FileActionTask.Action t) = true) (Executor.tasks e) ->
  Execute sched e = Ok (e', err) ->
  Executor.storage e' = Executor.storage e.
Proof.
  intros Hall. unfold Execute.
  destruct (os_OpenRoot (Executor.root e) (Executor.rootPath e)) as [er|].
  - intros [= <- _]. reflexivity.
  - unfold Execute_finish.
    destruct (Execute_loop sched _ 0 (Executor.tasks e) e) as [[e1 err1]|] eqn:HL;
      [|discriminate].
    cbn [mbind res_bind]. apply Execute_loop_folder_tasks in HL; [|exact Hall].
    destruct err1; intros [= <- _]; exact HL.
Qed.

End ExecuteMore.

Lemma Execute_cancelled_witness :
  let sched := mkSchedule (fun i => Nat.eqb i 1) (fun _ => 0%nat) in
  let e_pre :=
    match Execute_loop sched 3 0 [Ex.task_DeleteEmptyFolder "b"] Ex.executor3 with
    | Ok (e', _) => e'
    | Panic => Ex.executor3
    end in
  Execute sched Ex.executor3 = Ok (e_pre, Some ErrCanceled) /\
  Executor.done e_pre = Executor.done Ex.executor3.
Proof.
  intros sched e_pre.
  apply (Execute_cancelled sched Ex.executor3 e_pre [Ex.task_DeleteEmptyFolder "b"]
           [Ex.task_DeleteEmptyFolder "a"] (Ex.task_DeleteFolder "b")).
  - reflexivity.
  - reflexivity.
  - vm_compute. reflexivity.
  - reflexivity.
Defined.

Lemma Execute_done_iff_witness :
  let e' :=
    match Execute Ex.sched_idle Ex.executor3 with
    | Ok (e', _) => e'
    | Panic => Ex.executor3
    end in
  let err := Some (ErrOS "directory not empty") in
  (Executor.done e' = true <-> err = None) /\
  (Executor.tasks Ex.executor3 = [] ->
   os_OpenRoot (Executor.root Ex.executor3) (Executor.rootPath Ex.executor3) = None ->
   err = None /\ e' = set_done Ex.executor3).
Proof.
  intros e' err.
  apply (Execute_done_iff Ex.sched_idle Ex.executor3 e' err).
  - reflexivity.
  - vm_compute. reflexivity.
Defined.

Lemma Execute_folder_tasks_keep_storage_witness :
  let e' :=
    match Execute Ex.sched_idle Ex.executor3 with
    | Ok (e', _) => e'
    | Panic => Ex.executor3
    end in
  Executor.storage e' = Executor.storage Ex.executor3.
Proof.
  intros e'.
  apply (Execute_folder_tasks_keep_storage Ex.sched_idle Ex.executor3 e'
           (Some (ErrOS "directory not empty"))).
  - repeat constructor.
  - vm_compute. reflexivity.
Defined.

(** X8.  What [MergeFilePair.SetAction] leaves, and the task that
    [GetActionTask] then builds.  After [SetAction], a delete action has
    its file (the right one for [ActionDeleteRight], the left one for
    [ActionDeleteLeft]) and a move action has its source file and no file
    on the other side: a move towards a side that has the file becomes the
    deletion of the source.  So the task of a pair whose action is not
    [ActionNone] is a [Delete] or a [Move] of a file that is not nil, and
    every [Move] task has an empty [TargetName].  [SetAction] is
    idempotent. *)
Theorem MergeFilePair_SetAction_task (objs : heap) (action : MergeAction)
    (m : MergeFilePair.t) (folder1 folder2 : option FolderSimilarity.t)
    (task : FileActionTask.t) :
  let m' := MergeFilePair_SetAction action m in
  MergeFilePair.Action m' <> ActionNone ->
  MergeFilePair_GetActionTask objs m' folder1 folder2 = Ok task ->
  MergeFilePair.File1 m' = MergeFilePair.File1 m /\
  MergeFilePair.File2 m' = MergeFilePair.File2 m /\
  FileActionTask.File task <> None /\
  (FileActionTask.Action task = Delete \/
   (FileActionTask.Action task = Move /\ FileActionTask.TargetName task = "" /\
    FileActionTask.TargetFolder task <> None /\
    ((MergeFilePair.Action m' = ActionMoveToRight /\ MergeFilePair.File2 m = None /\
      FileActionTask.File task = MergeFilePair.File1 m) \/
     (MergeFilePair.Action m' = ActionMoveToLeft /\ MergeFilePair.File1 m = None /\
      FileActionTask.File task = MergeFilePair.File2 m)))) /\
  (MergeFilePair.Action m' = ActionDeleteRight ->
   FileActionTask.File task = MergeFilePair.File2 m /\
   (action = ActionDeleteRight \/ action = ActionMoveToLeft)) /\
  (MergeFilePair.Action m' = ActionDeleteLeft ->
   FileActionTask.File task = MergeFilePair.File1 m /\
   (action = ActionDeleteLeft \/ action = ActionMoveToRight)) /\
  MergeFilePair_SetAction (MergeFilePair.Action m') m' = m'.
Proof.
  destruct m as [f1 f2 a0]. unfold MergeFilePair_SetAction, MergeFilePair_GetActionTask.
  simpl.
  destruct action, f1 as [a1|], f2 as [a2|]; simpl; intros Hne;
    try congruence;
    repeat match goal with
    | |- context [objs !! ?a] => destruct (objs !! a); simpl
    | |- context [deref folder1] => destruct folder1; simpl
    | |- context [deref folder2] => destruct folder2; simpl
    end;
    intros E; try discriminate E; injection E as <-; simpl;
    repeat split; try discriminate; try reflexivity; auto 10; try (intros; discriminate).
Qed.

Lemma MergeFilePair_SetAction_task_witness :
  let m := MergeFilePair.mk (Some 1%nat) None ActionNone in
  let m' := MergeFilePair_SetAction ActionMoveToRight m in
  let task := Ex.task_Move_ay in
  FileActionTask.File task <> None /\
  (FileActionTask.Action task = Delete \/
   (FileActionTask.Action task = Move /\ FileActionTask.TargetName task = "" /\
    FileActionTask.TargetFolder task <> None /\
    ((MergeFilePair.Action m' = ActionMoveToRight /\ MergeFilePair.File2 m = None /\
      FileActionTask.File task = MergeFilePair.File1 m) \/
     (MergeFilePair.Action m' = ActionMoveToLeft /\ MergeFilePair.File1 m = None /\
      FileActionTask.File task = MergeFilePair.File2 m)))).
Proof.
  intros m m' task.
  destruct (MergeFilePair_SetAction_task (MemoryStorage.objects Ex.storage_ay)
              ActionMoveToRight m None
              (Some (FolderSimilarity.mk "b" 1 1 ∅)) task)
    as (_ & _ & H3 & H4 & _).
  - discriminate.
  - reflexivity.
  - split; assumption.
Defined.

Lemma GetActionTask_with_action sortSlice s m action folder1 folder2 :
  GetActionTask_with sortSlice s m action folder1 folder2 =
    MergeFolderPair_GetActionTask sortSlice s
      (mkMergeFolderPair (mfp_Folder1 m) (mfp_Folder2 m) action (mfp_MatchType m)
         (mfp_FilePairs m) (mfp_FolderPairs m)) folder1 folder2.
Proof. destruct m. reflexivity. Qed.

Lemma map_File_delete_tasks nd l :
  List.map FileActionTask.File (delete_tasks nd l) = List.map Some l.
Proof. unfold delete_tasks. rewrite List.map_map. reflexivity. Qed.

Lemma map_File_move_tasks target l :
  List.map FileActionTask.File (move_tasks target l) = List.map Some l.
Proof. unfold move_tasks. rewrite List.map_map. reflexivity. Qed.

Lemma subfolder_tasks_loop sortSlice s action p1 p2 (l : list MergeFolderPair) :
  (fix loop (l : list MergeFolderPair) : res (list FileActionTask.t) :=
     match l with
     | [] => Ok []
     | child :: rest =>
         t1 ← GetActionTask_with sortSlice s child
                (folder_pair_action (mfp_MatchType child) action) p1 p2;
         t2 ← loop rest;
         Ok (t1 ++ t2)%list
     end) l = subfolder_tasks sortSlice s action p1 p2 l.
Proof.
  induction l as [|child rest IH]; [reflexivity|].
  simpl. rewrite IH. unfold MergeFolderPair_GetActionTask, MergeFolderPair_SetAction.
  destruct child. reflexivity.
Qed.

(** X10.  The plan of a pair of folders matched on both sides.  For an
    action other than [ActionNone], [MergeFolderPair.GetActionTask] returns
    the tasks of the subfolder pairs (each with the same action set on it),
    then one task for every file of the folder the action works on (the
    right one for [ActionDeleteRight] and [ActionMoveToLeft], the left one
    otherwise), and last the [DeleteEmptyFolder] task of that folder.  The
    file tasks are, in this order: a [Delete] task, not marked
    [NotDuplicate], for each file of that folder that [GetMatchedFilePairs]
    matched; then for each file it left without a match, under a delete
    action a [Delete] task marked [NotDuplicate], and under a move action a
    [Move] task to the other folder with an empty [TargetName].  The
    matched and the unmatched files together are the files of the folder,
    each once. *)
Theorem MergeFolderPair_plan (sortSlice : heap -> list addr -> list addr)
    (s : MemoryStorage.t) (m : MergeFolderPair)
    (folder1 folder2 : option FolderSimilarity.t) (tasks : list FileActionTask.t)
    (sd1 sd2 : FolderSimilarity.t) (fo1 fo2 : Folder.t) :
  SortSliceSpec sortSlice ->
  mfp_MatchType m = MatchBothSide ->
  mfp_Action m <> ActionNone ->
  mfp_Folder1 m = SimilarityValue (Some sd1) ->
  mfp_Folder2 m = SimilarityValue (Some sd2) ->
  MemoryStorage.folders s !! FolderSimilarity.Folder sd1 = Some fo1 ->
  MemoryStorage.folders s !! FolderSimilarity.Folder sd2 = Some fo2 ->
  MergeFolderPair_GetActionTask sortSlice s m folder1 folder2 = Ok tasks ->
  let a := mfp_Action m in
  let src := if works_on_right a then sd2 else sd1 in
  let dst := if works_on_right a then sd1 else sd2 in
  let fo := if works_on_right a then fo2 else fo1 in
  let r := GetMatchedFilePairs sortSlice (MemoryStorage.objects s) fo1 fo2 in
  let matched := if works_on_right a then (matched_of r).*2 else (matched_of r).*1 in
  let unmatched := if works_on_right a then only2_of r else only1_of r in
  exists sub,
    subfolder_tasks sortSlice s a (Some sd1) (Some sd2) (mfp_FolderPairs m) = Ok sub /\
    tasks =
      (sub
       ++ List.map (fun f => FileActionTask.mk Delete (Some f) None None "" false) matched
       ++ List.map
            (fun f =>
               if is_move a
               then FileActionTask.mk Move (Some f) None
                      (Some (FolderSimilarity.Folder dst)) "" false
               else FileActionTask.mk Delete (Some f) None None "" true) unmatched
       ++ [FileActionTask.mk DeleteEmptyFolder None
             (Some (FolderSimilarity.Folder src)) None "" false])%list /\
    Permutation (matched ++ unmatched) (GetFiles fo).
Proof.
  intros Hsort Ht Ha H1 H2 Hf1 Hf2.
  destruct m as [F1 F2 a mt fps subs]. simpl in *. subst F1 F2 mt.
  unfold MergeFolderPair_GetActionTask. simpl.
  rewrite bool_decide_eq_false_2 by exact Ha.
  rewrite Hf1, Hf2. cbn [mbind res_bind deref].
  rewrite subfolder_tasks_loop.
  destruct (subfolder_tasks sortSlice s a (Some sd1) (Some sd2) subs) as [sub|];
    [|discriminate].
  cbn [mbind res_bind]. intros [= <-].
  set (r := GetMatchedFilePairs sortSlice (MemoryStorage.objects s) fo1 fo2).
  assert (Hperm : Permutation ((matched_of r).*1 ++ only1_of r) (GetFiles fo1) /\
                  Permutation ((matched_of r).*2 ++ only2_of r) (GetFiles fo2)).
  { unfold r, GetMatchedFilePairs.
    destruct (matchLoop_perm (MemoryStorage.objects s)
                (sortSlice (MemoryStorage.objects s) (GetFiles fo1))
                (sortSlice (MemoryStorage.objects s) (GetFiles fo2))) as [P1 P2].
    split; [rewrite P1 | rewrite P2]; apply Hsort. }
  destruct Hperm as [P1 P2].
  exists sub.
  destruct a; try congruence;
    cbn [works_on_right is_move both_side_tasks];
    (split; [reflexivity|]); (split; [|assumption]);
    unfold delete_tasks, move_tasks, delete_empty_folder_task; reflexivity.
Qed.

Lemma MergeFolderPair_plan_witness :
  exists fo tasks,
    MemoryStorage.folders Ex.storage_ay !! "a" = Some fo /\
    MergeFolderPair_GetActionTask mergeSortByHash Ex.storage_ay ExPlan.pair_ab None None
      = Ok tasks /\
    exists sub matched unmatched,
      tasks =
        (sub
         ++ List.map (fun f => FileActionTask.mk Delete (Some f) None None "" false)
              matched
         ++ List.map (fun f => FileActionTask.mk Move (Some f) None (Some "b") "" false)
              unmatched
         ++ [FileActionTask.mk DeleteEmptyFolder None (Some "a") None "" false])%list /\
      Permutation (matched ++ unmatched) (GetFiles fo).
Proof.
  destruct (MemoryStorage.folders Ex.storage_ay !! "a") as [fo1|] eqn:H1;
    [|vm_compute in H1; discriminate].
  destruct (MemoryStorage.folders Ex.storage_ay !! "b") as [fo2|] eqn:H2;
    [|vm_compute in H2; discriminate].
  destruct (MergeFolderPair_GetActionTask mergeSortByHash Ex.storage_ay ExPlan.pair_ab
              None None) as [tasks|] eqn:HT; [|vm_compute in HT; discriminate].
  destruct (MergeFolderPair_plan mergeSortByHash Ex.storage_ay ExPlan.pair_ab None None
              tasks (FolderSimilarity.mk "a" 2 1 ∅) (FolderSimilarity.mk "b" 1 1 ∅)
              fo1 fo2 mergeSortByHash_spec eq_refl)
    as (sub & Hs & Ht & Hp).
  - discriminate.
  - reflexivity.
  - reflexivity.
  - exact H1.
  - exact H2.
  - exact HT.
  - exists fo1, tasks. split; [reflexivity|]. split; [reflexivity|].
    exists sub. eexists. eexists. split; [exact Ht | exact Hp].
Defined.

(** The plan of [ExPlan.pair_ab]: the matched [a/x] is deleted, the
    unmatched [a/y] is moved to [b], and [a] is deleted when empty. *)
Example plan_of_pair_ab :
  exists x y,
    File.Path <$> MemoryStorage.objects Ex.storage_ay !! x = Some "a/x" /\
    File.Path <$> MemoryStorage.objects Ex.storage_ay !! y = Some "a/y" /\
    MergeFolderPair_GetActionTask mergeSortByHash Ex.storage_ay ExPlan.pair_ab None None
      = Ok [FileActionTask.mk Delete (Some x) None None "" false;
            FileActionTask.mk Move (Some y) None (Some "b") "" false;
            FileActionTask.mk DeleteEmptyFolder None (Some "a") None "" false].
Proof. exists 0%nat, 1%nat. vm_compute. auto. Qed.

(** X9.  A planned move, executed.  The task that a file pair with a file
    on the left only gets for "move to the right" has an empty
    [TargetName]; [ExecuteFileActionTask] then looks for the destination
    at the path of the target folder itself, so when that folder is on
    disk the file is renamed and its record removed, and no record is added
    for the destination: the storage is left as [RemoveFile] leaves it.
    The same holds for "move to the left" with the sides exchanged. *)
Theorem planned_Move_adds_no_record {FS : Type} `{FileSystem FS}
    (s s1 : MemoryStorage.t) (fs fs1 : FS) (toRight : bool)
    (a : addr) (file : File.t) (sd1 sd2 : FolderSimilarity.t) :
  let m := if toRight then MergeFilePair.mk (Some a) None ActionNone
           else MergeFilePair.mk None (Some a) ActionNone in
  let action := if toRight then ActionMoveToRight else ActionMoveToLeft in
  let target := FolderSimilarity.Folder (if toRight then sd2 else sd1) in
  MemoryStorage.objects s !! a = Some file ->
  root_Open fs target = None ->
  root_Rename fs (File.Path file) (filepath.Join target (File.Name file)) = (fs1, None) ->
  RemoveFile s a = Ok (s1, None) ->
  exists task,
    MergeFilePair_GetActionTask (MemoryStorage.objects s)
      (MergeFilePair_SetAction action m) (Some sd1) (Some sd2) = Ok task /\
    FileActionTask.Action task = Move /\
    FileActionTask.TargetName task = "" /\
    ExecuteFileActionTask s fs task = Ok (s1, fs1, None).
Proof.
  intros m action target Ho Hopen Hren Hrm.
  destruct toRight; simpl in *.
  - eexists. split; [reflexivity|]. split; [reflexivity|]. split; [reflexivity|].
    apply (Move_without_TargetName s s1 fs fs1 _ a file (FolderSimilarity.Folder sd2));
      auto.
  - eexists. split; [reflexivity|]. split; [reflexivity|]. split; [reflexivity|].
    apply (Move_without_TargetName s s1 fs fs1 _ a file (FolderSimilarity.Folder sd1));
      auto.
Qed.

Lemma planned_Move_adds_no_record_witness :
  exists s1 fs1 task,
    MergeFilePair_GetActionTask (MemoryStorage.objects Ex.storage_ay)
      (MergeFilePair_SetAction ActionMoveToRight
         (MergeFilePair.mk (Some 1%nat) None ActionNone))
      (Some (FolderSimilarity.mk "a" 2 1 ∅)) (Some (FolderSimilarity.mk "b" 1 1 ∅))
      = Ok task /\
    ExecuteFileActionTask Ex.storage_ay Ex.fs_ay task = Ok (s1, fs1, None) /\
    RemoveFile Ex.storage_ay 1%nat = Ok (s1, None).
Proof.
  destruct (RemoveFile Ex.storage_ay 1%nat) as [[s1 err]|] eqn:HR;
    [|vm_compute in HR; discriminate].
  assert (Herr : err = None).
  { destruct err as [e|]; [|reflexivity]. exfalso.
    assert (Hb : match RemoveFile Ex.storage_ay 1%nat with
                 | Ok (_, None) => true
                 | _ => false
                 end = true) by (vm_compute; reflexivity).
    rewrite HR in Hb. discriminate. }
  subst err.
  destruct (root_Rename Ex.fs_ay "a/y" "b/y") as [fs1 rerr] eqn:HN.
  assert (Hrerr : rerr = None).
  { destruct rerr as [e|]; [|reflexivity]. exfalso.
    assert (Hb : match root_Rename Ex.fs_ay "a/y" "b/y" with
                 | (_, None) => true
                 | _ => false
                 end = true) by (vm_compute; reflexivity).
    rewrite HN in Hb. discriminate. }
  subst rerr.
  destruct (planned_Move_adds_no_record Ex.storage_ay s1 Ex.fs_ay fs1 true 1%nat
              (File.set_Parent (Some "a") Ex.file_ay) (FolderSimilarity.mk "a" 2 1 ∅)
              (FolderSimilarity.mk "b" 1 1 ∅))
    as (task & H1 & _ & _ & H4).
  - vm_compute. reflexivity.
  - vm_compute. reflexivity.
  - exact HN.
  - exact HR.
  - exists s1, fs1, task. auto.
Defined.

Lemma folder_wf_mono (ar ar' : arena) p fo :
  (forall q, is_Some (ar !! q) -> is_Some (ar' !! q)) ->
  folder_wf ar p fo -> folder_wf ar' p fo.
Proof.
  intros Hdom [HP H]. split; [exact HP|].
  destruct (is_root p); [exact H|]. destruct H as (H1 & H2 & H3). auto.
Qed.

Lemma folder_wf_fields (ar : arena) p fo fo' :
  Folder.Path fo' = Folder.Path fo -> Folder.Parent fo' = Folder.Parent fo ->
  Folder.Name fo' = Folder.Name fo ->
  folder_wf ar p fo -> folder_wf ar p fo'.
Proof. unfold folder_wf. intros -> -> ->. auto. Qed.

(** An update of a folder in place, which keeps its path, parent and name. *)
Lemma arena_wf_insert_same (ar : arena) p fo fo' :
  ar !! p = Some fo ->
  Folder.Path fo' = Folder.Path fo -> Folder.Parent fo' = Folder.Parent fo ->
  Folder.Name fo' = Folder.Name fo ->
  arena_wf ar -> arena_wf (<[p := fo']> ar).
Proof.
  intros Hp E1 E2 E3 Hwf q fq Hq.
  assert (Hdom : forall r, is_Some (ar !! r) -> is_Some (<[p := fo']> ar !! r)).
  { intros r Hr. destruct (decide (p = r)) as [->|Hne].
    - rewrite lookup_insert_eq. eauto.
    - rewrite lookup_insert_ne by exact Hne. exact Hr. }
  destruct (decide (p = q)) as [->|Hne].
  - rewrite lookup_insert_eq in Hq. injection Hq as <-.
    apply (folder_wf_mono ar); [exact Hdom|].
    eapply folder_wf_fields; [exact E1 | exact E2 | exact E3 | exact (Hwf q fo Hp)].
  - rewrite lookup_insert_ne in Hq by exact Hne.
    apply (folder_wf_mono ar); [exact Hdom|]. exact (Hwf q fq Hq).
Qed.

Lemma Dir_not_self path : is_root path = false -> filepath.Dir path <> path.
Proof.
  intros Hb E. pose proof (Dir_cost path Hb) as Hc. rewrite E in Hc. lia.
Qed.

(** [GetFolder] keeps the folders there are, up to their maps of
    subfolders, and keeps the arena well formed. *)
Lemma GetFolder_fuel_wf : forall fuel (ar ar' : arena) path,
  arena_wf ar -> GetFolder_fuel fuel ar path = Some ar' ->
  arena_wf ar' /\ is_Some (ar' !! path) /\
  (forall p fo, ar !! p = Some fo ->
     exists fo', ar' !! p = Some fo' /\
       fo' = Folder.set_Folders (Folder.Folders fo') fo) /\
  (forall p fo', ar' !! p = Some fo' -> ar !! p = None ->
     Folder.files fo' = ∅ /\ Folder.fileCount fo' = 0%Z /\
     Folder.fileCountCache fo' = 0%Z).
Proof.
  induction fuel as [|n IH]; intros ar ar' path Hwf; [discriminate|].
  assert (Hsame : forall (m : arena) p fo, m !! p = Some fo ->
            exists fo', m !! p = Some fo' /\
                        fo' = Folder.set_Folders (Folder.Folders fo') fo).
  { intros m p fo Hp. exists fo. split; [exact Hp|]. destruct fo; reflexivity. }
  simpl. destruct (ar !! path) as [f|] eqn:Hl.
  - intros [= <-]. split; [exact Hwf|]. split; [eauto|]. split; [apply Hsame|].
    intros p fo' H1 H2. congruence.
  - destruct (String.eqb path "." || String.eqb path "/") eqn:Hb.
    + intros [= <-].
      assert (Hdom : forall r, is_Some (ar !! r) ->
                is_Some (<[path := Folder.mk path path None ∅ ∅ 0 0]> ar !! r)).
      { intros r Hr. destruct (decide (path = r)) as [->|Hne].
        - rewrite lookup_insert_eq. eauto.
        - rewrite lookup_insert_ne by exact Hne. exact Hr. }
      split.
      { intros q fq Hq. destruct (decide (path = q)) as [->|Hne].
        - rewrite lookup_insert_eq in Hq. injection Hq as <-.
          split; [reflexivity|]. unfold is_root. rewrite Hb. auto.
        - rewrite lookup_insert_ne in Hq by exact Hne.
          eapply folder_wf_mono; [exact Hdom|]. exact (Hwf q fq Hq). }
      split; [rewrite lookup_insert_eq; eauto|].
      split.
      { intros p fo Hp. assert (path <> p) by congruence.
        rewrite lookup_insert_ne by assumption. apply Hsame. exact Hp. }
      intros p fo' Hp Hnone. destruct (decide (path = p)) as [->|Hne].
      * rewrite lookup_insert_eq in Hp. injection Hp as <-. auto.
      * rewrite lookup_insert_ne in Hp by exact Hne. congruence.
    + destruct (GetFolder_fuel n ar (filepath.Dir path)) as [ar1|] eqn:E1; [|discriminate].
      destruct (IH ar ar1 (filepath.Dir path) Hwf E1) as (Hwf1 & [pf Hpf] & Hold & Hnew).
      rewrite Hpf. intros [= <-].
      set (parentPath := filepath.Dir path) in *.
      set (newFolder := Folder.mk (filepath.Base path) path (Some parentPath) ∅ ∅ 0 0).
      set (pf' := Folder.set_Folders (<[filepath.Base path := path]> (Folder.Folders pf)) pf).
      assert (Hnp : parentPath <> path) by (apply Dir_not_self; exact Hb).
      assert (Hwf2 : arena_wf (<[parentPath := pf']> ar1)).
      { eapply arena_wf_insert_same; eauto. }
      assert (Hdom : forall r, is_Some (<[parentPath := pf']> ar1 !! r) ->
                is_Some (<[path := newFolder]> (<[parentPath := pf']> ar1) !! r)).
      { intros r Hr. destruct (decide (path = r)) as [->|Hne].
        - rewrite lookup_insert_eq. eauto.
        - rewrite lookup_insert_ne by exact Hne. exact Hr. }
      split.
      { intros q fq Hq. destruct (decide (path = q)) as [->|Hne].
        - rewrite lookup_insert_eq in Hq. injection Hq as <-.
          split; [reflexivity|]. unfold is_root. rewrite Hb.
          split; [reflexivity|]. split; [reflexivity|].
          fold parentPath. rewrite lookup_insert_ne by congruence.
          rewrite lookup_insert_eq. eauto.
        - rewrite lookup_insert_ne in Hq by exact Hne.
          eapply folder_wf_mono; [exact Hdom|]. exact (Hwf2 q fq Hq). }
      split; [rewrite lookup_insert_eq; eauto|].
      split.
      { intros p fo Hp. assert (path <> p) by congruence.
        rewrite lookup_insert_ne by assumption.
        destruct (Hold p fo Hp) as (fo1 & Hp1 & Efo1).
        destruct (decide (parentPath = p)) as [<-|Hne].
        - rewrite lookup_insert_eq. eexists. split; [reflexivity|].
          rewrite Hpf in Hp1. injection Hp1 as <-. unfold pf'.
          rewrite Efo1. destruct fo; reflexivity.
        - rewrite lookup_insert_ne by exact Hne. eauto. }
      intros p fo' Hp Hnone. destruct (decide (path = p)) as [->|Hne].
      * rewrite lookup_insert_eq in Hp. injection Hp as <-. auto.
      * rewrite lookup_insert_ne in Hp by exact Hne.
        destruct (decide (parentPath = p)) as [<-|Hne'].
        -- rewrite lookup_insert_eq in Hp. injection Hp as <-.
           apply (Hnew parentPath pf Hpf Hnone).
        -- rewrite lookup_insert_ne in Hp by exact Hne'. eauto.
Qed.

Lemma invalidateCache_only_caches fuel : forall (ar : arena) f,
  only_caches ar (invalidateCache fuel ar f).
Proof.
  induction fuel as [|n IH]; intros ar f; simpl; [apply only_caches_refl|].
  destruct (ar !! f) as [fo|] eqn:Hf; [|apply only_caches_refl].
  pose proof (only_caches_set ar f fo 0 Hf) as H1.
  destruct (Folder.Parent fo) as [p|]; [|exact H1].
  eapply only_caches_trans; [exact H1|apply IH].
Qed.

Lemma only_caches_lookup (ar ar' : arena) p fo' :
  only_caches ar ar' -> ar' !! p = Some fo' ->
  exists fo, ar !! p = Some fo /\
             fo' = Folder.set_fileCountCache (Folder.fileCountCache fo') fo.
Proof.
  intros Hc Hp. unfold only_caches in Hc.
  apply (f_equal (fun m => m !! p)) in Hc. rewrite !lookup_fmap, Hp in Hc.
  destruct (ar !! p) as [fo|]; [|discriminate].
  exists fo. split; [reflexivity|]. simpl in Hc. injection Hc as Hc.
  destruct fo, fo'. unfold forget_cache, Folder.set_fileCountCache in *. simpl in *.
  congruence.
Qed.

Lemma only_caches_sym (ar ar' : arena) : only_caches ar ar' -> only_caches ar' ar.
Proof. unfold only_caches. congruence. Qed.

Lemma only_caches_dom (ar ar' : arena) p :
  only_caches ar ar' -> is_Some (ar' !! p) <-> is_Some (ar !! p).
Proof.
  intros Hc. split; intros [fo Hp].
  - destruct (only_caches_lookup ar ar' p fo Hc Hp) as (fo0 & H0 & _). eauto.
  - destruct (only_caches_lookup ar' ar p fo (only_caches_sym _ _ Hc) Hp) as (fo0 & H0 & _).
    eauto.
Qed.

Lemma arena_wf_only_caches (ar ar' : arena) :
  only_caches ar ar' -> arena_wf ar -> arena_wf ar'.
Proof.
  intros Hc Hwf p fo' Hp.
  destruct (only_caches_lookup ar ar' p fo' Hc Hp) as (fo & H0 & ->).
  apply (folder_wf_mono ar); [intros q Hq; apply (only_caches_dom ar ar' q Hc); exact Hq|].
  eapply folder_wf_fields; [| | |exact (Hwf p fo H0)]; reflexivity.
Qed.

Ltac st_simpl :=
  cbn [MemoryStorage.objects MemoryStorage.folders MemoryStorage.hashMap
       MemoryStorage.matchedFiles MemoryStorage.set_folders MemoryStorage.set_objects
       MemoryStorage.set_hashMap MemoryStorage.set_matchedFiles] in *.

Lemma res_Ok_inj {A : Type} (x y : A) : Ok x = Ok y -> x = y.
Proof. congruence. Qed.

(** What [Folder.AddFile] and [Folder.RemoveFile] do to a storage. *)
Lemma Folder_AddFile_spec (s s1 : MemoryStorage.t) (p : string) (a : addr) :
  Folder_AddFile s p a = Ok s1 ->
  exists file fo,
    MemoryStorage.objects s !! a = Some file /\
    MemoryStorage.folders s !! p = Some fo /\
    MemoryStorage.objects s1 =
      <[a := File.set_Parent (Some p) file]> (MemoryStorage.objects s) /\
    only_caches
      (<[p := Folder.set_fileCount (add32 (Folder.fileCount fo) 1)
                (Folder.set_files (<[File.Name file := a]> (Folder.files fo)) fo)]>
         (MemoryStorage.folders s))
      (MemoryStorage.folders s1) /\
    MemoryStorage.hashMap s1 = MemoryStorage.hashMap s /\
    MemoryStorage.matchedFiles s1 = MemoryStorage.matchedFiles s.
Proof.
  unfold Folder_AddFile.
  destruct (MemoryStorage.objects s !! a) as [file|]; [|discriminate].
  destruct (MemoryStorage.folders s !! p) as [fo|]; [|discriminate].
  unfold mbind, res_bind, deref. cbv beta iota zeta.
  intros Hres. apply res_Ok_inj in Hres. subst s1. exists file, fo.
  split; [reflexivity|]. split; [reflexivity|]. split; [reflexivity|].
  split; [|split; reflexivity].
  lazymatch goal with
  | |- only_caches _ (MemoryStorage.folders
                        (MemoryStorage.set_folders (invalidateCache ?n ?ar ?q) _)) =>
      exact (invalidateCache_only_caches n ar q)
  end.
Qed.

Lemma Folder_RemoveFile_spec (s s1 : MemoryStorage.t) (p : string) (a : addr) :
  Folder_RemoveFile s p a = Ok s1 ->
  exists file fo,
    MemoryStorage.objects s !! a = Some file /\
    MemoryStorage.folders s !! p = Some fo /\
    MemoryStorage.objects s1 =
      <[a := File.set_Parent None file]> (MemoryStorage.objects s) /\
    only_caches
      (<[p := Folder.set_fileCount (add32 (Folder.fileCount fo) (-1))
                (Folder.set_files (delete (File.Name file) (Folder.files fo)) fo)]>
         (MemoryStorage.folders s))
      (MemoryStorage.folders s1) /\
    MemoryStorage.hashMap s1 = MemoryStorage.hashMap s /\
    MemoryStorage.matchedFiles s1 = MemoryStorage.matchedFiles s.
Proof.
  unfold Folder_RemoveFile.
  destruct (MemoryStorage.objects s !! a) as [file|]; [|discriminate].
  destruct (MemoryStorage.folders s !! p) as [fo|]; [|discriminate].
  unfold mbind, res_bind, deref. cbv beta iota zeta.
  intros Hres. apply res_Ok_inj in Hres. subst s1. exists file, fo.
  split; [reflexivity|]. split; [reflexivity|]. split; [reflexivity|].
  split; [|split; reflexivity].
  lazymatch goal with
  | |- only_caches _ (MemoryStorage.folders
                        (MemoryStorage.set_folders (invalidateCache ?n ?ar ?q) _)) =>
      exact (invalidateCache_only_caches n ar q)
  end.
Qed.

(** What [AddFile] does to a storage, for the File object at [a]. *)
Lemma AddFile_spec (s s' : MemoryStorage.t) (a : addr) (err : option error) :
  AddFile s a = Ok (s', err) ->
  exists file,
    MemoryStorage.objects s !! a = Some file /\
    let parent := filepath.Dir (File.Path file) in
    let h := File.Hash file in
    err = None /\
    MemoryStorage.objects s' =
      <[a := File.set_Parent (Some parent) file]> (MemoryStorage.objects s) /\
    (exists ar1 fo,
       GetFolder (MemoryStorage.folders s) parent = Some ar1 /\
       ar1 !! parent = Some fo /\
       only_caches
         (<[parent := Folder.set_fileCount (add32 (Folder.fileCount fo) 1)
                        (Folder.set_files (<[File.Name file := a]> (Folder.files fo)) fo)]>
            ar1)
         (MemoryStorage.folders s')) /\
    match MemoryStorage.hashMap s !! h with
    | None =>
        MemoryStorage.hashMap s' = <[h := a]> (MemoryStorage.hashMap s) /\
        MemoryStorage.matchedFiles s' = MemoryStorage.matchedFiles s
    | Some b =>
        MemoryStorage.hashMap s' = MemoryStorage.hashMap s /\
        MemoryStorage.matchedFiles s' =
          <[h := match MemoryStorage.matchedFiles s !! h with
                 | Some g => MatchedFileGroup.mk (MatchedFileGroup.Files g ++ [a])
                               (MatchedFileGroup.Hash g)
                 | None => MatchedFileGroup.mk [a; b] h
                 end]> (MemoryStorage.matchedFiles s)
    end.
Proof.
  unfold AddFile.
  destruct (MemoryStorage.objects s !! a) as [file|] eqn:Ho; [|discriminate].
  cbn [mbind res_bind deref].
  destruct (GetFolder (MemoryStorage.folders s) (filepath.Dir (File.Path file)))
    as [ar1|] eqn:EG; [|discriminate].
  cbn [mbind res_bind deref].
  destruct (Folder_AddFile (MemoryStorage.set_folders ar1 s)
              (filepath.Dir (File.Path file)) a) as [s1|] eqn:E1; [|discriminate].
  cbn [mbind res_bind deref].
  apply Folder_AddFile_spec in E1.
  destruct E1 as (file' & fo & Ho' & Hfo & Hobj & Hc & Hhm & Hmf).
  st_simpl.
  rewrite Ho in Ho'. apply (inj Some) in Ho'. subst file'.
  rewrite Hhm, Hmf. intros Hres. exists file. split; [reflexivity|].
  cbn zeta.
  destruct (MemoryStorage.hashMap s !! File.Hash file) as [b|].
  - destruct (MemoryStorage.matchedFiles s !! File.Hash file) as [g|];
      apply res_Ok_inj in Hres; apply pair_equal_spec in Hres;
      destruct Hres as [<- <-]; st_simpl;
      (split; [reflexivity|]); (split; [exact Hobj|]);
      (split; [exists ar1, fo; split; [exact EG|]; split; [exact Hfo|exact Hc]|]);
      (split; [exact Hhm|]); reflexivity.
  - apply res_Ok_inj in Hres. apply pair_equal_spec in Hres.
    destruct Hres as [<- <-]. st_simpl.
    split; [reflexivity|]. split; [exact Hobj|].
    split; [exists ar1, fo; split; [exact EG|]; split; [exact Hfo|exact Hc]|].
    split; [reflexivity|exact Hmf].
Qed.

(** What [storage.AddFile(&File{...})] does to a storage. *)
Lemma AddNewFile_spec (s s' : MemoryStorage.t) (f : File.t) :
  AddNewFile s f = Ok s' ->
  let a := fresh (dom (MemoryStorage.objects s)) in
  let parent := filepath.Dir (File.Path f) in
  let h := File.Hash f in
  MemoryStorage.objects s !! a = None /\
  MemoryStorage.objects s' =
    <[a := File.set_Parent (Some parent) f]> (MemoryStorage.objects s) /\
  (exists ar1 fo,
     GetFolder (MemoryStorage.folders s) parent = Some ar1 /\
     ar1 !! parent = Some fo /\
     only_caches
       (<[parent := Folder.set_fileCount (add32 (Folder.fileCount fo) 1)
                      (Folder.set_files (<[File.Name f := a]> (Folder.files fo)) fo)]> ar1)
       (MemoryStorage.folders s')) /\
  match MemoryStorage.hashMap s !! h with
  | None =>
      MemoryStorage.hashMap s' = <[h := a]> (MemoryStorage.hashMap s) /\
      MemoryStorage.matchedFiles s' = MemoryStorage.matchedFiles s
  | Some b =>
      MemoryStorage.hashMap s' = MemoryStorage.hashMap s /\
      MemoryStorage.matchedFiles s' =
        <[h := match MemoryStorage.matchedFiles s !! h with
               | Some g => MatchedFileGroup.mk (MatchedFileGroup.Files g ++ [a])
                             (MatchedFileGroup.Hash g)
               | None => MatchedFileGroup.mk [a; b] h
               end]> (MemoryStorage.matchedFiles s)
  end.
Proof.
  unfold AddNewFile, new_File. cbn zeta.
  set (a := fresh (dom (MemoryStorage.objects s))).
  assert (Ha : MemoryStorage.objects s !! a = None).
  { apply not_elem_of_dom. unfold a. apply is_fresh. }
  destruct (AddFile (MemoryStorage.set_objects (<[a:=f]> (MemoryStorage.objects s)) s) a)
    as [[s2 err]|] eqn:E; [|discriminate].
  cbn [mbind res_bind]. intros [= <-].
  apply AddFile_spec in E. destruct E as (file & Ho & _ & Hobj & Hfold & Hidx).
  cbn zeta in Hobj, Hfold, Hidx. st_simpl.
  rewrite lookup_insert_eq in Ho. apply (inj Some) in Ho. subst file.
  rewrite insert_insert_eq in Hobj.
  split; [exact Ha|]. split; [exact Hobj|]. split; [exact Hfold|]. exact Hidx.
Qed.

(** What [RemoveFile] does to a storage. *)
Lemma RemoveFile_spec (s s' : MemoryStorage.t) (a : addr) (err : option error) :
  RemoveFile s a = Ok (s', err) ->
  exists file,
    MemoryStorage.objects s !! a = Some file /\
    let parent := filepath.Dir (File.Path file) in
    let h := File.Hash file in
    MemoryStorage.objects s' =
      <[a := File.set_Parent None file]> (MemoryStorage.objects s) /\
    (exists ar1 fo,
       GetFolder (MemoryStorage.folders s) parent = Some ar1 /\
       ar1 !! parent = Some fo /\
       only_caches
         (<[parent := Folder.set_fileCount (add32 (Folder.fileCount fo) (-1))
                        (Folder.set_files (delete (File.Name file) (Folder.files fo)) fo)]>
            ar1)
         (MemoryStorage.folders s')) /\
    match MemoryStorage.matchedFiles s !! h with
    | Some g =>
        match delete_file a (MatchedFileGroup.Files g) with
        | [] =>
            MemoryStorage.hashMap s' = delete h (MemoryStorage.hashMap s) /\
            MemoryStorage.matchedFiles s' = delete h (MemoryStorage.matchedFiles s) /\
            err = Some (ErrGroupEmpty h)
        | [b] =>
            MemoryStorage.hashMap s' = <[h := b]> (MemoryStorage.hashMap s) /\
            MemoryStorage.matchedFiles s' = delete h (MemoryStorage.matchedFiles s) /\
            err = None
        | b :: rest =>
            MemoryStorage.hashMap s' = <[h := b]> (MemoryStorage.hashMap s) /\
            MemoryStorage.matchedFiles s' =
              <[h := MatchedFileGroup.mk (b :: rest) (MatchedFileGroup.Hash g)]>
                (MemoryStorage.matchedFiles s) /\
            err = None
        end
    | None =>
        MemoryStorage.hashMap s' = delete h (MemoryStorage.hashMap s) /\
        MemoryStorage.matchedFiles s' = MemoryStorage.matchedFiles s /\
        err = None
    end.
Proof.
  unfold RemoveFile.
  destruct (MemoryStorage.objects s !! a) as [file|] eqn:Ho; [|discriminate].
  cbn [mbind res_bind deref].
  destruct (GetFolder (MemoryStorage.folders s) (filepath.Dir (File.Path file)))
    as [ar1|] eqn:EG; [|discriminate].
  cbn [mbind res_bind deref].
  destruct (Folder_RemoveFile (MemoryStorage.set_folders ar1 s)
              (filepath.Dir (File.Path file)) a) as [s1|] eqn:E1; [|discriminate].
  cbn [mbind res_bind deref].
  apply Folder_RemoveFile_spec in E1.
  destruct E1 as (file' & fo & Ho' & Hfo & Hobj & Hc & Hhm & Hmf).
  st_simpl.
  rewrite Ho in Ho'. apply (inj Some) in Ho'. subst file'.
  rewrite Hhm, Hmf. intros Hres. exists file. split; [reflexivity|].
  cbn zeta.
  destruct (MemoryStorage.matchedFiles s !! File.Hash file) as [g|].
  - destruct (delete_file a (MatchedFileGroup.Files g)) as [|b [|c rest]];
      apply res_Ok_inj in Hres; apply pair_equal_spec in Hres;
      destruct Hres as [<- <-]; st_simpl;
      (split; [exact Hobj|]);
      (split; [exists ar1, fo; split; [exact EG|]; split; [exact Hfo|exact Hc]|]);
      (split; [reflexivity|]); (split; [reflexivity|]); reflexivity.
  - apply res_Ok_inj in Hres. apply pair_equal_spec in Hres.
    destruct Hres as [<- <-]. st_simpl.
    split; [exact Hobj|].
    split; [exists ar1, fo; split; [exact EG|]; split; [exact Hfo|exact Hc]|].
    split; [reflexivity|]. split; [exact Hmf|reflexivity].
Qed.

Lemma elem_of_delete_file (a : addr) (l : list addr) (x : addr) :
  x ∈ delete_file a l <-> x ∈ l /\ x <> a.
Proof.
  unfold delete_file. rewrite !list_elem_of_In, filter_In.
  rewrite negb_true_iff, Nat.eqb_neq. reflexivity.
Qed.

Lemma NoDup_delete_file (a : addr) (l : list addr) :
  NoDup l -> NoDup (delete_file a l).
Proof.
  intros H. apply NoDup_ListNoDup. apply List.NoDup_filter.
  apply NoDup_ListNoDup. exact H.
Qed.

Lemma delete_file_nonempty (a : addr) (l : list addr) :
  NoDup l -> (2 <= length l)%nat -> delete_file a l <> [].
Proof.
  intros Hnd Hlen Hd.
  destruct l as [|x [|y l']]; simpl in Hlen; [lia|lia|].
  assert (Hx : x ∉ delete_file a (x :: y :: l')) by (rewrite Hd; apply not_elem_of_nil).
  assert (Hy : y ∉ delete_file a (x :: y :: l')) by (rewrite Hd; apply not_elem_of_nil).
  rewrite elem_of_delete_file in Hx, Hy.
  apply NoDup_cons in Hnd. destruct Hnd as [Hxy _].
  destruct (decide (x = a)) as [->|Hxa].
  - destruct (decide (y = a)) as [->|Hya].
    + apply Hxy. left.
    + apply Hy. split; [right; left|exact Hya].
  - apply Hx. split; [left|exact Hxa].
Qed.

(** The folders after [GetFolder] and an update of the folder in place. *)
Lemma folders_step (ar ar1 ar' : arena) parent fo fo' :
  arena_wf ar -> GetFolder ar parent = Some ar1 -> ar1 !! parent = Some fo ->
  only_caches (<[parent := fo']> ar1) ar' ->
  Folder.Path fo' = Folder.Path fo -> Folder.Parent fo' = Folder.Parent fo ->
  Folder.Name fo' = Folder.Name fo ->
  arena_wf ar' /\ is_Some (ar' !! parent) /\
  (forall q, is_Some (ar !! q) -> is_Some (ar' !! q)).
Proof.
  intros Hwf HG Hfo Hc E1 E2 E3.
  destruct (GetFolder_fuel_wf _ _ _ _ Hwf HG) as (Hwf1 & _ & Hkeep & _).
  assert (Hdom : forall q, is_Some (ar1 !! q) -> is_Some (ar' !! q)).
  { intros q Hq. apply (only_caches_dom _ _ q Hc).
    destruct (decide (parent = q)) as [->|Hne].
    - rewrite lookup_insert_eq. eauto.
    - rewrite lookup_insert_ne by exact Hne. exact Hq. }
  split.
  { eapply arena_wf_only_caches; [exact Hc|].
    eapply arena_wf_insert_same; [exact Hfo|exact E1|exact E2|exact E3|exact Hwf1]. }
  split; [apply Hdom; eauto|].
  intros q [fq Hq]. apply Hdom. destruct (Hkeep q fq Hq) as (x & Hx & _). eauto.
Qed.

(** [AddFile] on a new File object keeps the invariants. *)
Lemma storage_wf_add (s s' : MemoryStorage.t) (f : File.t) :
  storage_wf s -> AddNewFile s f = Ok s' -> storage_wf s'.
Proof.
  intros (Har & Hfiles & Hgroups & Hentries) Hadd.
  apply AddNewFile_spec in Hadd. cbn zeta in Hadd.
  set (a := fresh (dom (MemoryStorage.objects s))) in *.
  set (h := File.Hash f) in *.
  destruct Hadd as (Ha & Hobj & (ar1 & fo & HG & Hfo & Hc) & Hidx).
  destruct (folders_step _ _ _ _ _ _ Har HG Hfo Hc eq_refl eq_refl eq_refl)
    as (Har' & Hpar & Hdom).
  assert (Hent : forall h' b, entry_wf s h' b -> entry_wf s' h' b).
  { intros h' b (fb & Hb & Hhb & Hpb). exists fb. rewrite Hobj.
    rewrite lookup_insert_ne; [auto|]. intros <-. congruence. }
  assert (Hnew : entry_wf s' h a).
  { exists (File.set_Parent (Some (filepath.Dir (File.Path f))) f).
    rewrite Hobj, lookup_insert_eq. split; [reflexivity|].
    split; [reflexivity|]. eexists. reflexivity. }
  assert (Hgrp : forall h' g, group_wf s h' g ->
            MemoryStorage.hashMap s' !! h' = MemoryStorage.hashMap s !! h' ->
            group_wf s' h' g).
  { intros h' g (H1 & H2 & H3 & H4 & H5) E.
    split; [exact H1|]. split; [exact H2|]. split; [exact H3|].
    split; [intros m Hm; apply Hent, H4, Hm|]. rewrite E. exact H5. }
  split; [exact Har'|]. split.
  { intros b fb Hb. rewrite Hobj in Hb. destruct (decide (a = b)) as [<-|Hne].
    - rewrite lookup_insert_eq in Hb. apply (inj Some) in Hb. subst fb.
      intros p Hp. simpl in Hp. apply (inj Some) in Hp. subst p.
      split; [reflexivity|exact Hpar].
    - rewrite lookup_insert_ne in Hb by exact Hne.
      intros p Hp. destruct (Hfiles b fb Hb p Hp) as [E Hs].
      split; [exact E|apply Hdom; exact Hs]. }
  destruct (MemoryStorage.hashMap s !! h) as [b|] eqn:Hh.
  - destruct Hidx as [Hhm Hmf]. split.
    + intros h' g' Hg'. rewrite Hmf in Hg'.
      destruct (decide (h = h')) as [<-|Hne].
      * rewrite lookup_insert_eq in Hg'. apply (inj Some) in Hg'. subst g'.
        destruct (MemoryStorage.matchedFiles s !! h) as [g|] eqn:Hg.
        -- destruct (Hgroups h g Hg) as (H1 & H2 & H3 & H4 & b' & Hb' & Hin).
           split; [exact H1|]. simpl. split; [rewrite length_app; simpl; lia|].
           split.
           { apply NoDup_app. split; [exact H3|]. split; [|apply NoDup_singleton].
             intros x Hx Hxa. apply list_elem_of_singleton in Hxa. subst x.
             destruct (H4 a Hx) as (fa & Hfa & _). congruence. }
           split.
           { intros m Hm. apply elem_of_app in Hm. destruct Hm as [Hm|Hm].
             - apply Hent, H4, Hm.
             - apply list_elem_of_singleton in Hm. subst m. exact Hnew. }
           exists b'. rewrite Hhm. split; [exact Hb'|].
           apply elem_of_app. left. exact Hin.
        -- pose proof (Hentries h b Hh) as Hb.
           split; [reflexivity|]. simpl. split; [lia|]. split.
           { apply NoDup_cons. split; [|apply NoDup_singleton].
             intros Hab. apply list_elem_of_singleton in Hab. subst b.
             destruct Hb as (fb & Hfb & _). congruence. }
           split.
           { intros m Hm. apply elem_of_cons in Hm. destruct Hm as [->|Hm].
             - exact Hnew.
             - apply list_elem_of_singleton in Hm. subst m. apply Hent. exact Hb. }
           exists b. rewrite Hhm. split; [exact Hh|]. right. left.
      * rewrite lookup_insert_ne in Hg' by exact Hne.
        apply Hgrp; [exact (Hgroups h' g' Hg')|]. rewrite Hhm. reflexivity.
    + intros h' b' Hb'. rewrite Hhm in Hb'. apply Hent. exact (Hentries h' b' Hb').
  - destruct Hidx as [Hhm Hmf]. split.
    + intros h' g' Hg'. rewrite Hmf in Hg'.
      pose proof (Hgroups h' g' Hg') as Hw.
      apply Hgrp; [exact Hw|]. rewrite Hhm. apply lookup_insert_ne.
      intros <-. destruct Hw as (_ & _ & _ & _ & b' & Hb' & _). congruence.
    + intros h' b' Hb'. rewrite Hhm in Hb'.
      destruct (decide (h = h')) as [<-|Hne].
      * rewrite lookup_insert_eq in Hb'. apply (inj Some) in Hb'. subst b'. exact Hnew.
      * rewrite lookup_insert_ne in Hb' by exact Hne.
        apply Hent. exact (Hentries h' b' Hb').
Qed.

(** [RemoveFile] keeps the invariants, and its error does not occur. *)
Lemma storage_wf_remove (s s' : MemoryStorage.t) (a : addr) (err : option error) :
  storage_wf s -> RemoveFile s a = Ok (s', err) -> storage_wf s' /\ err = None.
Proof.
  intros (Har & Hfiles & Hgroups & Hentries) Hrm.
  apply RemoveFile_spec in Hrm. destruct Hrm as (file & Ho & Hrm).
  cbn zeta in Hrm. set (h := File.Hash file) in *.
  destruct Hrm as (Hobj & (ar1 & fo & HG & Hfo & Hc) & Hidx).
  destruct (folders_step _ _ _ _ _ _ Har HG Hfo Hc eq_refl eq_refl eq_refl)
    as (Har' & Hpar & Hdom).
  assert (Hent : forall h' b, entry_wf s h' b -> b <> a -> entry_wf s' h' b).
  { intros h' b (fb & Hb & Hhb & Hpb) Hne. exists fb. rewrite Hobj.
    rewrite lookup_insert_ne; [auto|]. intros <-. congruence. }
  assert (Hhash : forall h', entry_wf s h' a -> h' = h).
  { intros h' (fa & Hfa & Hh' & _). rewrite Ho in Hfa. apply (inj Some) in Hfa.
    subst fa. symmetry. exact Hh'. }
  assert (Hgrp : forall h' g, h' <> h -> group_wf s h' g ->
            MemoryStorage.hashMap s' !! h' = MemoryStorage.hashMap s !! h' ->
            group_wf s' h' g).
  { intros h' g Hne (H1 & H2 & H3 & H4 & H5) E.
    split; [exact H1|]. split; [exact H2|]. split; [exact H3|].
    split; [|rewrite E; exact H5].
    intros m Hm. apply Hent; [apply H4, Hm|].
    intros ->. apply Hne. apply Hhash. apply H4. exact Hm. }
  assert (Hfiles' : map_Forall (fun (_ : addr) f0 => file_wf (MemoryStorage.folders s') f0)
                      (MemoryStorage.objects s')).
  { intros b fb Hb. rewrite Hobj in Hb. destruct (decide (a = b)) as [<-|Hne].
    - rewrite lookup_insert_eq in Hb. apply (inj Some) in Hb. subst fb.
      intros p Hp. simpl in Hp. discriminate.
    - rewrite lookup_insert_ne in Hb by exact Hne.
      intros p Hp. destruct (Hfiles b fb Hb p Hp) as [E Hs].
      split; [exact E|apply Hdom; exact Hs]. }
  assert (Hold : forall h' b', h' <> h -> MemoryStorage.hashMap s !! h' = Some b' ->
            entry_wf s' h' b').
  { intros h' b' Hne Hb'. pose proof (Hentries h' b' Hb') as Hw.
    apply Hent; [exact Hw|]. intros ->. apply Hne. apply Hhash. exact Hw. }
  destruct (MemoryStorage.matchedFiles s !! h) as [g|] eqn:Hg.
  - destruct (Hgroups h g Hg) as (H1 & H2 & H3 & H4 & H5).
    pose proof (delete_file_nonempty a _ H3 H2) as Hne0.
    assert (Hmem : forall m, m ∈ delete_file a (MatchedFileGroup.Files g) ->
              entry_wf s' h m).
    { intros m Hm. apply elem_of_delete_file in Hm. destruct Hm as [Hm Hma].
      apply Hent; [apply H4, Hm|exact Hma]. }
    pose proof (NoDup_delete_file a _ H3) as Hnd.
    destruct (delete_file a (MatchedFileGroup.Files g)) as [|b [|c rest]] eqn:Hd;
      [congruence| |].
    + destruct Hidx as (Hhm & Hmf & ->). split; [|reflexivity].
      split; [exact Har'|]. split; [exact Hfiles'|]. split.
      * intros h' g' Hg'. rewrite Hmf in Hg'.
        apply lookup_delete_Some in Hg'. destruct Hg' as [Hne Hg'].
        apply Hgrp; [congruence|exact (Hgroups h' g' Hg')|].
        rewrite Hhm. apply lookup_insert_ne. exact Hne.
      * intros h' b' Hb'. rewrite Hhm in Hb'.
        destruct (decide (h = h')) as [<-|Hne].
        -- rewrite lookup_insert_eq in Hb'. apply (inj Some) in Hb'. subst b'.
           apply Hmem. left.
        -- rewrite lookup_insert_ne in Hb' by exact Hne.
           apply Hold; [congruence|exact Hb'].
    + destruct Hidx as (Hhm & Hmf & ->). split; [|reflexivity].
      split; [exact Har'|]. split; [exact Hfiles'|]. split.
      * intros h' g' Hg'. rewrite Hmf in Hg'.
        destruct (decide (h = h')) as [<-|Hne].
        -- rewrite lookup_insert_eq in Hg'. apply (inj Some) in Hg'. subst g'.
           split; [exact H1|]. simpl. split; [lia|]. split; [exact Hnd|].
           split; [exact Hmem|]. exists b. rewrite Hhm, lookup_insert_eq.
           split; [reflexivity|left].
        -- rewrite lookup_insert_ne in Hg' by exact Hne.
           apply Hgrp; [congruence|exact (Hgroups h' g' Hg')|].
           rewrite Hhm. apply lookup_insert_ne. exact Hne.
      * intros h' b' Hb'. rewrite Hhm in Hb'.
        destruct (decide (h = h')) as [<-|Hne].
        -- rewrite lookup_insert_eq in Hb'. apply (inj Some) in Hb'. subst b'.
           apply Hmem. left.
        -- rewrite lookup_insert_ne in Hb' by exact Hne.
           apply Hold; [congruence|exact Hb'].
  - destruct Hidx as (Hhm & Hmf & ->). split; [|reflexivity].
    split; [exact Har'|]. split; [exact Hfiles'|]. split.
    + intros h' g' Hg'. rewrite Hmf in Hg'.
      assert (Hne : h' <> h) by congruence.
      apply Hgrp; [exact Hne|exact (Hgroups h' g' Hg')|].
      rewrite Hhm. apply lookup_delete_ne. congruence.
    + intros h' b' Hb'. rewrite Hhm in Hb'.
      apply lookup_delete_Some in Hb'. destruct Hb' as [Hne Hb'].
      apply Hold; [congruence|exact Hb'].
Qed.

Lemma storage_wf_new : storage_wf NewMemoryStorage.
Proof.
  unfold storage_wf, NewMemoryStorage. simpl.
  split; [apply map_Forall_empty|]. split; [apply map_Forall_empty|].
  split; apply map_Forall_empty.
Qed.

(** A change of cached counts keeps the invariants. *)
Lemma storage_wf_caches (s : MemoryStorage.t) (ar' : arena) :
  storage_wf s -> only_caches (MemoryStorage.folders s) ar' ->
  storage_wf (MemoryStorage.set_folders ar' s).
Proof.
  intros (Har & Hfiles & Hgroups & Hentries) Hc.
  split; [exact (arena_wf_only_caches _ _ Hc Har)|].
  split; [|split; [exact Hgroups|exact Hentries]].
  intros a f Ha p Hp. destruct (Hfiles a f Ha p Hp) as [E Hs].
  split; [exact E|]. apply (only_caches_dom _ _ p Hc). exact Hs.
Qed.

Lemma reachable_wf (s : MemoryStorage.t) : reachable s -> storage_wf s.
Proof.
  induction 1 as [|s f s' _ IH Hadd|s a s' err _ IH Hrm|s p _ IH].
  - exact storage_wf_new.
  - exact (storage_wf_add s s' f IH Hadd).
  - exact (proj1 (storage_wf_remove s s' a err IH Hrm)).
  - apply storage_wf_caches; [exact IH|apply GetFileCount_only_caches].
Qed.

Lemma storage_wf_pointers (s : MemoryStorage.t) : storage_wf s -> pointers_valid s.
Proof.
  intros (Har & Hfiles & _ & _). split.
  - intros a f Ha p Hp. exact (proj2 (Hfiles a f Ha p Hp)).
  - intros p fo Hp q Hq. destruct (Har p fo Hp) as [_ H].
    destruct (is_root p).
    + destruct H as [H _]. congruence.
    + destruct H as (H1 & _ & H3). rewrite H1 in Hq. apply (inj Some) in Hq.
      subst q. exact H3.
Qed.

Lemma storage_wf_groups (s : MemoryStorage.t) : storage_wf s -> groups_valid s.
Proof.
  intros (_ & _ & Hgroups & _) h g Hg. apply Forall_forall. intros a Ha.
  destruct (Hgroups h g Hg) as (_ & _ & _ & H4 & _).
  destruct (H4 a Ha) as (f & Hf & _ & Hp). rewrite Hf. exact Hp.
Qed.

Lemma add_all_reachable (files : list File.t) : forall st s,
  reachable st -> add_all files st = Ok s -> reachable s.
Proof.
  induction files as [|f rest IH]; intros st s Hr; simpl.
  - intros Hs. apply res_Ok_inj in Hs. subst s. exact Hr.
  - destruct (AddNewFile st f) as [st1|] eqn:E; [|discriminate].
    cbn [mbind res_bind]. apply IH. exact (reachable_add st f st1 Hr E).
Qed.

Lemma index_complete_new : index_complete NewMemoryStorage.
Proof. intros a f Ha. simpl in Ha. rewrite lookup_empty in Ha. discriminate. Qed.

(** [AddFile] on a new File object keeps the index complete. *)
Lemma index_complete_add (s s' : MemoryStorage.t) (f : File.t) :
  storage_wf s -> index_complete s -> AddNewFile s f = Ok s' -> index_complete s'.
Proof.
  intros (Har & Hfiles & Hgroups & Hentries) HJ Hadd.
  apply AddNewFile_spec in Hadd. cbn zeta in Hadd.
  set (a := fresh (dom (MemoryStorage.objects s))) in *.
  destruct Hadd as (Ha & Hobj & _ & Hidx).
  intros x fx Hx Hpx. rewrite Hobj in Hx.
  destruct (decide (a = x)) as [<-|Hne].
  - rewrite lookup_insert_eq in Hx. apply (inj Some) in Hx. subst fx.
    cbn [File.Hash File.set_Parent].
    destruct (MemoryStorage.hashMap s !! File.Hash f) as [b|] eqn:Hh;
      destruct Hidx as [Hhm Hmf]; rewrite Hhm, Hmf.
    + rewrite lookup_insert_eq.
      destruct (MemoryStorage.matchedFiles s !! File.Hash f); simpl.
      * apply elem_of_app. right. left.
      * left.
    + destruct (MemoryStorage.matchedFiles s !! File.Hash f) as [g|] eqn:Hg.
      * destruct (Hgroups _ g Hg) as (_ & _ & _ & _ & b' & Hb' & _). congruence.
      * apply lookup_insert_eq.
  - rewrite lookup_insert_ne in Hx by exact Hne.
    pose proof (HJ x fx Hx Hpx) as HJx.
    destruct (MemoryStorage.hashMap s !! File.Hash f) as [b|] eqn:Hh;
      destruct Hidx as [Hhm Hmf]; rewrite Hhm, Hmf.
    + destruct (decide (File.Hash f = File.Hash fx)) as [E|Hne'].
      * rewrite <- E in HJx |- *. rewrite lookup_insert_eq.
        destruct (MemoryStorage.matchedFiles s !! File.Hash f) as [g|] eqn:Hg; simpl.
        -- apply elem_of_app. left. exact HJx.
        -- assert (x = b) by congruence. subst x. right. left.
      * rewrite lookup_insert_ne by exact Hne'. exact HJx.
    + destruct (MemoryStorage.matchedFiles s !! File.Hash fx) as [g|] eqn:Hg;
        [exact HJx|].
      rewrite lookup_insert_ne; [exact HJx|]. intros E. rewrite E in Hh. congruence.
Qed.

(** [RemoveFile] on a file that is in a folder keeps the index complete. *)
Lemma index_complete_remove (s s' : MemoryStorage.t) (a : addr) (file : File.t)
    (err : option error) :
  storage_wf s -> index_complete s ->
  MemoryStorage.objects s !! a = Some file -> is_Some (File.Parent file) ->
  RemoveFile s a = Ok (s', err) -> index_complete s'.
Proof.
  intros (Har & Hfiles & Hgroups & Hentries) HJ Ho Hst Hrm.
  apply RemoveFile_spec in Hrm. destruct Hrm as (file' & Ho' & Hrm).
  rewrite Ho in Ho'. apply (inj Some) in Ho'. subst file'. cbn zeta in Hrm.
  destruct Hrm as (Hobj & _ & Hidx).
  pose proof (HJ a file Ho Hst) as HJa.
  intros x fx Hx Hpx. rewrite Hobj in Hx.
  destruct (decide (a = x)) as [<-|Hne].
  { rewrite lookup_insert_eq in Hx. apply (inj Some) in Hx. subst fx.
    simpl in Hpx. destruct Hpx as [? Hpx]. discriminate. }
  rewrite lookup_insert_ne in Hx by exact Hne.
  pose proof (HJ x fx Hx Hpx) as HJx.
  destruct (MemoryStorage.matchedFiles s !! File.Hash file) as [g|] eqn:Hg.
  - destruct (Hgroups _ g Hg) as (H1 & H2 & H3 & H4 & H5).
    pose proof (delete_file_nonempty a _ H3 H2) as Hne0.
    assert (Hin : File.Hash fx = File.Hash file ->
              x ∈ delete_file a (MatchedFileGroup.Files g)).
    { intros E. rewrite E, Hg in HJx. apply elem_of_delete_file.
      split; [exact HJx|congruence]. }
    destruct (delete_file a (MatchedFileGroup.Files g)) as [|b [|c rest]] eqn:Hd;
      [congruence| |]; destruct Hidx as (Hhm & Hmf & _); rewrite Hhm, Hmf.
    + destruct (decide (File.Hash file = File.Hash fx)) as [E|Hne'].
      * rewrite <- E. rewrite lookup_delete_eq, lookup_insert_eq.
        specialize (Hin (eq_sym E)). apply list_elem_of_singleton in Hin. congruence.
      * rewrite lookup_delete_ne by exact Hne'.
        destruct (MemoryStorage.matchedFiles s !! File.Hash fx); [exact HJx|].
        rewrite lookup_insert_ne by exact Hne'. exact HJx.
    + destruct (decide (File.Hash file = File.Hash fx)) as [E|Hne'].
      * rewrite <- E, lookup_insert_eq. simpl. apply Hin. symmetry. exact E.
      * rewrite lookup_insert_ne by exact Hne'.
        destruct (MemoryStorage.matchedFiles s !! File.Hash fx); [exact HJx|].
        rewrite lookup_insert_ne by exact Hne'. exact HJx.
  - destruct Hidx as (Hhm & Hmf & _). rewrite Hhm, Hmf.
    destruct (MemoryStorage.matchedFiles s !! File.Hash fx) as [g|] eqn:Hgx;
      [exact HJx|].
    rewrite lookup_delete_ne; [exact HJx|]. intros E. rewrite <- E in HJx. congruence.
Qed.

Lemma reachable_stored_reachable (s : MemoryStorage.t) :
  reachable_stored s -> reachable s.
Proof.
  induction 1 as [|s f s' _ IH Hadd|s a file s' err _ IH _ _ Hrm|s p _ IH].
  - exact reachable_new.
  - exact (reachable_add s f s' IH Hadd).
  - exact (reachable_remove s a s' err IH Hrm).
  - exact (reachable_count s p IH).
Qed.

Lemma reachable_stored_complete (s : MemoryStorage.t) :
  reachable_stored s -> index_complete s.
Proof.
  induction 1 as [|s f s' Hr IH Hadd|s a file s' err Hr IH Ho Hp Hrm|s p _ IH].
  - exact index_complete_new.
  - exact (index_complete_add s s' f
             (reachable_wf s (reachable_stored_reachable s Hr)) IH Hadd).
  - exact (index_complete_remove s s' a file err
             (reachable_wf s (reachable_stored_reachable s Hr)) IH Ho Hp Hrm).
  - exact IH.
Qed.

Lemma add_all_stored (files : list File.t) : forall st s,
  reachable_stored st -> add_all files st = Ok s -> reachable_stored s.
Proof.
  induction files as [|f rest IH]; intros st s Hr; simpl.
  - intros Hs. apply res_Ok_inj in Hs. subst s. exact Hr.
  - destruct (AddNewFile st f) as [st1|] eqn:E; [|discriminate].
    cbn [mbind res_bind]. apply IH. exact (stored_add st f st1 Hr E).
Qed.

Lemma storage_S2_built : add_all files_S2 NewMemoryStorage = Ok Ex.storage_S2.
Proof. vm_compute. reflexivity. Qed.

Lemma RemoveFile_returns (s : MemoryStorage.t) (a : addr) (file : File.t) :
  MemoryStorage.objects s !! a = Some file ->
  exists s' err, RemoveFile s a = Ok (s', err).
Proof.
  intros Ho. unfold RemoveFile. rewrite Ho. cbn [mbind res_bind deref].
  destruct (GetFolder_total (MemoryStorage.folders s) (filepath.Dir (File.Path file)))
    as (folders1 & -> & [pf Hpf]).
  cbn [mbind res_bind deref].
  destruct (Folder_RemoveFile_ok (MemoryStorage.set_folders folders1 s)
              (filepath.Dir (File.Path file)) a file pf Ho Hpf)
    as (s1 & -> & _).
  cbn [mbind res_bind].
  destruct (MemoryStorage.matchedFiles s1 !! File.Hash file) as [g|].
  - destruct (delete_file a (MatchedFileGroup.Files g)) as [|b [|c l]]; eauto.
  - eauto.
Qed.

Lemma delete_file_fresh (a : addr) (l : list addr) :
  a ∉ l -> delete_file a l = l.
Proof.
  induction l as [|x l IH]; intros Hn; [reflexivity|].
  apply not_elem_of_cons in Hn. destruct Hn as [Hax Hn].
  unfold delete_file in *. simpl.
  destruct (Nat.eqb_spec x a) as [->|_]; [congruence|]. simpl.
  rewrite IH by exact Hn. reflexivity.
Qed.

Lemma delete_file_last (a : addr) (l : list addr) :
  a ∉ l -> delete_file a (l ++ [a]) = l.
Proof.
  intros Hn. unfold delete_file. rewrite List.filter_app. simpl.
  rewrite Nat.eqb_refl. simpl. rewrite app_nil_r. exact (delete_file_fresh a l Hn).
Qed.

(** [AddFile] of a new File object and then [RemoveFile] of it. *)
Lemma add_remove_groups (s s1 s2 : MemoryStorage.t) (f : File.t) (err : option error) :
  storage_wf s -> AddNewFile s f = Ok s1 ->
  RemoveFile s1 (fresh (dom (MemoryStorage.objects s))) = Ok (s2, err) ->
  MemoryStorage.matchedFiles s2 = MemoryStorage.matchedFiles s /\
  (forall h, h <> File.Hash f ->
     MemoryStorage.hashMap s2 !! h = MemoryStorage.hashMap s !! h) /\
  (is_Some (MemoryStorage.hashMap s2 !! File.Hash f) <->
   is_Some (MemoryStorage.hashMap s !! File.Hash f)).
Proof.
  intros (Har & Hfiles & Hgroups & Hentries) Hadd Hrm.
  apply AddNewFile_spec in Hadd. cbn zeta in Hadd.
  set (a := fresh (dom (MemoryStorage.objects s))) in *.
  destruct Hadd as (Ha & Hobj & _ & Hidx).
  apply RemoveFile_spec in Hrm. destruct Hrm as (file & Ho & Hrm).
  rewrite Hobj, lookup_insert_eq in Ho. apply (inj Some) in Ho. subst file.
  cbn zeta in Hrm. cbn [File.Hash File.set_Parent] in Hrm.
  destruct Hrm as (_ & _ & Hidx2).
  destruct (MemoryStorage.hashMap s !! File.Hash f) as [b|] eqn:Hh;
    destruct Hidx as [Hhm Hmf]; rewrite Hmf, Hhm in Hidx2.
  - rewrite lookup_insert_eq in Hidx2.
    destruct (MemoryStorage.matchedFiles s !! File.Hash f) as [g|] eqn:Hg.
    + destruct (Hgroups _ g Hg) as (H1 & H2 & H3 & H4 & H5).
      assert (Hn : a ∉ MatchedFileGroup.Files g).
      { intros Hin. destruct (H4 a Hin) as (fa & Hfa & _). congruence. }
      cbn [MatchedFileGroup.Files MatchedFileGroup.Hash] in Hidx2.
      rewrite (delete_file_last a _ Hn) in Hidx2.
      destruct (MatchedFileGroup.Files g) as [|x [|y l]] eqn:HF;
        simpl in H2; [lia|lia|].
      destruct Hidx2 as (Hhm2 & Hmf2 & _). rewrite Hhm2, Hmf2.
      split.
      { rewrite insert_insert_eq. apply insert_id. rewrite Hg. f_equal.
        destruct g. simpl in *. congruence. }
      split; [intros h Hne; apply lookup_insert_ne; congruence|].
      rewrite lookup_insert_eq. split; eauto.
    + cbn [MatchedFileGroup.Files MatchedFileGroup.Hash] in Hidx2.
      assert (Hab : b <> a).
      { intros ->. destruct (Hentries _ a Hh) as (fa & Hfa & _). congruence. }
      unfold delete_file in Hidx2. simpl in Hidx2.
      rewrite Nat.eqb_refl in Hidx2.
      destruct (Nat.eqb_spec b a) as [E|_]; [congruence|]. simpl in Hidx2.
      destruct Hidx2 as (Hhm2 & Hmf2 & _). rewrite Hhm2, Hmf2.
      split; [apply delete_insert_id; exact Hg|].
      split; [intros h Hne; apply lookup_insert_ne; congruence|].
      rewrite lookup_insert_eq. split; eauto.
  - assert (Hg : MemoryStorage.matchedFiles s !! File.Hash f = None).
    { destruct (MemoryStorage.matchedFiles s !! File.Hash f) as [g|] eqn:Hg;
        [|reflexivity].
      destruct (Hgroups _ g Hg) as (_ & _ & _ & _ & b' & Hb' & _). congruence. }
    rewrite Hg in Hidx2. destruct Hidx2 as (Hhm2 & Hmf2 & _). rewrite Hhm2, Hmf2.
    split; [reflexivity|].
    rewrite (delete_insert_id _ _ _ Hh).
    split; [reflexivity|]. rewrite Hh. reflexivity.
Qed.

(** X11.  In a storage that was built from [NewMemoryStorage] with
    [AddFile] on new File objects and [RemoveFile], in any order and on any
    File objects: the folder stored under a path has that path, a root
    ([.] or [/]) has no parent and another folder has the folder of
    [filepath.Dir] of its path as parent, which is in the storage; a file
    with a parent has the folder of the directory of its path as parent,
    which is in the storage; a matched group has the hash it is stored
    under and at least two files, none twice, each a File object with that
    hash that is in a folder, and the hash map has one of them as entry
    for the hash; every entry of the hash map is a File object with that
    hash that is in a folder.  So the pointers of the storage are valid. *)
Theorem reachable_storage_wf (s : MemoryStorage.t) :
  reachable s -> storage_wf s /\ pointers_valid s /\ groups_valid s.
Proof.
  intros Hr. pose proof (reachable_wf s Hr) as Hwf.
  split; [exact Hwf|]. split; [exact (storage_wf_pointers s Hwf)|].
  exact (storage_wf_groups s Hwf).
Qed.

Lemma reachable_storage_wf_witness :
  reachable Ex.storage_S2 /\
  storage_wf Ex.storage_S2 /\ pointers_valid Ex.storage_S2 /\ groups_valid Ex.storage_S2.
Proof.
  assert (Hr : reachable Ex.storage_S2).
  { exact (add_all_reachable files_S2 NewMemoryStorage Ex.storage_S2
             reachable_new storage_S2_built). }
  split; [exact Hr|]. exact (reachable_storage_wf Ex.storage_S2 Hr).
Defined.

(** X12.  On a storage that was built from [NewMemoryStorage] with
    [AddFile] on new File objects and [RemoveFile], [RemoveFile] returns
    no error: the branch for a matched group that has no file left is
    never taken, for a group has at least two files and none twice. *)
Theorem RemoveFile_no_error (s s' : MemoryStorage.t) (a : addr) (err : option error) :
  reachable s -> RemoveFile s a = Ok (s', err) -> err = None.
Proof.
  intros Hr Hrm.
  exact (proj2 (storage_wf_remove s s' a err (reachable_wf s Hr) Hrm)).
Qed.

Lemma RemoveFile_no_error_witness :
  reachable Ex.storage_S2 /\
  exists s', RemoveFile Ex.storage_S2 1%nat = Ok (s', None).
Proof.
  assert (Hr : reachable Ex.storage_S2).
  { exact (add_all_reachable files_S2 NewMemoryStorage Ex.storage_S2
             reachable_new storage_S2_built). }
  split; [exact Hr|].
  destruct (RemoveFile Ex.storage_S2 1%nat) as [[s' err]|] eqn:E;
    [|vm_compute in E; discriminate].
  exists s'. rewrite (RemoveFile_no_error Ex.storage_S2 s' 1%nat err Hr E). reflexivity.
Defined.

(** X13.  Duplicate detection is complete.  In a storage that was built
    from [NewMemoryStorage] with [AddFile] on new File objects and
    [RemoveFile] on files that are in a folder, two different files that
    are in a folder and have the same hash are in one matched group, the
    group of that hash. *)
Theorem duplicates_in_one_group (s : MemoryStorage.t) (a b : addr) (fa fb : File.t) :
  reachable_stored s -> a <> b ->
  MemoryStorage.objects s !! a = Some fa -> MemoryStorage.objects s !! b = Some fb ->
  is_Some (File.Parent fa) -> is_Some (File.Parent fb) ->
  File.Hash fa = File.Hash fb ->
  exists g, MemoryStorage.matchedFiles s !! File.Hash fa = Some g /\
            a ∈ MatchedFileGroup.Files g /\ b ∈ MatchedFileGroup.Files g.
Proof.
  intros Hr Hab Ha Hb Hpa Hpb Hh.
  pose proof (reachable_stored_complete s Hr) as HJ.
  pose proof (HJ a fa Ha Hpa) as Ja. pose proof (HJ b fb Hb Hpb) as Jb.
  rewrite <- Hh in Jb.
  destruct (MemoryStorage.matchedFiles s !! File.Hash fa) as [g|].
  - exists g. auto.
  - congruence.
Qed.

Lemma duplicates_in_one_group_witness :
  reachable_stored Ex.storage_S2 /\
  exists g, MemoryStorage.matchedFiles Ex.storage_S2 !! "hx" = Some g /\
            0%nat ∈ MatchedFileGroup.Files g /\ 1%nat ∈ MatchedFileGroup.Files g.
Proof.
  assert (Hr : reachable_stored Ex.storage_S2).
  { exact (add_all_stored files_S2 NewMemoryStorage Ex.storage_S2
             stored_new storage_S2_built). }
  split; [exact Hr|].
  apply (duplicates_in_one_group Ex.storage_S2 0%nat 1%nat
           (File.mk "x" "p/a/x" "hx" 1 (Some "p/a") 0)
           (File.mk "x" "q/b/x" "hx" 1 (Some "q/b") 0) Hr).
  - lia.
  - vm_compute. reflexivity.
  - vm_compute. reflexivity.
  - simpl. eexists. reflexivity.
  - simpl. eexists. reflexivity.
  - reflexivity.
Defined.

(** X14.  [AddFile] of a new File object and then [RemoveFile] of it
    restore the matched groups: on a storage that was built from
    [NewMemoryStorage] with [AddFile] and [RemoveFile], the second call
    returns with no error, the matched groups are the ones before the
    first call, and the hash map has an entry for the same hashes, the
    same one for every hash other than the file's. *)
Theorem AddFile_RemoveFile_groups (s s1 : MemoryStorage.t) (f : File.t) :
  reachable s -> AddNewFile s f = Ok s1 ->
  exists s2,
    RemoveFile s1 (fresh (dom (MemoryStorage.objects s))) = Ok (s2, None) /\
    MemoryStorage.matchedFiles s2 = MemoryStorage.matchedFiles s /\
    (forall h, h <> File.Hash f ->
       MemoryStorage.hashMap s2 !! h = MemoryStorage.hashMap s !! h) /\
    (is_Some (MemoryStorage.hashMap s2 !! File.Hash f) <->
     is_Some (MemoryStorage.hashMap s !! File.Hash f)).
Proof.
  intros Hr Hadd.
  pose proof (reachable_wf s Hr) as Hwf.
  pose proof (reachable_add s f s1 Hr Hadd) as Hr1.
  destruct (AddNewFile_spec s s1 f Hadd) as (_ & Hobj & _).
  destruct (RemoveFile_returns s1 (fresh (dom (MemoryStorage.objects s)))
              (File.set_Parent (Some (filepath.Dir (File.Path f))) f))
    as (s2 & err & Hrm).
  { rewrite Hobj. apply lookup_insert_eq. }
  assert (err = None) as ->.
  { exact (proj2 (storage_wf_remove s1 s2 _ err (reachable_wf s1 Hr1) Hrm)). }
  exists s2. split; [exact Hrm|].
  exact (add_remove_groups s s1 s2 f None Hwf Hadd Hrm).
Qed.

Lemma AddFile_RemoveFile_groups_witness :
  reachable Ex.storage_S2 /\
  match AddNewFile Ex.storage_S2 (File.mk "z" "p/a/z" "hx" 1 None 0) with
  | Ok s1 =>
      exists s2,
        RemoveFile s1 (fresh (dom (MemoryStorage.objects Ex.storage_S2))) = Ok (s2, None) /\
        MemoryStorage.matchedFiles s2 = MemoryStorage.matchedFiles Ex.storage_S2
  | Panic => False
  end.
Proof.
  assert (Hr : reachable Ex.storage_S2).
  { exact (add_all_reachable files_S2 NewMemoryStorage Ex.storage_S2
             reachable_new storage_S2_built). }
  split; [exact Hr|].
  destruct (AddNewFile Ex.storage_S2 (File.mk "z" "p/a/z" "hx" 1 None 0))
    as [s1|] eqn:E; [|vm_compute in E; discriminate].
  destruct (AddFile_RemoveFile_groups Ex.storage_S2 s1 _ Hr E) as (s2 & H1 & H2 & _).
  exists s2. split; [exact H1|exact H2].
Defined.

Lemma GetFolder_fuel_subfolders : forall fuel (ar ar' : arena) path,
  arena_wf ar -> subfolders_wf ar -> GetFolder_fuel fuel ar path = Some ar' ->
  subfolders_wf ar'.
Proof.
  induction fuel as [|n IH]; intros ar ar' path Hwf Hsub; [discriminate|].
  simpl. destruct (ar !! path) as [f|] eqn:Hl.
  - intros [= <-]. exact Hsub.
  - destruct (String.eqb path "." || String.eqb path "/") eqn:Hb.
    + intros [= <-]. intros p fo nm q Hp Hq.
      destruct (decide (path = p)) as [<-|Hne].
      * rewrite lookup_insert_eq in Hp. apply (inj Some) in Hp. subst fo.
        simpl in Hq. rewrite lookup_empty in Hq. discriminate.
      * rewrite lookup_insert_ne in Hp by exact Hne.
        destruct (Hsub p fo nm q Hp Hq) as (fq & Hfq & H1 & H2).
        exists fq. split; [|auto]. rewrite lookup_insert_ne; [exact Hfq|].
        intros <-. congruence.
    + destruct (GetFolder_fuel n ar (filepath.Dir path)) as [ar1|] eqn:E1; [|discriminate].
      destruct (ar1 !! filepath.Dir path) as [pf|] eqn:Hpf; [|discriminate].
      intros [= <-].
      pose proof (IH _ _ _ Hwf Hsub E1) as Hsub1.
      destruct (GetFolder_fuel_wf _ _ _ _ Hwf E1) as (Hwf1 & _).
      set (parentPath := filepath.Dir path) in *.
      set (newFolder := Folder.mk (filepath.Base path) path (Some parentPath) ∅ ∅ 0 0).
      set (pf' := Folder.set_Folders (<[filepath.Base path := path]> (Folder.Folders pf)) pf).
      assert (Hat : forall fq, ar1 !! path = Some fq ->
                Folder.Parent fq = Some parentPath /\
                Folder.Name fq = filepath.Base path).
      { intros fq Hfq. destruct (Hwf1 path fq Hfq) as [_ H].
        unfold is_root in H. rewrite Hb in H. destruct H as (H1 & H2 & _). auto. }
      assert (Hres : forall q fq p nm,
                ar1 !! q = Some fq -> Folder.Parent fq = Some p -> Folder.Name fq = nm ->
                exists fq', <[path := newFolder]> (<[parentPath := pf']> ar1) !! q = Some fq' /\
                            Folder.Parent fq' = Some p /\ Folder.Name fq' = nm).
      { intros q fq p nm Hfq HP HN. destruct (decide (path = q)) as [<-|Hne1].
        - rewrite lookup_insert_eq. eexists. split; [reflexivity|]. simpl.
          destruct (Hat fq Hfq) as [A B]. split; congruence.
        - rewrite lookup_insert_ne by exact Hne1.
          destruct (decide (parentPath = q)) as [<-|Hne2].
          + rewrite lookup_insert_eq. eexists. split; [reflexivity|]. simpl.
            rewrite Hpf in Hfq. apply (inj Some) in Hfq. subst fq. auto.
          + rewrite lookup_insert_ne by exact Hne2. eauto. }
      intros p fo nm q Hp Hq.
      destruct (decide (path = p)) as [<-|Hne1].
      * rewrite lookup_insert_eq in Hp. apply (inj Some) in Hp. subst fo.
        simpl in Hq. rewrite lookup_empty in Hq. discriminate.
      * rewrite lookup_insert_ne in Hp by exact Hne1.
        destruct (decide (parentPath = p)) as [<-|Hne2].
        -- rewrite lookup_insert_eq in Hp. apply (inj Some) in Hp. subst fo.
           simpl in Hq.
           destruct (decide (filepath.Base path = nm)) as [<-|Hne3].
           ++ rewrite lookup_insert_eq in Hq. apply (inj Some) in Hq. subst q.
              rewrite lookup_insert_eq. eexists. split; [reflexivity|]. simpl. auto.
           ++ rewrite lookup_insert_ne in Hq by exact Hne3.
              destruct (Hsub1 _ pf nm q Hpf Hq) as (fq & Hfq & H1 & H2).
              exact (Hres q fq _ nm Hfq H1 H2).
        -- rewrite lookup_insert_ne in Hp by exact Hne2.
           destruct (Hsub1 p fo nm q Hp Hq) as (fq & Hfq & H1 & H2).
           exact (Hres q fq p nm Hfq H1 H2).
Qed.

(** The folders after an update of one folder in place and of caches. *)
Lemma step_lookup (ar1 ar' : arena) parent fo fo_new p fo' :
  ar1 !! parent = Some fo ->
  only_caches (<[parent := fo_new]> ar1) ar' ->
  ar' !! p = Some fo' ->
  exists fo1, ar1 !! p = Some fo1 /\
    forget_cache fo' = forget_cache (if decide (parent = p) then fo_new else fo1).
Proof.
  intros Hfo Hc Hp.
  destruct (only_caches_lookup _ _ p fo' Hc Hp) as (fo0 & H0 & E).
  destruct (decide (parent = p)) as [<-|Hne].
  - rewrite lookup_insert_eq in H0. apply (inj Some) in H0. subst fo0.
    exists fo. split; [exact Hfo|]. rewrite E. reflexivity.
  - rewrite lookup_insert_ne in H0 by exact Hne.
    exists fo0. split; [exact H0|]. rewrite E. reflexivity.
Qed.

Lemma forget_cache_fields (fo fo' : Folder.t) :
  forget_cache fo' = forget_cache fo ->
  Folder.Name fo' = Folder.Name fo /\ Folder.Parent fo' = Folder.Parent fo /\
  Folder.Folders fo' = Folder.Folders fo /\ Folder.files fo' = Folder.files fo.
Proof.
  destruct fo, fo'. unfold forget_cache, Folder.set_fileCountCache. simpl.
  intros [= -> -> -> -> -> ->]. auto.
Qed.

Lemma subfolders_wf_step (ar1 ar' : arena) parent fo fo_new :
  ar1 !! parent = Some fo ->
  only_caches (<[parent := fo_new]> ar1) ar' ->
  Folder.Name fo_new = Folder.Name fo -> Folder.Parent fo_new = Folder.Parent fo ->
  Folder.Folders fo_new = Folder.Folders fo ->
  subfolders_wf ar1 -> subfolders_wf ar'.
Proof.
  intros Hfo Hc EN EP EF Hsub p fo' nm q Hp Hq.
  assert (Hshape : forall r fr', ar' !! r = Some fr' ->
            exists fr, ar1 !! r = Some fr /\ Folder.Name fr' = Folder.Name fr /\
                       Folder.Parent fr' = Folder.Parent fr /\
                       Folder.Folders fr' = Folder.Folders fr).
  { intros r fr' Hr.
    destruct (step_lookup _ _ _ _ _ _ _ Hfo Hc Hr) as (fr & Hfr & E).
    apply forget_cache_fields in E. destruct E as (E1 & E2 & E3 & _).
    exists fr. split; [exact Hfr|].
    destruct (decide (parent = r)) as [<-|Hne].
    - rewrite Hfo in Hfr. apply (inj Some) in Hfr. subst fr.
      split; [congruence|]. split; congruence.
    - auto. }
  destruct (Hshape p fo' Hp) as (fo1 & Hfo1 & _ & _ & EF1).
  rewrite EF1 in Hq.
  destruct (Hsub p fo1 nm q Hfo1 Hq) as (fq & Hfq & HP & HN).
  assert (Hq' : is_Some (ar' !! q)).
  { apply (only_caches_dom _ _ q Hc). destruct (decide (parent = q)) as [<-|Hne].
    - rewrite lookup_insert_eq. eauto.
    - rewrite lookup_insert_ne by exact Hne. eauto. }
  destruct Hq' as [fq' Hfq'].
  destruct (Hshape q fq' Hfq') as (fq0 & Hfq0 & E1 & E2 & _).
  rewrite Hfq in Hfq0. apply (inj Some) in Hfq0. subst fq0.
  exists fq'. split; [exact Hfq'|]. split; congruence.
Qed.

(** The files of a folder after [GetFolder] are the files it had. *)
Lemma GetFolder_files (ar ar1 : arena) path p fo1 n (a : addr) :
  arena_wf ar -> GetFolder ar path = Some ar1 ->
  ar1 !! p = Some fo1 -> Folder.files fo1 !! n = Some a ->
  exists fo, ar !! p = Some fo /\ Folder.files fo !! n = Some a.
Proof.
  intros Hwf HG Hp Hn.
  destruct (GetFolder_fuel_wf _ _ _ _ Hwf HG) as (_ & _ & Hkeep & Hnew).
  destruct (ar !! p) as [fo|] eqn:Hfo.
  - exists fo. split; [reflexivity|].
    destruct (Hkeep p fo Hfo) as (fo' & Hfo' & E).
    rewrite Hp in Hfo'. apply (inj Some) in Hfo'. subst fo'.
    rewrite E in Hn. exact Hn.
  - destruct (Hnew p fo1 Hp Hfo) as (E & _). rewrite E, lookup_empty in Hn.
    discriminate.
Qed.

Lemma files_wf_new : files_wf NewMemoryStorage.
Proof. intros p fo n a Hp. simpl in Hp. rewrite lookup_empty in Hp. discriminate. Qed.

Lemma subfolders_wf_new : subfolders_wf (MemoryStorage.folders NewMemoryStorage).
Proof. intros p fo n a Hp. simpl in Hp. rewrite lookup_empty in Hp. discriminate. Qed.

Lemma files_wf_add (s s' : MemoryStorage.t) (f : File.t) :
  storage_wf s -> files_wf s -> AddNewFile s f = Ok s' -> files_wf s'.
Proof.
  intros (Har & Hfiles & _ & _) Hfw Hadd.
  apply AddNewFile_spec in Hadd. cbn zeta in Hadd.
  set (a := fresh (dom (MemoryStorage.objects s))) in *.
  destruct Hadd as (Ha & Hobj & (ar1 & fo & HG & Hfo & Hc) & _).
  assert (Hold : forall p fo1 n x, ar1 !! p = Some fo1 -> Folder.files fo1 !! n = Some x ->
            exists fx, MemoryStorage.objects s' !! x = Some fx /\
                       File.Parent fx = Some p /\ File.Name fx = n).
  { intros p fo1 n x Hp Hn.
    destruct (GetFolder_files _ _ _ _ _ _ _ Har HG Hp Hn) as (fo0 & Hfo0 & Hn0).
    destruct (Hfw p fo0 n x Hfo0 Hn0) as (fx & Hfx & H1 & H2).
    exists fx. split; [|auto]. rewrite Hobj, lookup_insert_ne; [exact Hfx|].
    intros <-. congruence. }
  intros p fo' n x Hp Hn.
  destruct (step_lookup _ _ _ _ _ _ _ Hfo Hc Hp) as (fo1 & Hfo1 & E).
  apply forget_cache_fields in E. destruct E as (_ & _ & _ & E). rewrite E in Hn.
  destruct (decide (filepath.Dir (File.Path f) = p)) as [<-|Hne].
  - simpl in Hn. destruct (decide (File.Name f = n)) as [<-|Hne'].
    + rewrite lookup_insert_eq in Hn. apply (inj Some) in Hn. subst x.
      eexists. rewrite Hobj, lookup_insert_eq. split; [reflexivity|].
      split; reflexivity.
    + rewrite lookup_insert_ne in Hn by exact Hne'.
      rewrite Hfo in Hfo1. apply (inj Some) in Hfo1. subst fo1.
      exact (Hold _ fo n x Hfo Hn).
  - exact (Hold p fo1 n x Hfo1 Hn).
Qed.

Lemma files_wf_remove (s s' : MemoryStorage.t) (a : addr) (err : option error) :
  storage_wf s -> files_wf s -> RemoveFile s a = Ok (s', err) -> files_wf s'.
Proof.
  intros (Har & Hfiles & _ & _) Hfw Hrm.
  apply RemoveFile_spec in Hrm. destruct Hrm as (file & Ho & Hrm).
  cbn zeta in Hrm. destruct Hrm as (Hobj & (ar1 & fo & HG & Hfo & Hc) & _).
  assert (Hold : forall p fo1 n x, ar1 !! p = Some fo1 -> Folder.files fo1 !! n = Some x ->
            (x = a -> p = filepath.Dir (File.Path file) /\ n = File.Name file) /\
            (x <> a ->
             exists fx, MemoryStorage.objects s' !! x = Some fx /\
                        File.Parent fx = Some p /\ File.Name fx = n)).
  { intros p fo1 n x Hp Hn.
    destruct (GetFolder_files _ _ _ _ _ _ _ Har HG Hp Hn) as (fo0 & Hfo0 & Hn0).
    destruct (Hfw p fo0 n x Hfo0 Hn0) as (fx & Hfx & H1 & H2). split.
    - intros ->. rewrite Ho in Hfx. apply (inj Some) in Hfx. subst fx.
      split; [|congruence]. exact (proj1 (Hfiles a file Ho p H1)).
    - intros Hne. exists fx. split; [|auto].
      rewrite Hobj, lookup_insert_ne; [exact Hfx|]. congruence. }
  intros p fo' n x Hp Hn.
  destruct (step_lookup _ _ _ _ _ _ _ Hfo Hc Hp) as (fo1 & Hfo1 & E).
  apply forget_cache_fields in E. destruct E as (_ & _ & _ & E). rewrite E in Hn.
  destruct (decide (filepath.Dir (File.Path file) = p)) as [<-|Hne].
  - simpl in Hn. apply lookup_delete_Some in Hn. destruct Hn as [Hne' Hn].
    rewrite Hfo in Hfo1. apply (inj Some) in Hfo1. subst fo1.
    destruct (Hold _ fo n x Hfo Hn) as [H1 H2].
    apply H2. intros ->. destruct (H1 eq_refl) as [_ Hn']. congruence.
  - destruct (Hold p fo1 n x Hfo1 Hn) as [H1 H2].
    apply H2. intros ->. destruct (H1 eq_refl) as [Hp' _]. congruence.
Qed.

Lemma subfolders_wf_add (s s' : MemoryStorage.t) (f : File.t) :
  storage_wf s -> subfolders_wf (MemoryStorage.folders s) ->
  AddNewFile s f = Ok s' -> subfolders_wf (MemoryStorage.folders s').
Proof.
  intros (Har & _) Hsub Hadd.
  apply AddNewFile_spec in Hadd. cbn zeta in Hadd.
  destruct Hadd as (_ & _ & (ar1 & fo & HG & Hfo & Hc) & _).
  eapply subfolders_wf_step; [exact Hfo|exact Hc|reflexivity|reflexivity|reflexivity|].
  exact (GetFolder_fuel_subfolders _ _ _ _ Har Hsub HG).
Qed.

Lemma subfolders_wf_remove (s s' : MemoryStorage.t) (a : addr) (err : option error) :
  storage_wf s -> subfolders_wf (MemoryStorage.folders s) ->
  RemoveFile s a = Ok (s', err) -> subfolders_wf (MemoryStorage.folders s').
Proof.
  intros (Har & _) Hsub Hrm.
  apply RemoveFile_spec in Hrm. destruct Hrm as (file & Ho & Hrm).
  cbn zeta in Hrm. destruct Hrm as (_ & (ar1 & fo & HG & Hfo & Hc) & _).
  eapply subfolders_wf_step; [exact Hfo|exact Hc|reflexivity|reflexivity|reflexivity|].
  exact (GetFolder_fuel_subfolders _ _ _ _ Har Hsub HG).
Qed.

Lemma only_caches_fields (ar ar' : arena) p fo' :
  only_caches ar ar' -> ar' !! p = Some fo' ->
  exists fo, ar !! p = Some fo /\
    Folder.Name fo' = Folder.Name fo /\ Folder.Parent fo' = Folder.Parent fo /\
    Folder.Folders fo' = Folder.Folders fo /\ Folder.files fo' = Folder.files fo.
Proof.
  intros Hc Hp. destruct (only_caches_lookup _ _ _ _ Hc Hp) as (fo & Hfo & E).
  exists fo. split; [exact Hfo|]. rewrite E. auto.
Qed.

Lemma files_wf_caches (s : MemoryStorage.t) (ar' : arena) :
  files_wf s -> only_caches (MemoryStorage.folders s) ar' ->
  files_wf (MemoryStorage.set_folders ar' s).
Proof.
  intros Hfw Hc p fo' n a Hp Hn.
  destruct (only_caches_fields _ _ _ _ Hc Hp) as (fo & Hfo & _ & _ & _ & E).
  rewrite E in Hn. exact (Hfw p fo n a Hfo Hn).
Qed.

Lemma subfolders_wf_caches (ar ar' : arena) :
  subfolders_wf ar -> only_caches ar ar' -> subfolders_wf ar'.
Proof.
  intros Hsub Hc p fo' n q Hp Hn.
  destruct (only_caches_fields _ _ _ _ Hc Hp) as (fo & Hfo & _ & _ & E & _).
  rewrite E in Hn. destruct (Hsub p fo n q Hfo Hn) as (fq & Hfq & HP & HN).
  assert (Hq' : is_Some (ar' !! q)) by (apply (only_caches_dom _ _ q Hc); eauto).
  destruct Hq' as [fq' Hfq'].
  destruct (only_caches_fields _ _ _ _ Hc Hfq') as (fq0 & Hfq0 & E1 & E2 & _).
  rewrite Hfq in Hfq0. apply (inj Some) in Hfq0. subst fq0.
  exists fq'. split; [exact Hfq'|]. split; congruence.
Qed.

Lemma reachable_tree (s : MemoryStorage.t) :
  reachable s -> files_wf s /\ subfolders_wf (MemoryStorage.folders s).
Proof.
  induction 1 as [|s f s' Hr [IH1 IH2] Hadd|s a s' err Hr [IH1 IH2] Hrm
                  |s p Hr [IH1 IH2]].
  - split; [exact files_wf_new|exact subfolders_wf_new].
  - pose proof (reachable_wf s Hr) as Hwf. split.
    + exact (files_wf_add s s' f Hwf IH1 Hadd).
    + exact (subfolders_wf_add s s' f Hwf IH2 Hadd).
  - pose proof (reachable_wf s Hr) as Hwf. split.
    + exact (files_wf_remove s s' a err Hwf IH1 Hrm).
    + exact (subfolders_wf_remove s s' a err Hwf IH2 Hrm).
  - split.
    + apply files_wf_caches; [exact IH1|apply GetFileCount_only_caches].
    + exact (subfolders_wf_caches _ _ IH2 (GetFileCount_only_caches _ _ _)).
Qed.

(** X15.  What a folder lists is its own.  In a storage built from
    [NewMemoryStorage] with [AddFile] on new File objects and
    [RemoveFile]: every file that [GetFiles] returns for a folder is a File
    object of the storage whose [Parent] is that folder and whose path has
    the folder's path as directory, and every folder that [GetFolders]
    returns for it is a folder of the storage whose [Parent] is that
    folder and whose path has the folder's path as directory. *)
Theorem folder_lists_its_own (s : MemoryStorage.t) (p : string) (fo : Folder.t) :
  reachable s -> MemoryStorage.folders s !! p = Some fo ->
  (forall a, a ∈ GetFiles fo ->
     exists f, MemoryStorage.objects s !! a = Some f /\
               File.Parent f = Some p /\ filepath.Dir (File.Path f) = p) /\
  (forall q, q ∈ GetFolders fo ->
     exists fq, MemoryStorage.folders s !! q = Some fq /\
                Folder.Parent fq = Some p /\ filepath.Dir q = p).
Proof.
  intros Hr Hp.
  destruct (reachable_tree s Hr) as [Hfw Hsub].
  destruct (reachable_wf s Hr) as (Har & Hfiles & _ & _).
  split.
  - intros a Ha. unfold GetFiles in Ha. apply list_elem_of_fmap in Ha.
    destruct Ha as ([n a'] & -> & Hin). apply elem_of_map_to_list in Hin. simpl.
    destruct (Hfw p fo n a' Hp Hin) as (f & Hf & HP & _).
    exists f. split; [exact Hf|]. split; [exact HP|].
    symmetry. exact (proj1 (Hfiles a' f Hf p HP)).
  - intros q Hq. unfold GetFolders in Hq. apply list_elem_of_fmap in Hq.
    destruct Hq as ([n q'] & -> & Hin). apply elem_of_map_to_list in Hin. simpl.
    destruct (Hsub p fo n q' Hp Hin) as (fq & Hfq & HP & _).
    exists fq. split; [exact Hfq|]. split; [exact HP|].
    destruct (Har q' fq Hfq) as [_ H]. destruct (is_root q').
    + destruct H as [H _]. congruence.
    + destruct H as (H & _). congruence.
Qed.

Lemma folder_lists_its_own_witness :
  reachable Ex.storage_S2 /\
  match MemoryStorage.folders Ex.storage_S2 !! "p" with
  | Some fo =>
      forall q, q ∈ GetFolders fo ->
        exists fq, MemoryStorage.folders Ex.storage_S2 !! q = Some fq /\
                   Folder.Parent fq = Some "p" /\ filepath.Dir q = "p"
  | None => False
  end.
Proof.
  assert (Hr : reachable Ex.storage_S2).
  { exact (add_all_reachable files_S2 NewMemoryStorage Ex.storage_S2
             reachable_new storage_S2_built). }
  split; [exact Hr|].
  destruct (MemoryStorage.folders Ex.storage_S2 !! "p") as [fo|] eqn:E;
    [|vm_compute in E; discriminate].
  exact (proj2 (folder_lists_its_own Ex.storage_S2 "p" fo Hr E)).
Defined.

(** ** The storage through a scan and through the executor *)

Section ScanClosed.
(** A property of storages that [AddFile] on a new File object keeps. *)
Variable P : MemoryStorage.t -> Prop.
Hypothesis P_add : forall s f s', P s -> AddNewFile s f = Ok s' -> P s'.
Variable cancelled : nat -> bool.

Lemma walkFn_closed path d err s s' r :
  P (Scanner.Storage s) -> walkFn cancelled path d err s = Ok (s', r) ->
  P (Scanner.Storage s').
Proof.
  intros HP. unfold walkFn.
  destruct (cancelled (Scanner.calls s)); [intros [= <- <-]; exact HP|].
  destruct err as [e|]; [intros [= <- <-]; exact HP|].
  destruct d as [d|]; [|discriminate]. cbn [mbind res_bind deref].
  destruct (node_IsDir d); [intros [= <- <-]; exact HP|].
  destruct (node_Name d) as [|c nm]; [discriminate|].
  destruct (Ascii.eqb c "."); [intros [= <- <-]; exact HP|].
  destruct d as [name [h sz mt|e|e|e]|name entries|name e];
    try (intros [= <- <-]; exact HP).
  destruct (AddNewFile (Scanner.Storage (Scanner.tick s))
              (File.mk name path h sz None mt)) as [st|] eqn:E; [|discriminate].
  cbn [mbind res_bind]. intros [= <- <-].
  assert (HP' : P st) by exact (P_add _ _ _ HP E).
  unfold Scanner.add_log. destruct (Scanner.Logger _); exact HP'.
Qed.

Lemma walkDir_closed d : forall path s s' r,
  P (Scanner.Storage s) -> walkDir cancelled path d s = Ok (s', r) ->
  P (Scanner.Storage s').
Proof.
  induction d as [name c|name entries IH|name e] using node_rect_list;
    intros path s s' r HP.
  - simpl.
    destruct (walkFn cancelled path (Some (FileNode name c)) None s)
      as [[s1 err]|] eqn:E; [|discriminate].
    cbn [mbind res_bind]. pose proof (walkFn_closed _ _ _ _ _ _ HP E) as H1.
    destruct err; intros [= <- <-]; exact H1.
  - rewrite walkDir_DirNode.
    destruct (walkFn cancelled path (Some (DirNode name entries)) None s)
      as [[s1 err]|] eqn:E; [|discriminate].
    cbn [mbind res_bind]. pose proof (walkFn_closed _ _ _ _ _ _ HP E) as H1.
    destruct err; [intros [= <- <-]; exact H1|].
    clear E HP. revert s1 H1.
    induction entries as [|d1 rest IHl]; intros s1 H1.
    + intros [= <- <-]. exact H1.
    + apply Forall_cons in IH as [IH1 IHrest].
      destruct (walkDir cancelled (filepath.Join path (node_Name d1)) d1 s1)
        as [[s2 err]|] eqn:E; [|discriminate].
      cbn [mbind res_bind]. pose proof (IH1 _ _ _ _ H1 E) as H2.
      destruct err; [intros [= <- <-]; exact H2|].
      exact (IHl IHrest s2 H2).
  - simpl.
    destruct (walkFn cancelled path (Some (UnreadableDir name e)) None s)
      as [[s1 err]|] eqn:E; [|discriminate].
    cbn [mbind res_bind]. pose proof (walkFn_closed _ _ _ _ _ _ HP E) as H1.
    destruct err; [intros [= <- <-]; exact H1|].
    intros E2. exact (walkFn_closed _ _ _ _ _ _ H1 E2).
Qed.

Lemma Scan_loop_closed roots : forall s s' r,
  P (Scanner.Storage s) -> Scan_loop cancelled roots s = Ok (s', r) ->
  P (Scanner.Storage s').
Proof.
  induction roots as [|[path view] rest IH]; intros s s' r HP; simpl.
  - intros [= <- <-]. exact HP.
  - assert (Hw : forall s1 err, WalkDir cancelled view s = Ok (s1, err) ->
              P (Scanner.Storage s1)).
    { intros s1 err. destruct view as [e|e|d]; simpl.
      - intros [= <- <-]. exact HP.
      - apply walkFn_closed. exact HP.
      - apply walkDir_closed. exact HP. }
    destruct view as [e|e|d]; [intros [= <- <-]; exact HP| |].
    + destruct (WalkDir cancelled (RootStatFails e) s) as [[s1 err]|] eqn:E;
        [|discriminate].
      cbn [mbind res_bind]. pose proof (Hw s1 err eq_refl) as H1.
      destruct err; [intros [= <- <-]; exact H1|]. exact (IH s1 s' r H1).
    + destruct (WalkDir cancelled (RootTree d) s) as [[s1 err]|] eqn:E;
        [|discriminate].
      cbn [mbind res_bind]. pose proof (Hw s1 err eq_refl) as H1.
      destruct err; [intros [= <- <-]; exact H1|]. exact (IH s1 s' r H1).
Qed.

End ScanClosed.

(** X16.  Whatever a scan meets (errors of the filesystem, a cancelled
    context, several roots), the storage it leaves is well formed and its
    duplicate index is complete.  If the storage of the scanner was built
    from [NewMemoryStorage] with [AddFile] on new File objects and
    [RemoveFile] on files that are in a folder, and [Scan] returns (with
    an error or not), then the storage after the scan satisfies the
    invariant of the storage, and any two different files in it that are
    in a folder and have the same hash are in one matched group, the
    group of that hash. *)
Theorem Scan_groups_duplicates (cancelled : nat -> bool) (s s' : Scanner.t)
    (r : option error) :
  reachable_stored (Scanner.Storage s) ->
  Scan cancelled s = Ok (s', r) ->
  storage_wf (Scanner.Storage s') /\
  (forall (a b : addr) (fa fb : File.t),
   a <> b ->
   MemoryStorage.objects (Scanner.Storage s') !! a = Some fa ->
   MemoryStorage.objects (Scanner.Storage s') !! b = Some fb ->
   is_Some (File.Parent fa) -> is_Some (File.Parent fb) ->
   File.Hash fa = File.Hash fb ->
   exists g, MemoryStorage.matchedFiles (Scanner.Storage s') !! File.Hash fa = Some g /\
             a ∈ MatchedFileGroup.Files g /\ b ∈ MatchedFileGroup.Files g).
Proof.
  intros Hr Hscan.
  assert (Hr' : reachable_stored (Scanner.Storage s')).
  { exact (Scan_loop_closed reachable_stored stored_add cancelled _ s s' r Hr Hscan). }
  split; [exact (reachable_wf _ (reachable_stored_reachable _ Hr'))|].
  intros a b fa fb Hab Ha Hb Hpa Hpb Hh.
  pose proof (reachable_stored_complete _ Hr') as HJ.
  pose proof (HJ a fa Ha Hpa) as Ja. pose proof (HJ b fb Hb Hpb) as Jb.
  rewrite <- Hh in Jb.
  destruct (MemoryStorage.matchedFiles (Scanner.Storage s') !! File.Hash fa) as [g|].
  - exists g. auto.
  - congruence.
Qed.

Lemma Scan_groups_duplicates_witness :
  let s' :=
    match Scan ExRuns.cancelled_at_4 Ex.scanner_git with
    | Ok (s', _) => s'
    | Panic => Ex.scanner_git
    end in
  storage_wf (Scanner.Storage s') /\
  (forall (a b : addr) (fa fb : File.t),
   a <> b ->
   MemoryStorage.objects (Scanner.Storage s') !! a = Some fa ->
   MemoryStorage.objects (Scanner.Storage s') !! b = Some fb ->
   is_Some (File.Parent fa) -> is_Some (File.Parent fb) ->
   File.Hash fa = File.Hash fb ->
   exists g, MemoryStorage.matchedFiles (Scanner.Storage s') !! File.Hash fa = Some g /\
             a ∈ MatchedFileGroup.Files g /\ b ∈ MatchedFileGroup.Files g).
Proof.
  intros s'.
  apply (Scan_groups_duplicates ExRuns.cancelled_at_4 Ex.scanner_git s'
           (Some (ErrWrap "failed to walk directory ." ErrCanceled))).
  - exact stored_new.
  - vm_compute. reflexivity.
Defined.

Section ExecuteClosed.
Context {FS : Type} `{FileSystem FS}.
Variable sched : Schedule.

Lemma ExecuteFileActionTask_reachable (s s' : MemoryStorage.t) (fs fs' : FS)
    (task : FileActionTask.t) (err : option error) :
  reachable s -> ExecuteFileActionTask s fs task = Ok (s', fs', err) -> reachable s'.
Proof.
  intros Hr. unfold ExecuteFileActionTask.
  destruct (FileActionTask.Action task).
  - destruct (FileActionTask.TargetFolder task) as [target|]; [|discriminate].
    cbn [mbind res_bind deref].
    destruct (FileActionTask.File task) as [a|]; [|discriminate].
    cbn [mbind res_bind deref].
    destruct (MemoryStorage.objects s !! a) as [file|]; [|discriminate].
    cbn [mbind res_bind deref].
    destruct (root_Rename fs (File.Path file) _) as [fs1 [er0|]];
      [intros [= <- <- <-]; exact Hr|].
    destruct (RemoveFile s a) as [[s1 e1]|] eqn:E1; [|discriminate].
    cbn [mbind res_bind].
    pose proof (reachable_remove s a s1 e1 Hr E1) as Hr1.
    destruct e1; [intros [= <- <- <-]; exact Hr1|].
    destruct (match root_Open fs _ with None => true | Some _ => false end);
      [intros [= <- <- <-]; exact Hr1|].
    destruct (AddNewFile s1 _) as [s2|] eqn:E2; [|discriminate].
    cbn [mbind res_bind]. intros [= <- <- <-].
    exact (reachable_add s1 _ s2 Hr1 E2).
  - destruct (FileActionTask.File task) as [a|]; [|discriminate].
    cbn [mbind res_bind deref].
    destruct (MemoryStorage.objects s !! a) as [file|]; [|discriminate].
    cbn [mbind res_bind deref].
    destruct (root_Remove fs (File.Path file)) as [fs1 [er0|]];
      [intros [= <- <- <-]; exact Hr|].
    destruct (RemoveFile s a) as [[s1 e1]|] eqn:E1; [|discriminate].
    cbn [mbind res_bind]. intros [= <- <- <-].
    exact (reachable_remove s a s1 e1 Hr E1).
  - destruct (FileActionTask.Folder task) as [fpath|];
      [|intros [= <- <- <-]; exact Hr].
    destruct (MemoryStorage.folders s !! fpath) as [folder|]; [|discriminate].
    cbn [mbind res_bind deref].
    destruct (FileActionTask.TargetFolder task) as [target|]; [|discriminate].
    cbn [mbind res_bind deref].
    destruct (root_Stat fs _); [|intros [= <- <- <-]; exact Hr].
    destruct (root_Rename fs fpath _) as [fs1 er0]. intros [= <- <- <-]. exact Hr.
  - destruct (FileActionTask.Folder task) as [fpath|];
      [|intros [= <- <- <-]; exact Hr].
    destruct (root_Remove fs fpath) as [fs1 er0]. intros [= <- <- <-]. exact Hr.
  - destruct (FileActionTask.Folder task) as [fpath|];
      [|intros [= <- <- <-]; exact Hr].
    destruct (RemoveEmptyFolder fs fpath) as [fs1 er0]. intros [= <- <- <-]. exact Hr.
Qed.

Lemma run_task_reachable totalTasks i task (s s1 : MemoryStorage.t) (fs fs1 : FS) u err :
  reachable s -> run_task totalTasks i task s fs = Ok (s1, fs1, u, err) ->
  reachable s1.
Proof.
  intros Hr. unfold run_task.
  destruct (ExecuteFileActionTask s fs task) as [[[s2 fs2] e2]|] eqn:E; [|discriminate].
  cbn [mbind res_bind].
  destruct (FileActionTask_String s2 task) as [m|]; [|discriminate].
  cbn [mbind res_bind]. intros [= <- <- <- <-].
  exact (ExecuteFileActionTask_reachable _ _ _ _ _ _ Hr E).
Qed.

Lemma Execute_loop_reachable totalTasks rest : forall i (e e' : Executor.t FS) err,
  reachable (Executor.storage e) ->
  Execute_loop sched totalTasks i rest e = Ok (e', err) ->
  reachable (Executor.storage e').
Proof.
  induction rest as [|task rest IH]; intros i e e' err Hr; simpl.
  - intros [= <- <-]. exact Hr.
  - destruct (sched_cancelled sched i); [intros [= <- <-]; exact Hr|].
    destruct (run_task totalTasks i task (Executor.storage e) (Executor.root e))
      as [[[[s1 fs1] u] er]|] eqn:E; [|discriminate].
    cbn [mbind res_bind].
    pose proof (run_task_reachable _ _ _ _ _ _ _ _ _ Hr E) as Hr1.
    assert (S1 : forall er', Executor.storage (report sched i u er' (set_world s1 fs1 e)) = s1).
    { intros er'. exact (proj1 (report_fields sched i u er' _)). }
    assert (G : forall er', reachable
                  (Executor.storage (report sched i u er' (set_world s1 fs1 e)))).
    { intros er'. rewrite S1. exact Hr1. }
    destruct er as [er|].
    + intros [= <- <-]. exact (G (Some er)).
    + intros HE. exact (IH _ _ _ _ (G None) HE).
Qed.

Lemma Execute_reachable (e e' : Executor.t FS) err :
  reachable (Executor.storage e) -> Execute sched e = Ok (e', err) ->
  reachable (Executor.storage e').
Proof.
  intros Hr. unfold Execute.
  destruct (os_OpenRoot _ _); [intros [= <- <-]; exact Hr|].
  unfold Execute_finish.
  destruct (Execute_loop sched _ 0 (Executor.tasks e) e) as [[e1 er]|] eqn:E;
    [|discriminate].
  cbn [mbind res_bind]. pose proof (Execute_loop_reachable _ _ _ _ _ _ Hr E) as H1.
  destruct er; intros [= <- <-]; exact H1.
Qed.

End ExecuteClosed.

(** X17.  The executor keeps the storage well formed.  If the storage of
    the executor was built from [NewMemoryStorage] with [AddFile] on new
    File objects and [RemoveFile], then after [Execute], for every task
    list, every outcome of the filesystem and every schedule of the context
    and of the reader, and whether [Execute] returns nil or an error, the
    storage satisfies the invariant of the storage: the pointers of its
    files and folders are valid, and a matched group has at least two
    files, none twice, all with the hash of the group and in a folder. *)
Theorem Execute_keeps_storage_wf {FS : Type} `{FileSystem FS} (sched : Schedule)
    (e e' : Executor.t FS) (err : option error) :
  reachable (Executor.storage e) -> Execute sched e = Ok (e', err) ->
  storage_wf (Executor.storage e') /\ pointers_valid (Executor.storage e') /\
  groups_valid (Executor.storage e').
Proof.
  intros Hr HE.
  pose proof (reachable_wf _ (Execute_reachable sched e e' err Hr HE)) as Hwf.
  split; [exact Hwf|]. split; [exact (storage_wf_pointers _ Hwf)|].
  exact (storage_wf_groups _ Hwf).
Qed.

Lemma storage_ay_built : add_all ExRuns.files_ay NewMemoryStorage = Ok Ex.storage_ay.
Proof. vm_compute. reflexivity. Qed.

Lemma Execute_keeps_storage_wf_witness :
  let e' :=
    match Execute Ex.sched_idle ExRuns.executor_move with
    | Ok (e', _) => e'
    | Panic => ExRuns.executor_move
    end in
  storage_wf (Executor.storage e') /\ pointers_valid (Executor.storage e') /\
  groups_valid (Executor.storage e').
Proof.
  intros e'.
  apply (Execute_keeps_storage_wf Ex.sched_idle ExRuns.executor_move e' None).
  - exact (add_all_reachable ExRuns.files_ay NewMemoryStorage Ex.storage_ay
             reachable_new storage_ay_built).
  - vm_compute. reflexivity.
Defined.

(** ** The cached counts after an update *)

Lemma invalidateCache_zero_kept fuel : forall (ar : arena) f q fq,
  ar !! q = Some fq -> Folder.fileCountCache fq = 0%Z ->
  exists fq', invalidateCache fuel ar f !! q = Some fq' /\
              Folder.fileCountCache fq' = 0%Z.
Proof.
  induction fuel as [|n IH]; intros ar f q fq Hq Hz; simpl; [eauto|].
  destruct (ar !! f) as [fo|] eqn:Hf; [|eauto].
  assert (Hins : exists fq1, <[f := Folder.set_fileCountCache 0 fo]> ar !! q = Some fq1 /\
                             Folder.fileCountCache fq1 = 0%Z).
  { destruct (decide (f = q)) as [->|Hne].
    - rewrite lookup_insert_eq. eexists. split; reflexivity.
    - rewrite lookup_insert_ne by exact Hne. eauto. }
  destruct Hins as (fq1 & Hq1 & Hz1).
  destruct (Folder.Parent fo); [exact (IH _ _ _ _ Hq1 Hz1)|eauto].
Qed.

Lemma above_only_caches (ar ar' : arena) p q :
  only_caches ar ar' -> above ar' p q -> above ar p q.
Proof.
  intros Hc. induction 1 as [p|p fo' r q Hp HP _ IH]; [constructor|].
  destruct (only_caches_lookup _ _ _ _ Hc Hp) as (fo & Hfo & E).
  apply (above_parent ar p fo r q Hfo); [|exact IH].
  rewrite E in HP. exact HP.
Qed.

(** The fuel of [invalidateCache] is enough: the folders visited so far
    ([V]) are different folders of the arena, so there is fuel left as long
    as there is a folder to visit. *)
Lemma invalidateCache_clears (ar0 : arena) (Hwf : arena_wf ar0) :
  forall fuel (ar : arena) (V : gset string) p,
  only_caches ar0 ar -> V ⊆ dom ar0 ->
  (forall v, v ∈ V -> (GetFolder_cost p < GetFolder_cost v)%nat) ->
  (size ar0 < size V + fuel)%nat ->
  is_Some (ar0 !! p) ->
  forall q, above ar0 p q ->
    exists fq, invalidateCache fuel ar p !! q = Some fq /\
               Folder.fileCountCache fq = 0%Z.
Proof.
  induction fuel as [|n IH]; intros ar V p Hc HV Hcost Hsize Hp q Hq.
  - exfalso.
    assert (HpV : p ∉ V) by (intros Hin; specialize (Hcost p Hin); lia).
    assert (Hsub : V ∪ {[p]} ⊆ dom ar0).
    { apply union_subseteq. split; [exact HV|].
      apply singleton_subseteq_l. apply elem_of_dom. exact Hp. }
    apply subseteq_size in Hsub. rewrite size_dom in Hsub.
    rewrite size_union in Hsub by (apply disjoint_singleton_r; exact HpV). rewrite size_singleton in Hsub. lia.
  - destruct Hp as [fo0 Hfo0].
    assert (Hp' : is_Some (ar !! p)) by (apply (only_caches_dom _ _ p Hc); eauto).
    destruct Hp' as [fo Hfo].
    destruct (only_caches_lookup _ _ _ _ Hc Hfo) as (fo0' & Hfo0' & E).
    rewrite Hfo0 in Hfo0'. apply (inj Some) in Hfo0'. subst fo0'.
    assert (EP : Folder.Parent fo = Folder.Parent fo0) by (rewrite E; reflexivity).
    simpl. rewrite Hfo.
    set (ar1 := <[p := Folder.set_fileCountCache 0 fo]> ar).
    assert (Hc1 : only_caches ar0 ar1).
    { eapply only_caches_trans; [exact Hc|]. apply only_caches_set. exact Hfo. }
    assert (Hzp : exists fq, ar1 !! p = Some fq /\ Folder.fileCountCache fq = 0%Z).
    { unfold ar1. rewrite lookup_insert_eq. eexists. split; reflexivity. }
    destruct Hq as [p|p fo1 r q H1 H2 H3].
    + destruct Hzp as (fq & Hfq & Hz).
      destruct (Folder.Parent fo); [exact (invalidateCache_zero_kept n _ _ _ _ Hfq Hz)|eauto].
    + rewrite Hfo0 in H1. apply (inj Some) in H1. subst fo1.
      rewrite EP, H2.
      destruct (Hwf p fo0 Hfo0) as [_ Hw].
      destruct (is_root p) eqn:Hroot; [destruct Hw as [Hw _]; congruence|].
      destruct Hw as (Hw1 & _ & Hw3). rewrite Hw1 in H2. apply (inj Some) in H2. subst r.
      assert (HpV : p ∉ V) by (intros Hin; specialize (Hcost p Hin); lia).
      apply (IH ar1 (V ∪ {[p]})); [exact Hc1| | | |exact Hw3|exact H3].
      * apply union_subseteq. split; [exact HV|].
        apply singleton_subseteq_l. apply elem_of_dom. eauto.
      * intros v Hv. pose proof (Dir_cost p Hroot) as Hd.
        apply elem_of_union in Hv. destruct Hv as [Hv|Hv].
        -- specialize (Hcost v Hv). lia.
        -- apply elem_of_singleton in Hv. subst v. exact Hd.
      * rewrite size_union by (apply disjoint_singleton_r; exact HpV). rewrite size_singleton. lia.
Qed.

Lemma invalidateCache_chain_clears (ar : arena) p q :
  arena_wf ar -> is_Some (ar !! p) -> above ar p q ->
  exists fq, invalidateCache (chain_fuel ar) ar p !! q = Some fq /\
             Folder.fileCountCache fq = 0%Z.
Proof.
  intros Hwf Hp Hq.
  apply (invalidateCache_clears ar Hwf (chain_fuel ar) ar ∅ p);
    [apply only_caches_refl|apply empty_subseteq| | |exact Hp|exact Hq].
  { intros v Hv. apply elem_of_empty in Hv. destruct Hv. }
  rewrite size_empty. unfold chain_fuel. lia.
Qed.

Lemma Folder_AddFile_folders (s s1 : MemoryStorage.t) (p : string) (a : addr) file fo :
  MemoryStorage.objects s !! a = Some file ->
  MemoryStorage.folders s !! p = Some fo ->
  Folder_AddFile s p a = Ok s1 ->
  MemoryStorage.folders s1 =
    invalidateCache
      (chain_fuel (<[p := Folder.set_fileCount (add32 (Folder.fileCount fo) 1)
                           (Folder.set_files (<[File.Name file := a]> (Folder.files fo)) fo)]>
                     (MemoryStorage.folders s)))
      (<[p := Folder.set_fileCount (add32 (Folder.fileCount fo) 1)
                (Folder.set_files (<[File.Name file := a]> (Folder.files fo)) fo)]>
         (MemoryStorage.folders s)) p.
Proof.
  intros Ho Hf. unfold Folder_AddFile. rewrite Ho, Hf.
  unfold mbind, res_bind, deref. cbv beta iota zeta.
  intros Hres. apply res_Ok_inj in Hres. subst s1. reflexivity.
Qed.

Lemma Folder_RemoveFile_folders (s s1 : MemoryStorage.t) (p : string) (a : addr) file fo :
  MemoryStorage.objects s !! a = Some file ->
  MemoryStorage.folders s !! p = Some fo ->
  Folder_RemoveFile s p a = Ok s1 ->
  MemoryStorage.folders s1 =
    invalidateCache
      (chain_fuel (<[p := Folder.set_fileCount (add32 (Folder.fileCount fo) (-1))
                           (Folder.set_files (delete (File.Name file) (Folder.files fo)) fo)]>
                     (MemoryStorage.folders s)))
      (<[p := Folder.set_fileCount (add32 (Folder.fileCount fo) (-1))
                (Folder.set_files (delete (File.Name file) (Folder.files fo)) fo)]>
         (MemoryStorage.folders s)) p.
Proof.
  intros Ho Hf. unfold Folder_RemoveFile. rewrite Ho, Hf.
  unfold mbind, res_bind, deref. cbv beta iota zeta.
  intros Hres. apply res_Ok_inj in Hres. subst s1. reflexivity.
Qed.

(** The folders after [AddFile] and after [RemoveFile]: the caches were
    cleared from the folder of the file upwards, in a well-formed arena
    that has that folder. *)
Lemma AddFile_folders (s s' : MemoryStorage.t) (a : addr) (file : File.t)
    (err : option error) :
  arena_wf (MemoryStorage.folders s) ->
  MemoryStorage.objects s !! a = Some file ->
  AddFile s a = Ok (s', err) ->
  exists ar1 fo fo_new,
    GetFolder (MemoryStorage.folders s) (filepath.Dir (File.Path file)) = Some ar1 /\
    ar1 !! filepath.Dir (File.Path file) = Some fo /\
    forget_cache (Folder.set_fileCount 0 (Folder.set_files ∅ fo_new)) =
      forget_cache (Folder.set_fileCount 0 (Folder.set_files ∅ fo)) /\
    MemoryStorage.folders s' =
      invalidateCache
        (chain_fuel (<[filepath.Dir (File.Path file) := fo_new]> ar1))
        (<[filepath.Dir (File.Path file) := fo_new]> ar1)
        (filepath.Dir (File.Path file)).
Proof.
  intros Hwf Ho. unfold AddFile. rewrite Ho. cbn [mbind res_bind deref].
  destruct (GetFolder (MemoryStorage.folders s) (filepath.Dir (File.Path file)))
    as [ar1|] eqn:EG; [|discriminate].
  cbn [mbind res_bind deref].
  destruct (Folder_AddFile (MemoryStorage.set_folders ar1 s)
              (filepath.Dir (File.Path file)) a) as [s1|] eqn:E1; [|discriminate].
  cbn [mbind res_bind deref].
  destruct (GetFolder_fuel_wf _ _ _ _ Hwf EG) as (Hwf1 & [fo Hfo] & _).
  pose proof (Folder_AddFile_folders (MemoryStorage.set_folders ar1 s) s1 _ a file fo
                Ho Hfo E1) as Hf.
  st_simpl.
  intros Hres. exists ar1, fo. eexists.
  split; [reflexivity|]. split; [exact Hfo|]. split; [|].
  2: { destruct (MemoryStorage.hashMap s1 !! File.Hash file);
         [destruct (MemoryStorage.matchedFiles s1 !! File.Hash file)|];
         apply res_Ok_inj in Hres; apply pair_equal_spec in Hres;
         destruct Hres as [<- _]; st_simpl; exact Hf. }
  reflexivity.
Qed.

Lemma RemoveFile_folders (s s' : MemoryStorage.t) (a : addr) (file : File.t)
    (err : option error) :
  arena_wf (MemoryStorage.folders s) ->
  MemoryStorage.objects s !! a = Some file ->
  RemoveFile s a = Ok (s', err) ->
  exists ar1 fo fo_new,
    GetFolder (MemoryStorage.folders s) (filepath.Dir (File.Path file)) = Some ar1 /\
    ar1 !! filepath.Dir (File.Path file) = Some fo /\
    forget_cache (Folder.set_fileCount 0 (Folder.set_files ∅ fo_new)) =
      forget_cache (Folder.set_fileCount 0 (Folder.set_files ∅ fo)) /\
    MemoryStorage.folders s' =
      invalidateCache
        (chain_fuel (<[filepath.Dir (File.Path file) := fo_new]> ar1))
        (<[filepath.Dir (File.Path file) := fo_new]> ar1)
        (filepath.Dir (File.Path file)).
Proof.
  intros Hwf Ho. unfold RemoveFile. rewrite Ho. cbn [mbind res_bind deref].
  destruct (GetFolder (MemoryStorage.folders s) (filepath.Dir (File.Path file)))
    as [ar1|] eqn:EG; [|discriminate].
  cbn [mbind res_bind deref].
  destruct (Folder_RemoveFile (MemoryStorage.set_folders ar1 s)
              (filepath.Dir (File.Path file)) a) as [s1|] eqn:E1; [|discriminate].
  cbn [mbind res_bind deref].
  destruct (GetFolder_fuel_wf _ _ _ _ Hwf EG) as (Hwf1 & [fo Hfo] & _).
  pose proof (Folder_RemoveFile_folders (MemoryStorage.set_folders ar1 s) s1 _ a file fo
                Ho Hfo E1) as Hf.
  st_simpl.
  intros Hres. exists ar1, fo. eexists.
  split; [reflexivity|]. split; [exact Hfo|]. split; [|].
  2: { destruct (MemoryStorage.matchedFiles s1 !! File.Hash file) as [g|];
         [destruct (delete_file a (MatchedFileGroup.Files g)) as [|b [|c rest]]|];
         apply res_Ok_inj in Hres; apply pair_equal_spec in Hres;
         destruct Hres as [<- _]; st_simpl; exact Hf. }
  reflexivity.
Qed.

(** An update of the folder [p] that keeps its name, path, parent and
    subfolders. *)
Lemma same_shape_fields (fo fo_new : Folder.t) :
  forget_cache (Folder.set_fileCount 0 (Folder.set_files ∅ fo_new)) =
    forget_cache (Folder.set_fileCount 0 (Folder.set_files ∅ fo)) ->
  Folder.Path fo_new = Folder.Path fo /\ Folder.Parent fo_new = Folder.Parent fo /\
  Folder.Name fo_new = Folder.Name fo /\ Folder.Folders fo_new = Folder.Folders fo.
Proof.
  destruct fo, fo_new.
  unfold forget_cache, Folder.set_fileCountCache, Folder.set_fileCount, Folder.set_files.
  simpl. intros [= -> -> -> ->]. auto.
Qed.

Lemma cleared_above (ar ar1 ar' : arena) p fo fo_new q :
  arena_wf ar -> GetFolder ar p = Some ar1 -> ar1 !! p = Some fo ->
  forget_cache (Folder.set_fileCount 0 (Folder.set_files ∅ fo_new)) =
    forget_cache (Folder.set_fileCount 0 (Folder.set_files ∅ fo)) ->
  ar' = invalidateCache (chain_fuel (<[p := fo_new]> ar1)) (<[p := fo_new]> ar1) p ->
  above ar' p q ->
  exists fq, ar' !! q = Some fq /\ Folder.fileCountCache fq = 0%Z.
Proof.
  intros Hwf HG Hfo Hsh -> Hq.
  destruct (GetFolder_fuel_wf _ _ _ _ Hwf HG) as (Hwf1 & _).
  destruct (same_shape_fields _ _ Hsh) as (E1 & E2 & E3 & _).
  apply invalidateCache_chain_clears.
  - eapply arena_wf_insert_same; [exact Hfo|exact E1|exact E2|exact E3|exact Hwf1].
  - rewrite lookup_insert_eq. eauto.
  - eapply above_only_caches; [|exact Hq]. apply invalidateCache_only_caches.
Qed.

(** X18.  [AddFile] and [RemoveFile] clear the cached file count of the
    folder of the file and of every folder above it.  On a storage built
    from [NewMemoryStorage] with [AddFile] on new File objects and
    [RemoveFile], after [AddFile] of a new File object, or [RemoveFile] of
    a File object, the folder of [filepath.Dir] of the file's path and
    every folder reached from it along the [Parent] pointers has
    [fileCountCache] 0, so that the next [GetFileCount] on any of them
    counts again: the recursion of [invalidateCache] goes all the way up. *)
Theorem update_clears_caches (s s' : MemoryStorage.t) (path : string) (q : string) :
  reachable s ->
  (exists f, AddNewFile s f = Ok s' /\ File.Path f = path) \/
  (exists a file err, MemoryStorage.objects s !! a = Some file /\
     RemoveFile s a = Ok (s', err) /\ File.Path file = path) ->
  above (MemoryStorage.folders s') (filepath.Dir path) q ->
  exists fq, MemoryStorage.folders s' !! q = Some fq /\
             Folder.fileCountCache fq = 0%Z.
Proof.
  intros Hr Hop Hq.
  destruct (reachable_wf s Hr) as (Har & _).
  destruct Hop as [(f & Hadd & <-)|(a & file & err & Ho & Hrm & <-)].
  - unfold AddNewFile, new_File in Hadd. cbn zeta in Hadd.
    destruct (AddFile _ _) as [[s2 err]|] eqn:E; [|discriminate].
    cbn [mbind res_bind] in Hadd. apply res_Ok_inj in Hadd. subst s2.
    apply AddFile_folders with (file := f) in E;
      [|exact Har|cbn [MemoryStorage.objects MemoryStorage.set_objects];
                  apply lookup_insert_eq].
    destruct E as (ar1 & fo & fo_new & HG & Hfo & Hsh & Heq).
    exact (cleared_above _ ar1 _ _ fo fo_new q Har HG Hfo Hsh Heq Hq).
  - destruct (RemoveFile_folders s s' a file err Har Ho Hrm)
      as (ar1 & fo & fo_new & HG & Hfo & Hsh & Heq).
    exact (cleared_above _ ar1 _ _ fo fo_new q Har HG Hfo Hsh Heq Hq).
Qed.

Lemma update_clears_caches_witness :
  let s' :=
    match AddNewFile Ex.storage_S2 (File.mk "z" "p/a/z" "hz" 1 None 0) with
    | Ok s' => s'
    | Panic => Ex.storage_S2
    end in
  exists fq, MemoryStorage.folders s' !! "p" = Some fq /\
             Folder.fileCountCache fq = 0%Z.
Proof.
  intros s'.
  apply (update_clears_caches Ex.storage_S2 s' "p/a/z" "p").
  - exact (add_all_reachable files_S2 NewMemoryStorage Ex.storage_S2
             reachable_new storage_S2_built).
  - left. exists (File.mk "z" "p/a/z" "hz" 1 None 0).
    split; [vm_compute; reflexivity|reflexivity].
  - destruct (MemoryStorage.folders s' !! "p/a") as [fo|] eqn:Hfo;
      [|vm_compute in Hfo; discriminate].
    apply (above_parent _ "p/a" fo "p" "p"); [exact Hfo| |apply above_self].
    vm_compute in Hfo. injection Hfo as <-. reflexivity.
Defined.

Lemma wrap32_eq x y :
  wrap 32 x = wrap 32 y <-> ((x + 2 ^ 31) mod 2 ^ 32 = (y + 2 ^ 31) mod 2 ^ 32)%Z.
Proof. unfold wrap. change (32 - 1)%Z with 31%Z. lia. Qed.

Lemma wrap32_idem x : wrap 32 (wrap 32 x) = wrap 32 x.
Proof.
  apply wrap32_eq. unfold wrap. change (32 - 1)%Z with 31%Z.
  replace ((x + 2 ^ 31) mod 2 ^ 32 - 2 ^ 31 + 2 ^ 31)%Z
    with ((x + 2 ^ 31) mod 2 ^ 32)%Z by lia.
  apply Z.mod_mod. lia.
Qed.

Lemma wrap32_small x : (- 2 ^ 31 <= x < 2 ^ 31)%Z -> wrap 32 x = x.
Proof.
  intros H. unfold wrap. change (32 - 1)%Z with 31%Z.
  rewrite Z.mod_small; lia.
Qed.

Lemma wrap32_wrap64 x : wrap 32 (wrap 64 x) = wrap 32 x.
Proof.
  apply wrap32_eq. unfold wrap. change (64 - 1)%Z with 63%Z.
  rewrite (Z.mod_eq (x + 2 ^ 63) (2 ^ 64)) by lia.
  replace (x + 2 ^ 63 - 2 ^ 64 * ((x + 2 ^ 63) / 2 ^ 64) - 2 ^ 63 + 2 ^ 31)%Z
    with (x + 2 ^ 31 + (- (2 ^ 32 * ((x + 2 ^ 63) / 2 ^ 64))) * 2 ^ 32)%Z by lia.
  apply Z_mod_plus_full.
Qed.

Lemma wrap32_add x x' y y' :
  wrap 32 x = wrap 32 x' -> wrap 32 y = wrap 32 y' ->
  wrap 32 (x + y) = wrap 32 (x' + y').
Proof.
  rewrite !wrap32_eq. intros Hx Hy.
  replace (x + y + 2 ^ 31)%Z with ((x + 2 ^ 31) + (y + 2 ^ 31) + - 2 ^ 31)%Z by lia.
  replace (x' + y' + 2 ^ 31)%Z with ((x' + 2 ^ 31) + (y' + 2 ^ 31) + - 2 ^ 31)%Z by lia.
  rewrite (Zplus_mod (x + 2 ^ 31 + (y + 2 ^ 31))), (Zplus_mod (x + 2 ^ 31)).
  rewrite (Zplus_mod (x' + 2 ^ 31 + (y' + 2 ^ 31))), (Zplus_mod (x' + 2 ^ 31)).
  rewrite Hx, Hy. reflexivity.
Qed.

Lemma wrap32_add64 x x' y y' :
  wrap 32 x = wrap 32 x' -> wrap 32 y = wrap 32 y' ->
  wrap 32 (add64 x y) = wrap 32 (add64 x' y').
Proof.
  intros Hx Hy. unfold add64. rewrite !wrap32_wrap64. apply wrap32_add; assumption.
Qed.

Lemma fold_left_ext_in {A B : Type} (f g : A -> B -> A) (l : list B) :
  (forall a x, x ∈ l -> f a x = g a x) ->
  forall z, fold_left f l z = fold_left g l z.
Proof.
  induction l as [|x l IH]; intros Hfg z; [reflexivity|]. simpl.
  rewrite (Hfg z x) by left. apply IH. intros a y Hy. apply Hfg. right. exact Hy.
Qed.

Lemma only_caches_size (ar ar' : arena) : only_caches ar ar' -> size ar' = size ar.
Proof.
  intros Hc. unfold only_caches in Hc.
  rewrite <- (map_size_fmap forget_cache ar'), Hc. apply map_size_fmap.
Qed.

Lemma count_only_caches fuel : forall (ar ar' : arena) p,
  only_caches ar ar' -> count fuel ar' p = count fuel ar p.
Proof.
  induction fuel as [|n IH]; intros ar ar' p Hc; [reflexivity|]. simpl.
  destruct (ar' !! p) as [fo'|] eqn:Hp'.
  - destruct (only_caches_lookup _ _ _ _ Hc Hp') as (fo & Hfo & E).
    rewrite Hfo, E. unfold GetFolders. cbn [Folder.Folders Folder.fileCount Folder.set_fileCountCache].
    apply fold_left_ext_in. intros a x _. rewrite (IH ar ar' x Hc). reflexivity.
  - destruct (ar !! p) as [fo|] eqn:Hp; [|reflexivity].
    assert (Hs : is_Some (ar' !! p)) by (apply (only_caches_dom _ _ p Hc); eauto).
    destruct Hs as [x Hx]. congruence.
Qed.

Lemma total_only_caches (ar ar' : arena) p :
  only_caches ar ar' -> total ar' p = total ar p.
Proof.
  intros Hc. unfold total, chain_fuel. rewrite (only_caches_size _ _ Hc).
  apply count_only_caches. exact Hc.
Qed.

(** The folders visited on the way down are different folders of the
    arena. *)
Lemma visited_lt (ar : arena) (V : gset string) p :
  V ⊆ dom ar -> p ∉ V -> is_Some (ar !! p) -> (size V < size ar)%nat.
Proof.
  intros HV HpV Hp.
  assert (Hsub : V ∪ {[p]} ⊆ dom ar).
  { apply union_subseteq. split; [exact HV|].
    apply singleton_subseteq_l. apply elem_of_dom. exact Hp. }
  apply subseteq_size in Hsub. rewrite size_dom in Hsub.
  rewrite size_union in Hsub by (apply disjoint_singleton_r; exact HpV).
  rewrite size_singleton in Hsub. lia.
Qed.

Lemma child_cost (ar : arena) p fo q :
  arena_wf ar -> subfolders_wf ar -> ar !! p = Some fo -> q ∈ GetFolders fo ->
  is_Some (ar !! q) /\ (GetFolder_cost p < GetFolder_cost q)%nat.
Proof.
  intros Hwf Hsub Hp Hq. unfold GetFolders in Hq.
  apply list_elem_of_fmap in Hq. destruct Hq as ([n q'] & -> & Hin).
  apply elem_of_map_to_list in Hin. simpl.
  destruct (Hsub p fo n q' Hp Hin) as (fq & Hfq & HP & _).
  split; [eauto|].
  destruct (Hwf q' fq Hfq) as [_ H]. destruct (is_root q') eqn:Hroot.
  - destruct H as [H _]. congruence.
  - destruct H as (H & _). rewrite H in HP. apply (inj Some) in HP. subst p.
    apply Dir_cost. exact Hroot.
Qed.

Section Counting.
Variable ar0 : arena.
Hypothesis Hwf : arena_wf ar0.
Hypothesis Hsub : subfolders_wf ar0.

(** With enough fuel for the folders below [p], the count does not depend
    on the fuel. *)
Lemma count_indep : forall fuel fuel' (V : gset string) p,
  V ⊆ dom ar0 ->
  (forall v, v ∈ V -> (GetFolder_cost v < GetFolder_cost p)%nat) ->
  (size ar0 < size V + fuel)%nat -> (size ar0 < size V + fuel')%nat ->
  count fuel ar0 p = count fuel' ar0 p.
Proof.
  induction fuel as [|n IH]; intros fuel' V p HV Hcost Hs Hs'.
  - destruct (ar0 !! p) as [fo|] eqn:Hp.
    + assert (HpV : p ∉ V) by (intros Hin; specialize (Hcost p Hin); lia).
      pose proof (visited_lt ar0 V p HV HpV (mk_is_Some _ _ Hp)). lia.
    + destruct fuel'; simpl; [reflexivity|]. rewrite Hp. reflexivity.
  - destruct fuel' as [|n'].
    + destruct (ar0 !! p) as [fo|] eqn:Hp.
      * assert (HpV : p ∉ V) by (intros Hin; specialize (Hcost p Hin); lia).
        pose proof (visited_lt ar0 V p HV HpV (mk_is_Some _ _ Hp)). lia.
      * simpl. rewrite Hp. reflexivity.
    + simpl. destruct (ar0 !! p) as [fo|] eqn:Hp; [|reflexivity].
      assert (HpV : p ∉ V) by (intros Hin; specialize (Hcost p Hin); lia).
      apply fold_left_ext_in. intros a q Hq. f_equal.
      destruct (child_cost ar0 p fo q Hwf Hsub Hp Hq) as [_ Hc].
      apply (IH n' (V ∪ {[p]})).
      * apply union_subseteq. split; [exact HV|].
        apply singleton_subseteq_l. apply elem_of_dom. eauto.
      * intros v Hv. apply elem_of_union in Hv. destruct Hv as [Hv|Hv].
        -- specialize (Hcost v Hv). lia.
        -- apply elem_of_singleton in Hv. subst v. exact Hc.
      * rewrite size_union by (apply disjoint_singleton_r; exact HpV).
        rewrite size_singleton. lia.
      * rewrite size_union by (apply disjoint_singleton_r; exact HpV).
        rewrite size_singleton. lia.
Qed.

(** The count of a folder is its direct count plus the counts of its
    subfolders. *)
Lemma total_unfold p fo :
  ar0 !! p = Some fo ->
  total ar0 p =
    fold_left (fun (acc : Z) (child : string) => add64 acc (total ar0 child))
      (GetFolders fo) (Folder.fileCount fo).
Proof.
  intros Hp. unfold total at 1. unfold chain_fuel. simpl. rewrite Hp.
  apply fold_left_ext_in. intros a q Hq. f_equal.
  destruct (child_cost ar0 p fo q Hwf Hsub Hp Hq) as [_ Hc].
  unfold total, chain_fuel.
  apply (count_indep _ _ {[p]}).
  - apply singleton_subseteq_l. apply elem_of_dom. eauto.
  - intros v Hv. apply elem_of_singleton in Hv. subst v. exact Hc.
  - rewrite size_singleton. lia.
  - rewrite size_singleton. lia.
Qed.

Lemma total_missing p : ar0 !! p = None -> total ar0 p = 0%Z.
Proof. intros Hp. unfold total, chain_fuel. simpl. rewrite Hp. reflexivity. Qed.

(** [GetFileCount] returns the count, as an [int32], and leaves every
    cached count right; it returns the count itself when every count is an
    [int32]. *)
Lemma GetFileCount_total : forall fuel (ar : arena) (V : gset string) p,
  only_caches ar0 ar -> coherent_with ar0 ar ->
  V ⊆ dom ar0 ->
  (forall v, v ∈ V -> (GetFolder_cost v < GetFolder_cost p)%nat) ->
  (size ar0 < size V + fuel)%nat ->
  wrap 32 (GetFileCount fuel ar p).1 = wrap 32 (total ar0 p) /\
  only_caches ar0 (GetFileCount fuel ar p).2 /\
  coherent_with ar0 (GetFileCount fuel ar p).2 /\
  (fits ar0 -> (GetFileCount fuel ar p).1 = total ar0 p).
Proof.
  induction fuel as [|n IH]; intros ar V p Hc Hcoh HV Hcost Hs.
  - simpl.
    assert (H0 : total ar0 p = 0%Z).
    { destruct (ar0 !! p) as [fo|] eqn:Hp.
      - assert (HpV : p ∉ V) by (intros Hin; specialize (Hcost p Hin); lia).
        pose proof (visited_lt ar0 V p HV HpV (mk_is_Some _ _ Hp)). lia.
      - exact (total_missing p Hp). }
    rewrite H0. auto.
  - simpl. destruct (ar !! p) as [fo|] eqn:Hp.
    2: { simpl.
         assert (H0 : total ar0 p = 0%Z).
         { destruct (ar0 !! p) as [fo0|] eqn:Hp0.
           - assert (Hs' : is_Some (ar !! p)) by (apply (only_caches_dom _ _ p Hc); eauto).
             destruct Hs' as [x Hx]. congruence.
           - exact (total_missing p Hp0). }
         rewrite H0. auto. }
    destruct (only_caches_lookup _ _ _ _ Hc Hp) as (fo0 & Hp0 & E).
    destruct (Z.eqb_spec (Folder.fileCountCache fo) 0) as [Hz|Hnz]; cbn [negb].
    2: { cbn [fst snd]. rewrite (Hcoh p fo Hp Hnz).
         split; [apply wrap32_idem|]. split; [exact Hc|]. split; [exact Hcoh|].
         intros Hfit. apply wrap32_small. apply Hfit. }
    assert (HpV : p ∉ V) by (intros Hin; specialize (Hcost p Hin); lia).
    assert (HF : GetFolders fo = GetFolders fo0) by (rewrite E; reflexivity).
    assert (HC : Folder.fileCount fo = Folder.fileCount fo0) by (rewrite E; reflexivity).
    assert (Hfold : forall children (acc : Z * arena) z,
              (forall q, q ∈ children -> q ∈ GetFolders fo0) ->
              only_caches ar0 acc.2 -> coherent_with ar0 acc.2 ->
              wrap 32 acc.1 = wrap 32 z -> (fits ar0 -> acc.1 = z) ->
              let r := fold_left
                         (fun (acc : Z * arena) (child : string) =>
                            let '(n1, fs1) := GetFileCount n (snd acc) child in
                            (add64 (fst acc) n1, fs1))
                         children acc in
              wrap 32 r.1 =
                wrap 32 (fold_left (fun (a : Z) (child : string) =>
                                      add64 a (total ar0 child)) children z) /\
              only_caches ar0 r.2 /\ coherent_with ar0 r.2 /\
              (fits ar0 ->
               r.1 = fold_left (fun (a : Z) (child : string) =>
                                  add64 a (total ar0 child)) children z)).
    { induction children as [|q rest IHc]; intros acc z Hin Hac Hacoh Hacc Hex.
      - simpl. auto.
      - simpl.
        destruct (child_cost ar0 p fo0 q Hwf Hsub Hp0 (Hin q (list_elem_of_here _ _)))
          as [_ Hcq].
        destruct (IH acc.2 (V ∪ {[p]}) q Hac Hacoh) as (R1 & R2 & R3 & R4).
        + apply union_subseteq. split; [exact HV|].
          apply singleton_subseteq_l. apply elem_of_dom. eauto.
        + intros v Hv. apply elem_of_union in Hv. destruct Hv as [Hv|Hv].
          * specialize (Hcost v Hv). lia.
          * apply elem_of_singleton in Hv. subst v. exact Hcq.
        + rewrite size_union by (apply disjoint_singleton_r; exact HpV).
          rewrite size_singleton. lia.
        + destruct (GetFileCount n acc.2 q) as [n1 fs1]. cbn [fst snd] in R1, R2, R3, R4.
          apply (IHc (add64 acc.1 n1, fs1) (add64 z (total ar0 q))).
          * intros q' Hq'. apply Hin. right. exact Hq'.
          * exact R2.
          * exact R3.
          * cbn [fst]. apply wrap32_add64; assumption.
          * intros Hfit. cbn [fst]. rewrite (Hex Hfit), (R4 Hfit). reflexivity. }
    assert (Htot : total ar0 p =
              fold_left (fun (a : Z) (child : string) => add64 a (total ar0 child))
                (GetFolders fo) (Folder.fileCount fo0)).
    { rewrite HF. apply total_unfold. exact Hp0. }
    specialize (Hfold (GetFolders fo) (Folder.fileCount fo, ar) (Folder.fileCount fo0)).
    rewrite <- Htot in Hfold.
    assert (Hin : forall q, q ∈ GetFolders fo -> q ∈ GetFolders fo0).
    { intros q Hq. rewrite <- HF. exact Hq. }
    specialize (Hfold Hin Hc Hcoh).
    assert (Hacc : (Folder.fileCount fo, ar).1 = Folder.fileCount fo0).
    { cbn [fst]. exact HC. }
    specialize (Hfold (f_equal (wrap 32) Hacc) (fun _ => Hacc)). clear Hacc Hin Htot.
    destruct (fold_left _ (GetFolders fo) (Folder.fileCount fo, ar)) as [c folders1].
    cbn [fst snd] in Hfold |- *. destruct Hfold as (R1 & R2 & R3 & R4).
    split; [exact R1|].
    assert (Hp1 : is_Some (folders1 !! p)) by (apply (only_caches_dom _ _ p R2); eauto).
    destruct Hp1 as [fo1 Hp1]. rewrite Hp1. split; [|split; [|exact R4]].
    + eapply only_caches_trans; [exact R2|]. apply only_caches_set. exact Hp1.
    + intros q fq Hq Hnz. destruct (decide (p = q)) as [<-|Hne].
      * rewrite lookup_insert_eq in Hq. apply (inj Some) in Hq. subst fq.
        cbn [Folder.fileCountCache Folder.set_fileCountCache]. rewrite R1.
        reflexivity.
      * rewrite lookup_insert_ne in Hq by exact Hne. exact (R3 q fq Hq Hnz).
Qed.

End Counting.

(** ** The caches through [AddFile] and [RemoveFile] *)

Lemma above_step_up (ar : arena) p c fc q :
  above ar p c -> ar !! c = Some fc -> Folder.Parent fc = Some q -> above ar p q.
Proof.
  induction 1 as [p|p fo r c Hp HP _ IH]; intros Hc Hq.
  - apply (above_parent ar p fc q q Hc Hq). apply above_self.
  - apply (above_parent ar p fo r q Hp HP). exact (IH Hc Hq).
Qed.

Lemma above_mono (ar ar' : arena) p q :
  (forall x fo r, ar !! x = Some fo -> Folder.Parent fo = Some r ->
     exists fo', ar' !! x = Some fo' /\ Folder.Parent fo' = Some r) ->
  above ar p q -> above ar' p q.
Proof.
  intros Hpar. induction 1 as [p|p fo r q Hp HP _ IH]; [apply above_self|].
  destruct (Hpar p fo r Hp HP) as (fo' & Hp' & HP').
  exact (above_parent ar' p fo' r q Hp' HP' IH).
Qed.

(** [GetFolder] changes the arena only at the folder and above it. *)
Lemma GetFolder_fuel_off_chain : forall fuel (ar ar1 : arena) path,
  arena_wf ar -> GetFolder_fuel fuel ar path = Some ar1 ->
  forall q, ar1 !! q = ar !! q \/ above ar1 path q.
Proof.
  induction fuel as [|n IH]; intros ar ar1 path Hwf; [discriminate|].
  simpl. destruct (ar !! path) as [f|] eqn:Hl.
  - intros [= <-] q. left. reflexivity.
  - destruct (String.eqb path "." || String.eqb path "/") eqn:Hb.
    + intros [= <-] q. destruct (decide (path = q)) as [<-|Hne].
      * right. apply above_self.
      * left. apply lookup_insert_ne. exact Hne.
    + destruct (GetFolder_fuel n ar (filepath.Dir path)) as [ar1'|] eqn:E1; [|discriminate].
      destruct (ar1' !! filepath.Dir path) as [pf|] eqn:Hpf; [|discriminate].
      intros [= <-] q.
      destruct (GetFolder_fuel_wf _ _ _ _ Hwf E1) as (Hwf1 & _).
      set (parentPath := filepath.Dir path) in *.
      set (newFolder := Folder.mk (filepath.Base path) path (Some parentPath) ∅ ∅ 0 0).
      set (pf' := Folder.set_Folders (<[filepath.Base path := path]> (Folder.Folders pf)) pf).
      set (R := <[path := newFolder]> (<[parentPath := pf']> ar1')).
      assert (Hnew : R !! path = Some newFolder) by (unfold R; apply lookup_insert_eq).
      assert (Hup : forall x, above R parentPath x -> above R path x).
      { intros x Hx. exact (above_parent R path newFolder parentPath x Hnew eq_refl Hx). }
      assert (Hpar : forall x fo r, ar1' !! x = Some fo -> Folder.Parent fo = Some r ->
                exists fo', R !! x = Some fo' /\ Folder.Parent fo' = Some r).
      { intros x fo r Hx Hr. unfold R. destruct (decide (path = x)) as [<-|Hne1].
        - rewrite lookup_insert_eq. eexists. split; [reflexivity|]. simpl.
          destruct (Hwf1 path fo Hx) as [_ H]. unfold is_root in H. rewrite Hb in H.
          destruct H as (H & _). fold parentPath in H. congruence.
        - rewrite lookup_insert_ne by exact Hne1.
          destruct (decide (parentPath = x)) as [<-|Hne2].
          + rewrite lookup_insert_eq. eexists. split; [reflexivity|]. simpl.
            rewrite Hpf in Hx. apply (inj Some) in Hx. subst fo. exact Hr.
          + rewrite lookup_insert_ne by exact Hne2. eauto. }
      destruct (decide (path = q)) as [<-|Hne1]; [right; apply above_self|].
      destruct (decide (parentPath = q)) as [<-|Hne2];
        [right; apply Hup; apply above_self|].
      destruct (IH ar ar1' parentPath Hwf E1 q) as [Heq|Hab].
      * left. unfold R. rewrite lookup_insert_ne by exact Hne1.
        rewrite lookup_insert_ne by exact Hne2. exact Heq.
      * right. apply Hup. exact (above_mono ar1' R parentPath q Hpar Hab).
Qed.

Lemma invalidateCache_off_chain fuel : forall (ar : arena) p q,
  ~ above ar p q -> invalidateCache fuel ar p !! q = ar !! q.
Proof.
  induction fuel as [|n IH]; intros ar p q Hq; simpl; [reflexivity|].
  destruct (ar !! p) as [fo|] eqn:Hp; [|reflexivity].
  assert (Hne : p <> q) by (intros ->; apply Hq; apply above_self).
  destruct (Folder.Parent fo) as [r|] eqn:HP.
  - rewrite IH.
    + apply lookup_insert_ne. exact Hne.
    + intros Hab. apply Hq. apply (above_parent ar p fo r q Hp HP).
      eapply above_only_caches; [|exact Hab]. apply only_caches_set. exact Hp.
  - apply lookup_insert_ne. exact Hne.
Qed.

(** After an update of the folder [p], a folder that is not [p] or above
    it is what it was. *)
Lemma update_off_chain (ar ar1 ar' : arena) p fo fo_new q :
  arena_wf ar -> GetFolder ar p = Some ar1 -> ar1 !! p = Some fo ->
  forget_cache (Folder.set_fileCount 0 (Folder.set_files ∅ fo_new)) =
    forget_cache (Folder.set_fileCount 0 (Folder.set_files ∅ fo)) ->
  ar' = invalidateCache (chain_fuel (<[p := fo_new]> ar1)) (<[p := fo_new]> ar1) p ->
  ~ above ar' p q -> ar' !! q = ar !! q.
Proof.
  intros Hwf HG Hfo Hsh -> Hq.
  destruct (same_shape_fields _ _ Hsh) as (_ & E2 & _).
  assert (Hq2 : ~ above (<[p := fo_new]> ar1) p q).
  { intros Hab. apply Hq. eapply above_only_caches; [|exact Hab].
    apply only_caches_sym. apply invalidateCache_only_caches. }
  rewrite (invalidateCache_off_chain _ _ _ _ Hq2).
  assert (Hne : p <> q) by (intros ->; apply Hq2; apply above_self).
  rewrite lookup_insert_ne by exact Hne.
  destruct (GetFolder_fuel_off_chain _ _ _ _ Hwf HG q) as [Heq|Hab]; [exact Heq|].
  exfalso. apply Hq2. eapply above_mono; [|exact Hab].
  intros x fx r Hx Hr. destruct (decide (p = x)) as [<-|Hnx].
  - rewrite lookup_insert_eq. eexists. split; [reflexivity|].
    rewrite Hfo in Hx. apply (inj Some) in Hx. subst fx. congruence.
  - rewrite lookup_insert_ne by exact Hnx. eauto.
Qed.

(** The count of a folder that is not [p] or above it is what it was. *)
Lemma count_off_chain (ar ar' : arena) p :
  subfolders_wf ar' ->
  (forall q, ~ above ar' p q -> ar' !! q = ar !! q) ->
  forall fuel q, ~ above ar' p q -> count fuel ar' q = count fuel ar q.
Proof.
  intros Hsub Hoff. induction fuel as [|n IH]; intros q Hq; [reflexivity|].
  simpl. rewrite <- (Hoff q Hq).
  destruct (ar' !! q) as [fo|] eqn:Hfo; [|reflexivity].
  apply fold_left_ext_in. intros a c Hc. f_equal. apply IH.
  intros Hab. apply Hq.
  unfold GetFolders in Hc. apply list_elem_of_fmap in Hc.
  destruct Hc as ([nm c'] & -> & Hin). apply elem_of_map_to_list in Hin. simpl in *.
  destruct (Hsub q fo nm c' Hfo Hin) as (fc & Hfc & HP & _).
  exact (above_step_up ar' p c' fc q Hab Hfc HP).
Qed.

Lemma coherent_update (ar ar1 ar' : arena) p fo fo_new :
  arena_wf ar -> subfolders_wf ar -> coherent ar ->
  arena_wf ar' -> subfolders_wf ar' ->
  (forall q, is_Some (ar !! q) -> is_Some (ar' !! q)) ->
  GetFolder ar p = Some ar1 -> ar1 !! p = Some fo ->
  forget_cache (Folder.set_fileCount 0 (Folder.set_files ∅ fo_new)) =
    forget_cache (Folder.set_fileCount 0 (Folder.set_files ∅ fo)) ->
  ar' = invalidateCache (chain_fuel (<[p := fo_new]> ar1)) (<[p := fo_new]> ar1) p ->
  coherent ar'.
Proof.
  intros Hwf Hsub Hcoh Hwf' Hsub' Hdom HG Hfo Hsh Heq q fq Hq Hnz.
  assert (Hoff : ~ above ar' p q).
  { intros Hab.
    destruct (cleared_above ar ar1 ar' p fo fo_new q Hwf HG Hfo Hsh Heq Hab)
      as (fq' & Hq' & Hz).
    rewrite Hq in Hq'. apply (inj Some) in Hq'. subst fq'. contradiction. }
  pose proof (update_off_chain ar ar1 ar' p fo fo_new) as Hall.
  specialize (fun q => Hall q Hwf HG Hfo Hsh Heq).
  rewrite (Hall q Hoff) in Hq.
  rewrite (Hcoh q fq Hq Hnz). f_equal.
  unfold total.
  rewrite (count_off_chain ar ar' p Hsub' Hall _ q Hoff).
  assert (Hsize : (size ar <= size ar')%nat).
  { rewrite <- !size_dom. apply subseteq_size. intros x Hx.
    apply elem_of_dom. apply Hdom. apply elem_of_dom. exact Hx. }
  symmetry. apply (count_indep ar Hwf Hsub _ _ ∅).
  - apply empty_subseteq.
  - intros v Hv. apply elem_of_empty in Hv. destruct Hv.
  - rewrite size_empty. unfold chain_fuel. lia.
  - rewrite size_empty. unfold chain_fuel. lia.
Qed.

Lemma coherent_new : coherent (MemoryStorage.folders NewMemoryStorage).
Proof. intros p fo Hp. simpl in Hp. rewrite lookup_empty in Hp. discriminate. Qed.

Lemma coherent_add (s s' : MemoryStorage.t) (f : File.t) :
  reachable s -> coherent (MemoryStorage.folders s) ->
  AddNewFile s f = Ok s' -> coherent (MemoryStorage.folders s').
Proof.
  intros Hr Hcoh Hadd.
  pose proof (reachable_add s f s' Hr Hadd) as Hr'.
  destruct (reachable_wf s Hr) as (Har & _).
  destruct (reachable_wf s' Hr') as (Har' & _).
  destruct (reachable_tree s Hr) as [_ Hsub].
  destruct (reachable_tree s' Hr') as [_ Hsub'].
  destruct (AddNewFile_spec s s' f Hadd) as (_ & _ & (ar1 & fo & HG & Hfo & Hc) & _).
  destruct (folders_step _ _ _ _ _ _ Har HG Hfo Hc eq_refl eq_refl eq_refl)
    as (_ & _ & Hdom).
  unfold AddNewFile, new_File in Hadd. cbn zeta in Hadd.
  destruct (AddFile _ _) as [[s2 err]|] eqn:E; [|discriminate].
  cbn [mbind res_bind] in Hadd. apply res_Ok_inj in Hadd. subst s2.
  apply AddFile_folders with (file := f) in E;
    [|exact Har|cbn [MemoryStorage.objects MemoryStorage.set_objects];
                apply lookup_insert_eq].
  destruct E as (ar1' & fo' & fo_new & HG' & Hfo' & Hsh & Heq).
  exact (coherent_update _ ar1' _ _ fo' fo_new Har Hsub Hcoh Har' Hsub' Hdom
           HG' Hfo' Hsh Heq).
Qed.

Lemma coherent_remove (s s' : MemoryStorage.t) (a : addr) (err : option error) :
  reachable s -> coherent (MemoryStorage.folders s) ->
  RemoveFile s a = Ok (s', err) -> coherent (MemoryStorage.folders s').
Proof.
  intros Hr Hcoh Hrm.
  pose proof (reachable_remove s a s' err Hr Hrm) as Hr'.
  destruct (reachable_wf s Hr) as (Har & _).
  destruct (reachable_wf s' Hr') as (Har' & _).
  destruct (reachable_tree s Hr) as [_ Hsub].
  destruct (reachable_tree s' Hr') as [_ Hsub'].
  destruct (RemoveFile_spec s s' a err Hrm) as (file & Ho & Hspec).
  cbn zeta in Hspec. destruct Hspec as (_ & (ar1 & fo & HG & Hfo & Hc) & _).
  destruct (folders_step _ _ _ _ _ _ Har HG Hfo Hc eq_refl eq_refl eq_refl)
    as (_ & _ & Hdom).
  destruct (RemoveFile_folders s s' a file err Har Ho Hrm)
    as (ar1' & fo' & fo_new & HG' & Hfo' & Hsh & Heq).
  exact (coherent_update _ ar1' _ _ fo' fo_new Har Hsub Hcoh Har' Hsub' Hdom
           HG' Hfo' Hsh Heq).
Qed.

Lemma coherent_with_self (ar0 ar : arena) :
  only_caches ar0 ar -> coherent_with ar0 ar -> coherent ar.
Proof.
  intros Hc Hcoh p fo Hp Hnz. rewrite (Hcoh p fo Hp Hnz).
  rewrite (total_only_caches _ _ p Hc). reflexivity.
Qed.

Lemma reachable_coherent (s : MemoryStorage.t) :
  reachable s -> coherent (MemoryStorage.folders s).
Proof.
  induction 1 as [|s f s' Hr IH Hadd|s a s' err Hr IH Hrm|s p Hr IH].
  - exact coherent_new.
  - exact (coherent_add s s' f Hr IH Hadd).
  - exact (coherent_remove s s' a err Hr IH Hrm).
  - destruct (reachable_wf s Hr) as (Har & _).
    destruct (reachable_tree s Hr) as [_ Hsub].
    destruct (GetFileCount_total (MemoryStorage.folders s) Har Hsub
                (chain_fuel (MemoryStorage.folders s)) (MemoryStorage.folders s) ∅ p
                (only_caches_refl _) IH) as (_ & R2 & R3 & _).
    + apply empty_subseteq.
    + intros v Hv. apply elem_of_empty in Hv. destruct Hv.
    + rewrite size_empty. unfold chain_fuel. lia.
    + exact (coherent_with_self _ _ R2 R3).
Qed.

(** X19.  The cache of [GetFileCount] is never stale.  On a storage built
    from [NewMemoryStorage] with [AddFile] on new File objects,
    [RemoveFile] and [GetFileCount], in any order: [GetFileCount] on a
    folder returns the count of the folder, which is its direct count
    ([fileCount]) plus the counts of the folders of [GetFolders], as an
    [int32] (that is, modulo 2^32), whatever is cached; every non-zero
    cached count is the count of its folder as an [int32]; and when every
    count of the storage is an [int32], [GetFileCount] returns the count
    itself. *)
Theorem GetFileCount_not_stale (s : MemoryStorage.t) (p : string) :
  reachable s ->
  let ar := MemoryStorage.folders s in
  wrap 32 (GetFileCount (chain_fuel ar) ar p).1 = wrap 32 (total ar p) /\
  (fits ar -> (GetFileCount (chain_fuel ar) ar p).1 = total ar p) /\
  (forall fo, ar !! p = Some fo ->
     total ar p =
       fold_left (fun (acc : Z) (child : string) => add64 acc (total ar child))
         (GetFolders fo) (Folder.fileCount fo)) /\
  (forall fo, ar !! p = Some fo -> Folder.fileCountCache fo <> 0%Z ->
     Folder.fileCountCache fo = wrap 32 (total ar p)).
Proof.
  intros Hr ar.
  destruct (reachable_wf s Hr) as (Har & _).
  destruct (reachable_tree s Hr) as [_ Hsub].
  pose proof (reachable_coherent s Hr) as Hcoh.
  destruct (GetFileCount_total ar Har Hsub (chain_fuel ar) ar ∅ p
              (only_caches_refl _) Hcoh) as (R1 & _ & _ & R4).
  - apply empty_subseteq.
  - intros v Hv. apply elem_of_empty in Hv. destruct Hv.
  - rewrite size_empty. unfold chain_fuel. lia.
  - split; [exact R1|]. split; [exact R4|]. split.
    + intros fo Hp. exact (total_unfold ar Har Hsub p fo Hp).
    + intros fo Hp Hnz. exact (Hcoh p fo Hp Hnz).
Qed.

Lemma GetFileCount_not_stale_witness :
  let s :=
    MemoryStorage.set_folders
      (GetFileCount (chain_fuel (MemoryStorage.folders Ex.storage_S2))
         (MemoryStorage.folders Ex.storage_S2) "p").2 Ex.storage_S2 in
  let ar := MemoryStorage.folders s in
  wrap 32 (GetFileCount (chain_fuel ar) ar "p").1 = wrap 32 (total ar "p") /\
  (fits ar -> (GetFileCount (chain_fuel ar) ar "p").1 = total ar "p") /\
  (forall fo, ar !! "p" = Some fo ->
     total ar "p" =
       fold_left (fun (acc : Z) (child : string) => add64 acc (total ar child))
         (GetFolders fo) (Folder.fileCount fo)) /\
  (forall fo, ar !! "p" = Some fo -> Folder.fileCountCache fo <> 0%Z ->
     Folder.fileCountCache fo = wrap 32 (total ar "p")).
Proof.
  intros s.
  apply (GetFileCount_not_stale s "p").
  apply reachable_count.
  exact (add_all_reachable files_S2 NewMemoryStorage Ex.storage_S2
           reachable_new storage_S2_built).
Defined.

(** In the tree of scenario S2, after [GetFileCount] on [p] has filled the
    caches, the cached count of [p] is 2 and [GetFileCount] returns it. *)
Example GetFileCount_cached_S2 :
  let ar := (GetFileCount (chain_fuel (MemoryStorage.folders Ex.storage_S2))
               (MemoryStorage.folders Ex.storage_S2) "p").2 in
  Folder.fileCountCache <$> ar !! "p" = Some 2%Z /\
  (GetFileCount (chain_fuel ar) ar "p").1 = 2%Z /\ total ar "p" = 2%Z.
Proof. vm_compute. repeat split; reflexivity. Qed.

(** ** The file counts of the similarity index *)

Section LoopInvariant.
Variable add : Z -> Z -> Z.
Variable objs : heap.
(** A property of the arena and the pair map that [getDuplicatedFolderPair]
    keeps, and that does not depend on the duplicate counts. *)
Variable I : arena * pairmap -> Prop.
Hypothesis I_pair : forall ar f1 f2 m,
  I (ar, m) ->
  I ((getDuplicatedFolderPair ar f1 f2 m).1.1.1, (getDuplicatedFolderPair ar f1 f2 m).1.1.2).
Hypothesis I_update : forall ar m r g,
  I (ar, m) ->
  (forall sd, FolderSimilarity.Folder (g sd) = FolderSimilarity.Folder sd /\
              FolderSimilarity.FileCount (g sd) = FolderSimilarity.FileCount sd) ->
  I (ar, fs_update m r g).

Lemma add_duplicate_inv ar m a name r :
  I (ar, m) -> I (ar, add_duplicate add a name r m).
Proof.
  intros HI. unfold add_duplicate.
  destruct (fs_get m r) as [sd|]; [|exact HI].
  destruct (FolderSimilarity.DuplicateFiles sd !! name); [exact HI|].
  apply I_update; [exact HI|]. intros sd'. split; reflexivity.
Qed.

Lemma match_pair_inv fi fj st st' :
  match_pair add objs fi fj st = Ok st' -> I st -> I st'.
Proof.
  unfold match_pair.
  destruct (objs !! fi) as [file_i|]; [|discriminate].
  destruct (objs !! fj) as [file_j|]; [|discriminate].
  cbn [mbind res_bind deref].
  destruct (File.Parent file_i) as [pi|]; [|discriminate].
  destruct (File.Parent file_j) as [pj|]; [|discriminate].
  cbn [mbind res_bind deref]. destruct st as [ar0 m0]. cbn [fst snd].
  pose proof (I_pair ar0 pi pj m0) as T.
  destruct (getDuplicatedFolderPair ar0 pi pj m0) as [[[ar m] f1] f2].
  cbn [fst snd] in T. intros Hres HI. apply res_Ok_inj in Hres. subst st'.
  apply add_duplicate_inv. apply add_duplicate_inv. exact (T HI).
Qed.

Lemma match_loop_j_inv fi rest : forall st st',
  match_loop_j add objs fi rest st = Ok st' -> I st -> I st'.
Proof.
  induction rest as [|fj rest IH]; intros st st'; simpl.
  - intros Hres. apply res_Ok_inj in Hres. subst st'. auto.
  - destruct (match_pair add objs fi fj st) as [st1|] eqn:E; [|discriminate].
    cbn [mbind res_bind]. intros Hr HI.
    exact (IH _ _ Hr (match_pair_inv _ _ _ _ E HI)).
Qed.

Lemma match_loop_i_inv files : forall st st',
  match_loop_i add objs files st = Ok st' -> I st -> I st'.
Proof.
  induction files as [|fi rest IH]; intros st st'; simpl.
  - intros Hres. apply res_Ok_inj in Hres. subst st'. auto.
  - destruct (match_loop_j add objs fi rest st) as [st1|] eqn:E; [|discriminate].
    cbn [mbind res_bind]. intros Hr HI.
    exact (IH _ _ Hr (match_loop_j_inv _ _ _ _ E HI)).
Qed.

Lemma match_groups_inv groups : forall st st',
  match_groups add objs groups st = Ok st' -> I st -> I st'.
Proof.
  induction groups as [|g rest IH]; intros st st'; simpl.
  - intros Hres. apply res_Ok_inj in Hres. subst st'. auto.
  - destruct (match_loop_i add objs (MatchedFileGroup.Files g) st) as [st1|] eqn:E;
      [|discriminate].
    cbn [mbind res_bind]. intros Hr HI.
    exact (IH _ _ Hr (match_loop_i_inv _ _ _ E HI)).
Qed.

Lemma propagate_pair_inv folder1 folder2 cur1 cur2 st st' :
  propagate_pair add folder1 folder2 cur1 cur2 st = Ok st' -> I st -> I st'.
Proof.
  unfold propagate_pair. destruct st as [ar0 m0]. cbn [fst snd].
  pose proof (I_pair ar0 cur1 cur2 m0) as T.
  destruct (getDuplicatedFolderPair ar0 cur1 cur2 m0) as [[[ar m] f1] f2].
  cbn [fst snd] in T. intros Hres HI. specialize (T HI).
  assert (Hstep : forall (m1 : pairmap) (f folder : fsref) (r : res pairmap),
            I (ar, m1) ->
            (if decide (f = folder) then Ok m1
             else sd ← deref (fs_get m1 folder);
                  Ok (fs_update m1 f
                        (add_count add (FolderSimilarity.DuplicateFileCount sd)))) = r ->
            forall m2, r = Ok m2 -> I (ar, m2)).
  { intros m1 f folder r H1 <- m2. destruct (decide (f = folder)) as [_|_].
    - intros E. apply res_Ok_inj in E. subst m2. exact H1.
    - destruct (fs_get m1 folder) as [sd|]; [|discriminate].
      cbn [mbind res_bind deref]. intros E. apply res_Ok_inj in E. subst m2.
      apply I_update; [exact H1|]. intros sd'. split; reflexivity. }
  destruct (if decide (f1 = folder1) then _ else _) as [m1|] eqn:E1; [|discriminate].
  cbn [mbind res_bind] in Hres.
  destruct (if decide (f2 = folder2) then _ else _) as [m2|] eqn:E2; [|discriminate].
  cbn [mbind res_bind] in Hres. apply res_Ok_inj in Hres. subst st'.
  pose proof (Hstep m f1 folder1 _ T eq_refl m1 E1) as H1.
  exact (Hstep m1 f2 folder2 _ H1 eq_refl m2 E2).
Qed.

Lemma propagate_loop2_inv fuel cp folder1 folder2 cur1 : forall cur2 st st',
  propagate_loop2 add fuel cp folder1 folder2 cur1 cur2 st = Ok st' -> I st -> I st'.
Proof.
  induction fuel as [|n IH]; intros cur2 st st'; [discriminate|].
  rewrite propagate_loop2_S.
  destruct cur2 as [c2|]; [|discriminate]. cbn [mbind res_bind deref].
  destruct (String.eqb c2 cp);
    [intros Hres; apply res_Ok_inj in Hres; subst st'; auto|].
  destruct (propagate_pair add folder1 folder2 cur1 c2 st) as [st1|] eqn:E; [|discriminate].
  cbn [mbind res_bind].
  destruct (fst st1 !! c2) as [fo2|]; [|discriminate].
  cbn [mbind res_bind deref]. intros Hr HI.
  exact (IH _ _ _ Hr (propagate_pair_inv _ _ _ _ _ _ E HI)).
Qed.

Lemma propagate_loop1_inv fuel cp folder1 folder2 start2 : forall cur1 st st',
  propagate_loop1 add fuel cp folder1 folder2 start2 cur1 st = Ok st' -> I st -> I st'.
Proof.
  induction fuel as [|n IH]; intros cur1 st st'; [discriminate|].
  rewrite propagate_loop1_S.
  destruct cur1 as [c1|]; [|discriminate]. cbn [mbind res_bind deref].
  destruct (String.eqb c1 cp);
    [intros Hres; apply res_Ok_inj in Hres; subst st'; auto|].
  destruct (propagate_loop2 add (chain_fuel (fst st)) cp folder1 folder2 c1
              (Some start2) st) as [st1|] eqn:E; [|discriminate].
  cbn [mbind res_bind].
  destruct (fst st1 !! c1) as [fo1|]; [|discriminate].
  cbn [mbind res_bind deref]. intros Hr HI.
  exact (IH _ _ _ Hr (propagate_loop2_inv _ _ _ _ _ _ _ _ E HI)).
Qed.

Lemma calculateParentFolderSimilarity_inv folder1 folder2 st st' :
  calculateParentFolderSimilarity add folder1 folder2 st = Ok st' -> I st -> I st'.
Proof.
  unfold calculateParentFolderSimilarity.
  case_decide; [intros Hres; apply res_Ok_inj in Hres; subst st'; auto|].
  destruct (fs_get (snd st) folder1) as [sd1|]; [|discriminate].
  destruct (fs_get (snd st) folder2) as [sd2|]; [|discriminate].
  cbn [mbind res_bind deref].
  destruct (fst st !! FolderSimilarity.Folder sd1) as [fo1|]; [|discriminate].
  destruct (fst st !! FolderSimilarity.Folder sd2) as [fo2|]; [|discriminate].
  cbn [mbind res_bind deref].
  case_decide; [intros Hres; apply res_Ok_inj in Hres; subst st'; auto|].
  apply propagate_loop1_inv.
Qed.

Lemma propagate_all_inv keys : forall st st',
  propagate_all add keys st = Ok st' -> I st -> I st'.
Proof.
  induction keys as [|k rest IH]; intros st st'; simpl.
  - intros Hres. apply res_Ok_inj in Hres. subst st'. auto.
  - destruct (calculateParentFolderSimilarity add (k, Side0) (k, Side1) st)
      as [st1|] eqn:E; [|discriminate].
    cbn [mbind res_bind]. intros Hr HI.
    exact (IH _ _ Hr (calculateParentFolderSimilarity_inv _ _ _ _ E HI)).
Qed.

End LoopInvariant.

Lemma fits_only_caches (ar ar' : arena) : only_caches ar ar' -> fits ar -> fits ar'.
Proof. intros Hc Hf p. rewrite (total_only_caches _ _ p Hc). apply Hf. Qed.

(** [GetFileCount] on a storage a program gets. *)
Lemma GetFileCount_reachable (s : MemoryStorage.t) (p : string) :
  reachable s ->
  wrap 32 (GetFileCount (chain_fuel (MemoryStorage.folders s)) (MemoryStorage.folders s) p).1
    = wrap 32 (total (MemoryStorage.folders s) p) /\
  (fits (MemoryStorage.folders s) ->
   (GetFileCount (chain_fuel (MemoryStorage.folders s)) (MemoryStorage.folders s) p).1
     = total (MemoryStorage.folders s) p).
Proof.
  intros Hr.
  destruct (reachable_wf s Hr) as (Har & _).
  destruct (reachable_tree s Hr) as [_ Hsub].
  pose proof (reachable_coherent s Hr) as Hcoh.
  destruct (GetFileCount_total (MemoryStorage.folders s) Har Hsub
              (chain_fuel (MemoryStorage.folders s)) (MemoryStorage.folders s) ∅ p
              (only_caches_refl _) Hcoh) as (R1 & _ & _ & R4).
  - apply empty_subseteq.
  - intros v Hv. apply elem_of_empty in Hv. destruct Hv.
  - rewrite size_empty. unfold chain_fuel. lia.
  - split; [exact R1|exact R4].
Qed.

Section FileCounts.
Variable s0 : MemoryStorage.t.

Lemma side_counted_count (ar : arena) (p : string) :
  reachable (MemoryStorage.set_folders ar s0) ->
  only_caches (MemoryStorage.folders s0) ar ->
  side_counted (MemoryStorage.folders s0)
    (FolderSimilarity.mk p (GetFileCount (chain_fuel ar) ar p).1 0 ∅).
Proof.
  intros Hr Hc.
  destruct (GetFileCount_reachable _ p Hr) as [R1 R4].
  cbn [MemoryStorage.folders MemoryStorage.set_folders] in R1, R4.
  unfold side_counted. cbn [FolderSimilarity.FileCount FolderSimilarity.Folder].
  rewrite <- (total_only_caches _ _ p Hc). split; [exact R1|].
  intros Hf. apply R4. exact (fits_only_caches _ _ Hc Hf).
Qed.

Lemma counted_state_pair ar f1 f2 m :
  counted_state s0 (ar, m) ->
  counted_state s0 ((getDuplicatedFolderPair ar f1 f2 m).1.1.1,
                    (getDuplicatedFolderPair ar f1 f2 m).1.1.2).
Proof.
  intros (Hr & Hc & Hp). cbn [fst snd] in Hr, Hc, Hp.
  unfold getDuplicatedFolderPair.
  destruct (m !! folderPairKey f1 f2) as [p|] eqn:Hk.
  - destruct (String.eqb _ _); cbn [fst snd]; (split; [exact Hr|split; [exact Hc|exact Hp]]).
  - pose proof (reachable_count _ f1 Hr) as Hr1.
    pose proof (GetFileCount_only_caches (chain_fuel ar) ar f1) as Hc1.
    pose proof (side_counted_count ar f1 Hr Hc) as S1.
    cbn [MemoryStorage.folders MemoryStorage.set_folders] in Hr1.
    destruct (GetFileCount (chain_fuel ar) ar f1) as [c1 ar1].
    cbn [fst snd] in Hr1, Hc1, S1.
    assert (Hc01 : only_caches (MemoryStorage.folders s0) ar1)
      by (eapply only_caches_trans; eassumption).
    pose proof (reachable_count _ f2 Hr1) as Hr2.
    pose proof (GetFileCount_only_caches (chain_fuel ar1) ar1 f2) as Hc2.
    pose proof (side_counted_count ar1 f2 Hr1 Hc01) as S2.
    cbn [MemoryStorage.folders MemoryStorage.set_folders] in Hr2.
    destruct (GetFileCount (chain_fuel ar1) ar1 f2) as [c2 ar2].
    cbn [fst snd] in Hr2, Hc2, S2.
    assert (Hc02 : only_caches (MemoryStorage.folders s0) ar2)
      by (eapply only_caches_trans; eassumption).
    assert (G : counted_state s0
                  (ar2, <[folderPairKey f1 f2 :=
                            (FolderSimilarity.mk f1 c1 0 ∅, FolderSimilarity.mk f2 c2 0 ∅)]> m)).
    { split; [exact Hr2|]. split; [exact Hc02|]. cbn [snd].
      intros key p Hkp. destruct (decide (folderPairKey f1 f2 = key)) as [<-|Hne].
      - rewrite lookup_insert_eq in Hkp. apply (inj Some) in Hkp. subst p.
        split; assumption.
      - rewrite lookup_insert_ne in Hkp by exact Hne. exact (Hp key p Hkp). }
    cbn [fst snd FolderSimilarity.Folder]. destruct (String.eqb f1 f1); exact G.
Qed.

Lemma counted_state_update ar m r g :
  counted_state s0 (ar, m) ->
  (forall sd, FolderSimilarity.Folder (g sd) = FolderSimilarity.Folder sd /\
              FolderSimilarity.FileCount (g sd) = FolderSimilarity.FileCount sd) ->
  counted_state s0 (ar, fs_update m r g).
Proof.
  intros (Hr & Hc & Hp) Hg. split; [exact Hr|]. split; [exact Hc|].
  cbn [fst snd] in Hp |- *. intros key p Hkp. unfold fs_update in Hkp.
  assert (Hside : forall sd, side_counted (MemoryStorage.folders s0) sd ->
                    side_counted (MemoryStorage.folders s0) (g sd)).
  { intros sd Hsd. unfold side_counted. destruct (Hg sd) as [-> ->]. exact Hsd. }
  destruct (decide (fst r = key)) as [<-|Hne].
  - rewrite lookup_alter_eq in Hkp.
    destruct (m !! fst r) as [p0|] eqn:Hp0; [|discriminate].
    simpl in Hkp. apply (inj Some) in Hkp. subst p.
    destruct (Hp _ p0 Hp0) as [H1 H2].
    destruct (snd r); cbn [fst snd]; split; auto.
  - rewrite lookup_alter_ne in Hkp by exact Hne. exact (Hp key p Hkp).
Qed.

End FileCounts.

(** X20.  The [FileCount] of every side of the similarity index is the
    count of its folder, and [CalculateSimilarity] leaves the storage as a
    program can build it.  If the storage was built from
    [NewMemoryStorage] with [AddFile] on new File objects, [RemoveFile]
    and [GetFileCount], and [CalculateSimilarity] returns, then the storage
    it returns is such a storage too (its caches are right), and for every
    pair of the index and each of its two sides the [FileCount] is the
    count of the side's folder modulo 2^32, and is that count when every
    count of the storage is an [int32]. *)
Theorem FileCount_is_count (o : RangeOrder) (s st' : MemoryStorage.t)
    (c : SimilarityChecker.t) :
  reachable s -> CalculateSimilarity o s = Ok (st', c) ->
  reachable st' /\
  forall key p, SimilarityChecker.similarityFolderPairs c !! key = Some p ->
    side_counted (MemoryStorage.folders s) (fst p) /\
    side_counted (MemoryStorage.folders s) (snd p).
Proof.
  intros Hr. unfold CalculateSimilarity, CalculateSimilarity_with.
  destruct (match_groups add64 _ _ _) as [[ar1 folders]|] eqn:E1; [|discriminate].
  cbn [mbind res_bind].
  destruct (propagate_all add64 _ _) as [[ar2 parentFolders]|] eqn:E2; [|discriminate].
  cbn [mbind res_bind]. intros Hres. apply res_Ok_inj in Hres.
  apply pair_equal_spec in Hres. destruct Hres as [<- <-].
  assert (H0 : counted_state s (MemoryStorage.folders s, ∅)).
  { split; [|split; [apply only_caches_refl|]].
    - cbn [fst]. destruct s. exact Hr.
    - intros key p Hk. cbn [snd] in Hk. rewrite lookup_empty in Hk. discriminate. }
  pose proof (match_groups_inv add64 _ (counted_state s)
                (counted_state_pair s) (counted_state_update s) _ _ _ E1 H0) as H1.
  pose proof (propagate_all_inv add64 (counted_state s)
                (counted_state_pair s) (counted_state_update s) _ _ _ E2 H1) as H2.
  destruct H2 as (Hr2 & _ & Hp2). split; [exact Hr2|exact Hp2].
Qed.

Lemma FileCount_is_count_witness :
  match CalculateSimilarity order_default Ex.storage_S2 with
  | Ok (st', c) =>
      reachable st' /\
      forall key p, SimilarityChecker.similarityFolderPairs c !! key = Some p ->
        side_counted (MemoryStorage.folders Ex.storage_S2) (fst p) /\
        side_counted (MemoryStorage.folders Ex.storage_S2) (snd p)
  | Panic => False
  end.
Proof.
  destruct (CalculateSimilarity order_default Ex.storage_S2) as [[st' c]|] eqn:HC;
    [|vm_compute in HC; discriminate].
  apply (FileCount_is_count order_default Ex.storage_S2 st' c); [|exact HC].
  exact (add_all_reachable files_S2 NewMemoryStorage Ex.storage_S2
           reachable_new storage_S2_built).
Defined.

(** ** A task that fails *)

(** X21.  A task that fails leaves the Storage as it was.  On a storage
    built from [NewMemoryStorage] with [AddFile] on new File objects,
    [RemoveFile] and [GetFileCount], when [ExecuteFileActionTask] returns
    an error, whatever the task and the filesystem, the Storage has not
    changed: the filesystem is called first, and [RemoveFile] itself does
    not fail on such a storage. *)
Theorem failed_task_keeps_storage {FS : Type} `{FileSystem FS}
    (s s' : MemoryStorage.t) (fs fs' : FS) (task : FileActionTask.t) (err : error) :
  reachable s -> ExecuteFileActionTask s fs task = Ok (s', fs', Some err) -> s' = s.
Proof.
  intros Hr. pose proof (reachable_wf s Hr) as Hwf.
  unfold ExecuteFileActionTask.
  destruct (FileActionTask.Action task).
  - destruct (FileActionTask.TargetFolder task) as [target|]; [|discriminate].
    cbn [mbind res_bind deref].
    destruct (FileActionTask.File task) as [a|]; [|discriminate].
    cbn [mbind res_bind deref].
    destruct (MemoryStorage.objects s !! a) as [file|]; [|discriminate].
    cbn [mbind res_bind deref].
    destruct (root_Rename fs (File.Path file) _) as [fs1 [er0|]];
      [intros [= <- _ _]; reflexivity|].
    destruct (RemoveFile s a) as [[s1 e1]|] eqn:E1; [|discriminate].
    cbn [mbind res_bind].
    pose proof (proj2 (storage_wf_remove s s1 a e1 Hwf E1)) as ->.
    destruct (match root_Open fs _ with None => true | Some _ => false end);
      [discriminate|].
    destruct (AddNewFile s1 _) as [s2|]; [|discriminate].
    cbn [mbind res_bind]. discriminate.
  - destruct (FileActionTask.File task) as [a|]; [|discriminate].
    cbn [mbind res_bind deref].
    destruct (MemoryStorage.objects s !! a) as [file|]; [|discriminate].
    cbn [mbind res_bind deref].
    destruct (root_Remove fs (File.Path file)) as [fs1 [er0|]];
      [intros [= <- _ _]; reflexivity|].
    destruct (RemoveFile s a) as [[s1 e1]|] eqn:E1; [|discriminate].
    cbn [mbind res_bind].
    pose proof (proj2 (storage_wf_remove s s1 a e1 Hwf E1)) as ->.
    discriminate.
  - destruct (FileActionTask.Folder task) as [fpath|];
      [|intros [= <- _ _]; reflexivity].
    destruct (MemoryStorage.folders s !! fpath) as [folder|]; [|discriminate].
    cbn [mbind res_bind deref].
    destruct (FileActionTask.TargetFolder task) as [target|]; [|discriminate].
    cbn [mbind res_bind deref].
    destruct (root_Stat fs _); [|intros [= <- _ _]; reflexivity].
    destruct (root_Rename fs fpath _) as [fs1 er0]. intros [= <- _ _]. reflexivity.
  - destruct (FileActionTask.Folder task) as [fpath|];
      [|intros [= <- _ _]; reflexivity].
    destruct (root_Remove fs fpath) as [fs1 er0]. intros [= <- _ _]. reflexivity.
  - destruct (FileActionTask.Folder task) as [fpath|];
      [|intros [= <- _ _]; reflexivity].
    destruct (RemoveEmptyFolder fs fpath) as [fs1 er0]. intros [= <- _ _]. reflexivity.
Qed.

Lemma failed_task_keeps_storage_witness :
  match ExecuteFileActionTask Ex.storage_ay ExPartial.fs_empty ExPartial.task_Delete_0 with
  | Ok (s', _, Some _) => s' = Ex.storage_ay
  | _ => False
  end.
Proof.
  destruct (ExecuteFileActionTask Ex.storage_ay ExPartial.fs_empty ExPartial.task_Delete_0)
    as [[[s' fs'] [err|]]|] eqn:E;
    [|vm_compute in E; discriminate|vm_compute in E; discriminate].
  apply (failed_task_keeps_storage Ex.storage_ay s' ExPartial.fs_empty fs'
           ExPartial.task_Delete_0 err); [|exact E].
  exact (add_all_reachable ExRuns.files_ay NewMemoryStorage Ex.storage_ay
           reachable_new storage_ay_built).
Defined.

(** ** A scan that stops early *)

Section ScanPrefix.
Variable cancelled : nat -> bool.

(** What a call of the walk function adds: nothing on a directory or on
    an error of the walk. *)
Lemma walkFn_adds_nothing path d err s s' r :
  (err <> None \/ exists d0, d = Some d0 /\ node_IsDir d0 = true) ->
  walkFn cancelled path d err s = Ok (s', r) ->
  Scanner.Storage s' = Scanner.Storage s /\ (err <> None -> r <> None).
Proof.
  intros Hcase. unfold walkFn.
  destruct (cancelled (Scanner.calls s));
    [intros [= <- <-]; split; [reflexivity|discriminate]|].
  destruct err as [e|]; [intros [= <- <-]; split; [reflexivity|discriminate]|].
  destruct Hcase as [Hc|(d0 & -> & Hd)]; [congruence|].
  cbn [mbind res_bind deref]. rewrite Hd.
  intros [= <- <-]. split; [reflexivity|congruence].
Qed.

Lemma walkFn_file path name c s s' r :
  walkFn cancelled path (Some (FileNode name c)) None s = Ok (s', r) ->
  exists l rest,
    scanned_files path (FileNode name c) = (l ++ rest)%list /\
    add_all l (Scanner.Storage s) = Ok (Scanner.Storage s') /\
    (r = None -> rest = []).
Proof.
  unfold walkFn.
  destruct (cancelled (Scanner.calls s)).
  { intros [= <- <-]. exists [], (scanned_files path (FileNode name c)).
    split; [reflexivity|]. split; [reflexivity|discriminate]. }
  cbn [mbind res_bind deref node_IsDir node_Name].
  destruct name as [|ch nm]; [discriminate|].
  cbn [scanned_files GoString.starts_with_dot].
  destruct (Ascii.eqb ch ".") eqn:Hdot.
  { intros [= <- <-]. exists [], []. split; [destruct c; reflexivity|].
    split; [reflexivity|reflexivity]. }
  destruct c as [h sz mt|e|e|e];
    try (intros [= <- <-]; exists [], []; split; [reflexivity|];
         split; [reflexivity|reflexivity]).
  destruct (AddNewFile (Scanner.Storage (Scanner.tick s))
              (File.mk (String ch nm) path h sz None mt)) as [st|] eqn:E; [|discriminate].
  cbn [mbind res_bind]. intros [= <- <-].
  exists [File.mk (String ch nm) path h sz None mt], [].
  split; [reflexivity|]. split; [|reflexivity].
  simpl. change (Scanner.Storage (Scanner.tick s)) with (Scanner.Storage s) in E.
  rewrite E. cbn [mbind res_bind].
  unfold Scanner.add_log. destruct (Scanner.Logger _); reflexivity.
Qed.

(** Whenever the walk of a tree returns, it has added the first files of
    the tree, in the order of the walk, and all of them when it returns
    nil. *)
Lemma walkDir_prefix d : forall path s s' r,
  walkDir cancelled path d s = Ok (s', r) ->
  exists l rest,
    scanned_files path d = (l ++ rest)%list /\
    add_all l (Scanner.Storage s) = Ok (Scanner.Storage s') /\
    (r = None -> rest = []).
Proof.
  induction d as [name c|name entries IH|name e] using node_rect_list;
    intros path s s' r.
  - simpl walkDir.
    destruct (walkFn cancelled path (Some (FileNode name c)) None s)
      as [[s1 err]|] eqn:E; [|discriminate].
    cbn [mbind res_bind].
    destruct (walkFn_file _ _ _ _ _ _ E) as (l & rest & H1 & H2 & H3).
    destruct err; intros [= <- <-]; exists l, rest; auto.
  - rewrite walkDir_DirNode, scanned_files_DirNode.
    destruct (walkFn cancelled path (Some (DirNode name entries)) None s)
      as [[s1 err]|] eqn:E; [|discriminate].
    cbn [mbind res_bind].
    destruct (walkFn_adds_nothing _ _ _ _ _ _
                (or_intror (ex_intro _ (DirNode name entries) (conj eq_refl eq_refl))) E)
      as [Hst _].
    destruct err as [er|].
    { intros [= <- <-]. exists [], (concat (List.map
         (fun d1 => scanned_files (filepath.Join path (node_Name d1)) d1) entries)).
      split; [reflexivity|]. split; [simpl; rewrite Hst; reflexivity|discriminate]. }
    rewrite <- Hst. clear E Hst s. revert s1.
    induction entries as [|d1 rest IHl]; intros s1.
    + intros [= <- <-]. exists [], []. split; [reflexivity|].
      split; [reflexivity|reflexivity].
    + apply Forall_cons in IH as [IH1 IHrest].
      destruct (walkDir cancelled (filepath.Join path (node_Name d1)) d1 s1)
        as [[s2 err]|] eqn:E; [|discriminate].
      cbn [mbind res_bind].
      destruct (IH1 _ _ _ _ E) as (l1 & rest1 & H1 & H2 & H3).
      simpl. rewrite H1.
      destruct err as [er|].
      * intros [= <- <-]. exists l1.
        eexists. split; [rewrite <- app_assoc; reflexivity|].
        split; [exact H2|discriminate].
      * rewrite (H3 eq_refl), app_nil_r. intros Hrest.
        destruct (IHl IHrest s2 Hrest) as (l2 & rest2 & G1 & G2 & G3).
        exists (l1 ++ l2)%list, rest2.
        split; [rewrite G1, app_assoc; reflexivity|].
        split; [|exact G3].
        rewrite add_all_app, H2. cbn [mbind res_bind]. exact G2.
  - simpl walkDir.
    destruct (walkFn cancelled path (Some (UnreadableDir name e)) None s)
      as [[s1 err]|] eqn:E; [|discriminate].
    cbn [mbind res_bind].
    destruct (walkFn_adds_nothing _ _ _ _ _ _
                (or_intror (ex_intro _ (UnreadableDir name e) (conj eq_refl eq_refl))) E)
      as [Hst _].
    destruct err as [er|].
    + intros [= <- <-]. exists [], []. split; [reflexivity|].
      split; [simpl; rewrite Hst; reflexivity|reflexivity].
    + intros E2.
      destruct (walkFn_adds_nothing _ _ _ _ _ _
                  (or_introl (fun H : Some e = None => eq_ind (Some e)
                     (fun o => match o with Some _ => True | None => False end) I None H)) E2)
        as [Hst2 _].
      exists [], []. split; [reflexivity|].
      split; [simpl; rewrite Hst2, Hst; reflexivity|reflexivity].
Qed.

Lemma Scan_loop_prefix roots : forall s s' r,
  Scan_loop cancelled roots s = Ok (s', r) ->
  exists l rest,
    concat (List.map root_files roots) = (l ++ rest)%list /\
    add_all l (Scanner.Storage s) = Ok (Scanner.Storage s') /\
    (r = None -> rest = []).
Proof.
  induction roots as [|[path view] roots IH]; intros s s' r; simpl.
  - intros [= <- <-]. exists [], []. split; [reflexivity|].
    split; [reflexivity|reflexivity].
  - destruct view as [e|e|d].
    + intros [= <- <-]. exists [], (concat (List.map root_files roots)).
      split; [reflexivity|]. split; [reflexivity|discriminate].
    + unfold WalkDir.
      destruct (walkFn cancelled "." None (Some e) s) as [[s1 err]|] eqn:E;
        [|discriminate].
      cbn [mbind res_bind].
      destruct (walkFn_adds_nothing _ _ _ _ _ _
                  (or_introl (fun H : Some e = None => eq_ind (Some e)
                     (fun o => match o with Some _ => True | None => False end) I None H)) E)
        as [Hst Herr].
      destruct err as [er|]; [|exfalso; apply Herr; [discriminate|reflexivity]].
      intros [= <- <-]. exists [], (concat (List.map root_files roots)).
      split; [reflexivity|]. split; [simpl; rewrite Hst; reflexivity|discriminate].
    + unfold WalkDir.
      destruct (walkDir cancelled "." d s) as [[s1 err]|] eqn:E; [|discriminate].
      cbn [mbind res_bind].
      destruct (walkDir_prefix d _ _ _ _ E) as (l1 & rest1 & H1 & H2 & H3).
      unfold root_files at 1. cbn [snd]. rewrite H1.
      destruct err as [er|].
      * intros [= <- <-]. exists l1. eexists.
        split; [rewrite <- app_assoc; reflexivity|]. split; [exact H2|discriminate].
      * rewrite (H3 eq_refl), app_nil_r. intros Hrest.
        destruct (IH s1 s' r Hrest) as (l2 & rest2 & G1 & G2 & G3).
        exists (l1 ++ l2)%list, rest2.
        split; [rewrite G1, app_assoc; reflexivity|].
        split; [|exact G3].
        rewrite add_all_app, H2. cbn [mbind res_bind]. exact G2.
Qed.

End ScanPrefix.

(** X22.  A scan that stops early has added the first files of a complete
    scan.  Whenever [Scan] returns, with an error (of the filesystem, or a
    cancelled context) or with nil, what it has added to the storage is a
    prefix of the list of the files a complete scan of its roots adds
    (those whose own basename does not start with a dot, in the order of
    the walk, root after root), each added once with [AddFile]; it is the
    whole list when [Scan] returns nil. *)
Theorem Scan_adds_prefix (cancelled : nat -> bool) (s s' : Scanner.t) (r : option error) :
  Scan cancelled s = Ok (s', r) ->
  exists l rest,
    concat (List.map root_files (Scanner.Path s)) = (l ++ rest)%list /\
    add_all l (Scanner.Storage s) = Ok (Scanner.Storage s') /\
    (r = None -> rest = []).
Proof. unfold Scan. apply Scan_loop_prefix. Qed.

Lemma Scan_adds_prefix_witness :
  let s' :=
    match Scan ExRuns.cancelled_at_4 Ex.scanner_git with
    | Ok (s', _) => s'
    | Panic => Ex.scanner_git
    end in
  exists l rest,
    concat (List.map root_files (Scanner.Path Ex.scanner_git)) = (l ++ rest)%list /\
    add_all l (Scanner.Storage Ex.scanner_git) = Ok (Scanner.Storage s') /\
    (Some (ErrWrap "failed to walk directory ." ErrCanceled) = None -> rest = []).
Proof.
  intros s'.
  apply (Scan_adds_prefix ExRuns.cancelled_at_4 Ex.scanner_git s'
           (Some (ErrWrap "failed to walk directory ." ErrCanceled))).
  vm_compute. reflexivity.
Defined.

(** C6.  The error "folder is nil" is neither logged nor returned.  When
    the tasks before [task] have run, and [task] is a [MoveFolder],
    [DeleteFolder] or [DeleteEmptyFolder] task whose [Folder] is nil,
    [ExecuteFileActionTask] fails with the error "folder is nil", which is
    not the [NotEmptyFolder] sentinel, and changes nothing.  [Execute] then
    builds the message of the task with [task.String()] before it looks at
    the error, and [String] reads [f.Folder.Path] through the nil pointer:
    [Execute] panics.  It does not return, so the error is neither logged
    nor returned. *)
Theorem Execute_folder_nil_panics {FS : Type} `{FileSystem FS}
    (sched : Schedule) (e e_pre : Executor.t FS)
    (pre rest : list FileActionTask.t) (task : FileActionTask.t) :
  os_OpenRoot (Executor.root e) (Executor.rootPath e) = None ->
  Executor.tasks e = (pre ++ task :: rest)%list ->
  Execute_loop sched (Z.of_nat (length (Executor.tasks e))) 0 pre e = Ok (e_pre, None) ->
  sched_cancelled sched (length pre) = false ->
  FileActionTask.Action task = MoveFolder \/
  FileActionTask.Action task = DeleteFolder \/
  FileActionTask.Action task = DeleteEmptyFolder ->
  FileActionTask.Folder task = None ->
  ExecuteFileActionTask (Executor.storage e_pre) (Executor.root e_pre) task
    = Ok (Executor.storage e_pre, Executor.root e_pre, Some ErrFolderNil) /\
  IsNotEmptyFolder ErrFolderNil = false /\
  error_message ErrFolderNil = "folder is nil" /\
  FileActionTask_String (Executor.storage e_pre) task = Panic /\
  Execute sched e = Panic.
Proof.
  intros HO HT Hpre Hc Ha Hf.
  assert (HE : ExecuteFileActionTask (Executor.storage e_pre) (Executor.root e_pre) task
               = Ok (Executor.storage e_pre, Executor.root e_pre, Some ErrFolderNil)).
  { unfold ExecuteFileActionTask.
    destruct Ha as [Ha|[Ha|Ha]]; rewrite Ha, Hf; reflexivity. }
  assert (HS : FileActionTask_String (Executor.storage e_pre) task = Panic).
  { unfold FileActionTask_String.
    destruct Ha as [Ha|[Ha|Ha]]; rewrite Ha, Hf; reflexivity. }
  split; [exact HE|]. split; [reflexivity|]. split; [reflexivity|].
  split; [exact HS|].
  unfold Execute. rewrite HO, HT, Execute_loop_app.
  rewrite <- HT, Hpre. cbn [mbind res_bind].
  rewrite Execute_loop_cons. rewrite Nat.add_0_l, Hc.
  unfold run_task. rewrite HE. cbn [mbind res_bind]. rewrite HS. reflexivity.
Qed.

Lemma Execute_folder_nil_panics_witness :
  let e := ExNil.executor_nil in
  let e_pre :=
    match Execute_loop Ex.sched_idle 3 0 [Ex.task_DeleteEmptyFolder "b"] e with
    | Ok (e', _) => e'
    | Panic => e
    end in
  ExecuteFileActionTask (Executor.storage e_pre) (Executor.root e_pre) ExNil.task_nil
    = Ok (Executor.storage e_pre, Executor.root e_pre, Some ErrFolderNil) /\
  IsNotEmptyFolder ErrFolderNil = false /\
  error_message ErrFolderNil = "folder is nil" /\
  FileActionTask_String (Executor.storage e_pre) ExNil.task_nil = Panic /\
  Execute Ex.sched_idle e = Panic.
Proof.
  intros e e_pre.
  apply (Execute_folder_nil_panics Ex.sched_idle e e_pre [Ex.task_DeleteEmptyFolder "b"]
           [Ex.task_DeleteEmptyFolder "a"] ExNil.task_nil).
  - reflexivity.
  - reflexivity.
  - vm_compute. reflexivity.
  - reflexivity.
  - right. left. reflexivity.
  - reflexivity.
Defined.

(** The same run with the folder given: the second task fails in
    [root.Remove], and that error is logged and returned
    ([Execute_three_tasks]).  With the nil [Folder] nothing is returned. *)
Example Execute_nil_folder_run :
  Execute Ex.sched_idle ExNil.executor_nil = Panic /\
  Executor.tasks ExNil.executor_nil =
    [Ex.task_DeleteEmptyFolder "b";
     FileActionTask.mk DeleteFolder None None None "" false;
     Ex.task_DeleteEmptyFolder "a"] /\
  exists e',
    Execute Ex.sched_idle Ex.executor3 = Ok (e', Some (ErrOS "directory not empty")).
Proof. split; [vm_compute; reflexivity|]. split; [reflexivity|]. eexists. vm_compute. reflexivity. Qed.
